(* ===== verification/_CoqProject ===== *)
-Q . S2P
Prelude.v
Bytes.v
SwapTypes.v
Hex.v
Codec.v
F64.v
ParentRpc.v
Addresses.v
TxTypes.v
Accumulator.v
Externals.v
Ancestry.v
BlockTree.v
BlockTypes.v
SideTips.v
Rollback.v
Bundle.v
StateDb.v
SwapRules.v
Auth.v
Block.v
BlockConnect.v
BlockSpec.v
BlockProps.v
Ledger.v
Value.v
Commitment.v
Peg.v
Monitor.v
Archive.v
Proto.v
ProtoProps.v
Reconstruct.v
ArchiveWrites.v
ArchiveProps.v
Invalidate.v
Bmm.v
ArchiveIter.v
ArchiveIterProps.v
MainTask.v
MainTaskProps.v
MainFetch.v
PeerMsg.v
Net.v
BetterTip.v
PegProps.v
Expiry.v
SwapMachine.v
L1Props.v
L1Unique.v
SwapProps.v
Mempool.v
Peer.v
Wallet.v
WalletTx.v
WalletProps.v
WalletCoins.v
Node.v
NodeProps.v
NetTask.v
HeaderSync.v
NetProps.v
Submit.v
Template.v
TemplateProps.v
TemplateValid.v
App.v
AppTasks.v
Queries.v
Mining.v
AppSend.v
AppProps.v
AppSwaps.v
Toy.v
Scenarios.v
SwapScenarios.v
L1Scenarios.v
ChainScenarios.v
NetScenarios.v
AppScenarios.v
