(* ===== verification/Prelude.v ===== *)
(** Coinshift: a verification library.

    Coinshift is a sidechain node.  Its blocks are mined blind by the miners of a
    mainchain, its coins come from mainchain deposits and leave by withdrawal bundles,
    and its transactions can set up atomic swaps against coins of other chains.  This
    library models the node as Rocq functions and proves what makes it correct.
    Source paths are relative to the repository's src/ directory, e.g.
    lib/state/swap.rs.

    * The program and its model

    A transaction or a block enters through the network (lib/net), the miner
    (lib/miner.rs) or the RPC server (app/rpc_server.rs).  The net task
    (lib/node/net_task.rs) stores headers and bodies in the archive (lib/archive) and
    asks the mainchain task (lib/node/mainchain_task.rs) for the mainchain blocks that
    commit to them.  A better tip makes the node re-organise: it disconnects blocks from
    the state (lib/state) down to the common ancestor and connects the others, each with
    the events of the two-way peg and the payments seen on the parent chains
    (lib/state/two_way_peg_data.rs, lib/parent_chain_rpc.rs).  Transactions wait in the
    mempool (lib/mempool.rs), come from the wallet (lib/wallet) and go into blocks by
    the template (app/app.rs).

    ** Foundations
    - Prelude.v: results with errors and panics, integers at their widths, monads over
      lists, sums, lemmas on lists and maps, tactics and hint databases.
    - Bytes.v: byte strings, little-endian integers, the order of database keys, hashes.
    - Externals.v: what the program calls in other crates, as classes.
    - Toy.v: one executable instance of them all, for concrete runs.

    ** Data (lib/types)
    - SwapTypes.v, Hex.v, Codec.v (lib/types/swap.rs): swaps, their identifiers and
      states, L1 transaction ids, the encoding of a swap record written by hand.
    - TxTypes.v (lib/types/transaction.rs), BlockTypes.v, Bundle.v, Accumulator.v
      (lib/types/mod.rs), Addresses.v (lib/types/address.rs).

    ** State (lib/state)
    - StateDb.v (mod.rs): the databases and the operations on swaps, locks and indices.
    - Rollback.v (rollback.rs): histories of values by height.
    - SwapRules.v (swap.rs): what a swap transaction has to satisfy.
    - Auth.v (lib/authorization.rs): the verification of signatures in batches.
    - Block.v (block.rs): [prevalidate] and [validate]; BlockSpec.v: their declarative
      description; BlockProps.v: what it guarantees.
    - BlockConnect.v (block.rs): [connect_prevalidated], [connect], [disconnect_tip].
      Ledger.v, Value.v, Commitment.v: undoing, conservation of value, the commitment of
      the accumulator to the unspent outputs.
    - Peg.v, Monitor.v (two_way_peg_data.rs): deposits and withdrawal bundles, L1
      monitoring and expiry of swaps.  PegProps.v, Expiry.v: undoing.  SwapMachine.v:
      the life of a swap.  L1Props.v, L1Unique.v: swaps and payments.
    - F64.v, ParentRpc.v (lib/parent_chain_rpc.rs): the nodes of the parent chains.
    - Reconstruct.v (mod.rs, lib/node/mod.rs): rebuilding swaps from the archive.

    ** Archive (lib/archive)
    - Ancestry.v: exponential links, once for the two trees of blocks (sidechain and
      mainchain) over a record of reads; BlockTree.v: the invariant of a tree.
    - Archive.v, ArchiveWrites.v, SideTips.v, ArchiveIter.v, BetterTip.v: reads, writes,
      the tips as of the mainchain, iterators, the choice between two tips.
    - ArchiveProps.v, Invalidate.v, Bmm.v, ArchiveIterProps.v: their theorems.

    ** Node and network (lib/mempool.rs, lib/node, lib/net, lib/miner.rs)
    - Mempool.v; Node.v: connecting, disconnecting and re-organising over state, archive
      and mempool, and the node's offers to the application; NodeProps.v.
    - Proto.v (lib/types/proto.rs): the messages of the mainchain node and the clients of
      its services; ProtoProps.v: decoding.
    - MainTask.v, MainTaskProps.v: the mainchain task.  MainFetch.v: the task against an
      honest validator.
    - PeerMsg.v, Peer.v: messages, the request queue, a connection's task.
    - Net.v: known peers, seeds, connections.  NetTask.v, HeaderSync.v, NetProps.v: the
      node's task for its peers.
    - Submit.v: submitting a mined block, and the miner.

    ** Wallet and application (lib/wallet, app)
    - Wallet.v, WalletTx.v, WalletProps.v, WalletCoins.v: addresses, coins, the builders
      of transactions, signing.
    - Template.v, TemplateProps.v, TemplateValid.v: the block that a node proposes.
    - App.v, AppTasks.v: sending, the calls of the RPC server, the background tasks.
      Queries.v: the calls that only read.  Mining.v: mining over application, net task
      and miner, and the mainchain's wallet.
      AppSend.v, AppProps.v, AppSwaps.v: the calls succeed.

    ** Concrete runs
    - Scenarios.v, SwapScenarios.v, ChainScenarios.v, NetScenarios.v, L1Scenarios.v,
      AppScenarios.v: the theorems at inputs where their hypotheses are evaluated.
    - They also have runs in which the program does not do what its comments or its other
      half say.

    * Conventions

    Stateful code is a function from the state to the result and the new state.  A
    database is a finite map.  Where the caller drops the write transaction on an error,
    the operation returns [res]: the new state, or an error and no state.  Where writes
    are committed before an error the state is returned next to the result (wallet,
    application, net task, re-organisation).  [Panic] is a third result: a failed
    assertion or [expect] of the source.  Records and enumerations have the source's
    names and constructors, integers are [Z] with the source's checked, saturating or
    wrapping operations, strings are [string] or their UTF-8 bytes.

    Code of other crates is a parameter: [ExtTypes] and [ExtFuns] (hashes, encodings,
    the Utreexo forest, the Merkle tree, batches of signatures), [ExtWork] (work on the
    mainchain), [ExtConsensus] (bitcoin's encodings), [HashIter], [NetIter] (the order of hash maps), [ExtWallet] (keys,
    sorting), [BorshLib] (encodings of fields), [ExtText] (base58, SHA-256), [ExtPeer],
    [ExtNet] (messages as bytes, hosts, dialing), [ExtRpc] (the parent chains' client).
    What a theorem needs of them is a class of laws that state documented behaviour:
    [ForestLaws], [ProofLaws], [BatchLaws], [WalletLaws], [WorkLaws], [HashIterLaws],
    [TextLaws], [ConsensusLaws], [BorshLaws], [ExtRpcLaws]; Toy.v and the files of scenarios have an
    instance of each that a theorem with a witness uses.  What is asked over a
    connection, of the mainchain node, the parent chains' nodes or a peer, is an
    argument of the operation.

    ** Loops
    A loop that is not structural has fuel.  A loop over a queue or down a line of
    blocks in the archive gets one more than the size of the database that it walks
    ([side_fuel], [main_fuel], the number of transactions in the mempool), and running
    out is a result of its own; theorems of termination show that it does not happen
    ([Mempool.mp_delete_descendants], [Invalidate.invalidate_block_spec],
    [MainTaskProps.sync_side_tips_spec], [ArchiveProps.last_common_ancestor_spec],
    [ArchiveIterProps.missing_bodies_spec], [HeaderSync.honest_headers_stored]).  The loops of tasks over their mailboxes
    are folds over a list of items.

    * The theorems

    - Swaps: an escrow is spent by a claim that pays (BlockProps.v), reservations
      exclude each other, acceptance on every branch (SwapProps.v), the state machine
      (SwapMachine.v; the all-zero L1 transaction is an exception), expiry and its undoing (Expiry.v), movement on payments that a
      configured node reports (L1Props.v), one swap per payment (L1Unique.v).
    - Blocks: the two validators accept the blocks of one description (BlockSpec.v),
      value is conserved (Value.v), disconnecting undoes connecting (Ledger.v, PegProps.v)
      and succeeds (Commitment.v).  Blocks are taken to create new outpoints there
      ([Ledger.block_fresh]) and peg events to continue what earlier blocks recorded
      ([PegProps.events_ready]); the program checks neither, and Scenarios.v and
      PegProps.v show what happens otherwise.
    - Archive: trees stay well-formed, ancestors and common ancestors are right, verified
      blocks are committed to by the mainchain (Bmm.v), better tips are better.
    - Node: re-organising never leaves a worse tip (NodeProps.v), submitting a block
      (Submit.v), the side tips reach the mainchain's tip by way of the last common
      ancestor (MainTaskProps.v), whatever peers send the node's task goes on (without a
      panic, but for one unwrap) and only what was checked is stored (NetProps.v), what honest peers send is
      stored and does not get them banned (HeaderSync.v), and what an honest mainchain
      node serves is fetched and stored (MainFetch.v, ProtoProps.v).
    - Signatures: the chunks over a block's transactions accept what the transactions do
      one by one (Auth.v).
    - Mining: what comes of a call to mine, from the template to the tip (Mining.v);
      queries by height are answered for the current chain (Queries.v).
    - Wallet and application: the address book, the selection of coins, and that the calls
      succeed when they should: with the funds a payment, a swap, an acceptance or a
      claim is built, signed and accepted, unless a pending transaction spends one of the
      selected coins (AppProps.v, AppSwaps.v), and the proposed block is valid within
      the limits of a block (TemplateValid.v).
    - Swaps are rebuilt from the archive only while the inputs of their transactions are
      unspent (Reconstruct.v).
    - Data: round trips of swaps, deposit addresses, transaction ids, histories; amounts
      as floats are exact (F64.v).

    * What is simplified
    - A handler reads one snapshot of the databases, where the source may open several
      read transactions; the answers of a node in one round of calls are one snapshot.
    - Failures of the storage engine (I/O, a full map) are left out, but for a swap record
      that does not decode.
    - Logging, timers, metrics and progress bars are left out; a turn of a timed loop is
      an operation.
    - Cryptography is a parameter and no theorem assumes a hash to be injective, except
      where a hypothesis names the hashes that do not collide.

    * Not modelled
    - The graphical interface, the command line, the declaration of the RPC interface,
      the integration tests: no logic of the node.
    - The gRPC transport, and the generated code of its messages, which is not in the
      repository.  The QUIC transport (streams, TLS, congestion), the opening of the databases, the
      start-up of the threads.
    - The serde and utoipa forms of the HTTP interface.

    * Open questions
    - That a verified line of mainchain blocks is connected without a panic, that every
      block which a connection asks for is verified on the line of the tip that it
      belongs to (the net task relies on it: [NetProps.stray_block]), and that undoing a re-organisation's two-way-peg events keeps one swap per payment. *)
From Stdlib Require Export ZArith Lia.
From stdpp Require Export sorting base tactics gmap sets strings numbers list.

#[global] Open Scope Z_scope.
#[global] Set Default Goal Selector "!".

(** ** Outcomes of fallible code

    [Ok] and [Err] are the two sides of a Rust [Result].  [Panic] is a failed
    [assert!], [assert_eq!] or [expect]: it unwinds instead of returning, so no
    caller can handle it, and it is kept apart from the errors. *)
Inductive res (E A : Type) : Type :=
| Ok (a : A)
| Err (e : E)
| Panic.
Arguments Ok {E A} _.
Arguments Err {E A} _.
Arguments Panic {E A}.

#[export] Instance res_ret {E} : MRet (res E) := λ A a, Ok a.
#[export] Instance res_bind {E} : MBind (res E) := λ A B f m,
  match m with
  | Ok a => f a
  | Err e => Err e
  | Panic => Panic
  end.
#[export] Instance res_fmap {E} : FMap (res E) := λ A B f m,
  match m with
  | Ok a => Ok (f a)
  | Err e => Err e
  | Panic => Panic
  end.

(** [opt.ok_or(err)?] *)
Definition ok_or {E A} (o : option A) (e : E) : res E A :=
  match o with
  | Some a => Ok a
  | None => Err e
  end.

(** [if !b { return Err(e) }] *)
Definition ensure {E} (b : bool) (e : E) : res E () :=
  if b then Ok () else Err e.

(** [assert!(b)] *)
Definition assert_ {E} (b : bool) : res E () := if b then Ok () else Panic.

(** [opt.expect(..)] *)
Definition expect {E A} (o : option A) : res E A :=
  match o with
  | Some a => Ok a
  | None => Panic
  end.

Definition is_ok {E A} (m : res E A) : bool :=
  match m with
  | Ok _ => true
  | _ => false
  end.

(** [for x in l { acc = f(acc, x)?; }], and [try_fold]. *)
Fixpoint foldM {E S A} (f : S → A → res E S) (s : S) (l : list A) : res E S :=
  match l with
  | [] => Ok s
  | x :: l => s ← f s x; foldM f s l
  end.

(** [l.iter().map(f).collect::<Result<Vec<_>, _>>()] *)
Fixpoint mapM_res {E A B} (f : A → res E B) (l : list A) : res E (list B) :=
  match l with
  | [] => Ok []
  | x :: l => y ← f x; ys ← mapM_res f l; Ok (y :: ys)
  end.

Section res_lemmas.
Context {E : Type}.

Lemma bind_Ok_inv {A B} (m : res E A) (f : A → res E B) b :
  (m ≫= f) = Ok b → ∃ a, m = Ok a ∧ f a = Ok b.
Proof. destruct m; naive_solver. Qed.

Lemma bind_Ok {A B} (a : A) (f : A → res E B) : (Ok a ≫= f) = f a.
Proof. done. Qed.

Lemma expect_Some {A} (a : A) : @expect E A (Some a) = Ok a.
Proof. done. Qed.

Lemma ok_or_Ok {A} (o : option A) (e : E) a : ok_or o e = Ok a ↔ o = Some a.
Proof. destruct o; naive_solver. Qed.

Lemma ensure_Ok b (e : E) u : ensure b e = Ok u ↔ b = true.
Proof. destruct b, u; naive_solver. Qed.

Lemma assert_Ok b u : @assert_ E b = Ok u ↔ b = true.
Proof. destruct b, u; naive_solver. Qed.

Lemma expect_Ok {A} (o : option A) a : @expect E A o = Ok a ↔ o = Some a.
Proof. destruct o; naive_solver. Qed.

Lemma foldM_app {S A} (f : S → A → res E S) s l1 l2 :
  foldM f s (l1 ++ l2) = (s' ← foldM f s l1; foldM f s' l2).
Proof.
  revert s; induction l1 as [|x l1 IH]; intros s; [done|]; simpl.
  destruct (f s x); simpl; [apply IH|done|done].
Qed.

(** An invariant of the loop body is an invariant of the loop. *)
Lemma foldM_inv {S A} (P : S → Prop) (f : S → A → res E S) s l s' :
  P s →
  (∀ s x s', x ∈ l → P s → f s x = Ok s' → P s') →
  foldM f s l = Ok s' → P s'.
Proof.
  revert s; induction l as [|x l IH]; intros s HP Hstep Hf; simpl in Hf.
  - by simplify_eq.
  - apply bind_Ok_inv in Hf as (s1 & Hs1 & Hf).
    eapply IH; [| |exact Hf].
    + apply (Hstep s x); [set_solver|done|done].
    + intros s2 y s3 Hy. apply Hstep. set_solver.
Qed.

(** The loop succeeds when every body does, under an invariant. *)
Lemma foldM_total {S A} (P : S → list A → Prop) (f : S → A → res E S) s l :
  P s l →
  (∀ s x l, P s (x :: l) → ∃ s', f s x = Ok s' ∧ P s' l) →
  ∃ s', foldM f s l = Ok s' ∧ P s' [].
Proof.
  revert s; induction l as [|x l IH]; intros s HP Hstep; simpl; [by eauto|].
  destruct (Hstep s x l HP) as (s1 & -> & HP1). simpl. by apply IH.
Qed.

(** A loop whose body never fails is a left fold. *)
Lemma foldM_pure {S A} (g : S → A → S) s (l : list A) :
  foldM (λ s x, @Ok E S (g s x)) s l = Ok (fold_left g l s).
Proof. revert s; induction l; intros s; simpl; auto. Qed.

(** A loop of checks passes exactly when every check does. *)
Lemma foldM_unit {A} (f : A → res E ()) (l : list A) u :
  foldM (λ _ x, f x) u l = Ok () ↔ ∀ x, x ∈ l → f x = Ok ().
Proof.
  revert u; induction l as [|x l IH]; intros []; simpl; [set_solver|]. split.
  - intros H. apply bind_Ok_inv in H as ([] & Hx & H).
    intros y [->|Hy]%elem_of_cons; [done|]. by eapply IH.
  - intros H. rewrite (H x) by set_solver. simpl. apply IH. set_solver.
Qed.

Lemma foldM_ext {S A} (f g : S → A → res E S) s l :
  (∀ s x, x ∈ l → f s x = g s x) → foldM f s l = foldM g s l.
Proof.
  revert s; induction l as [|x l IH]; intros s Hfg; simpl; [done|].
  rewrite (Hfg s x) by set_solver.
  destruct (g s x); simpl; [|done..]. apply IH. set_solver.
Qed.

Lemma mapM_res_Forall2 {A B} (f : A → res E B) l k :
  mapM_res f l = Ok k ↔ Forall2 (λ x y, f x = Ok y) l k.
Proof.
  split.
  - revert k; induction l as [|x l IH]; intros k Hk; simpl in Hk.
    + simplify_eq. constructor.
    + apply bind_Ok_inv in Hk as (y & Hy & Hk).
      apply bind_Ok_inv in Hk as (ys & Hys & Hk).
      simplify_eq. constructor; auto.
  - induction 1 as [|x y l k Hxy _ IH]; simpl; [done|].
    by rewrite Hxy; simpl; rewrite IH.
Qed.

Lemma is_ok_true {A} (m : res E A) : is_ok m = true ↔ ∃ a, m = Ok a.
Proof. destruct m; simpl; split; try done; try (intros [? [=]]); eauto. Qed.
End res_lemmas.

Lemma fold_left_fmap {S A B} (f : S → B → S) (f' : S → A → S) (g : A → B) l s :
  (∀ s x, f s (g x) = f' s x) → fold_left f (g <$> l) s = fold_left f' l s.
Proof.
  intros Hf. revert s; induction l as [|x l IH]; intros s; [done|].
  csimpl. by rewrite Hf.
Qed.

(** What every step preserves, a left fold preserves. *)
Lemma fold_left_inv {S A} (P : S → Prop) (f : S → A → S) l s :
  (∀ s x, x ∈ l → P s → P (f s x)) → P s → P (fold_left f l s).
Proof.
  revert s; induction l as [|x l IH]; intros s Hf Hs; simpl; [done|].
  apply IH; [|by apply Hf; [left|]]. intros s' y Hy. apply Hf. by right.
Qed.

Lemma fold_left_proj {S A B} (π : S → B) (f : S → A → S) l s :
  (∀ s x, π (f s x) = π s) → π (fold_left f l s) = π s.
Proof.
  intros Hf. apply (fold_left_inv (λ t, π t = π s)); [|done].
  intros t x _ <-. apply Hf.
Qed.

(** A loop [g] over the reversed list undoes a loop [f], when each step of [g]
    undoes the corresponding step of [f]: [I] is what [f] needs of its state and
    of the elements left, [R] relates the states of the two loops. *)
Lemma foldM_undo {E S S' A B} (I : S → list A → Prop) (R : S → S' → Prop)
    (f : S → A → res E S) (g : S' → B → res E S') (h : A → B) s l s' t' :
  (∀ s x l s1 t1, I s (x :: l) → f s x = Ok s1 → R s1 t1 →
    ∃ t, g t1 (h x) = Ok t ∧ R s t) →
  (∀ s x l s1, I s (x :: l) → f s x = Ok s1 → I s1 l) →
  I s l → foldM f s l = Ok s' → R s' t' →
  ∃ t, foldM g t' (reverse (h <$> l)) = Ok t ∧ R s t.
Proof.
  intros Hundo Hpres. revert s; induction l as [|x l IH]; intros s HI Hf HR; csimpl in *.
  - simplify_eq. by exists t'.
  - apply bind_Ok_inv in Hf as (s1 & Hs1 & Hf).
    destruct (IH s1) as (t1 & Ht1 & HR1); [by eauto|done|done|].
    destruct (Hundo s x l s1 t1) as (t & Ht & HRt); [done..|].
    exists t. rewrite reverse_cons, foldM_app, Ht1. simpl. by rewrite Ht.
Qed.

(** [res_inv] takes a hypothesis [m = Ok r] apart into the equations of every
    step that led there. *)
Ltac res_inv_step :=
  match goal with
  | H : Ok _ = Ok _ |- _ => progress simplify_eq
  | u : () |- _ => destruct u
  | H : ?x = true |- _ => is_var x; subst x
  | H : bool_decide _ = true |- _ => apply bool_decide_eq_true_1 in H
  | H : negb _ = true |- _ => apply negb_true_iff in H
  | H : match ?p with (_, _) => _ end = Ok _ |- _ =>
      is_var p; let x := fresh "x" in let y := fresh "y" in destruct p as [x y]
  | H : Err _ = Ok _ |- _ => discriminate H
  | H : Panic = Ok _ |- _ => discriminate H
  | H : mret _ = Ok _ |- _ => change (mret ?x) with (Ok x) in H
  | H : mbind _ _ = Ok _ |- _ =>
      let a := fresh "a" in
      let Ha := fresh "Ha" in
      apply bind_Ok_inv in H as (a & Ha & H)
  | H : ok_or _ _ = Ok _ |- _ => apply ok_or_Ok in H
  | H : ensure _ _ = Ok _ |- _ => apply ensure_Ok in H
  | H : assert_ _ = Ok _ |- _ => apply assert_Ok in H
  | H : expect _ = Ok _ |- _ => apply expect_Ok in H
  end.
Ltac res_inv := repeat (res_inv_step; simpl in *).

(** ** Machine integers

    A [u32] or [u64] is a [Z] in range.  [+] and [-] wrap: the release profile
    of the workspace leaves overflow checks off. *)
Definition u32_MAX : Z := 2 ^ 32 - 1.
Definition u64_MAX : Z := 2 ^ 64 - 1.
Definition is_u32 (x : Z) : Prop := 0 ≤ x ≤ u32_MAX.
Definition is_u64 (x : Z) : Prop := 0 ≤ x ≤ u64_MAX.

Definition u32_add (x y : Z) : Z := (x + y) mod 2 ^ 32.
Definition u32_sub (x y : Z) : Z := (x - y) mod 2 ^ 32.
Definition u32_saturating_add (x y : Z) : Z := Z.min (x + y) u32_MAX.
Definition u32_checked_add (x y : Z) : option Z :=
  if x + y <=? u32_MAX then Some (x + y) else None.
Definition u32_try_from (x : Z) : option Z :=
  if x <=? u32_MAX then Some x else None.
Definition u64_checked_add (x y : Z) : option Z :=
  if x + y <=? u64_MAX then Some (x + y) else None.
Definition u64_checked_sub (x y : Z) : option Z :=
  if y <=? x then Some (x - y) else None.
Definition u64_checked_mul (x y : Z) : option Z :=
  if x * y <=? u64_MAX then Some (x * y) else None.

Lemma u32_add_small x y : 0 ≤ x + y ≤ u32_MAX → u32_add x y = x + y.
Proof. unfold u32_add, u32_MAX. intros. by rewrite Z.mod_small by lia. Qed.

Lemma u32_sub_small x y : 0 ≤ x - y ≤ u32_MAX → u32_sub x y = x - y.
Proof. unfold u32_sub, u32_MAX. intros. by rewrite Z.mod_small by lia. Qed.

Lemma u32_add_range x y : is_u32 (u32_add x y).
Proof.
  unfold is_u32, u32_add, u32_MAX.
  pose proof (Z.mod_pos_bound (x + y) (2 ^ 32)). lia.
Qed.

Lemma u64_checked_add_Some x y z :
  u64_checked_add x y = Some z ↔ z = x + y ∧ x + y ≤ u64_MAX.
Proof.
  unfold u64_checked_add. destruct (Z.leb_spec (x + y) u64_MAX); split.
  all: intros; destruct_and?; simplify_eq; try done; lia.
Qed.

Lemma u64_checked_sub_Some x y z :
  u64_checked_sub x y = Some z ↔ z = x - y ∧ y ≤ x.
Proof.
  unfold u64_checked_sub. destruct (Z.leb_spec y x); split.
  all: intros; destruct_and?; simplify_eq; try done; lia.
Qed.

Lemma u32_checked_add_Some x y z :
  u32_checked_add x y = Some z ↔ z = x + y ∧ x + y ≤ u32_MAX.
Proof.
  unfold u32_checked_add. destruct (Z.leb_spec (x + y) u32_MAX); split.
  all: intros; destruct_and?; simplify_eq; try done; lia.
Qed.

(** ** Sums of lists *)
Definition sumZ {A} (f : A → Z) (l : list A) : Z :=
  foldr (λ x acc, f x + acc) 0 l.

Lemma sumZ_app {A} (f : A → Z) l k : sumZ f (l ++ k) = sumZ f l + sumZ f k.
Proof. induction l as [|x l IH]; simpl; [done|]. rewrite IH. lia. Qed.

Lemma sumZ_Permutation {A} (f : A → Z) l k : l ≡ₚ k → sumZ f l = sumZ f k.
Proof. induction 1; simpl; lia. Qed.

Lemma sumZ_imap {A B} (f : B → Z) (f' : A → Z) (g : nat → A → B) l :
  (∀ i x, f (g i x) = f' x) → sumZ f (imap g l) = sumZ f' l.
Proof.
  intros Hf. revert g Hf; induction l as [|x l IH]; intros g Hf; simpl; [done|].
  by rewrite Hf, IH by (intros; apply Hf).
Qed.

Lemma sumZ_nonneg {A} (f : A → Z) l :
  (∀ x, x ∈ l → 0 ≤ f x) → 0 ≤ sumZ f l.
Proof.
  induction l as [|x l IH]; intros Hf; simpl; [done|].
  assert (0 ≤ f x) by (apply Hf; set_solver).
  assert (0 ≤ sumZ f l) by (apply IH; set_solver). lia.
Qed.

(** [l.iter().map(f).try_fold(Amount::ZERO, checked_add)] *)
Definition checked_sum {A} (f : A → Z) (l : list A) : option Z :=
  foldl (λ acc x, a ← acc; u64_checked_add a (f x)) (Some 0) l.

Lemma checked_sum_None {A} (f : A → Z) l :
  foldl (λ acc x, a ← acc; u64_checked_add a (f x)) None l = None.
Proof. by induction l. Qed.

Lemma checked_sum_from {A} (f : A → Z) l a z :
  foldl (λ acc x, a ← acc; u64_checked_add a (f x)) (Some a) l = Some z →
  z = a + sumZ f l.
Proof.
  revert a; induction l as [|x l IH]; intros a; simpl; [naive_solver lia|].
  destruct (u64_checked_add a (f x)) as [b|] eqn:Hb; simpl.
  - intros ->%IH. apply u64_checked_add_Some in Hb. lia.
  - by rewrite checked_sum_None.
Qed.

Lemma checked_sum_Some {A} (f : A → Z) l z :
  checked_sum f l = Some z → z = sumZ f l.
Proof. intros H%checked_sum_from. lia. Qed.

Lemma checked_sum_bound {A} (f : A → Z) l z :
  checked_sum f l = Some z → z ≤ u64_MAX.
Proof.
  unfold checked_sum. destruct l as [|x l] using rev_ind; simpl.
  - intros [= <-]. done.
  - rewrite foldl_app; simpl.
    destruct (foldl _ _ l) as [a|]; simpl; [|done].
    intros [-> ?]%u64_checked_add_Some. lia.
Qed.

Lemma checked_sum_small {A} (f : A → Z) l :
  (∀ x, x ∈ l → 0 ≤ f x) → sumZ f l ≤ u64_MAX →
  checked_sum f l = Some (sumZ f l).
Proof.
  intros Hpos Hle. unfold checked_sum.
  enough (∀ a, a + sumZ f l ≤ u64_MAX →
    foldl (λ acc x, a ← acc; u64_checked_add a (f x)) (Some a) l
    = Some (a + sumZ f l)) as H by (rewrite H; [f_equal|]; lia).
  clear Hle. induction l as [|x l IH]; intros a Ha; simpl in *; [f_equal; lia|].
  assert (0 ≤ sumZ f l) by (apply sumZ_nonneg; set_solver).
  assert (0 ≤ f x) by (apply Hpos; set_solver).
  unfold u64_checked_add. rewrite (proj2 (Z.leb_le _ _)) by lia.
  rewrite IH; [f_equal; lia|set_solver|lia].
Qed.

(** ** State that outlives errors

    A handler that changes state as it goes and may fail on the way: the state next to
    the result. *)
Definition handler (S E A : Type) : Type := S → S * res E A.

#[export] Instance handler_ret {S E} : MRet (handler S E) := λ A a s, (s, Ok a).
#[export] Instance handler_bind {S E} : MBind (handler S E) := λ A B f m s,
  match m s with
  | (s, Ok a) => f a s
  | (s, Err e) => (s, Err e)
  | (s, Panic) => (s, Panic)
  end.

Section handlers.
Context {S E : Type}.

Definition reads {A} (f : S → A) : handler S E A := λ s, (s, Ok (f s)).
Definition changes (f : S → S) : handler S E () := λ s, (f s, Ok ()).
Definition returns {A} (m : res E A) : handler S E A := λ s, (s, m).
Definition done_with {A} (a : A) : handler S E A := returns (Ok a).

(** [for x in l { f(x)?; }] *)
Fixpoint for_each {A} (f : A → handler S E ()) (l : list A) : handler S E () :=
  match l with
  | [] => done_with ()
  | x :: l => _ ← f x; for_each f l
  end.

(** What a handler does to the state, whatever its result. *)
Definition keeps (R : S → S → Prop) {A} (m : handler S E A) : Prop := ∀ s, R s (m s).1.

Context (R : S → S → Prop) `{!PreOrder R}.

Lemma keeps_reads {A} (f : S → A) : keeps R (reads f).
Proof. by intros s. Qed.
Lemma keeps_returns {A} (m : res E A) : keeps R (returns m).
Proof. by intros s. Qed.
Lemma keeps_done {A} (a : A) : keeps R (done_with a).
Proof. by intros s. Qed.
Lemma keeps_changes f : (∀ s, R s (f s)) → keeps R (changes f).
Proof. by intros H s. Qed.

Lemma keeps_bind {A B} (m : handler S E A) (f : A → handler S E B) :
  keeps R m → (∀ a, keeps R (f a)) → keeps R (m ≫= f).
Proof.
  intros Hm Hf s. specialize (Hm s). unfold mbind, handler_bind.
  destruct (m s) as [s' [a|e|]]; simpl in *; [|done..].
  etrans; [exact Hm|apply Hf].
Qed.

Lemma keeps_if {A} (b : bool) (m m' : handler S E A) :
  keeps R m → keeps R m' → keeps R (if b then m else m').
Proof. by destruct b. Qed.

Lemma keeps_for_each {A} (f : A → handler S E ()) l :
  (∀ x, keeps R (f x)) → keeps R (for_each f l).
Proof.
  intros Hf. induction l as [|x l IH]; simpl; [apply keeps_done|]. by apply keeps_bind.
Qed.
End handlers.

(** ** Automation shared by the components

    [keeping] holds the rules that take a handler apart, [bounds] what is known of
    machine integers. *)
Create HintDb keeping.
#[export] Hint Resolve keeps_reads keeps_returns keeps_done keeps_changes keeps_bind
  keeps_if keeps_for_each : keeping.
Create HintDb bounds.
#[export] Hint Resolve u32_add_range checked_sum_bound : bounds.
#[export] Hint Rewrite @bind_Ok @expect_Some : results.
