(* ===== verification/Bytes.v ===== *)
(** Bytes, fixed-width byte arrays ([[u8; N]]), little-endian integers, the
    byte-lexicographic order in which the database iterates its keys, and the hashes
    that name transactions and blocks (lib/types/hashes.rs): newtypes around
    [[u8; 32]], here notations for the array type.  BLAKE3 is a parameter. *)
From Stdlib Require Export Strings.Byte.
From S2P Require Import Prelude.

#[export] Instance byte_eq_dec : EqDecision byte := Byte.byte_eq_dec.
#[export] Instance byte_countable : Countable byte.
Proof. refine (inj_countable Byte.to_N Byte.of_N _). apply Byte.of_to_N. Defined.

(** ** [[u8; n]] *)
Definition array (n : nat) : Type := { l : list byte | length l = n }.

#[export] Instance array_eq_dec n : EqDecision (array n).
Proof. unfold array. apply _. Defined.
#[export] Instance array_countable n : Countable (array n).
Proof. unfold array. apply _. Defined.

Definition arr_bytes {n} (a : array n) : list byte := proj1_sig a.

(** [[b; n]] *)
Definition arr_repeat (n : nat) (b : byte) : array n :=
  exist _ (replicate n b) (length_replicate n b).

(** [arr.reverse()] *)
Definition arr_reverse {n} (a : array n) : array n :=
  exist _ (reverse (arr_bytes a))
    (eq_trans (length_reverse (arr_bytes a)) (proj2_sig a)).

(** [<[u8; n]>::try_from(slice)], or [copy_from_slice] into a zeroed array of
    the slice's length. *)
Definition arr_of_slice (n : nat) (l : list byte) : option (array n) :=
  match decide (length l = n) with
  | left H => Some (exist _ l H)
  | right _ => None
  end.

Lemma arr_ext {n} (a b : array n) : arr_bytes a = arr_bytes b → a = b.
Proof.
  destruct a as [l Hl], b as [k Hk]; simpl; intros ->.
  f_equal. apply proof_irrel.
Qed.

Lemma arr_length {n} (a : array n) : length (arr_bytes a) = n.
Proof. apply (proj2_sig a). Qed.

Lemma arr_reverse_involutive {n} (a : array n) : arr_reverse (arr_reverse a) = a.
Proof. apply arr_ext; simpl. apply reverse_involutive. Qed.

Lemma arr_of_slice_bytes {n} (a : array n) :
  arr_of_slice n (arr_bytes a) = Some a.
Proof.
  unfold arr_of_slice. case_decide as H; [|by destruct H; apply arr_length].
  f_equal. by apply arr_ext.
Qed.

Lemma arr_of_slice_Some n l (a : array n) :
  arr_of_slice n l = Some a → arr_bytes a = l.
Proof. unfold arr_of_slice. case_decide; naive_solver. Qed.

(** All-zero test, [v.iter().all(|&b| b == 0)]. *)
Definition all_zero (l : list byte) : bool :=
  forallb (λ b, bool_decide (b = x00)) l.

(** ** Little-endian integers, [to_le_bytes] *)
Definition byte_of_Z (z : Z) : byte :=
  default x00 (Byte.of_N (Z.to_N (z mod 256))).
Definition Z_of_byte (b : byte) : Z := Z.of_N (Byte.to_N b).

Fixpoint le_bytes (n : nat) (z : Z) : list byte :=
  match n with
  | O => []
  | S n => byte_of_Z z :: le_bytes n (z / 256)
  end.

Fixpoint le_value (l : list byte) : Z :=
  match l with
  | [] => 0
  | b :: l => Z_of_byte b + 256 * le_value l
  end.

Lemma Z_of_byte_of_Z z : Z_of_byte (byte_of_Z z) = z mod 256.
Proof.
  unfold Z_of_byte, byte_of_Z.
  pose proof (Z.mod_pos_bound z 256 ltac:(lia)) as Hz.
  destruct (Byte.of_N _) as [b|] eqn:Hb; simpl.
  - apply Byte.to_of_N in Hb. rewrite Hb. lia.
  - apply Byte.of_N_None_iff in Hb. lia.
Qed.

Lemma Z_of_byte_range b : 0 ≤ Z_of_byte b < 256.
Proof.
  unfold Z_of_byte. pose proof (Byte.to_N_bounded b). lia.
Qed.

Lemma length_le_bytes n z : length (le_bytes n z) = n.
Proof. revert z; induction n; intros; simpl; auto. Qed.

Lemma le_value_bytes n z :
  0 ≤ z < 256 ^ Z.of_nat n → le_value (le_bytes n z) = z.
Proof.
  revert z; induction n as [|n IH]; intros z Hz; simpl.
  - change (256 ^ Z.of_nat 0) with 1 in Hz. lia.
  - rewrite Z_of_byte_of_Z, IH.
    + pose proof (Z.div_mod z 256). lia.
    + rewrite Nat2Z.inj_succ, Z.pow_succ_r in Hz by lia.
      split; [apply Z.div_pos; lia|]. apply Z.div_lt_upper_bound; lia.
Qed.

Lemma le_bytes_inj n z w :
  0 ≤ z < 256 ^ Z.of_nat n → 0 ≤ w < 256 ^ Z.of_nat n →
  le_bytes n z = le_bytes n w → z = w.
Proof.
  intros Hz Hw Heq. rewrite <-(le_value_bytes n z), <-(le_value_bytes n w) by done.
  by rewrite Heq.
Qed.

(** ** The key order of the database

    Keys are compared byte by byte, a proper prefix first. *)
Fixpoint bytes_le (l k : list byte) : bool :=
  match l, k with
  | [], _ => true
  | _ :: _, [] => false
  | a :: l, b :: k =>
      if Z_of_byte a <? Z_of_byte b then true
      else if Z_of_byte b <? Z_of_byte a then false
      else bytes_le l k
  end.

Lemma bytes_le_total l k : bytes_le l k = true ∨ bytes_le k l = true.
Proof.
  revert k; induction l as [|a l IH]; intros [|b k]; simpl; auto.
  destruct (Z.ltb_spec (Z_of_byte a) (Z_of_byte b)); [auto|].
  destruct (Z.ltb_spec (Z_of_byte b) (Z_of_byte a)); auto.
Qed.

Lemma Z_of_byte_inj a b : Z_of_byte a = Z_of_byte b → a = b.
Proof.
  unfold Z_of_byte. intros H%N2Z.inj.
  pose proof (Byte.of_to_N a) as Ha. pose proof (Byte.of_to_N b) as Hb.
  rewrite H, Hb in Ha. by simplify_eq.
Qed.

Lemma bytes_le_trans l k m :
  bytes_le l k = true → bytes_le k m = true → bytes_le l m = true.
Proof.
  revert k m; induction l as [|a l IH]; intros [|b k] [|c m]; simpl; try done.
  destruct (Z.ltb_spec (Z_of_byte a) (Z_of_byte b)),
    (Z.ltb_spec (Z_of_byte b) (Z_of_byte a)),
    (Z.ltb_spec (Z_of_byte b) (Z_of_byte c)),
    (Z.ltb_spec (Z_of_byte c) (Z_of_byte b)),
    (Z.ltb_spec (Z_of_byte a) (Z_of_byte c)),
    (Z.ltb_spec (Z_of_byte c) (Z_of_byte a)); try done; try lia; eauto.
Qed.

Lemma bytes_le_antisymm l k :
  bytes_le l k = true → bytes_le k l = true → l = k.
Proof.
  revert k; induction l as [|a l IH]; intros [|b k]; simpl; try done.
  destruct (Z.ltb_spec (Z_of_byte a) (Z_of_byte b)),
    (Z.ltb_spec (Z_of_byte b) (Z_of_byte a)); try done; try lia.
  intros. f_equal; [|by apply IH]. apply Z_of_byte_inj. lia.
Qed.

(** The order as a relation on byte strings. *)
Definition bytes_leR : relation (list byte) := λ l k, bytes_le l k = true.
#[export] Instance bytes_leR_dec : RelDecision bytes_leR.
Proof. intros l k. unfold bytes_leR. apply _. Defined.
#[export] Instance bytes_leR_total : Total bytes_leR.
Proof. intros l k. apply bytes_le_total. Qed.
#[export] Instance bytes_leR_trans : Transitive bytes_leR.
Proof. intros l k m. apply bytes_le_trans. Qed.
#[export] Instance bytes_leR_antisymm : AntiSymm (=) bytes_leR.
Proof. intros l k. apply bytes_le_antisymm. Qed.

(** The entries of a map in the order of an encoding of its keys: the iteration
    order of an LMDB database ([key] the stored key) or of a [BTreeMap]. *)
Definition key_le {K V} (key : K → list byte) (p q : K * V) : Prop :=
  bytes_le (key p.1) (key q.1) = true.
#[export] Instance key_le_dec {K V} (key : K → list byte) (p q : K * V) :
  Decision (key_le key p q).
Proof. unfold key_le. apply _. Defined.

Definition entries_by {K V} `{Countable K} (key : K → list byte) (m : gmap K V) :
    list (K * V) :=
  merge_sort (key_le key) (map_to_list m).

Section entries.
Context {K V : Type} `{Countable K} (key : K → list byte).
Implicit Type m : gmap K V.

Lemma entries_by_Permutation m : entries_by key m ≡ₚ map_to_list m.
Proof. apply merge_sort_Permutation. Qed.

Lemma elem_of_entries_by m k v : (k, v) ∈ entries_by key m ↔ m !! k = Some v.
Proof. by rewrite entries_by_Permutation, elem_of_map_to_list. Qed.

Lemma NoDup_entries_by m : NoDup (entries_by key m).*1.
Proof. rewrite entries_by_Permutation. apply NoDup_fst_map_to_list. Qed.

Lemma entries_by_Sorted m : Sorted (key_le key) (entries_by key m).
Proof.
  apply Sorted_merge_sort. intros p q. apply bytes_le_total.
Qed.
End entries.


Abbreviation Hash := (array 32).
Abbreviation BlockHash := (array 32) (only parsing).
Abbreviation MerkleRoot := (array 32) (only parsing).
Abbreviation Txid := (array 32) (only parsing).
(** [bitcoin::BlockHash], [bitcoin::Txid] and [M6id], 32 bytes each. *)
Abbreviation BtcBlockHash := (array 32) (only parsing).
Abbreviation BtcTxid := (array 32) (only parsing).
Abbreviation M6id := (array 32) (only parsing).
Abbreviation SwapId := (array 32) (only parsing).

Abbreviation Address := (array 20) (only parsing).

(** [blake3::hash], the 32-byte digest of a byte string. *)
Class Blake3 := blake3 : list byte → Hash.

(** [Hash::default()] and [[0; 32]]. *)
Definition zero_hash : Hash := arr_repeat 32 x00.
