(* ===== verification/SwapTypes.v ===== *)
(** Swap data structures (lib/types/swap.rs): parent chains and their
    parameters, swap identifiers, the swap record, its states, and reservations
    of open swaps. *)
From S2P Require Import Prelude Bytes.

(** The slot of the sidechain (lib/types/mod.rs). *)
Definition THIS_SIDECHAIN : Z := 255.

(** ** Directions, parent chains, states *)
Inductive SwapDirection := L1ToL2 | L2ToL1.

Inductive ParentChainType := BTC | BCH | LTC | Signet | Regtest.

(** [WaitingConfirmations(current, required)] *)
Inductive SwapState :=
| Pending
| WaitingConfirmations (current required : Z)
| ReadyToClaim
| Completed
| Cancelled.

#[export] Instance SwapDirection_eq_dec : EqDecision SwapDirection.
Proof. solve_decision. Defined.
#[export] Instance ParentChainType_eq_dec : EqDecision ParentChainType.
Proof. solve_decision. Defined.
#[export] Instance SwapState_eq_dec : EqDecision SwapState.
Proof. solve_decision. Defined.

Definition chain_index (c : ParentChainType) : Z :=
  match c with BTC => 0 | BCH => 1 | LTC => 2 | Signet => 3 | Regtest => 4 end.
Definition chain_of_index (i : Z) : option ParentChainType :=
  match i with
  | 0 => Some BTC | 1 => Some BCH | 2 => Some LTC | 3 => Some Signet
  | 4 => Some Regtest | _ => None
  end.
#[export] Instance ParentChainType_countable : Countable ParentChainType.
Proof. refine (inj_countable chain_index chain_of_index _). by intros []. Defined.

Section ParentChain.
Implicit Type self : ParentChainType.

Definition default_confirmations self : Z :=
  match self with
  | BTC => 6
  | BCH | LTC | Signet | Regtest => 3
  end.

Definition default_swap_expiration_blocks self : Z :=
  match self with
  | BTC => 1008
  | BCH | LTC | Signet => 432
  | Regtest => 50
  end.

Definition accept_expiration_blocks self : Z :=
  match self with
  | BTC => 144
  | BCH | LTC => 72
  | Signet => 72
  | Regtest => 20
  end.

Definition max_l1_tx_age_blocks self : Z :=
  match self with
  | BTC => 2016
  | BCH => 2016
  | LTC => 8064
  | Signet => 2016
  | Regtest => 500
  end.

Definition default_rpc_port self : Z :=
  match self with
  | BTC => 8332
  | BCH => 8332
  | LTC => 9332
  | Signet => 38332
  | Regtest => 18443
  end.

Definition coin_name self : string :=
  match self with
  | BTC => "Bitcoin"
  | BCH => "Bitcoin Cash"
  | LTC => "Litecoin"
  | Signet => "Bitcoin Signet"
  | Regtest => "Bitcoin Regtest"
  end.

Definition sats_per_coin self : Z := 100000000.

Definition ticker self : string :=
  match self with
  | BTC => "BTC"
  | BCH => "BCH"
  | LTC => "LTC"
  | Signet => "sBTC"
  | Regtest => "rBTC"
  end.

Definition default_rpc_url_hint self : string :=
  match self with
  | BTC => "http://localhost:8332"
  | BCH => "http://localhost:8332"
  | LTC => "http://localhost:9332"
  | Signet => "http://localhost:38332"
  | Regtest => "http://localhost:18443"
  end.
End ParentChain.

(** [ParentChainType::all] *)
Definition all_parent_chains : list ParentChainType :=
  [BTC; BCH; LTC; Signet; Regtest].

(** [SwapState::current_confirmations] and [required_confirmations] *)
Definition state_current_confirmations (s : SwapState) : option Z :=
  match s with
  | WaitingConfirmations current _ => Some current
  | _ => None
  end.
Definition state_required_confirmations (s : SwapState) : option Z :=
  match s with
  | WaitingConfirmations _ required => Some required
  | _ => None
  end.

(** ** Swap identifiers *)
Definition str_bytes (s : string) : list byte := String.list_byte_of_string s.

(** The bytes hashed by [SwapId::from_l2_to_l1]. *)
Definition l2_to_l1_preimage (l1_recipient_address : string) (l1_amount : Z)
    (l2_sender_address : Address) (l2_recipient_address : option Address) :
    list byte :=
  str_bytes l1_recipient_address
  ++ le_bytes 8 l1_amount
  ++ arr_bytes l2_sender_address
  ++ match l2_recipient_address with
     | Some recipient => arr_bytes recipient
     | None => str_bytes "OPEN_SWAP"
     end.

Definition from_l2_to_l1 `{Blake3} (l1_recipient_address : string)
    (l1_amount : Z) (l2_sender_address : Address)
    (l2_recipient_address : option Address) : SwapId :=
  blake3 (l2_to_l1_preimage l1_recipient_address l1_amount l2_sender_address
            l2_recipient_address).

Definition from_l1_to_l2 `{Blake3} (l1_txid : BtcTxid)
    (l2_recipient_address : Address) : SwapId :=
  blake3 (arr_bytes l1_txid ++ arr_bytes l2_recipient_address).

(** ** L1 transaction ids *)
Inductive SwapTxId :=
| Hash32 (hash : array 32)
| HashVar (bytes : list byte).

#[export] Instance SwapTxId_eq_dec : EqDecision SwapTxId.
Proof. solve_decision. Defined.
#[export] Instance SwapTxId_countable : Countable SwapTxId.
Proof.
  refine (inj_countable'
    (λ t, match t with Hash32 h => inl h | HashVar b => inr b end)
    (λ s, match s with inl h => Hash32 h | inr b => HashVar b end) _).
  by intros [].
Defined.

Definition reversed_32 (bytes : array 32) : array 32 := arr_reverse bytes.

(** A [bitcoin::Txid] is its 32 bytes in internal (RPC) order. *)
Definition from_bitcoin_txid (txid : BtcTxid) : SwapTxId :=
  Hash32 (reversed_32 txid).

Definition from_bytes (bytes : list byte) : SwapTxId :=
  match arr_of_slice 32 bytes with
  | Some hash32 => Hash32 hash32
  | None => HashVar bytes
  end.

Definition to_bitcoin_txid (self : SwapTxId) : option BtcTxid :=
  match self with
  | Hash32 hash => Some (reversed_32 hash)
  | HashVar _ => None
  end.

(** The test [matches!(l1_txid, Hash32(h) if h == zero_hash32) ||
    matches!(l1_txid, Hash(v) if v.is_empty() || v.iter().all(|&b| b == 0))]
    that both the claim validation and the L1 query make. *)
Definition l1_txid_unset (t : SwapTxId) : bool :=
  match t with
  | Hash32 h => bool_decide (h = zero_hash)
  | HashVar v => bool_decide (v = []) || all_zero v
  end.

(** ** The swap record *)
Record Swap := mkSwap {
  swap_id : SwapId;
  direction : SwapDirection;
  parent_chain : ParentChainType;
  l1_txid : SwapTxId;
  required_confirmations : Z;
  state : SwapState;
  l2_recipient : option Address;
  l2_amount : Z;
  l1_recipient_address : string;
  l1_amount : Z;
  l1_claimer_address : option string;
  l2_claimer_address : option Address;
  created_at_height : Z;
  expires_at_height : option Z;
  l1_txid_validated_at_block_hash : option BlockHash;
  l1_txid_validated_at_height : option Z;
  l2_creator_address : option Address;
}.

#[export] Instance Swap_eq_dec : EqDecision Swap.
Proof. solve_decision. Defined.

(** [Swap::new] *)
Definition new_swap (id : SwapId) (direction : SwapDirection)
    (parent_chain : ParentChainType) (l1_txid : SwapTxId)
    (required_confirmations : option Z) (l2_recipient : option Address)
    (l2_amount : Z) (l1_recipient_address : string) (l1_amount : Z)
    (created_at_height : Z) (expires_at_height : option Z)
    (l2_creator_address : option Address) : Swap :=
  {| swap_id := id;
     direction := direction;
     parent_chain := parent_chain;
     l1_txid := l1_txid;
     required_confirmations :=
       default (default_confirmations parent_chain) required_confirmations;
     state := Pending;
     l2_recipient := l2_recipient;
     l2_amount := l2_amount;
     l1_recipient_address := l1_recipient_address;
     l1_amount := l1_amount;
     l1_claimer_address := None;
     l2_claimer_address := None;
     created_at_height := created_at_height;
     expires_at_height := expires_at_height;
     l1_txid_validated_at_block_hash := None;
     l1_txid_validated_at_height := None;
     l2_creator_address := l2_creator_address |}.

(** The plain assignment [swap.state = s]. *)
Definition with_state (s : SwapState) (swap : Swap) : Swap :=
  {| swap with state := s |}.

Definition mark_completed (swap : Swap) : Swap := with_state Completed swap.

Definition update_l1_txid (t : SwapTxId) (swap : Swap) : Swap :=
  {| swap with l1_txid := t |}.

Definition update_l1_transaction (t : SwapTxId) (l1_claimer : string)
    (swap : Swap) : Swap :=
  {| swap with l1_txid := t; l1_claimer_address := Some l1_claimer |}.

Definition set_l2_claimer_address (l2_address : Address) (swap : Swap) : Swap :=
  {| swap with l2_claimer_address := Some l2_address |}.

Definition set_l1_txid_validation_block (block_hash : BlockHash)
    (block_height : Z) (swap : Swap) : Swap :=
  {| swap with
     l1_txid_validated_at_block_hash := Some block_hash;
     l1_txid_validated_at_height := Some block_height |}.

(** ** Reservations of open swaps *)
Record SwapReservation := mkReservation {
  claimer : Address;
  accepted_at_height : Z;
}.

#[export] Instance SwapReservation_eq_dec : EqDecision SwapReservation.
Proof. solve_decision. Defined.

(** [SwapReservation::expires_at] *)
Definition reservation_expires_at (r : SwapReservation)
    (chain : ParentChainType) : Z :=
  u32_saturating_add (accepted_at_height r) (accept_expiration_blocks chain).

Definition is_live_at (r : SwapReservation) (chain : ParentChainType)
    (height : Z) : bool :=
  height <? reservation_expires_at r chain.

(** ** Properties *)

(** The window of a reservation is exactly [accept_expiration_blocks]. *)
Theorem reservation_window r chain height :
  is_u32 (accepted_at_height r) →
  accepted_at_height r + accept_expiration_blocks chain ≤ u32_MAX →
  is_live_at r chain height = true ↔
  height < accepted_at_height r + accept_expiration_blocks chain.
Proof.
  intros _ Hsmall. unfold is_live_at, reservation_expires_at, u32_saturating_add.
  rewrite Z.ltb_lt, Z.min_l; [done|lia].
Qed.

Lemma str_bytes_inj s t : str_bytes s = str_bytes t → s = t.
Proof.
  intros H. rewrite <-(String.string_of_list_byte_of_string s).
  rewrite <-(String.string_of_list_byte_of_string t). by f_equal.
Qed.

Lemma from_bytes_arr (h : array 32) : from_bytes (arr_bytes h) = Hash32 h.
Proof. unfold from_bytes. by rewrite arr_of_slice_bytes. Qed.
