(* ===== verification/Hex.v ===== *)
(** Hexadecimal L1 transaction ids (lib/types/swap.rs, [SwapTxId::from_hex] and
    its companions): the canonical order of explorers and the byte-reversed
    order of the RPC interface. *)
From S2P Require Import Prelude Bytes SwapTypes.

(** ** [hex::encode] and [hex::decode] *)
Definition hex_digit (n : Z) : byte :=
  if n <? 10 then byte_of_Z (48 + n) else byte_of_Z (87 + n).
Definition hex_value (b : byte) : option Z :=
  let z := Z_of_byte b in
  if (48 <=? z) && (z <=? 57) then Some (z - 48)
  else if (97 <=? z) && (z <=? 102) then Some (z - 87)
  else if (65 <=? z) && (z <=? 70) then Some (z - 55)
  else None.

Definition hex_encode (l : list byte) : list byte :=
  l ≫= λ b, [hex_digit (Z_of_byte b / 16); hex_digit (Z_of_byte b `mod` 16)].

(** [None] for an odd length or a character that is not a digit. *)
Fixpoint hex_decode (l : list byte) : option (list byte) :=
  match l with
  | [] => Some []
  | [_] => None
  | a :: b :: l =>
      x ← hex_value a; y ← hex_value b; r ← hex_decode l;
      Some (byte_of_Z (16 * x + y) :: r)
  end.

(** ** [str::trim]: the UTF-8 encodings of the [White_Space] characters *)
Definition white_space : list (list byte) :=
  [[x09]; [x0a]; [x0b]; [x0c]; [x0d]; [x20];
   [xc2; x85]; [xc2; xa0]; [xe1; x9a; x80];
   [xe2; x80; x80]; [xe2; x80; x81]; [xe2; x80; x82]; [xe2; x80; x83];
   [xe2; x80; x84]; [xe2; x80; x85]; [xe2; x80; x86]; [xe2; x80; x87];
   [xe2; x80; x88]; [xe2; x80; x89]; [xe2; x80; x8a];
   [xe2; x80; xa8]; [xe2; x80; xa9]; [xe2; x80; xaf]; [xe2; x81; x9f];
   [xe3; x80; x80]].

(** The rest of [l] after the first pattern of [ps] that starts it. *)
Fixpoint strip_one (ps : list (list byte)) (l : list byte) : option (list byte) :=
  match ps with
  | [] => None
  | p :: ps =>
      if bool_decide (take (length p) l = p) then Some (drop (length p) l)
      else strip_one ps l
  end.
Fixpoint strip_all (fuel : nat) (ps : list (list byte)) (l : list byte) : list byte :=
  match fuel with
  | O => l
  | S fuel =>
      match strip_one ps l with
      | Some l => strip_all fuel ps l
      | None => l
      end
  end.
Definition trim (l : list byte) : list byte :=
  let l := strip_all (length l) white_space l in
  reverse (strip_all (length l) (reverse <$> white_space) (reverse l)).

(** ** [SwapTxId] *)

(** The 32 bytes that both parsers decode. *)
Definition decode_txid (hex_str : list byte) : option (array 32) :=
  let s := trim hex_str in
  if (length s =? 64)%nat then
    bytes ← hex_decode s;
    arr_of_slice 32 bytes
  else None.

Definition from_hex (hex_str : string) : option SwapTxId :=
  h ← decode_txid (str_bytes hex_str); Some (from_bytes (arr_bytes h)).

Definition from_hex_rpc (hex_str : string) : option SwapTxId :=
  h ← decode_txid (str_bytes hex_str); Some (Hash32 (arr_reverse h)).

Definition to_hex (self : SwapTxId) : string :=
  String.string_of_list_byte
    match self with
    | Hash32 hash => hex_encode (arr_bytes hash)
    | HashVar bytes => hex_encode bytes
    end.

Definition to_hex_rpc (self : SwapTxId) : string :=
  String.string_of_list_byte
    match self with
    | Hash32 hash => hex_encode (arr_bytes (reversed_32 hash))
    | HashVar bytes =>
        if (length bytes =? 32)%nat then hex_encode (reverse bytes)
        else hex_encode bytes
    end.

(** ** Round trips *)
Lemma byte_of_Z_of_byte b : byte_of_Z (Z_of_byte b) = b.
Proof. by destruct b. Qed.

Lemma hex_value_digit n : 0 ≤ n < 16 → hex_value (hex_digit n) = Some n.
Proof.
  intros Hn.
  assert (n ∈ seqZ 0 16) as Hin by (apply elem_of_seqZ; lia).
  apply (proj1 (Forall_forall (λ n, hex_value (hex_digit n) = Some n) (seqZ 0 16)));
    [by repeat constructor|done].
Qed.

Lemma nibbles b :
  0 ≤ Z_of_byte b / 16 < 16 ∧ 0 ≤ Z_of_byte b `mod` 16 < 16.
Proof.
  pose proof (Z_of_byte_range b) as Hb.
  pose proof (Z.mod_pos_bound (Z_of_byte b) 16).
  split; [|lia]. split; [apply Z.div_pos; lia|apply Z.div_lt_upper_bound; lia].
Qed.

Lemma hex_decode_encode l : hex_decode (hex_encode l) = Some l.
Proof.
  induction l as [|b l IH]; [done|].
  destruct (nibbles b) as [Hhi Hlo].
  change (hex_encode (b :: l))
    with (hex_digit (Z_of_byte b / 16) :: hex_digit (Z_of_byte b `mod` 16) :: hex_encode l).
  cbn [hex_decode]. rewrite !hex_value_digit by done.
  simpl. rewrite IH. simpl. rewrite <-Z.div_mod by lia. by rewrite byte_of_Z_of_byte.
Qed.

Lemma hex_encode_length l : length (hex_encode l) = (2 * length l)%nat.
Proof.
  induction l as [|b l IH]; [done|].
  change (length (hex_encode (b :: l))) with (S (S (length (hex_encode l)))).
  rewrite IH. simpl. lia.
Qed.

(** A hexadecimal digit starts no white space, in either direction. *)
Definition is_hex_digit (b : byte) : bool := bool_decide (is_Some (hex_value b)).

Lemma hex_encode_digits l : Forall (λ b, is_hex_digit b = true) (hex_encode l).
Proof.
  induction l as [|b l IH]; [constructor|].
  destruct (nibbles b) as [Hhi Hlo]. unfold is_hex_digit.
  constructor; [|constructor; [|exact IH]]; apply bool_decide_eq_true;
    rewrite hex_value_digit by done; by eexists.
Qed.

Lemma strip_one_None ps l :
  (∀ p, p ∈ ps → ∃ b p', p = b :: p' ∧ is_hex_digit b = false) →
  Forall (λ b, is_hex_digit b = true) l → strip_one ps l = None.
Proof.
  intros Hps Hl. induction ps as [|p ps IH]; simpl; [done|].
  destruct (Hps p) as (b & p' & -> & Hb); [set_solver|].
  rewrite bool_decide_false; [apply IH; set_solver|].
  destruct l as [|a l]; simpl; [done|]. intros [= -> _].
  apply Forall_inv in Hl. congruence.
Qed.

Lemma strip_all_hex fuel ps l :
  (∀ p, p ∈ ps → ∃ b p', p = b :: p' ∧ is_hex_digit b = false) →
  Forall (λ b, is_hex_digit b = true) l → strip_all fuel ps l = l.
Proof. intros Hps Hl. destruct fuel; [done|]. simpl. by rewrite strip_one_None. Qed.

(** Every pattern starts with a byte that is not a hexadecimal digit. *)
Definition starts_no_digit (p : list byte) : bool :=
  match p with
  | [] => false
  | b :: _ => negb (is_hex_digit b)
  end.

Lemma starts_no_digit_spec ps :
  forallb starts_no_digit ps = true →
  ∀ p, p ∈ ps → ∃ b p', p = b :: p' ∧ is_hex_digit b = false.
Proof.
  intros Hps p Hp. rewrite forallb_forall in Hps.
  specialize (Hps p (proj1 (list_elem_of_In _ _) Hp)).
  destruct p as [|b p']; [done|]. apply negb_true_iff in Hps. eauto.
Qed.

Lemma trim_hex l : Forall (λ b, is_hex_digit b = true) l → trim l = l.
Proof.
  intros Hl. unfold trim.
  assert (strip_all (length l) white_space l = l) as ->.
  { apply strip_all_hex; [|done]. by apply starts_no_digit_spec. }
  cbv zeta. rewrite strip_all_hex; [apply reverse_involutive| |by apply Forall_reverse].
  apply starts_no_digit_spec. reflexivity.
Qed.

Lemma decode_txid_encode (h : array 32) :
  decode_txid (hex_encode (arr_bytes h)) = Some h.
Proof.
  unfold decode_txid. rewrite trim_hex by apply hex_encode_digits.
  rewrite hex_encode_length, arr_length. simpl.
  rewrite hex_decode_encode. simpl. apply arr_of_slice_bytes.
Qed.

Lemma str_bytes_of_bytes l : str_bytes (String.string_of_list_byte l) = l.
Proof. apply String.list_byte_of_string_of_list_byte. Qed.

(** A 32-byte id survives being printed and parsed in either order; parsing
    in one order what was printed in the other gives the reversed id; and a
    [bitcoin::Txid] is recovered from the id that was built from it. *)
Theorem txid_hex_roundtrip (h : array 32) (t : BtcTxid) :
  from_hex (to_hex (Hash32 h)) = Some (Hash32 h) ∧
  from_hex_rpc (to_hex_rpc (Hash32 h)) = Some (Hash32 h) ∧
  from_hex_rpc (to_hex (Hash32 h)) = Some (Hash32 (reversed_32 h)) ∧
  to_bitcoin_txid (from_bitcoin_txid t) = Some t ∧
  to_hex_rpc (from_bitcoin_txid t) = String.string_of_list_byte (hex_encode (arr_bytes t)).
Proof.
  unfold from_hex, from_hex_rpc, to_hex, to_hex_rpc, from_bitcoin_txid, reversed_32.
  rewrite !str_bytes_of_bytes, !decode_txid_encode. cbn [mbind option_bind].
  rewrite !arr_reverse_involutive, from_bytes_arr. split_and!; try done.
  unfold to_bitcoin_txid, reversed_32. by rewrite arr_reverse_involutive.
Qed.
