(* ===== verification/Codec.v ===== *)
(** The Borsh encoding of a swap record, which lib/types/swap.rs writes by hand
    ([BorshSerialize] and [BorshDeserialize] for [Swap]).

    Borsh is a crate, and the encodings of the fields' types are its own or derived
    by it: they are the operations of [BorshLib], and what the code relies on are
    the laws of [BorshLaws].  [Spec] has an instance after Borsh's specification. *)
From S2P Require Import Prelude Bytes SwapTypes.

(** ** Readers: what [deserialize_reader] does to the bytes of its reader *)
Definition Reader (A : Type) : Type := list byte → option (A * list byte).
#[export] Instance reader_ret : MRet Reader := λ A a l, Some (a, l).
#[export] Instance reader_bind : MBind Reader := λ A B f m l,
  match m l with
  | Some (a, l) => f a l
  | None => None
  end.

Record Codec (A : Type) := mkCodec {
  serialize : A → list byte;
  deserialize_reader : Reader A;
}.
Arguments mkCodec {A} _ _.
Arguments serialize {A} _ _.
Arguments deserialize_reader {A} _ _.

(** What [c] writes for a value of [P] it reads back, and no byte more. *)
Definition codec_ok {A} (P : A → Prop) (c : Codec A) : Prop :=
  ∀ a rest, P a → deserialize_reader c (serialize c a ++ rest) = Some (a, rest).

Class BorshLib := {
  borsh_u32 : Codec Z;
  borsh_u64 : Codec Z;
  borsh_string : Codec string;
  borsh_array : ∀ n, Codec (array n);
  borsh_option : ∀ {A}, Codec A → Codec (option A);
  (* derived *)
  borsh_direction : Codec SwapDirection;
  borsh_chain : Codec ParentChainType;
  borsh_txid : Codec SwapTxId;
  borsh_state : Codec SwapState;
}.

(** A length is written in 32 bits. *)
Definition short_string (s : string) : Prop := Z.of_nat (length (str_bytes s)) ≤ u32_MAX.
Definition short_txid (t : SwapTxId) : Prop :=
  match t with
  | Hash32 _ => True
  | HashVar bytes => Z.of_nat (length bytes) ≤ u32_MAX
  end.
Definition state_in_range (s : SwapState) : Prop :=
  match s with
  | WaitingConfirmations current required => is_u32 current ∧ is_u32 required
  | _ => True
  end.
Definition on_some {A} (P : A → Prop) (o : option A) : Prop := from_option P True o.

Class BorshLaws (B : BorshLib) := {
  borsh_u32_ok : codec_ok is_u32 borsh_u32;
  borsh_u64_ok : codec_ok is_u64 borsh_u64;
  borsh_string_ok : codec_ok short_string borsh_string;
  borsh_array_ok n : codec_ok (λ _, True) (borsh_array n);
  borsh_option_ok {A} (P : A → Prop) (c : Codec A) :
    codec_ok P c → codec_ok (on_some P) (borsh_option c);
  borsh_direction_ok : codec_ok (λ _, True) borsh_direction;
  borsh_chain_ok : codec_ok (λ _, True) borsh_chain;
  borsh_txid_ok : codec_ok short_txid borsh_txid;
  borsh_state_ok : codec_ok state_in_range borsh_state;
}.

(** Reading a field that was written with [c]. *)
Lemma codec_read {A B} (P : A → Prop) (c : Codec A) (k : A → Reader B) a rest :
  codec_ok P c → P a →
  (deserialize_reader c ≫= k) (serialize c a ++ rest) = k a rest.
Proof. intros Hc Ha. unfold mbind, reader_bind. by rewrite Hc. Qed.

Section Codec.
Context {B : BorshLib}.

(** [impl BorshSerialize for Swap] *)
Definition swap_serialize (swap : Swap) : list byte :=
  serialize (borsh_array 32) (swap_id swap)
  ++ serialize borsh_direction (direction swap)
  ++ serialize borsh_chain (parent_chain swap)
  ++ serialize borsh_txid (l1_txid swap)
  ++ serialize borsh_u32 (required_confirmations swap)
  ++ serialize borsh_state (state swap)
  ++ serialize (borsh_option (borsh_array 20)) (l2_recipient swap)
  ++ serialize borsh_u64 (l2_amount swap)
  ++ serialize borsh_string (l1_recipient_address swap)
  ++ serialize borsh_u64 (l1_amount swap)
  ++ serialize (borsh_option borsh_string) (l1_claimer_address swap)
  ++ serialize (borsh_option (borsh_array 20)) (l2_claimer_address swap)
  ++ serialize borsh_u32 (created_at_height swap)
  ++ serialize (borsh_option borsh_u32) (expires_at_height swap)
  ++ serialize (borsh_option (borsh_array 32)) (l1_txid_validated_at_block_hash swap)
  ++ serialize (borsh_option borsh_u32) (l1_txid_validated_at_height swap)
  ++ serialize (borsh_option (borsh_array 20)) (l2_creator_address swap).

(** [impl BorshDeserialize for Swap]: the fields are evaluated in the order in which
    the struct expression names them. *)
Definition swap_deserialize_reader : Reader Swap :=
  swap_id ← deserialize_reader (borsh_array 32);
  direction ← deserialize_reader borsh_direction;
  parent_chain ← deserialize_reader borsh_chain;
  l1_txid ← deserialize_reader borsh_txid;
  required_confirmations ← deserialize_reader borsh_u32;
  state ← deserialize_reader borsh_state;
  l2_recipient ← deserialize_reader (borsh_option (borsh_array 20));
  l2_amount ← deserialize_reader borsh_u64;
  l1_recipient_address ← deserialize_reader borsh_string;
  l1_amount ← deserialize_reader borsh_u64;
  l1_claimer_address ← deserialize_reader (borsh_option borsh_string);
  l2_claimer_address ← deserialize_reader (borsh_option (borsh_array 20));
  created_at_height ← deserialize_reader borsh_u32;
  expires_at_height ← deserialize_reader (borsh_option borsh_u32);
  l1_txid_validated_at_block_hash ← deserialize_reader (borsh_option (borsh_array 32));
  l1_txid_validated_at_height ← deserialize_reader (borsh_option borsh_u32);
  l2_creator_address ← deserialize_reader (borsh_option (borsh_array 20));
  mret (mkSwap swap_id direction parent_chain l1_txid required_confirmations state
          l2_recipient l2_amount l1_recipient_address l1_amount l1_claimer_address
          l2_claimer_address created_at_height expires_at_height
          l1_txid_validated_at_block_hash l1_txid_validated_at_height
          l2_creator_address).

(** ** Round trip *)

(** The numbers of a swap fit their types, its strings a 32-bit length. *)
Record swap_in_range (swap : Swap) : Prop := {
  sr_txid : short_txid (l1_txid swap);
  sr_required : is_u32 (required_confirmations swap);
  sr_state : state_in_range (state swap);
  sr_l2_amount : is_u64 (l2_amount swap);
  sr_recipient : short_string (l1_recipient_address swap);
  sr_l1_amount : is_u64 (l1_amount swap);
  sr_claimer : on_some short_string (l1_claimer_address swap);
  sr_created : is_u32 (created_at_height swap);
  sr_expires : on_some is_u32 (expires_at_height swap);
  sr_validated : on_some is_u32 (l1_txid_validated_at_height swap);
}.

Lemma borsh_option_array_ok `{!BorshLaws B} n :
  codec_ok (on_some (λ _, True)) (borsh_option (borsh_array n)).
Proof. apply borsh_option_ok, borsh_array_ok. Qed.

Lemma on_some_True {A} (o : option A) : on_some (λ _, True) o.
Proof. by destruct o. Qed.

Create HintDb codec.
Hint Resolve borsh_u32_ok borsh_u64_ok borsh_string_ok borsh_array_ok borsh_option_ok
  borsh_option_array_ok borsh_direction_ok borsh_chain_ok borsh_txid_ok borsh_state_ok
  on_some_True I : codec.

(** A field is read with the law that the database has for its codec. *)
Ltac read_field :=
  rewrite <-?app_assoc; erewrite codec_read; [|by eauto with codec|by eauto with codec].

Lemma read_written `{!BorshLaws B} swap rest :
  swap_in_range swap →
  swap_deserialize_reader (swap_serialize swap ++ rest) = Some (swap, rest).
Proof.
  destruct swap. intros []; simpl in *.
  unfold swap_serialize, swap_deserialize_reader; simpl. by repeat read_field.
Qed.

(** C17: A swap record survives encoding and decoding, and the decoder leaves what
    follows the record to the next reader; different records have different encodings,
    even as prefixes of longer texts. *)
Theorem swap_codec_roundtrip `{!BorshLaws B} swap rest :
  swap_in_range swap →
  swap_deserialize_reader (swap_serialize swap ++ rest) = Some (swap, rest) ∧
  ∀ swap' rest', swap_in_range swap' →
    swap_serialize swap ++ rest = swap_serialize swap' ++ rest' → swap = swap' ∧ rest = rest'.
Proof.
  intros Hs. pose proof (read_written swap rest Hs) as Hd. split; [exact Hd|].
  intros swap' rest' Hs' H. rewrite H, read_written in Hd by done. by simplify_eq.
Qed.
End Codec.

(** ** Borsh's specification: integers little-endian at their width, arrays as they
    are, a length of 32 bits before strings and vectors, one byte before options and
    the variants of an enum.  [from_utf8] is not part of it: the strings of the model
    are byte strings. *)
Module Spec.
Definition take_bytes (n : nat) : Reader (list byte) := λ l,
  if (n <=? length l)%nat then Some (take n l, drop n l) else None.

Lemma take_bytes_app l rest n : length l = n → take_bytes n (l ++ rest) = Some (l, rest).
Proof.
  intros <-. unfold take_bytes. rewrite length_app.
  rewrite (proj2 (Nat.leb_le _ _)) by lia. by rewrite take_app_length, drop_app_length.
Qed.

Definition int_codec (n : nat) : Codec Z :=
  mkCodec (le_bytes n) (l ← take_bytes n; mret (le_value l)).

Lemma int_codec_ok n : codec_ok (λ z, 0 ≤ z < 256 ^ Z.of_nat n) (int_codec n).
Proof.
  intros z rest Hz. simpl. unfold mbind, reader_bind.
  rewrite take_bytes_app by apply length_le_bytes. by rewrite le_value_bytes.
Qed.

Lemma codec_ok_weaken {A} (P Q : A → Prop) (c : Codec A) :
  (∀ a, P a → Q a) → codec_ok Q c → codec_ok P c.
Proof. intros HPQ Hc a rest Ha. by apply Hc, HPQ. Qed.

Lemma u32_ok : codec_ok is_u32 (int_codec 4).
Proof. eapply codec_ok_weaken, int_codec_ok. unfold is_u32, u32_MAX. lia. Qed.
Lemma u64_ok : codec_ok is_u64 (int_codec 8).
Proof. eapply codec_ok_weaken, int_codec_ok. unfold is_u64, u64_MAX. lia. Qed.

Definition lift_option {A} (o : option A) : Reader A := λ l, a ← o; Some (a, l).

Definition array_codec (n : nat) : Codec (array n) :=
  mkCodec arr_bytes (l ← take_bytes n; lift_option (arr_of_slice n l)).
Lemma array_codec_ok n : codec_ok (λ _, True) (array_codec n).
Proof.
  intros a rest _. simpl. unfold mbind, reader_bind.
  rewrite take_bytes_app by apply arr_length. unfold lift_option. by rewrite arr_of_slice_bytes.
Qed.

Definition vec_codec : Codec (list byte) :=
  mkCodec (λ l, serialize (int_codec 4) (Z.of_nat (length l)) ++ l)
    (n ← deserialize_reader (int_codec 4); take_bytes (Z.to_nat n)).
Lemma vec_codec_ok : codec_ok (λ l, Z.of_nat (length l) ≤ u32_MAX) vec_codec.
Proof.
  intros l rest Hl. unfold vec_codec; cbn [serialize deserialize_reader].
  rewrite <-app_assoc. rewrite (codec_read is_u32); [|apply u32_ok|split; [lia|done]].
  apply take_bytes_app. lia.
Qed.

Definition map_codec {A C} (f : C → A) (g : A → C) (c : Codec A) : Codec C :=
  mkCodec (λ x, serialize c (f x)) (a ← deserialize_reader c; mret (g a)).
Lemma map_codec_ok {A C} (f : C → A) (g : A → C) P (c : Codec A) :
  codec_ok P c → (∀ x, g (f x) = x) → codec_ok (λ x, P (f x)) (map_codec f g c).
Proof.
  intros Hc Hgf x rest Hx. unfold map_codec; cbn [serialize deserialize_reader].
  rewrite (codec_read P) by done. unfold mret, reader_ret. by rewrite Hgf.
Qed.
Definition string_codec : Codec string :=
  map_codec str_bytes String.string_of_list_byte vec_codec.
Lemma string_codec_ok : codec_ok short_string string_codec.
Proof.
  refine (map_codec_ok _ _ _ _ vec_codec_ok _). intros s. apply String.string_of_list_byte_of_string.
Qed.

Definition byte_reader : Reader byte := λ l,
  match l with b :: l => Some (b, l) | [] => None end.

Definition option_codec {A} (c : Codec A) : Codec (option A) :=
  mkCodec (λ o, match o with Some a => x01 :: serialize c a | None => [x00] end)
    (b ← byte_reader;
     match b with
     | x00 => mret None
     | x01 => a ← deserialize_reader c; mret (Some a)
     | _ => λ _, None
     end).
Lemma option_codec_ok {A} (P : A → Prop) (c : Codec A) :
  codec_ok P c → codec_ok (on_some P) (option_codec c).
Proof. intros Hc [a|] rest Ha; [|done].
  exact (codec_read P c (λ a, mret (Some a) : Reader (option A)) a rest Hc Ha).
Qed.

Definition enum_codec {A} (all : list A) `{EqDecision A} : Codec A :=
  mkCodec (λ a, match list_find (a =.) all with
                | Some (i, _) => [byte_of_Z (Z.of_nat i)]
                | None => []
                end)
    (b ← byte_reader; lift_option (all !! Z.to_nat (Z_of_byte b))).

Definition direction_codec : Codec SwapDirection := enum_codec [L1ToL2; L2ToL1].
Definition chain_codec : Codec ParentChainType := enum_codec all_parent_chains.

Definition txid_codec : Codec SwapTxId :=
  mkCodec (λ t, match t with
                | Hash32 h => x00 :: serialize (array_codec 32) h
                | HashVar l => x01 :: serialize vec_codec l
                end)
    (b ← byte_reader;
     match b with
     | x00 => h ← deserialize_reader (array_codec 32); mret (Hash32 h)
     | x01 => l ← deserialize_reader vec_codec; mret (HashVar l)
     | _ => λ _, None
     end).
Lemma txid_codec_ok : codec_ok short_txid txid_codec.
Proof.
  intros [h|l] rest Ht.
  - exact (codec_read _ _ (λ h, mret (Hash32 h) : Reader SwapTxId) h rest (array_codec_ok 32) I).
  - exact (codec_read _ _ (λ l, mret (HashVar l) : Reader SwapTxId) l rest vec_codec_ok Ht).
Qed.

Definition state_codec : Codec SwapState :=
  mkCodec (λ s, match s with
                | Pending => [x00]
                | WaitingConfirmations current required =>
                    x01 :: serialize (int_codec 4) current ++ serialize (int_codec 4) required
                | ReadyToClaim => [x02]
                | Completed => [x03]
                | Cancelled => [x04]
                end)
    (b ← byte_reader;
     match b with
     | x00 => mret Pending
     | x01 =>
         current ← deserialize_reader (int_codec 4);
         required ← deserialize_reader (int_codec 4);
         mret (WaitingConfirmations current required)
     | x02 => mret ReadyToClaim
     | x03 => mret Completed
     | x04 => mret Cancelled
     | _ => λ _, None
     end).
Lemma state_codec_ok : codec_ok state_in_range state_codec.
Proof.
  intros [|current required| | |] rest Hs; [done| |done..]. destruct Hs as [Hc Hr].
  change (((current' ← deserialize_reader (int_codec 4);
            required' ← deserialize_reader (int_codec 4);
            mret (WaitingConfirmations current' required')) : Reader SwapState)
    ((serialize (int_codec 4) current ++ serialize (int_codec 4) required) ++ rest)
    = Some (WaitingConfirmations current required, rest)).
  by rewrite <-app_assoc, (codec_read _ _ _ _ _ u32_ok Hc), (codec_read _ _ _ _ _ u32_ok Hr).
Qed.

#[local] Instance borsh : BorshLib := {|
  borsh_u32 := int_codec 4; borsh_u64 := int_codec 8; borsh_string := string_codec;
  borsh_array := array_codec; borsh_option A := option_codec;
  borsh_direction := direction_codec; borsh_chain := chain_codec;
  borsh_txid := txid_codec; borsh_state := state_codec |}.
#[local] Instance borsh_laws : BorshLaws borsh.
Proof.
  split; [apply u32_ok|apply u64_ok|apply string_codec_ok|apply array_codec_ok
         |intros A P c; apply option_codec_ok|by intros [] rest _|by intros [] rest _
         |apply txid_codec_ok|apply state_codec_ok].
Qed.

Definition example_swap : Swap :=
  {| swap_id := arr_repeat 32 x07; direction := L2ToL1; parent_chain := Signet;
     l1_txid := HashVar [xde; xad]; required_confirmations := 3;
     state := WaitingConfirmations 1 3; l2_recipient := None; l2_amount := 50000;
     l1_recipient_address := "tb1q"; l1_amount := u64_MAX;
     l1_claimer_address := Some "tb1p"%string; l2_claimer_address := Some (arr_repeat 20 x02);
     created_at_height := 10; expires_at_height := Some u32_MAX;
     l1_txid_validated_at_block_hash := None; l1_txid_validated_at_height := None;
     l2_creator_address := Some (arr_repeat 20 x01) |}.

Lemma example_in_range : swap_in_range example_swap.
Proof. split; vm_compute; repeat split; discriminate. Qed.

Example swap_codec_roundtrip_witness :
  swap_in_range example_swap ∧
  swap_deserialize_reader (swap_serialize example_swap ++ [xff]) = Some (example_swap, [xff]).
Proof.
  split; [exact example_in_range|].
  apply (swap_codec_roundtrip example_swap [xff]), example_in_range.
Defined.

(** An unknown variant, or a record that is cut short, is refused. *)
Example truncated_swap :
  swap_deserialize_reader (take 100 (swap_serialize example_swap)) = None.
Proof. by vm_compute. Qed.
End Spec.
