(* ===== verification/F64.v ===== *)
(** Amounts of the parent chain's RPC, which are [f64] in coins, and their conversion to
    satoshis (lib/parent_chain_rpc.rs, [btc_rpc_value_to_sats]).  A float is one of the
    standard library's specification of IEEE 754 at 53 bits, whose product is correctly
    rounded as the machine's is. *)
From Stdlib Require Import Floats.SpecFloat.
From S2P Require Import Prelude.

Notation f64 := spec_float.
Definition f64_mul : f64 → f64 → f64 := SFmul 53 1024.
(** The float next to an integer, and the constants [100_000_000.0] and [u64::MAX as f64]. *)
Definition f64_of_Z (z : Z) : f64 := binary_normalize 53 1024 z 0 false.
Definition sats_per_btc : f64 := f64_of_Z 100000000.
Definition u64_MAX_f64 : Z := 2 ^ 64.

Definition f64_is_finite (x : f64) : bool :=
  match x with S754_zero _ | S754_finite _ _ _ => true | _ => false end.
Definition f64_negative (x : f64) : bool := SFltb x (S754_zero false).

(** [f64::round] of a finite float, the nearest integer and away from zero if there
    are two, which the float result holds exactly; [None] for the others. *)
Definition f64_round (x : f64) : option Z :=
  match x with
  | S754_zero _ => Some 0
  | S754_finite s m e =>
      let r := if 0 <=? e then Zpos m * 2 ^ e
               else (2 * Zpos m + 2 ^ (- e)) / 2 ^ (- e + 1) in
      Some (if s then - r else r)
  | _ => None
  end.

(** A product that overflows is infinite, which is above [u64::MAX]; [as u64] takes
    what is above its range to its end. *)
Definition btc_rpc_value_to_sats (value : f64) : option Z :=
  if negb (f64_is_finite value) || f64_negative value then None
  else
    sats ← f64_round (f64_mul value sats_per_btc);
    if (sats <? 0) || (u64_MAX_f64 <? sats) then None
    else Some (sats `min` u64_MAX).

(** ** The rounding of a product *)

(** What is left of [X] after [n] bits were shifted out. *)
Definition shifted (X n : Z) (mrs : shr_record) : Prop :=
  ∃ f, 0 ≤ shr_m mrs ∧ X = shr_m mrs * 2 ^ n + f ∧ 0 ≤ f < 2 ^ n ∧
    match loc_of_shr_record mrs with
    | loc_Exact => f = 0
    | loc_Inexact Lt => 0 < 2 * f < 2 ^ n
    | loc_Inexact Eq => 2 * f = 2 ^ n
    | loc_Inexact Gt => 2 ^ n < 2 * f
    end.

Lemma shr_1_shifted X n mrs : 0 ≤ n → shifted X n mrs → shifted X (n + 1) (shr_1 mrs).
Proof.
  intros Hn (f & Hm & HX & Hf & Hl). destruct mrs as [m r s]. simpl in *.
  assert (2 ^ (n + 1) = 2 * 2 ^ n) as Hp by (rewrite Z.pow_add_r by lia; lia).
  destruct m as [|[p|p|]|p]; [exists f|exists (2 ^ n + f)|exists f|exists (2 ^ n + f)|lia];
    cbn [shr_1 shr_m]; rewrite ?Hp; (split; [lia|split; [lia|split; [lia|]]]);
    destruct r, s; simpl in *; lia.
Qed.

Lemma iter_shifted X p : ∀ n mrs, 0 ≤ n → shifted X n mrs →
  shifted X (n + Zpos p) (SpecFloat.iter_pos shr_1 p mrs).
Proof.
  induction p as [p IH|p IH|]; intros n mrs Hn H; cbn [SpecFloat.iter_pos].
  - replace (n + Z.pos p~1) with (n + 1 + Z.pos p + Z.pos p) by lia.
    apply IH; [lia|]. apply IH; [lia|]. by apply shr_1_shifted.
  - replace (n + Z.pos p~0) with (n + Z.pos p + Z.pos p) by lia.
    apply IH; [lia|]. by apply IH.
  - by apply shr_1_shifted.
Qed.

Lemma digits2_bounds p : 2 ^ (Zpos (digits2_pos p) - 1) ≤ Zpos p < 2 ^ Zpos (digits2_pos p).
Proof.
  induction p as [p IH|p IH|]; cbn [digits2_pos]; [| |done].
  all: rewrite Pos2Z.inj_succ; replace (Z.succ (Z.pos (digits2_pos p)) - 1)
    with (Z.pos (digits2_pos p)) by lia.
  all: rewrite Z.pow_succ_r by lia.
  all: replace (Z.pos (digits2_pos p)) with (Z.succ (Z.pos (digits2_pos p) - 1)) in IH at 2 by lia.
  all: rewrite Z.pow_succ_r in IH by lia.
  all: replace (Z.pos (digits2_pos p)) with (Z.succ (Z.pos (digits2_pos p) - 1)) by lia.
  all: rewrite ?Z.pow_succ_r by lia; lia.
Qed.

Lemma digits2_unique z d : 0 < d → 2 ^ (d - 1) ≤ z < 2 ^ d → Zdigits2 z = d.
Proof.
  intros Hd Hz. assert (0 < 2 ^ (d - 1)) by (apply Z.pow_pos_nonneg; lia).
  destruct z as [|p|p]; [lia| |lia]. simpl. pose proof (digits2_bounds p) as Hp.
  assert (¬ d < Zpos (digits2_pos p)).
  { intros Hlt. assert (2 ^ d ≤ 2 ^ (Zpos (digits2_pos p) - 1)); [|lia].
    apply Z.pow_le_mono_r; lia. }
  assert (¬ Zpos (digits2_pos p) < d).
  { intros Hlt. assert (2 ^ Zpos (digits2_pos p) ≤ 2 ^ (d - 1)); [|lia].
    apply Z.pow_le_mono_r; lia. }
  lia.
Qed.

(** The shift of a mantissa to 53 bits, above the subnormal numbers. *)
Lemma shr_fexp_shifted X e d : 0 < d → 2 ^ (d - 1) ≤ X < 2 ^ d → 53 ≤ d → -1074 ≤ d + e - 53 →
  ∃ mrs, shr_fexp 53 1024 X e loc_Exact = (mrs, e + (d - 53)) ∧ shifted X (d - 53) mrs.
Proof.
  intros Hd HX Hd53 He. unfold shr_fexp. rewrite (digits2_unique X d) by done.
  unfold fexp, emin. replace (Z.max (d + e - 53) (3 - 1024 - 53) - e) with (d - 53) by lia.
  assert (shifted X 0 (shr_record_of_loc X loc_Exact)) as H0.
  { exists 0. simpl. assert (0 < 2 ^ (d - 1)) by (apply Z.pow_pos_nonneg; lia). lia. }
  unfold shr. destruct (d - 53) as [|p|p] eqn:Hp; [|..|lia].
  - eexists. split; [by rewrite Z.add_0_r|done].
  - eexists. split; [done|]. by apply (iter_shifted X p 0).
Qed.

(** The product of two positive floats is a positive float that is off by at most half
    of the weight of its last bit. *)
Lemma round_near X e d : 53 ≤ d → 2 ^ (d - 1) ≤ X < 2 ^ d →
  -1074 ≤ d + e - 53 → d + e - 53 < 971 →
  ∃ m j R, binary_round_aux 53 1024 false X e loc_Exact = S754_finite false m (e + (d - 53) + j) ∧
    0 ≤ j ≤ 1 ∧ R = Zpos m * 2 ^ j ∧ 2 ^ 52 ≤ R ∧ 2 * Z.abs (R * 2 ^ (d - 53) - X) ≤ 2 ^ (d - 53).
Proof.
  intros Hd HX He Hmax. unfold binary_round_aux.
  destruct (shr_fexp_shifted X e d) as (mrs & -> & f & Hm & Heq & Hf & Hl); [lia|lia|lia|lia|].
  set (s := d - 53) in *. set (R := round_nearest_even (shr_m mrs) (loc_of_shr_record mrs)).
  assert (0 < 2 ^ s) as Hs by (apply Z.pow_pos_nonneg; lia).
  assert (2 * Z.abs (R * 2 ^ s - X) ≤ 2 ^ s) as Herr.
  { subst R. destruct (loc_of_shr_record mrs) as [|[]]; simpl; [lia| |lia|lia].
    destruct (Z.even (shr_m mrs)); lia. }
  assert (2 ^ (d - 1) = 2 ^ 52 * 2 ^ s ∧ 2 ^ d = 2 ^ 53 * 2 ^ s) as [Hd1 Hd2].
  { rewrite <-!Z.pow_add_r by lia. split; f_equal; lia. }
  assert (2 ^ 52 ≤ R ≤ 2 ^ 53) as HR.
  { assert (2 ^ 52 ≤ shr_m mrs < 2 ^ 53) as Hmb by nia.
    assert (shr_m mrs ≤ R ≤ shr_m mrs + 1); [|lia].
    subst R. destruct (loc_of_shr_record mrs) as [|[]]; simpl; [lia| |lia|lia].
    destruct (Z.even (shr_m mrs)); lia. }
  clearbody R. clear Hm Heq Hf Hl f.
  destruct (Z.eq_dec R (2 ^ 53)) as [HRe|HRe].
  - destruct (shr_fexp_shifted R (e + s) 54) as (mrs' & -> & f & Hm & Heq & Hf & Hl); [lia..|].
    change (54 - 53) with 1 in *.
    assert (shr_m mrs' = 2 ^ 52) as Hm' by lia. rewrite Hm'.
    change (2 ^ 52) with (Zpos (2 ^ 52)). cbn match.
    rewrite (proj2 (Z.leb_le _ _)) by lia. eexists _, 1, R. split; [done|]. split_and!; lia.
  - destruct (shr_fexp_shifted R (e + s) 53) as (mrs' & -> & f & Hm & Heq & Hf & Hl); [lia..|].
    change (53 - 53) with 0 in *. assert (shr_m mrs' = R) as -> by lia.
    destruct R as [|p|p]; [lia| |lia].
    rewrite (proj2 (Z.leb_le _ _)) by lia. eexists p, 0, (Zpos p). split_and!; [done|lia..].
Qed.

Lemma round_near_integer m e n : 0 ≤ n → e ≤ 0 →
  2 * Z.abs (Zpos m - n * 2 ^ (- e)) < 2 ^ (- e) → f64_round (S754_finite false m e) = Some n.
Proof.
  intros Hn He Herr. unfold f64_round. f_equal.
  destruct (Z.leb_spec 0 e) as [H|H].
  - assert (e = 0) as -> by lia. change (2 ^ (- 0)) with 1 in Herr. change (2 ^ 0) with 1. lia.
  - rewrite Z.pow_add_r by lia. change (2 ^ 1) with 2. symmetry.
    apply (Z.div_unique_pos _ _ _ (2 * Zpos m + 2 ^ (- e) - 2 ^ (- e) * 2 * n)); lia.
Qed.

(** ** Amounts *)

(** A float is one next to [n] satoshis in coins: 53 bits, and off by at most half of
    the weight of the last. *)
Definition nearest_btc (v : f64) (n : Z) : Prop :=
  match v with
  | S754_zero false => n = 0
  | S754_finite false m e =>
      2 ^ 52 ≤ Zpos m < 2 ^ 53 ∧ e ≤ 0 ∧
      2 * Z.abs (Zpos m * 100000000 - n * 2 ^ (- e)) ≤ 100000000
  | _ => False
  end.

Lemma scale_down r j k n : 0 ≤ j ≤ k →
  2 * Z.abs (r * 2 ^ j - n * 2 ^ k) < 2 ^ k → 2 * Z.abs (r - n * 2 ^ (k - j)) < 2 ^ (k - j).
Proof.
  intros Hj. assert (2 ^ k = 2 ^ j * 2 ^ (k - j)) as -> by (rewrite <-Z.pow_add_r by lia; f_equal; lia).
  replace (r * 2 ^ j - n * (2 ^ j * 2 ^ (k - j))) with (2 ^ j * (r - n * 2 ^ (k - j))) by lia.
  assert (0 < 2 ^ j) by (apply Z.pow_pos_nonneg; lia).
  rewrite Z.abs_mul, (Z.abs_eq (2 ^ j)) by lia. nia.
Qed.

(** The scaled product is next to the amount: [K] is its scale. *)
Lemma product_near n X K s R :
  0 ≤ s → 0 ≤ K → 0 ≤ n ≤ 2100000000000000 →
  2 ^ 52 * (100000000 * 2 ^ 26) ≤ X → 2 * Z.abs (X - n * 2 ^ K) ≤ 100000000 * 2 ^ 26 →
  2 ^ 52 * 2 ^ s ≤ X → 2 * Z.abs (R * 2 ^ s - X) ≤ 2 ^ s →
  s ≤ K ∧ 2 * Z.abs (R - n * 2 ^ (K - s)) < 2 ^ (K - s).
Proof.
  intros Hs HK Hn HX Hn' Hs' HR.
  assert (0 < 2 ^ K ∧ 0 < 2 ^ s) as [HPK HPs] by (split; apply Z.pow_pos_nonneg; lia).
  assert (n * 2 ^ K ≤ 2100000000000000 * 2 ^ K) as HN by nia.
  set (P := 2 ^ K) in *. set (S := 2 ^ s) in *. set (A := n * P) in *.
  assert (2 * X < 2 ^ 52 * P) as HXP by lia.
  assert (2 * Z.abs (R * S - A) < P) as Herr by lia.
  assert (s ≤ K) as HsK.
  { destruct (Z.le_gt_cases s K) as [|Hlt]; [done|exfalso].
    assert (P < S); [|lia]. apply Z.pow_lt_mono_r; lia. }
  split; [done|]. by apply scale_down.
Qed.

Lemma sats_per_btc_eq : sats_per_btc = S754_finite false (100000000 * 2 ^ 26) (-26).
Proof. by vm_compute. Qed.

(** C22: The amount that the RPC reports in coins is read exactly: the float next to
    [n] satoshis is converted to [n], for all amounts up to 21 million coins, although
    neither the float nor its product with 100,000,000 need be exact.  Whatever is
    reported, the result is a 64-bit amount, and none is read from a negative, infinite
    or undefined value. *)
Theorem btc_value_exact v :
  (∀ n, 0 ≤ n ≤ 2100000000000000 → nearest_btc v n → btc_rpc_value_to_sats v = Some n) ∧
  (∀ z, btc_rpc_value_to_sats v = Some z →
    0 ≤ z ≤ u64_MAX ∧ f64_is_finite v = true ∧ f64_negative v = false).
Proof.
  split.
  - intros n Hn Hv. unfold btc_rpc_value_to_sats. destruct v as [[]|[]| |[] m e]; try done.
    { by rewrite Hv. }
    destruct Hv as (Hm & He & Herr). cbn [f64_is_finite f64_negative SFltb SFcompare negb orb].
    rewrite sats_per_btc_eq. unfold f64_mul, SFmul. cbn [xorb].
    replace (Zpos (m * (100000000 * 2 ^ 26))) with (Zpos m * (100000000 * 2 ^ 26)) by done.
    set (X := Zpos m * (100000000 * 2 ^ 26)).
    assert (1 ≤ n) as Hn1.
    { destruct (Z.eq_dec n 0) as [->|]; lia. }
    assert (- e < 80) as Hlow.
    { destruct (Z.lt_ge_cases (- e) 80) as [|Hge]; [done|exfalso].
      assert (2 ^ 80 ≤ 2 ^ (- e)) as Hp by (apply Z.pow_le_mono_r; lia). nia. }
    assert (∃ d, 105 ≤ d ≤ 106 ∧ 2 ^ (d - 1) ≤ X < 2 ^ d) as (d & Hd & HX).
    { destruct (Z.lt_ge_cases X (2 ^ 105)).
      - exists 105. subst X. lia.
      - exists 106. subst X. lia. }
    destruct (round_near X (e + -26) d) as (r & j & R & -> & Hj & HRj & Hbig & HR); [lia..|].
    assert (2 ^ (26 - e) = 2 ^ 26 * 2 ^ (- e)) as Hscale
      by (rewrite <-Z.pow_add_r by lia; f_equal; lia).
    destruct (product_near n X (26 - e) (d - 53) R) as [Hle Hnear]; [lia..| | | |lia|].
    + subst X. lia.
    + subst X. rewrite Hscale. lia.
    + rewrite <-Z.pow_add_r by lia. replace (52 + (d - 53)) with (d - 1) by lia. lia.
    + set (k := 26 - e - (d - 53)) in *.
      assert (j ≤ k) as Hjk.
      { destruct (Z.eq_dec k 0) as [Hk|]; [rewrite Hk in Hnear|]; lia. }
      assert (f64_round (S754_finite false r (e + -26 + (d - 53) + j)) = Some n) as ->.
      { apply round_near_integer; [lia|lia|].
        replace (- (e + -26 + (d - 53) + j)) with (k - j) by lia.
        apply scale_down; [lia|]. by rewrite <-HRj. }
      cbn [mbind option_bind]. unfold u64_MAX_f64, u64_MAX.
      rewrite (proj2 (Z.ltb_ge n 0)), (proj2 (Z.ltb_ge (2 ^ 64) n)) by lia. simpl. f_equal. lia.
  - intros z. unfold btc_rpc_value_to_sats.
    destruct (f64_is_finite v), (f64_negative v); try done. simpl.
    intros (s & _ & H)%bind_Some.
    destruct (Z.ltb_spec s 0), (Z.ltb_spec u64_MAX_f64 s); simpl in H; try done.
    injection H as <-. unfold u64_MAX, u64_MAX_f64 in *. lia.
Qed.
