(* ===== verification/ParentRpc.v ===== *)
(** The client of the parent chains' nodes (lib/parent_chain_rpc.rs): the calls whose
    answers decide over swaps, the search for a payment, and the file with the
    supported nodes.  What a node answers over HTTP is a parameter. *)
From S2P Require Import Prelude Bytes SwapTypes F64.

(** ** Data *)
Record RpcConfig := mkRpcConfig { url : string; user : string; password : string }.
#[export] Instance RpcConfig_eq_dec : EqDecision RpcConfig.
Proof. solve_decision. Defined.

Record ScriptPubKey := mkScriptPubKey {
  spk_address : option string;
  spk_addresses : option (list string);
}.
Record Vout := mkVout { vout_value : f64; script_pub_key : ScriptPubKey }.
Record Vin := mkVin { vin_txid : option string; vin_vout : option Z }.
Record TransactionInfo := mkTxInfo {
  ti_txid : string;
  ti_confirmations : Z;
  ti_blockheight : option Z;
  ti_vout : list Vout;
  ti_vin : list Vin;
}.

Inductive RpcErr :=
| RpcHttp
| RpcJson
| RpcError (code : Z) (message : string)
| RpcInvalidResponse
| RpcTransactionNotFound
| RpcChainMismatch (expected : ParentChainType) (chain : string)
| RpcUnsupportedL1Config.

(** What comes back for a request: nothing, something that is not the expected JSON,
    or an [RpcResponse]. *)
Inductive HttpAnswer (A : Type) :=
| SendFailed
| NotJson
| Response (result : option A) (error : option (Z * string)).
Arguments SendFailed {A}.
Arguments NotJson {A}.
Arguments Response {A} _ _.

(** The members of [getblockchaininfo]'s object that the client reads, if they are
    there and are an unsigned number and a string. *)
Record ChainInfo := mkChainInfo { ci_blocks : option Z; ci_chain : option string }.

(** A node's answers at one time.  Of an entry of [listunspent] the client reads
    the transaction's id, if it is a string; of [getreceivedbyaddress] nothing. *)
Record RpcNode := {
  getrawtransaction : string → HttpAnswer TransactionInfo;
  listunspent : string → HttpAnswer (list (option string));
  getblockchaininfo : HttpAnswer ChainInfo;
}.

(** The order in which a [HashSet] of strings and a [HashMap] of configurations is
    gone through, and [str::to_lowercase]. *)
Class ExtRpc := {
  strings_iter : gset string → list string;
  configs_iter : gmap ParentChainType RpcConfig → list (ParentChainType * RpcConfig);
  str_to_lowercase : string → string;
}.
Class ExtRpcLaws (R : ExtRpc) : Prop := {
  strings_iter_perm s : strings_iter s ≡ₚ elements s;
  configs_iter_perm m : configs_iter m ≡ₚ map_to_list m;
}.

Section ParentRpc.
Context {R : ExtRpc}.

(** ** Calls *)
Definition call {A} (answer : HttpAnswer A) : res RpcErr A :=
  match answer with
  | SendFailed => Err RpcHttp
  | NotJson => Err RpcJson
  | Response _ (Some (code, message)) => Err (RpcError code message)
  | Response result None => ok_or result RpcInvalidResponse
  end.

Definition get_transaction (node : RpcNode) (txid : string) : res RpcErr TransactionInfo :=
  call (getrawtransaction node txid).

Definition get_transaction_confirmations node txid : res RpcErr Z :=
  tx ← get_transaction node txid;
  Ok (ti_confirmations tx).

Definition list_transactions node (address : string) : res RpcErr (list string) :=
  unspent ← call (listunspent node address);
  Ok (strings_iter (list_to_set (omap id unspent))).

(** [as u32] *)
Definition get_block_height node : res RpcErr Z :=
  info ← call (getblockchaininfo node);
  blocks ← ok_or (ci_blocks info) RpcInvalidResponse;
  Ok (blocks `mod` 2 ^ 32).

Definition get_blockchain_chain_name node : res RpcErr string :=
  info ← call (getblockchaininfo node);
  chain ← ok_or (ci_chain info) RpcInvalidResponse;
  Ok (str_to_lowercase chain).

(** ** The search for a payment *)
Definition matches_address (address : string) (vout : Vout) : bool :=
  bool_decide (spk_address (script_pub_key vout) = Some address)
  || match spk_addresses (script_pub_key vout) with
     | Some addrs => bool_decide (address ∈ addrs)
     | None => false
     end.

Definition pays (address : string) (amount_sats : Z) (vout : Vout) : bool :=
  match btc_rpc_value_to_sats (vout_value vout) with
  | None => false
  | Some sats => matches_address address vout && (sats =? amount_sats)
  end.

(** The owner of the output that the first input spends. *)
Definition sender_address node (tx : TransactionInfo) : option string :=
  vin ← head (ti_vin tx);
  input_txid ← vin_txid vin;
  input_vout ← vin_vout vin;
  match get_transaction node input_txid with
  | Ok input_tx =>
      data ← ti_vout input_tx !! Z.to_nat input_vout;
      match spk_address (script_pub_key data) with
      | Some address => Some address
      | None => addrs ← spk_addresses (script_pub_key data); head addrs
      end
  | _ => None
  end.

(** One transaction of the loop; one that cannot be read is passed over. *)
Definition match_transaction node address amount_sats (txid : string) :
    option (string * TransactionInfo) :=
  match get_transaction node txid with
  | Ok tx =>
      if existsb (pays address amount_sats) (ti_vout tx)
      then Some (default "unknown" (sender_address node tx), tx)
      else None
  | _ => None
  end.

Definition find_transactions_by_address_and_amount node address amount_sats :
    res RpcErr (list (string * TransactionInfo)) :=
  txids ← list_transactions node address;
  _ ← get_block_height node;
  Ok (omap (M:=list) (match_transaction node address amount_sats) txids).

(** ** The supported nodes *)
Definition supported_l1_configs : list (ParentChainType * RpcConfig) :=
  [(Signet, mkRpcConfig "http://localhost:38332" "user" "password");
   (BCH, mkRpcConfig "http://173.230.135.236:28332" "user" "password")].

Definition supported_l1_parent_chain_types : list ParentChainType := [Signet; BCH].

Definition detect_chain_type node : res RpcErr (ParentChainType * string) :=
  chain ← get_blockchain_chain_name node;
  if decide (chain = "signet") then Ok (Signet, chain)
  else if decide (chain = "testnet4" ∨ chain = "test4") then Ok (BCH, chain)
  else Err (RpcChainMismatch Signet chain).

Definition is_supported_l1_config (parent_chain : ParentChainType) (config : RpcConfig) : bool :=
  existsb (λ p, bool_decide (p = (parent_chain, config))) supported_l1_configs.

Definition predefined (chain : ParentChainType) : option RpcConfig :=
  snd <$> head (filter (λ p, p.1 = chain) supported_l1_configs).

(** ** The configuration file: [None] if it cannot be read or is not the expected
    JSON. *)
Notation L1Configs := (gmap ParentChainType RpcConfig).

(** What is written. *)
Definition write_l1_config_file (file : option L1Configs)
    (chains_to_enable : list ParentChainType) : L1Configs :=
  let configs := filter (λ p, is_supported_l1_config p.1 p.2 = true) (default ∅ file) in
  foldl (λ configs chain,
      match predefined chain with
      | Some rpc => <[chain := rpc]> configs
      | None => configs
      end) configs chains_to_enable.

(** The body of the loop over the file's entries. *)
Definition validate_entry (rpc_node : RpcConfig → RpcNode) (p : ParentChainType * RpcConfig) :
    res RpcErr () :=
  _ ← ensure (is_supported_l1_config p.1 p.2) RpcUnsupportedL1Config;
  '(detected, chain_name) ← detect_chain_type (rpc_node p.2);
  ensure (bool_decide (detected = p.1)) (RpcChainMismatch p.1 chain_name).

Definition validate_l1_config_file (rpc_node : RpcConfig → RpcNode) (file : option L1Configs) :
    res RpcErr () :=
  match file with
  | None => Ok ()
  | Some configs =>
      foldM (λ _ p, validate_entry rpc_node p) () (configs_iter configs)
  end.

Definition load_rpc_config_from_path (file : option L1Configs) (parent_chain : ParentChainType) :
    option RpcConfig :=
  configs ← file; configs !! parent_chain.

Definition get_rpc_config (_parent_chain : ParentChainType) : option RpcConfig := None.

(** ** Properties *)

Lemma call_Ok {A} (answer : HttpAnswer A) a :
  call answer = Ok a ↔ answer = Response (Some a) None.
Proof.
  split; [|by intros ->].
  destruct answer as [| |[r|] [[c m]|]]; simpl; try done. by intros [= ->].
Qed.

Lemma predefined_supported chain rpc :
  predefined chain = Some rpc ↔ is_supported_l1_config chain rpc = true.
Proof.
  unfold is_supported_l1_config. rewrite existsb_exists. split.
  - intros H. exists (chain, rpc). split; [|by apply bool_decide_eq_true].
    destruct chain; vm_compute in H; try done; injection H as <-; [by right; left|by left].
  - intros ([c r] & Hin & [= -> ->]%bool_decide_eq_true).
    by destruct Hin as [[= <- <-]|[[= <- <-]|[]]].
Qed.

Lemma write_lookup file chains chain : write_l1_config_file file chains !! chain =
  if decide (chain ∈ chains) then predefined chain
  else c ← default ∅ file !! chain; if is_supported_l1_config chain c then Some c else None.
Proof.
  unfold write_l1_config_file. induction chains as [|c chains IH] using rev_ind.
  - cbn [foldl]. rewrite decide_False by apply not_elem_of_nil.
    rewrite map_lookup_filter. destruct (default ∅ file !! chain) as [r|]; [|done]. simpl.
    by destruct (is_supported_l1_config chain r).
  - rewrite foldl_app. cbn [foldl]. destruct (decide (chain = c)) as [->|Hne].
    + rewrite decide_True by (apply elem_of_app; right; by left).
      destruct (predefined c) as [r|] eqn:Hp; [by rewrite lookup_insert_eq|].
      rewrite IH. case_decide; [done|].
      destruct (default ∅ file !! c) as [r|]; [|done]. simpl.
      destruct (is_supported_l1_config c r) eqn:Hs; [|done].
      apply predefined_supported in Hs. congruence.
    + assert (∀ m : L1Configs, match predefined c with Some rpc => <[c:=rpc]> m | None => m end
        !! chain = m !! chain) as ->.
      { intros m. destruct (predefined c); [by rewrite lookup_insert_ne|done]. }
      rewrite IH. destruct (decide (chain ∈ chains)) as [Hin|Hnin].
      * rewrite decide_True; [done|]. apply elem_of_app. by left.
      * rewrite decide_False; [done|]. intros [?|?%list_elem_of_singleton]%elem_of_app; done.
Qed.

Lemma validate_each rpc_node l :
  foldM (λ _ p, validate_entry rpc_node p) () l = Ok () ↔
  Forall (λ p, validate_entry rpc_node p = Ok ()) l.
Proof.
  induction l as [|p l IH]; [done|]. rewrite Forall_cons, <-IH. simpl.
  destruct (validate_entry rpc_node p) as [[]|e|]; simpl; [naive_solver|split; [done|by intros [? _]]..].
Qed.

(** The file that is written holds supported nodes only: those that were asked for, and
    those of the old file that are supported.  It passes the validation exactly if
    every node in it is up and of the chain that it is for. *)
Lemma written_validates `{!ExtRpcLaws R} rpc_node file chains :
  validate_l1_config_file rpc_node (Some (write_l1_config_file file chains)) = Ok () ↔
  ∀ chain c, write_l1_config_file file chains !! chain = Some c →
    ∃ name, detect_chain_type (rpc_node c) = Ok (chain, name).
Proof.
  unfold validate_l1_config_file. rewrite validate_each, Forall_forall.
  set (m := write_l1_config_file file chains).
  assert (∀ chain c, m !! chain = Some c → is_supported_l1_config chain c = true) as Hsup.
  { intros chain c Hc. subst m. rewrite write_lookup in Hc. case_decide.
    - by apply predefined_supported.
    - destruct (default ∅ file !! chain) as [c'|]; [|done]. simpl in Hc.
      destruct (is_supported_l1_config chain c') eqn:Hs; [|done]. congruence. }
  assert (∀ chain c, m !! chain = Some c →
    validate_entry rpc_node (chain, c) = Ok () ↔
    ∃ name, detect_chain_type (rpc_node c) = Ok (chain, name)) as Hentry.
  { intros chain c Hc. unfold validate_entry. simpl. rewrite (Hsup _ _ Hc). simpl.
    destruct (detect_chain_type (rpc_node c)) as [[d name]|e|]; simpl; [|naive_solver..].
    destruct (decide (d = chain)) as [->|Hne]; [rewrite bool_decide_true by done|].
    - simpl. naive_solver.
    - rewrite bool_decide_false by done. simpl. naive_solver. }
  split.
  - intros H chain c Hc. apply Hentry; [done|]. apply H.
    rewrite configs_iter_perm. by apply elem_of_map_to_list.
  - intros H [chain c] Hin. rewrite configs_iter_perm in Hin.
    apply elem_of_map_to_list in Hin. by apply Hentry; [|apply H].
Qed.
End ParentRpc.
