(* ===== verification/Addresses.v ===== *)
(** Addresses as text (lib/types/address.rs): base58, and the form with a prefix and
    a checksum that mainchain deposits name.

    A [&str] is the list of its UTF-8 bytes.  Base58 and SHA-256 are crates: the
    operations of [ExtText], with the law of a round trip. *)
From stdpp Require Import pretty.
From S2P Require Import Prelude Bytes SwapTypes Hex.

Class ExtText := {
  (* bitcoin: base58 without a checksum; [None] is an invalid character *)
  base58_encode : list byte → list byte;
  base58_decode : list byte → option (list byte);
  (* bitcoin_hashes *)
  sha256 : list byte → Hash;
}.
(** Base58 has no underscore among its characters, which are ASCII. *)
Class TextLaws (X : ExtText) := {
  base58_decode_encode l : base58_decode (base58_encode l) = Some l;
  base58_no_underscore l : x5f ∉ base58_encode l;
  base58_ascii l : Forall (λ b, Z_of_byte b < 128) (base58_encode l);
}.

Inductive AddressParseError :=
| Bs58
| MissingDepositChecksum (s : list byte)
| MissingDepositPrefix (s : list byte)
| WrongDepositChecksum (address checksum : list byte)
| WrongLength (n : nat).

(** ** [str] *)
Definition strip_prefix (p l : list byte) : option (list byte) :=
  if bool_decide (take (length p) l = p) then Some (drop (length p) l) else None.

(** Around the last [c]. *)
Fixpoint rsplit_once (c : byte) (l : list byte) : option (list byte * list byte) :=
  match l with
  | [] => None
  | b :: l =>
      match rsplit_once c l with
      | Some (x, y) => Some (b :: x, y)
      | None => if decide (b = c) then Some ([], l) else None
      end
  end.

Definition starts_with (l p : list byte) : bool := bool_decide (take (length p) l = p).

(** [str::to_lowercase] on ASCII.  What is not ASCII is kept: its lower case always has
    a character that is not a hexadecimal digit, so a checksum with it is wrong either
    way. *)
Definition lower_byte (b : byte) : byte :=
  if (65 <=? Z_of_byte b) && (Z_of_byte b <=? 90) then byte_of_Z (Z_of_byte b + 32) else b.
Definition to_lowercase (l : list byte) : list byte := lower_byte <$> l.

Lemma strip_prefix_Some p l r : strip_prefix p l = Some r ↔ l = p ++ r.
Proof.
  unfold strip_prefix. case_bool_decide as H; split.
  - intros [= <-]. rewrite <-H at 1. by rewrite take_drop.
  - intros ->. by rewrite drop_app_length.
  - done.
  - intros ->. by rewrite take_app_length in H.
Qed.

Lemma starts_with_true l p : starts_with l p = true ↔ p `prefix_of` l.
Proof.
  unfold starts_with. rewrite bool_decide_eq_true. split.
  - intros <-. exists (drop (length p) l). by rewrite take_drop.
  - intros [r ->]. by rewrite take_app_length.
Qed.

Lemma rsplit_once_None c l : rsplit_once c l = None ↔ c ∉ l.
Proof.
  induction l as [|b l IH]; simpl; [set_solver|].
  destruct (rsplit_once c l) as [[x y]|]; [|case_decide; set_solver].
  split; [done|]. intros H. assert (Some (x, y) = None) by (apply IH; set_solver). done.
Qed.

Lemma rsplit_once_Some c l x y : rsplit_once c l = Some (x, y) ↔ l = x ++ c :: y ∧ c ∉ y.
Proof.
  revert x; induction l as [|b l IH]; intros x; simpl.
  { split; [done|]. by intros [?%app_cons_not_nil ?]. }
  destruct (rsplit_once c l) as [[x' y']|] eqn:Hl.
  - split.
    + intros [= <- <-]. destruct (IH x') as [IH' _]. destruct (IH' eq_refl) as [-> ?]. done.
    + intros [Heq Hy]. destruct x as [|b' x]; simplify_eq/=.
      * assert (rsplit_once c y = None) by by apply rsplit_once_None. congruence.
      * assert (Some (x', y') = Some (x, y)) as [= -> ->] by by apply IH. done.
  - apply rsplit_once_None in Hl. split.
    + intros H. case_decide as Hb; [|done]. by simplify_eq.
    + intros [Heq Hy]. destruct x as [|b' x]; simplify_eq/=; [by rewrite decide_True|set_solver].
Qed.

Section Addresses.
Context {X : ExtText}.

(** [Display] *)
Definition as_base58 (self : Address) : list byte := base58_encode (arr_bytes self).

(** [FromStr] *)
Definition address_from_str (s : list byte) : res AddressParseError Address :=
  address ← ok_or (base58_decode s) Bs58;
  ok_or (arr_of_slice 20 address) (WrongLength (length address)).

(** ["s{THIS_SIDECHAIN}_"] *)
Definition deposit_prefix : list byte :=
  str_bytes "s" ++ str_bytes (pretty THIS_SIDECHAIN) ++ [x5f].

Definition format_for_deposit (self : Address) : list byte :=
  let prefix := deposit_prefix ++ as_base58 self ++ [x5f] in
  let prefix_digest := sha256 prefix in
  prefix ++ hex_encode (take 3 (arr_bytes prefix_digest)).

Definition from_deposit_address (s : list byte) : res AddressParseError Address :=
  let prefix := deposit_prefix in
  rest ← ok_or (strip_prefix prefix s) (MissingDepositPrefix s);
  '(address_str, checksum) ←
    ok_or (p ← rsplit_once x5f rest; (if decide (p.2 = []) then None else Some p))
      (MissingDepositChecksum s);
  let digest := sha256 (prefix ++ address_str ++ [x5f]) in
  _ ← ensure (starts_with (hex_encode (arr_bytes digest)) (to_lowercase checksum))
        (WrongDepositChecksum s checksum);
  address_from_str address_str.

(** ** What is read as an address *)

(** [checksum] is a checksum of [address_str]: digits of its digest, from the first on,
    in either case. *)
Definition checksum_of (address_str checksum : list byte) : Prop :=
  checksum ≠ [] ∧ x5f ∉ checksum ∧
  to_lowercase checksum `prefix_of`
    hex_encode (arr_bytes (sha256 (deposit_prefix ++ address_str ++ [x5f]))).

Lemma from_deposit_address_Ok s a :
  from_deposit_address s = Ok a ↔
  ∃ address_str checksum, s = deposit_prefix ++ address_str ++ x5f :: checksum ∧
    checksum_of address_str checksum ∧ address_from_str address_str = Ok a.
Proof.
  unfold from_deposit_address, checksum_of. generalize deposit_prefix; intros prefix. split.
  - intros H. res_inv. apply strip_prefix_Some in Ha. subst s.
    apply bind_Some in Ha0 as ([x1 y1] & Hsplit & Hy). case_decide; simplify_eq/=.
    apply rsplit_once_Some in Hsplit as [-> Hno]. apply starts_with_true in Ha1. eauto 10.
  - intros (x & y & -> & (Hy & Hno & Hpre) & Ha).
    rewrite (proj2 (strip_prefix_Some _ _ _) eq_refl). simpl.
    rewrite (proj2 (rsplit_once_Some x5f (x ++ x5f :: y) x y)) by done. simpl.
    rewrite decide_False by done. simpl.
    by rewrite (proj2 (starts_with_true _ _) Hpre).
Qed.

Lemma address_from_str_Ok s a :
  address_from_str s = Ok a ↔ base58_decode s = Some (arr_bytes a).
Proof.
  unfold address_from_str. split.
  - intros H. res_inv. apply arr_of_slice_Some in H. by subst.
  - intros ->. simpl. by rewrite arr_of_slice_bytes.
Qed.

Lemma address_from_str_base58 `{!TextLaws X} a : address_from_str (as_base58 a) = Ok a.
Proof. apply address_from_str_Ok, base58_decode_encode. Qed.

(** A digit of [hex_encode] is its own lower case, and no underscore. *)
Lemma lower_hex_encode l : to_lowercase (hex_encode l) = hex_encode l ∧ x5f ∉ hex_encode l.
Proof.
  induction l as [|b l [IH1 IH2]]; [split; [done|set_solver]|].
  change (hex_encode (b :: l))
    with (hex_digit (Z_of_byte b / 16) :: hex_digit (Z_of_byte b `mod` 16) :: hex_encode l).
  assert (∀ n, 0 ≤ n < 16 → lower_byte (hex_digit n) = hex_digit n ∧ hex_digit n ≠ x5f) as Hd.
  { intros n Hn. assert (n ∈ seqZ 0 16) as Hin by (apply elem_of_seqZ; lia).
    clear Hn. revert n Hin. apply Forall_forall.
    refine (bool_decide_unpack _ _). by vm_compute. }
  destruct (nibbles b) as [[H1 H1']%Hd [H2 H2']%Hd]. split.
  - unfold to_lowercase. rewrite !fmap_cons. f_equal; [done|]. by f_equal.
  - set_solver.
Qed.

Lemma hex_encode_take n l : hex_encode (take n l) `prefix_of` hex_encode l.
Proof.
  exists (hex_encode (drop n l)). unfold hex_encode. rewrite <-bind_app. by rewrite take_drop.
Qed.

Lemma length_hex_encode l : length (hex_encode l) = (2 * length l)%nat.
Proof. induction l as [|b l IH]; [done|]. simpl in *. lia. Qed.

(** Every start of the digest's digits is a checksum, in upper or lower case. *)
Lemma deposit_checksum_accepted `{!TextLaws X} a checksum :
  checksum_of (as_base58 a) checksum →
  from_deposit_address (deposit_prefix ++ as_base58 a ++ x5f :: checksum) = Ok a.
Proof.
  intros Hc. apply from_deposit_address_Ok. exists (as_base58 a), checksum.
  split_and!; [done|done|apply address_from_str_base58].
Qed.

Lemma hex_encode_ascii l : Forall (λ b, Z_of_byte b < 128) (hex_encode l).
Proof.
  induction l as [|b l IH]; [constructor|].
  change (hex_encode (b :: l))
    with (hex_digit (Z_of_byte b / 16) :: hex_digit (Z_of_byte b `mod` 16) :: hex_encode l).
  assert (∀ n, 0 ≤ n < 16 → Z_of_byte (hex_digit n) < 128) as Hd.
  { intros n Hn. assert (n ∈ seqZ 0 16) as Hin by (apply elem_of_seqZ; lia).
    clear Hn. revert n Hin. apply Forall_forall.
    refine (bool_decide_unpack _ _). by vm_compute. }
  destruct (nibbles b). constructor; [by apply Hd|]. constructor; [by apply Hd|done].
Qed.

(** The printed form is accepted, and plain ASCII. *)
Lemma format_for_deposit_accepted `{!TextLaws X} a :
  from_deposit_address (format_for_deposit a) = Ok a.
Proof.
  unfold format_for_deposit. rewrite <-!app_assoc. apply deposit_checksum_accepted.
  destruct (lower_hex_encode
    (take 3 (arr_bytes (sha256 (deposit_prefix ++ as_base58 a ++ [x5f]))))) as [Hlow Hno].
  split_and!; [|done|rewrite Hlow; apply hex_encode_take].
  intros H%(f_equal length). rewrite length_hex_encode, length_take, arr_length in H. done.
Qed.

Lemma format_for_deposit_ascii `{!TextLaws X} a :
  Forall (λ b, Z_of_byte b < 128) (format_for_deposit a).
Proof.
  unfold format_for_deposit, as_base58. rewrite !Forall_app.
  split_and!; [|apply base58_ascii| |apply hex_encode_ascii];
    refine (bool_decide_unpack _ _); by vm_compute.
Qed.

(** C18: An address survives being printed for a deposit and parsed; and a text parses
    as an address exactly if it is the prefix of this sidechain, an address in base58,
    and a checksum: digits, in either case and at least one, with which the digest of
    prefix and address starts. *)
Theorem deposit_address_roundtrip `{!TextLaws X} :
  (∀ a, from_deposit_address (format_for_deposit a) = Ok a) ∧
  (∀ s a, from_deposit_address s = Ok a ↔ ∃ address_str checksum,
    s = deposit_prefix ++ address_str ++ x5f :: checksum ∧
    checksum_of address_str checksum ∧ base58_decode address_str = Some (arr_bytes a)).
Proof.
  split.
  - intros a. apply format_for_deposit_accepted.
  - intros s a. rewrite from_deposit_address_Ok. do 2 (apply exist_proper; intros ?).
    by rewrite address_from_str_Ok.
Qed.
End Addresses.

(** ** An instance: hexadecimal for base58, and the last 32 bytes for SHA-256 *)
Module ToyText.
Definition last_bytes (l : list byte) : Hash :=
  default zero_hash (arr_of_slice 32 (take 32 (reverse l ++ replicate 32 x00))).
#[local] Instance toy_text : ExtText := {|
  base58_encode := hex_encode; base58_decode := hex_decode; sha256 := last_bytes |}.
#[local] Instance toy_text_laws : TextLaws toy_text.
Proof. split; [apply hex_decode_encode|intros l; apply lower_hex_encode|apply hex_encode_ascii]. Qed.

Definition alice : Address := arr_repeat 20 xab.

Example deposit_address_roundtrip_witness :
  format_for_deposit alice
  = str_bytes "s255_abababababababababababababababababababab_5f6261" ∧
  from_deposit_address (format_for_deposit alice) = Ok alice.
Proof. split; [by vm_compute|]. apply (proj1 deposit_address_roundtrip alice). Defined.

(** The digits of the checksum may be in upper case, and more than three bytes; another
    sidechain's prefix, a wrong checksum or none are refused, each with its error. *)
Example deposit_address_cases :
  let prefix := str_bytes "s255_abababababababababababababababababababab_" in
  is_ok (from_deposit_address (prefix ++ str_bytes "5F6261626")) = true ∧
  from_deposit_address (prefix ++ str_bytes "ffffff")
  = Err (WrongDepositChecksum (prefix ++ str_bytes "ffffff") (str_bytes "ffffff")) ∧
  from_deposit_address prefix = Err (MissingDepositChecksum prefix) ∧
  from_deposit_address (str_bytes "s0_abab_5f") = Err (MissingDepositPrefix (str_bytes "s0_abab_5f")) ∧
  from_deposit_address (str_bytes "s255_abab_5f6261626") = Err (WrongLength 2).
Proof. by vm_compute. Qed.
End ToyText.
