(* ===== verification/TxTypes.v ===== *)
(** Transactions and outputs (lib/types/transaction.rs): outpoints and their
    database keys, output contents and values, transaction data, filled
    transactions and their fees. *)
From S2P Require Import Prelude Bytes SwapTypes.

(** Types of other crates that the code stores and passes on: a mainchain
    address ([bitcoin::Address<NetworkUnchecked>]), a Utreexo proof and
    accumulator ([rustreexo]), and Schnorr keys and signatures
    ([frost_ristretto255]). *)
Class ExtTypes := {
  BtcAddress : Type;
  BtcAddress_eq_dec :: EqDecision BtcAddress;
  UtreexoProof : Type;
  MemForest : Type;
  VerifyingKey : Type;
  Signature : Type;
}.

(** ** Outpoints *)
Inductive OutPoint :=
| Regular (txid : Txid) (vout : Z)
| Coinbase (merkle_root : MerkleRoot) (vout : Z)
| Deposit (txid : BtcTxid) (vout : Z).

#[export] Instance OutPoint_eq_dec : EqDecision OutPoint.
Proof. solve_decision. Defined.
#[export] Instance OutPoint_countable : Countable OutPoint.
Proof.
  refine (inj_countable'
    (λ o, match o with
          | Regular t v => inl (t, v)
          | Coinbase m v => inr (inl (m, v))
          | Deposit t v => inr (inr (t, v))
          end)
    (λ p, match p with
          | inl (t, v) => Regular t v
          | inr (inl (m, v)) => Coinbase m v
          | inr (inr (t, v)) => Deposit t v
          end) _).
  by intros [].
Defined.

(** The [vout] of a well-formed outpoint is a [u32]. *)
Definition outpoint_wf (o : OutPoint) : Prop :=
  match o with
  | Regular _ v | Coinbase _ v | Deposit _ v => is_u32 v
  end.

Definition OUTPOINT_KEY_SIZE : nat := 37.

(** [OutPointKey::from(outpoint)]: the canonical Borsh encoding, a variant index
    of one byte, the 32 bytes of the hash, and [vout] little-endian. *)
Definition outpoint_key (o : OutPoint) : list byte :=
  match o with
  | Regular txid vout => x00 :: arr_bytes txid ++ le_bytes 4 vout
  | Coinbase merkle_root vout => x01 :: arr_bytes merkle_root ++ le_bytes 4 vout
  | Deposit txid vout => x02 :: arr_bytes txid ++ le_bytes 4 vout
  end.

(** [OutPoint::deserialize_reader] on the bytes of a key, [None] for an error. *)
Definition outpoint_of_key (key : list byte) : option OutPoint :=
  match key with
  | [] => None
  | tag :: rest =>
      hash ← arr_of_slice 32 (take 32 rest);
      let vout_bytes := take 4 (drop 32 rest) in
      if decide (length vout_bytes = 4%nat) then
        let vout := le_value vout_bytes in
        match tag with
        | x00 => Some (Regular hash vout)
        | x01 => Some (Coinbase hash vout)
        | x02 => Some (Deposit hash vout)
        | _ => None
        end
      else None
  end.

(** The derived [Ord] of [OutPoint], as a byte string whose lexicographic order
    is that order: variant, hash, [vout] (most significant byte first). *)
Definition outpoint_ord_key (o : OutPoint) : list byte :=
  match o with
  | Regular h vout => x00 :: arr_bytes h ++ reverse (le_bytes 4 vout)
  | Coinbase h vout => x01 :: arr_bytes h ++ reverse (le_bytes 4 vout)
  | Deposit h vout => x02 :: arr_bytes h ++ reverse (le_bytes 4 vout)
  end.

Lemma outpoint_key_length o : length (outpoint_key o) = OUTPOINT_KEY_SIZE.
Proof.
  destruct o; cbn [outpoint_key length];
    rewrite length_app, arr_length, length_le_bytes; done.
Qed.

Lemma outpoint_of_key_parts (h : array 32) v :
  is_u32 v →
  arr_of_slice 32 (take 32 (arr_bytes h ++ le_bytes 4 v)) = Some h ∧
  take 4 (drop 32 (arr_bytes h ++ le_bytes 4 v)) = le_bytes 4 v ∧
  le_value (le_bytes 4 v) = v.
Proof.
  intros Hv. rewrite take_app_length', drop_app_length' by (by rewrite arr_length).
  rewrite arr_of_slice_bytes, take_ge by (by rewrite length_le_bytes).
  split_and!; [done..|]. apply le_value_bytes.
  unfold is_u32, u32_MAX in Hv. change (256 ^ Z.of_nat 4) with (2 ^ 32). lia.
Qed.

(** ** Outputs *)
Section Types.
Context {T : ExtTypes}.

Inductive Content :=
| Value (value : Z)
| Withdrawal (value main_fee : Z) (main_address : BtcAddress)
| SwapPending (value : Z) (swap_id : SwapId).

#[export] Instance Content_eq_dec : EqDecision Content.
Proof. solve_decision. Defined.

Definition is_value (c : Content) : bool :=
  match c with Value _ => true | _ => false end.
Definition is_withdrawal (c : Content) : bool :=
  match c with Withdrawal _ _ _ => true | _ => false end.
Definition is_swap_pending (c : Content) : bool :=
  match c with SwapPending _ _ => true | _ => false end.

(** [GetValue for Content]; [bitcoin::Amount::MAX] is [u64::MAX]. *)
Definition content_value (c : Content) : Z :=
  match c with
  | Value value => value
  | Withdrawal value main_fee _ =>
      default u64_MAX (u64_checked_add value main_fee)
  | SwapPending value _ => value
  end.

Record Output := mkOutput { address : Address; content : Content }.

#[export] Instance Output_eq_dec : EqDecision Output.
Proof. solve_decision. Defined.

Definition get_value (o : Output) : Z := content_value (content o).

(** ** Transactions *)
Inductive TxData :=
| RegularTx
| SwapCreate (swap_id : SwapId) (parent_chain : ParentChainType)
    (l1_txid_bytes : list byte) (required_confirmations : Z)
    (l2_recipient : option Address) (l2_amount : Z)
    (l1_recipient_address : string) (l1_amount : Z)
| SwapClaim (swap_id : SwapId) (l2_claimer_address : option Address)
    (proof_data : option (list byte))
| SwapAccept (swap_id : SwapId) (l2_claimer_address : Address).

Record Transaction := mkTransaction {
  inputs : list (OutPoint * Hash);
  proof : UtreexoProof;
  outputs : list Output;
  data : TxData;
}.

Inductive InPoint :=
| InRegular (txid : Txid) (vin : Z)
| InWithdrawal (m6id : M6id).

#[export] Instance InPoint_eq_dec : EqDecision InPoint.
Proof. solve_decision. Defined.

Record SpentOutput := mkSpentOutput { output : Output; inpoint : InPoint }.

#[export] Instance SpentOutput_eq_dec : EqDecision SpentOutput.
Proof. solve_decision. Defined.

Record PointedOutput := mkPointedOutput { po_outpoint : OutPoint; po_output : Output }.

Record FilledTransaction := mkFilled {
  transaction : Transaction;
  spent_utxos : list Output;
}.

Inductive ComputeFeeError := Underfunded | ValueInOverflow | ValueOutOverflow.

Definition get_value_in (self : FilledTransaction) : option Z :=
  checked_sum get_value (spent_utxos self).

Definition get_value_out (self : FilledTransaction) : option Z :=
  checked_sum get_value (outputs (transaction self)).

Definition get_fee (self : FilledTransaction) : res ComputeFeeError Z :=
  value_in ← ok_or (get_value_in self) ValueInOverflow;
  value_out ← ok_or (get_value_out self) ValueOutOverflow;
  if value_in <? value_out then Err Underfunded else Ok (value_in - value_out).

(** [FilledTransaction::inputs], the inputs zipped with what they spend. *)
Definition filled_inputs (self : FilledTransaction) :
    list (OutPoint * Hash * Output) :=
  zip (inputs (transaction self)) (spent_utxos self).

Record Authorization := mkAuthorization {
  verifying_key : VerifyingKey;
  signature : Signature;
}.

Record Authorized (A : Type) := mkAuthorized {
  authorized_tx : A;
  authorizations : list Authorization;
}.

(** ** Well-formed outputs: every amount is a [u64]. *)
Definition content_wf (c : Content) : Prop :=
  match c with
  | Value v | SwapPending v _ => is_u64 v
  | Withdrawal v f _ => is_u64 v ∧ is_u64 f
  end.
Definition output_wf (o : Output) : Prop := content_wf (content o).

Lemma get_value_range o : output_wf o → is_u64 (get_value o).
Proof.
  destruct o as [a []]; unfold output_wf, get_value; simpl; unfold is_u64;
    [done| |done].
  intros [? ?]. unfold u64_checked_add.
  destruct (Z.leb_spec (value + main_fee) u64_MAX); simpl; [lia|].
  by vm_compute.
Qed.
End Types.
Arguments mkAuthorized {T A}.
Arguments authorized_tx {T A}.
Arguments authorizations {T A}.

Lemma outpoint_of_key_wf o :
  outpoint_wf o → outpoint_of_key (outpoint_key o) = Some o.
Proof.
  intros Hwf.
  destruct o as [h v|h v|h v]; destruct (outpoint_of_key_parts h v Hwf) as (H1 & H2 & H3);
    cbn [outpoint_of_key outpoint_key]; rewrite H1, H2, H3; by cbn.
Qed.

(** The key of an outpoint has 37 bytes and decodes to that outpoint, so two
    outpoints never share a key of the UTXO database. *)
Theorem outpoint_key_roundtrip o o' :
  outpoint_wf o → outpoint_wf o' →
  outpoint_of_key (outpoint_key o) = Some o ∧
  length (outpoint_key o) = OUTPOINT_KEY_SIZE ∧
  (outpoint_key o = outpoint_key o' ↔ o = o').
Proof.
  intros Ho Ho'. split_and!; [by apply outpoint_of_key_wf|apply outpoint_key_length|].
  split; [|by intros ->]. intros Heq.
  apply outpoint_of_key_wf in Ho, Ho'. rewrite Heq in Ho. congruence.
Qed.

Lemma outpoint_key_roundtrip_witness :
  outpoint_of_key (outpoint_key (Deposit zero_hash 258)) = Some (Deposit zero_hash 258) ∧
  outpoint_key (Deposit zero_hash 258) ≠ outpoint_key (Coinbase zero_hash 258).
Proof.
  destruct (outpoint_key_roundtrip (Deposit zero_hash 258) (Coinbase zero_hash 258))
    as (H1 & _ & H2); [by vm_compute|by vm_compute|].
  split; [exact H1|]. by intros [=]%H2.
Defined.
