(* ===== verification/Accumulator.v ===== *)
(** Accumulator diffs (lib/types/mod.rs, [AccumulatorDiff]): the insertions and
    removals of leaf hashes that a block collects, in which an insertion and a
    removal of the same hash cancel out.

    The [LinkedHashMap] is an association list in insertion order. *)
From S2P Require Import Prelude Bytes.

Module AccumulatorDiff.

Record t := mk {
diff : list (Hash * bool);   (* [true] insertion, [false] removal *)
insertions : Z;
deletions : Z;
}.

Definition empty : t := {| diff := []; insertions := 0; deletions := 0 |}.

(** The entry of a hash in the map. *)
Fixpoint entry (h : Hash) (l : list (Hash * bool)) : option bool :=
match l with
| [] => None
| (k, b) :: l => if decide (k = h) then Some b else entry h l
end.

(** [entry.remove()] *)
Fixpoint remove_entry (h : Hash) (l : list (Hash * bool)) : list (Hash * bool) :=
match l with
| [] => []
| (k, b) :: l => if decide (k = h) then l else (k, b) :: remove_entry h l
end.

Definition insert (h : Hash) (self : t) : t :=
match entry h (diff self) with
| Some false =>
    {| self with
       diff := remove_entry h (diff self);
       deletions := deletions self - 1 |}
| Some true => self
| None =>
    {| self with
       diff := diff self ++ [(h, true)];
       insertions := insertions self + 1 |}
end.

Definition remove (h : Hash) (self : t) : t :=
match entry h (diff self) with
| Some true =>
    {| self with
       diff := remove_entry h (diff self);
       insertions := insertions self - 1 |}
| Some false => self
| None =>
    {| self with
       diff := diff self ++ [(h, false)];
       deletions := deletions self + 1 |}
end.

Definition counts (self : t) : Z * Z := (insertions self, deletions self).
Definition is_empty (self : t) : bool := bool_decide (diff self = []).

(** The two lists that [Accumulator::apply_diff] hands to the forest. *)
Definition inserted (self : t) : list Hash :=
(filter (λ p, p.2 = true) (diff self)).*1.
Definition deleted (self : t) : list Hash :=
(filter (λ p, p.2 = false) (diff self)).*1.

(** ** Well-formedness: one entry per hash, and the counters count. *)
Definition wf (self : t) : Prop :=
NoDup (diff self).*1 ∧
insertions self = Z.of_nat (length (inserted self)) ∧
deletions self = Z.of_nat (length (deleted self)).

Lemma entry_Some_elem h b l : entry h l = Some b → (h, b) ∈ l.
Proof.
induction l as [|[k c] l IH]; simpl; [done|].
case_decide; [intros [= ->]; subst; set_solver|set_solver].
Qed.

Lemma entry_None h l : entry h l = None ↔ h ∉ l.*1.
Proof.
induction l as [|[k c] l IH]; simpl; [set_solver|].
case_decide; set_solver.
Qed.

Lemma elem_entry h b l : NoDup l.*1 → (h, b) ∈ l → entry h l = Some b.
Proof.
induction l as [|[k c] l IH]; simpl; [set_solver|].
intros [Hk Hl]%NoDup_cons [Heq|Hin]%elem_of_cons.
- simplify_eq. by rewrite decide_True.
- case_decide as Hd; [|by apply IH].
  subst. destruct Hk. apply (list_elem_of_fmap_2 fst) in Hin. done.
Qed.

Lemma entry_app h l k :
entry h (l ++ k) = match entry h l with Some b => Some b | None => entry h k end.
Proof. induction l as [|[j c] l IH]; simpl; [done|]. by case_decide. Qed.

Lemma entry_remove_entry h g l :
NoDup l.*1 →
entry g (remove_entry h l) = if decide (g = h) then None else entry g l.
Proof.
induction l as [|[k c] l IH]; simpl; [by case_decide|].
intros [Hk Hl]%NoDup_cons. destruct (decide (k = h)) as [->|Hne].
- destruct (decide (g = h)) as [->|Hg]; [by apply entry_None|].
  by rewrite decide_False.
- simpl. rewrite IH by done.
  destruct (decide (k = g)) as [->|]; [by rewrite decide_False|done].
Qed.

Lemma remove_entry_sublist h l : remove_entry h l `sublist_of` l.
Proof.
induction l as [|[k c] l IH]; simpl; [constructor|].
case_decide; [by apply sublist_cons|by apply sublist_skip].
Qed.

Lemma remove_entry_absent h l : h ∉ l.*1 → remove_entry h l = l.
Proof.
induction l as [|[k c] l IH]; simpl; [done|].
intros Hh. rewrite decide_False by set_solver. f_equal. set_solver.
Qed.

Lemma remove_entry_app_last h b l : h ∉ l.*1 → remove_entry h (l ++ [(h, b)]) = l.
Proof.
induction l as [|[k c] l IH]; simpl; [by rewrite decide_True|].
intros Hh. rewrite decide_False by set_solver. f_equal. set_solver.
Qed.

Lemma count_entry_pos h b l :
entry h l = Some b → (1 ≤ length (filter (λ p : Hash * bool, p.2 = b) l))%nat.
Proof.
intros He%entry_Some_elem.
assert ((h, b) ∈ filter (λ p : Hash * bool, p.2 = b) l) as Hin
  by (apply list_elem_of_filter; done).
destruct (filter _ l); [by apply elem_of_nil in Hin|simpl; lia].
Qed.

Lemma count_remove_entry h b c l :
entry h l = Some b →
length (filter (λ p : Hash * bool, p.2 = c) (remove_entry h l)) =
(length (filter (λ p : Hash * bool, p.2 = c) l) - (if decide (b = c) then 1 else 0))%nat.
Proof.
induction l as [|[k d] l IH]; simpl; [done|].
destruct (decide (k = h)) as [->|Hk].
- intros [= ->]. destruct (decide (b = c)) as [->|].
  + rewrite filter_cons_True by done. simpl. lia.
  + rewrite filter_cons_False by done. lia.
- intros He. specialize (IH He).
  assert (b = c → (1 ≤ length (filter (λ p : Hash * bool, p.2 = c) l))%nat) as Hpos
    by (intros <-; eapply count_entry_pos, He).
  destruct (decide (d = c)) as [->|].
  + rewrite !filter_cons_True by done. simpl. rewrite IH.
    destruct (decide (b = c)) as [Hbc|]; [specialize (Hpos Hbc)|]; lia.
  + rewrite !filter_cons_False by done. done.
Qed.

Ltac diff_lengths :=
unfold inserted, deleted in *; simpl in *;
rewrite ?filter_app, ?fmap_app, ?length_app, ?length_fmap in *; simpl in *.

Lemma wf_empty : wf empty.
Proof. split_and!; [constructor|done..]. Qed.

Lemma wf_append h b d :
wf d → entry h (diff d) = None →
wf {| diff := diff d ++ [(h, b)];
      insertions := insertions d + (if b then 1 else 0);
      deletions := deletions d + (if b then 0 else 1) |}.
Proof.
intros (Hnd & Hi & Hd) He%entry_None. split_and!; simpl.
- rewrite fmap_app. apply NoDup_app. split_and!; [done| |apply NoDup_singleton].
  set_solver.
- rewrite Hi. diff_lengths. destruct b; simpl; lia.
- rewrite Hd. diff_lengths. destruct b; simpl; lia.
Qed.

Lemma wf_cancel h b d :
wf d → entry h (diff d) = Some b →
wf {| diff := remove_entry h (diff d);
      insertions := insertions d - (if b then 1 else 0);
      deletions := deletions d - (if b then 0 else 1) |}.
Proof.
intros (Hnd & Hi & Hd) He. split_and!; simpl.
- eapply sublist_NoDup; [exact Hnd|].
  apply fmap_sublist, remove_entry_sublist.
- rewrite Hi. diff_lengths. rewrite (count_remove_entry h b true) by done.
  pose proof (count_entry_pos h b _ He). destruct b; simpl; lia.
- rewrite Hd. diff_lengths. rewrite (count_remove_entry h b false) by done.
  pose proof (count_entry_pos h b _ He). destruct b; simpl; lia.
Qed.

Lemma wf_insert h d : wf d → wf (insert h d).
Proof.
intros Hwf. unfold insert. destruct (entry h (diff d)) as [[]|] eqn:He; [done| |].
- pose proof (wf_cancel h false d Hwf He) as H.
  simpl in H. by rewrite Z.sub_0_r in H.
- pose proof (wf_append h true d Hwf He) as H.
  simpl in H. by rewrite Z.add_0_r in H.
Qed.

Lemma wf_remove h d : wf d → wf (remove h d).
Proof.
intros Hwf. unfold remove. destruct (entry h (diff d)) as [[]|] eqn:He; [|done|].
- pose proof (wf_cancel h true d Hwf He) as H.
  simpl in H. by rewrite Z.sub_0_r in H.
- pose proof (wf_append h false d Hwf He) as H.
  simpl in H. by rewrite Z.add_0_r in H.
Qed.

(** The entries after an operation. *)
Definition bump (b : bool) (e : option bool) : option bool :=
match e with
| Some c => if decide (b = c) then Some c else None
| None => Some b
end.

Lemma entry_insert h g d :
wf d →
entry g (diff (insert h d)) =
if decide (g = h) then bump true (entry g (diff d)) else entry g (diff d).
Proof.
intros (Hnd & _). unfold insert, bump.
destruct (entry h (diff d)) as [[]|] eqn:He; simpl.
- by destruct (decide (g = h)) as [->|]; [rewrite He|].
- rewrite entry_remove_entry by done.
  by destruct (decide (g = h)) as [->|]; [rewrite He|].
- rewrite entry_app. simpl. destruct (decide (g = h)) as [->|].
  + by rewrite He, decide_True.
  + rewrite decide_False by done. by destruct (entry g (diff d)).
Qed.

Lemma entry_remove h g d :
wf d →
entry g (diff (remove h d)) =
if decide (g = h) then bump false (entry g (diff d)) else entry g (diff d).
Proof.
intros (Hnd & _). unfold remove, bump.
destruct (entry h (diff d)) as [[]|] eqn:He; simpl.
- rewrite entry_remove_entry by done.
  by destruct (decide (g = h)) as [->|]; [rewrite He|].
- by destruct (decide (g = h)) as [->|]; [rewrite He|].
- rewrite entry_app. simpl. destruct (decide (g = h)) as [->|].
  + by rewrite He, decide_True.
  + rewrite decide_False by done. by destruct (entry g (diff d)).
Qed.

Lemma elem_inserted h d : wf d → h ∈ inserted d ↔ entry h (diff d) = Some true.
Proof.
intros (Hnd & _). unfold inserted. rewrite list_elem_of_fmap. split.
- intros ([k b] & -> & [Hb Hin]%list_elem_of_filter). simpl in *; subst.
  by apply elem_entry.
- intros He. exists (h, true). split; [done|]. apply list_elem_of_filter.
  split; [done|by apply entry_Some_elem].
Qed.

Lemma elem_deleted h d : wf d → h ∈ deleted d ↔ entry h (diff d) = Some false.
Proof.
intros (Hnd & _). unfold deleted. rewrite list_elem_of_fmap. split.
- intros ([k b] & -> & [Hb Hin]%list_elem_of_filter). simpl in *; subst.
  by apply elem_entry.
- intros He. exists (h, false). split; [done|]. apply list_elem_of_filter.
  split; [done|by apply entry_Some_elem].
Qed.

(** ** Operations in sequence *)
Inductive op := Insert (h : Hash) | Remove (h : Hash).

Definition op_hash (o : op) : Hash := match o with Insert h | Remove h => h end.
Definition op_dir (o : op) : bool := match o with Insert _ => true | Remove _ => false end.

Definition step (d : t) (o : op) : t :=
match o with Insert h => insert h d | Remove h => remove h d end.

Definition run (ops : list op) : t := fold_left step ops empty.

Lemma wf_run ops : wf (run ops).
Proof.
unfold run. generalize wf_empty. generalize empty.
induction ops as [|[h|h] ops IH]; intros d Hd; simpl; [done|..].
- apply IH, wf_insert, Hd.
- apply IH, wf_remove, Hd.
Qed.

Lemma entry_fold ops d h :
wf d →
entry h (diff (fold_left step ops d)) =
fold_left (λ e o, if decide (h = op_hash o) then bump (op_dir o) e else e)
  ops (entry h (diff d)).
Proof.
revert d; induction ops as [|[g|g] ops IH]; intros d Hd; simpl; [done|..].
- rewrite IH by by apply wf_insert. by rewrite entry_insert.
- rewrite IH by by apply wf_remove. by rewrite entry_remove.
Qed.

(** ** The set of leaves as the specification

  A leaf set evolves by adding leaves that are absent and removing leaves that
  are present; a diff collects such an evolution from [S0] to [S]. *)
Definition set_step (S : gset Hash) (o : op) : option (gset Hash) :=
match o with
| Insert h => if decide (h ∈ S) then None else Some ({[h]} ∪ S)
| Remove h => if decide (h ∈ S) then Some (S ∖ {[h]}) else None
end.

Definition set_run (S : gset Hash) (ops : list op) : option (gset Hash) :=
fold_left (λ acc o, S ← acc; set_step S o) ops (Some S).

Definition tracks (S0 S : gset Hash) (d : t) : Prop :=
∀ h, entry h (diff d) =
  if decide (h ∈ S0) then (if decide (h ∈ S) then None else Some false)
  else (if decide (h ∈ S) then Some true else None).

Lemma tracks_step S0 S d o S' :
wf d → tracks S0 S d → set_step S o = Some S' → tracks S0 S' (step d o).
Proof.
intros Hwf Htr Hs h. specialize (Htr h).
destruct o as [g|g]; simpl in *; case_decide as Hg; try done; simplify_eq.
- rewrite entry_insert, Htr by done.
  destruct (decide (h = g)) as [->|]; unfold bump;
    repeat case_decide; try done; set_solver.
- rewrite entry_remove, Htr by done.
  destruct (decide (h = g)) as [->|]; unfold bump;
    repeat case_decide; try done; set_solver.
Qed.

Lemma set_run_None ops :
fold_left (λ acc o, S ← acc; set_step S o) ops None = None.
Proof. by induction ops. Qed.

Lemma tracks_run S0 S d ops S' :
wf d → tracks S0 S d → set_run S ops = Some S' →
tracks S0 S' (fold_left step ops d).
Proof.
revert S d; induction ops as [|o ops IH]; intros S d Hwf Htr; simpl.
- by intros [= <-].
- unfold set_run; simpl.
  destruct (set_step S o) as [S1|] eqn:Ho; [|by rewrite set_run_None].
  intros Hrun. eapply IH; [|by eapply tracks_step|exact Hrun].
  destruct o; [by apply wf_insert|by apply wf_remove].
Qed.

(** What a sequence of operations collects. *)
Lemma run_inserted ops S0 S h :
  set_run S0 ops = Some S → h ∈ inserted (run ops) ↔ h ∉ S0 ∧ h ∈ S.
Proof.
  intros Hrun. rewrite elem_inserted by apply wf_run.
  rewrite (tracks_run S0 S0 empty ops S); [|apply wf_empty| |done].
  - repeat case_decide; naive_solver.
  - intros g. simpl. by repeat case_decide.
Qed.

Lemma run_deleted ops S0 S h :
  set_run S0 ops = Some S → h ∈ deleted (run ops) ↔ h ∈ S0 ∧ h ∉ S.
Proof.
  intros Hrun. rewrite elem_deleted by apply wf_run.
  rewrite (tracks_run S0 S0 empty ops S); [|apply wf_empty| |done].
  - repeat case_decide; naive_solver.
  - intros g. simpl. by repeat case_decide.
Qed.

Lemma NoDup_filter_fst (P : Hash * bool → Prop) `{∀ x, Decision (P x)} l :
  NoDup l.*1 → NoDup (filter P l).*1.
Proof.
  induction l as [|[h b] l IH]; [done|]. csimpl. intros [Hni Hnd]%NoDup_cons.
  rewrite filter_cons. case_decide; [|by apply IH]. csimpl. apply NoDup_cons.
  split; [|by apply IH]. intros ([h' b'] & -> & [_ Hin]%list_elem_of_filter)%list_elem_of_fmap.
  apply Hni, list_elem_of_fmap. by exists (h', b').
Qed.

Lemma NoDup_inserted ops : NoDup (inserted (run ops)).
Proof. apply NoDup_filter_fst, (wf_run ops). Qed.
Lemma NoDup_deleted ops : NoDup (deleted (run ops)).
Proof. apply NoDup_filter_fst, (wf_run ops). Qed.
End AccumulatorDiff.

(** C28: A diff is exactly the net change of the leaf set it was collected from:
    it inserts only absent leaves, deletes only present ones, and applying it to
    the starting set gives the final set. *)
Theorem accumulator_diff_refines_set ops S0 S :
  AccumulatorDiff.set_run S0 ops = Some S →
  let d := AccumulatorDiff.run ops in
  (∀ h, h ∈ AccumulatorDiff.inserted d ↔ h ∉ S0 ∧ h ∈ S) ∧
  (∀ h, h ∈ AccumulatorDiff.deleted d ↔ h ∈ S0 ∧ h ∉ S) ∧
  AccumulatorDiff.counts d =
    (Z.of_nat (length (AccumulatorDiff.inserted d)),
     Z.of_nat (length (AccumulatorDiff.deleted d))).
Proof.
  intros Hrun d. split_and!.
  - intros h. by apply AccumulatorDiff.run_inserted.
  - intros h. by apply AccumulatorDiff.run_deleted.
  - destruct (AccumulatorDiff.wf_run ops) as (_ & Hi & Hd). unfold AccumulatorDiff.counts.
    subst d. by rewrite Hi, Hd.
Qed.

Lemma accumulator_diff_refines_set_witness :
  let a := arr_repeat 32 x01 in
  let b := arr_repeat 32 x02 in
  let ops := [AccumulatorDiff.Insert b; AccumulatorDiff.Remove a;
              AccumulatorDiff.Remove b] in
  AccumulatorDiff.deleted (AccumulatorDiff.run ops) = [a] ∧
  (∀ h, h ∈ AccumulatorDiff.deleted (AccumulatorDiff.run ops) ↔
        h ∈ ({[a]} : gset Hash) ∧ h ∉ (∅ : gset Hash)).
Proof.
  intros a b ops. split; [by vm_compute|].
  apply (accumulator_diff_refines_set ops {[a]} ∅).
  by vm_compute.
Defined.
