(* ===== verification/Externals.v ===== *)
(** What the program calls in other crates, as parameters.

    Hashing (BLAKE3), encodings (Borsh, bincode), the Utreexo forest
    (rustreexo), the CBMT Merkle tree (merkle_cbt), signatures
    (frost_ristretto255) and the mainchain's transactions (bitcoin) are not code
    of the repository.  Every definition that uses them takes them from the class
    [ExtFuns]; a theorem that needs a property of one of them states it. *)
From S2P Require Import Prelude Bytes SwapTypes TxTypes.

(** [bitcoin::TxOut] *)
Record TxOut := mkTxOut { txout_value : Z; txout_script_pubkey : list byte }.

#[export] Instance TxOut_eq_dec : EqDecision TxOut.
Proof. solve_decision. Defined.

Class ExtFuns {T : ExtTypes} := {
  (* blake3 *)
  ext_blake3 :: Blake3;
  blake3_xof_20 : list byte → Address;
  (* borsh; the proof of a transaction is skipped *)
  borsh_transaction : list (OutPoint * Hash) → list Output → TxData → list byte;
  borsh_pointed_output : OutPoint → Output → list byte;
  borsh_outputs : list Output → list byte;
  borsh_outpoints : list OutPoint → list byte;
  borsh_header :
    MerkleRoot → option BlockHash → BtcBlockHash → list Hash → list byte;
  borsh_body_length :
    list Output → list Transaction → list Authorization → Z;
  (* bincode: a swap record survives [deserialize (serialize swap)] *)
  bincode_swap_ok : Swap → bool;
  (* bincode: the key that a database keyed by [SerdeBincode<u32>] stores *)
  bincode_u32 : Z → list byte;
  (* rustreexo: [None] is an error *)
  forest_default : MemForest;
  forest_modify : MemForest → list Hash → list Hash → option MemForest;
  forest_verify : MemForest → UtreexoProof → list Hash → option bool;
  forest_prove : MemForest → list Hash → option UtreexoProof;
  forest_roots : MemForest → list Hash;
  (* merkle_cbt: [CBMT::build_merkle_root] over a merge that may panic *)
  cbmt_build_merkle_root :
    ∀ {N : Type}, (N → N → option N) → N → list N → option N;
  (* borsh: a slice of bytes, and a [usize] *)
  borsh_slice : list byte → list byte;
  borsh_usize : Z → list byte;
  (* blake3: a keyed hash *)
  blake3_keyed : list byte → list byte → Hash;
  (* frost_ristretto255: a compressed key, the two parts of a signature *)
  vk_bytes : VerifyingKey → list byte;
  signature_R : Signature → list byte;
  signature_z : Signature → list byte;
  (* frost_core: an item of a batch, and the verification of a batch with the
     randomness of ChaCha20 from a seed *)
  FrostItem : Type;
  frost_item_new : VerifyingKey → Signature → list byte → option FrostItem;
  frost_batch_verify : Hash → list FrostItem → bool;
  (* rand: the key that [BatchVerificationContext::new] draws for the node *)
  mac_key : list byte;
  (* bitcoin *)
  script_pubkey : BtcAddress → list byte;
  BtcAddress_le : relation BtcAddress;
  BtcAddress_le_dec :: RelDecision BtcAddress_le;
  op_return_push : list byte → list byte;
  btc_txid : list TxOut → BtcTxid;
  btc_weight : list TxOut → Z;
  varint_size : Z → Z;
  (* [(start as f64 * 1.04f64.powi(month)).floor()]: the standard library leaves
     the precision of [powi] unspecified *)
  f64_limit_growth : Z → Z → Z;
}.

Section Hashing.
Context {T : ExtTypes} {X : ExtFuns}.

(** [Transaction::txid] *)
Definition txid (tx : Transaction) : Txid :=
  blake3 (borsh_transaction (inputs tx) (outputs tx) (data tx)).

(** [Transaction::canonical_encoding] *)
Definition canonical_encoding (tx : Transaction) : list byte :=
  borsh_transaction (inputs tx) (outputs tx) (data tx).

(** [Transaction::canonical_size]: the length of the encoding over 8. *)
Definition canonical_size (tx : Transaction) : Z :=
  Z.of_nat (length (borsh_transaction (inputs tx) (outputs tx) (data tx))) / 8.

(** [hash(&PointedOutput { outpoint, output })], also the conversion to a
    [BitcoinNodeHash]. *)
Definition hash_pointed (outpoint : OutPoint) (output : Output) : Hash :=
  blake3 (borsh_pointed_output outpoint output).

(** [authorization::get_address] and [GetAddress for Authorization] *)
Definition get_address (vk : VerifyingKey) : Address :=
  blake3_xof_20 (vk_bytes vk).
Definition auth_address (a : Authorization) : Address :=
  get_address (verifying_key a).

(** The outpoints of a transaction's outputs, in order. *)
Definition regular_outputs (tid : Txid) (outs : list Output) :
    list (OutPoint * Output) :=
  imap (λ vout out, (Regular tid (Z.of_nat vout `mod` 2 ^ 32), out)) outs.
Definition coinbase_outputs (root : MerkleRoot) (outs : list Output) :
    list (OutPoint * Output) :=
  imap (λ vout out, (Coinbase root (Z.of_nat vout `mod` 2 ^ 32), out)) outs.
End Hashing.
