(* ===== verification/Ancestry.v ===== *)
(** Ancestors of blocks by exponentially spaced links (lib/archive/mod.rs).

    The archive keeps two trees of blocks, the sidechain's and the mainchain's,
    and runs the same algorithms on each, written out twice.  Here an algorithm is
    written once, over a record of the reads that it makes; Archive.v gives the
    two instances.  A block of height [h] has a row of links to its ancestors
    [2, 4, 8, ...] blocks before it, as far as [h] goes. *)
From S2P Require Import Prelude.

(** Two outcomes of one read are equal. *)
Ltac same_Ok := repeat
  match goal with
  | H : ?x = Ok ?a, H' : ?x = Ok ?b |- _ =>
      assert (b = a) by congruence; clear H'; first [subst b|subst a|simplify_eq]
  end.

(** What the algorithms read of a block: its height, its parent if it has one, its
    row of links; and the error that reports a missing ancestor. *)
Record Lineage (K E : Type) := mkLineage {
  lin_height : K → res E Z;
  lin_parent : K → res E K;
  lin_exponential : K → res E (list K);
  lin_no_ancestor : K → Z → E;
}.
Arguments mkLineage {K E} _ _ _ _.
Arguments lin_height {K E} _ _.
Arguments lin_parent {K E} _ _.
Arguments lin_exponential {K E} _ _.
Arguments lin_no_ancestor {K E} _ _ _.

Section Algorithms.
Context {K E : Type} `{EqDecision K} (L : Lineage K E).

(** The loop of [get_nth_ancestor].  Every turn clears the highest bit of [n],
    so 32 of them are enough; running out of them is not an outcome of the code
    ([nth_ancestor_fuel]). *)
Fixpoint nth_ancestor_loop (fuel : nat) (orig_block_hash : K) (orig_n : Z)
    (block_hash : K) (n : Z) : res E K :=
  if 0 <? n then
    height ← lin_height L block_hash;
    if height <? n then Err (lin_no_ancestor L orig_block_hash orig_n)
    else if n =? 1 then lin_parent L block_hash
    else
      match fuel with
      | O => Panic
      | S fuel =>
          let exp_ancestor_index := Z.log2 n - 1 in
          exponential_ancestors ← lin_exponential L block_hash;
          block_hash ← expect (exponential_ancestors !! Z.to_nat exp_ancestor_index);
          nth_ancestor_loop fuel orig_block_hash orig_n block_hash
            (n - Z.shiftl 2 exp_ancestor_index)
      end
  else Ok block_hash.

(** [get_nth_ancestor] *)
Definition nth_ancestor (block_hash : K) (n : Z) : res E K :=
  nth_ancestor_loop 32 block_hash n block_hash n.

(** The loop that fills the row of a new block, in [put_header]. *)
Fixpoint extend_exponential (fuel : nat) (height next_exponential_ancestor_depth : Z)
    (exponential_ancestors : list K) : res E (list K) :=
  if next_exponential_ancestor_depth <=? height then
    match fuel with
    | O => Panic
    | S fuel =>
        newest ← expect (last exponential_ancestors);
        next_exponential_ancestor ←
          nth_ancestor newest
            ((next_exponential_ancestor_depth `mod` 2 ^ 32) `div` 2);
        extend_exponential fuel height (next_exponential_ancestor_depth * 2)
          (exponential_ancestors ++ [next_exponential_ancestor])
    end
  else Ok exponential_ancestors.

(** The row of a new block of some height under [parent]. *)
Definition exponential_row (parent : option K) (height : Z) : res E (list K) :=
  if 2 <=? height then
    parent ← expect parent;
    grandparent ← nth_ancestor parent 1;
    extend_exponential 32 height 4 [grandparent]
  else Ok [].

(** [is_descendant] *)
Definition descends (ancestor descendant : K) : res E bool :=
  if decide (ancestor = descendant) then Ok true
  else
    ancestor_height ← lin_height L ancestor;
    descendant_height ← lin_height L descendant;
    if descendant_height <? ancestor_height then Ok false
    else
      a ← nth_ancestor descendant (descendant_height - ancestor_height);
      Ok (bool_decide (ancestor = a)).

(** The first part of [last_common_ancestor]: the two ancestors of the smaller of
    the two heights, and that height. *)
Definition equalize (block_hash0 block_hash1 : K) : res E (K * K * Z) :=
  height0 ← lin_height L block_hash0;
  height1 ← lin_height L block_hash1;
  match height0 ?= height1 with
  | Eq => Ok (block_hash0, block_hash1, height0)
  | Lt =>
      block_hash1 ← nth_ancestor block_hash1 (height1 - height0);
      Ok (block_hash0, block_hash1, height0)
  | Gt =>
      block_hash0 ← nth_ancestor block_hash0 (height0 - height1);
      Ok (block_hash0, block_hash1, height1)
  end.

(** The binary search of [last_common_ancestor], which halves the distance of the
    depths, so 33 turns are enough. *)
Fixpoint bisect (fuel : nat) (block_hash0 block_hash1 : K) (lo_depth hi_depth : Z) :
    res E Z :=
  if lo_depth <? hi_depth then
    match fuel with
    | O => Panic
    | S fuel =>
        let mid_depth := u32_add lo_depth hi_depth `div` 2 in
        mid_ancestor0 ← nth_ancestor block_hash0 mid_depth;
        mid_ancestor1 ← nth_ancestor block_hash1 mid_depth;
        if decide (mid_ancestor0 = mid_ancestor1) then
          bisect fuel block_hash0 block_hash1 lo_depth mid_depth
        else bisect fuel block_hash0 block_hash1 (mid_depth + 1) hi_depth
    end
  else Ok hi_depth.

(** The last part of [last_common_ancestor]. *)
Definition search_common (block_hash0 block_hash1 : K) (height0 : Z) : res E K :=
  hi_depth ← bisect 33 block_hash0 block_hash1 1 height0;
  nth_ancestor block_hash0 hi_depth.
End Algorithms.

(** The fuels are numerals: an unfolded loop would be enormous. *)
#[global] Arguments nth_ancestor : simpl never.
#[global] Arguments exponential_row : simpl never.
#[global] Arguments search_common : simpl never.
#[global] Arguments descends : simpl never.
#[global] Arguments equalize : simpl never.

(** ** The tree that the reads describe *)
Section Tree.
Context {K E : Type} `{EqDecision K} (L : Lineage K E).
Implicit Types (k a b c p : K) (h n d : Z) (D : K → Prop).

(** [p] is the parent of [k]. *)
Definition parent_step k p : Prop :=
  ∃ h, lin_height L k = Ok h ∧ 0 < h ∧ lin_parent L k = Ok p.

(** [a] is the ancestor of [k] that is [n] blocks before it. *)
Definition ancestor_at n k a : Prop := 0 ≤ n ∧ nsteps parent_step (Z.to_nat n) k a.

(** [a] is [k] or an ancestor of it. *)
Abbreviation ancestor k a := (rtc parent_step k a).

(** The links of a row are the right ancestors, and all of them are there. *)
Record row_ok k h (row : list K) : Prop := {
  row_link : ∀ i : nat, 2 ^ (Z.of_nat i + 1) ≤ h →
    ∃ a, row !! i = Some a ∧ ancestor_at (2 ^ (Z.of_nat i + 1)) k a;
  row_end : ∀ i : nat, (i < length row)%nat → 2 ^ (Z.of_nat i + 1) ≤ h;
}.

(** The blocks of [D] and their ancestors are all there, with heights that count
    the ancestors and with their rows of links. *)
Definition linked_on D : Prop :=
  ∀ k, D k → ∃ h row,
    lin_height L k = Ok h ∧ is_u32 h ∧
    (0 < h → ∃ p, lin_parent L k = Ok p ∧ D p ∧ lin_height L p = Ok (h - 1)) ∧
    lin_exponential L k = Ok row ∧ row_ok k h row.
End Tree.

Section Steps.
Context {K E : Type} `{EqDecision K} (L : Lineage K E).
Implicit Types (k a b c p : K) (h n d : Z) (D : K → Prop).

Lemma nsteps_0_inv {A} (R : relation A) x y : nsteps R 0 x y → x = y.
Proof. by inversion 1. Qed.
Lemma nsteps_inv_l {A} (R : relation A) (n : nat) x z :
  nsteps R (S n) x z → ∃ y, R x y ∧ nsteps R n y z.
Proof. inversion 1; eauto. Qed.

Lemma parent_step_det k p p' : parent_step L k p → parent_step L k p' → p = p'.
Proof. intros (h & _ & _ & Hp) (h' & _ & _ & Hp'). congruence. Qed.

Lemma nsteps_det (n : nat) k a a' :
  nsteps (parent_step L) n k a → nsteps (parent_step L) n k a' → a = a'.
Proof.
  revert k; induction n as [|n IH]; intros k H H'.
  - apply nsteps_0_inv in H, H'. congruence.
  - apply nsteps_inv_l in H as (p & Hp & H). apply nsteps_inv_l in H' as (p' & Hp' & H').
    rewrite (parent_step_det k p' p) in H' by done. by eapply IH.
Qed.

Lemma ancestor_at_det n k a a' : ancestor_at L n k a → ancestor_at L n k a' → a = a'.
Proof. intros [_ H] [_ H']. by eapply nsteps_det. Qed.

Lemma ancestor_at_0 k a : ancestor_at L 0 k a ↔ k = a.
Proof.
  split; [by intros [_ H%nsteps_0_inv]|]. intros ->. split; [done|]. constructor.
Qed.

Lemma ancestor_at_1 k p : parent_step L k p → ancestor_at L 1 k p.
Proof. intros Hp. split; [done|]. by apply nsteps_once. Qed.

Lemma ancestor_at_trans n m k a b :
  ancestor_at L n k a → ancestor_at L m a b → ancestor_at L (n + m) k b.
Proof.
  intros [Hn H] [Hm H']. split; [lia|]. rewrite Z2Nat.inj_add by done.
  by eapply nsteps_trans.
Qed.

Lemma ancestor_at_split n m k b :
  0 ≤ n → 0 ≤ m → ancestor_at L (n + m) k b →
  ∃ a, ancestor_at L n k a ∧ ancestor_at L m a b.
Proof.
  intros Hn Hm [_ H]. rewrite Z2Nat.inj_add in H by done.
  apply nsteps_add_inv in H as (a & Ha & Hb). by exists a.
Qed.

Lemma ancestor_at_rtc k a : rtc (parent_step L) k a ↔ ∃ n, ancestor_at L n k a.
Proof.
  split.
  - intros (n & H)%rtc_nsteps. exists (Z.of_nat n). split; [lia|]. by rewrite Nat2Z.id.
  - intros (n & _ & H). by eapply rtc_nsteps_2.
Qed.
End Steps.

(** ** Reads of a linked tree *)
Section Linked.
Context {K E : Type} `{EqDecision K} (L : Lineage K E).
Context (D : K → Prop) (Hlink : linked_on L D).
Implicit Types (k a b c p : K) (h n d : Z).

Lemma linked_height k : D k → ∃ h, lin_height L k = Ok h ∧ is_u32 h.
Proof. intros Hk. destruct (Hlink k Hk) as (h & ? & ? & ? & _). by exists h. Qed.

Lemma linked_step k h : D k → lin_height L k = Ok h → 0 < h →
  ∃ p, parent_step L k p ∧ D p ∧ lin_height L p = Ok (h - 1).
Proof.
  intros Hk Hh Hpos. destruct (Hlink k Hk) as (h' & row & Hh' & _ & Hp & _).
  same_Ok. destruct (Hp Hpos) as (p & Hpar & HD & Hhp).
  exists p. split; [by exists h|done].
Qed.

Lemma step_height k p h : D k → lin_height L k = Ok h → parent_step L k p →
  0 < h ∧ D p ∧ lin_height L p = Ok (h - 1).
Proof.
  intros Hk Hh Hp. destruct (id Hp) as (h' & Hh' & Hpos & _). same_Ok.
  destruct (linked_step k h Hk Hh Hpos) as (p' & Hp' & HD & Hhp).
  by rewrite (parent_step_det L k p p').
Qed.

(** An ancestor is as many blocks lower as it is steps away. *)
Lemma ancestor_at_height n k a h : D k → lin_height L k = Ok h → ancestor_at L n k a →
  n ≤ h ∧ D a ∧ lin_height L a = Ok (h - n).
Proof.
  intros Hk Hh [Hn H]. revert k h Hk Hh H. rewrite <-(Z2Nat.id n) by done.
  generalize (Z.to_nat n) as m. clear n Hn. intros m. rewrite Nat2Z.id.
  induction m as [|m IH]; intros k h Hk Hh H.
  - apply nsteps_0_inv in H as ->. split_and!; [|done|by rewrite Hh; f_equal; lia].
    destruct (linked_height a Hk) as (h' & Hh' & []). same_Ok. lia.
  - apply nsteps_inv_l in H as (p & Hp & H).
    destruct (step_height k p h Hk Hh Hp) as (Hpos & HDp & Hhp).
    destruct (IH p (h - 1) HDp Hhp H) as (Hle & HDa & Hha).
    split_and!; [lia|done|]. rewrite Hha. f_equal. lia.
Qed.

Lemma ancestor_at_total n k h : D k → lin_height L k = Ok h → 0 ≤ n ≤ h →
  ∃ a, ancestor_at L n k a.
Proof.
  intros Hk Hh [Hn Hle]. revert k h Hk Hh Hle. pattern n. apply natlike_ind; [| |done].
  - intros k h _ _ _. exists k. by apply ancestor_at_0.
  - clear n Hn. intros n Hn IH k h Hk Hh Hle.
    destruct (linked_step k h Hk Hh) as (p & Hp & HDp & Hhp); [lia|].
    destruct (IH p (h - 1) HDp Hhp) as (a & Ha); [lia|]. exists a.
    replace (Z.succ n) with (1 + n) by lia.
    eapply ancestor_at_trans; [by apply ancestor_at_1|done].
Qed.

(** Each turn of the loop follows the longest link that does not overshoot. *)
Lemma nth_ancestor_loop_ok fuel ok0 on k h n :
  D k → lin_height L k = Ok h → 0 ≤ n ≤ h → Z.log2 n ≤ Z.of_nat fuel →
  ∃ a, nth_ancestor_loop L fuel ok0 on k n = Ok a ∧ ancestor_at L n k a.
Proof.
  revert k h n; induction fuel as [|fuel IH]; intros k h n Hk Hh Hn Hf; simpl.
  all: destruct (Z.ltb_spec 0 n) as [Hpos|Hz];
    [|exists k; split; [done|]; replace n with 0 by lia; by apply ancestor_at_0].
  all: rewrite Hh; simpl; destruct (Z.ltb_spec h n); [lia|];
    destruct (Z.eqb_spec n 1) as [->|Hn1].
  1,3: destruct (linked_step k h Hk Hh) as (p & Hp & _); [lia|];
    exists p; split; [by destruct Hp as (?&?&?&?)|by apply ancestor_at_1].
  - pose proof (Z.log2_pos n). lia.
  - destruct (Hlink k Hk) as (h' & row & Hh' & _ & _ & Hrow & Hok). same_Ok.
    rewrite Hrow. simpl. pose proof (Z.log2_spec n Hpos) as [Hlo Hhi].
    pose proof (Z.log2_pos n ltac:(lia)) as Hlog.
    assert (Z.of_nat (Z.to_nat (Z.log2 n - 1)) + 1 = Z.log2 n) as Hi by lia.
    destruct (row_link _ _ _ _ Hok (Z.to_nat (Z.log2 n - 1))) as (b & Hb & Hat);
      [rewrite Hi; lia|].
    rewrite Hi in Hat. rewrite Hb. simpl.
    assert (Z.shiftl 2 (Z.log2 n - 1) = 2 ^ Z.log2 n) as ->.
    { rewrite Z.shiftl_mul_pow2 by lia. rewrite <-Z.pow_succ_r by lia. f_equal. lia. }
    destruct (ancestor_at_height _ _ _ _ Hk Hh Hat) as (_ & HDb & Hhb).
    rewrite Z.pow_succ_r in Hhi by lia.
    destruct (IH b (h - 2 ^ Z.log2 n) (n - 2 ^ Z.log2 n)) as (a & Ha & Hat2);
      [done|done|lia| |].
    { destruct (Z.eq_dec (n - 2 ^ Z.log2 n) 0) as [->|]; [simpl; lia|].
      assert (Z.log2 (n - 2 ^ Z.log2 n) < Z.log2 n); [|lia].
      apply Z.log2_lt_pow2; lia. }
    exists a. split; [done|].
    replace n with (2 ^ Z.log2 n + (n - 2 ^ Z.log2 n)) at 1 by lia.
    by eapply ancestor_at_trans.
Qed.

(** More turns change nothing, so that running out of them is not an outcome. *)
Lemma nth_ancestor_fuel fuel j orig on k n : Z.log2 n ≤ Z.of_nat fuel →
  nth_ancestor_loop L (fuel + j) orig on k n = nth_ancestor_loop L fuel orig on k n.
Proof.
  revert k n; induction fuel as [|fuel IH]; intros k n Hf.
  - destruct j; [done|]. simpl. destruct (Z.ltb_spec 0 n); [|done].
    assert (n = 1) as ->; [|done]. pose proof (Z.log2_nonneg n).
    apply Z.log2_null in Hf || (assert (Z.log2 n = 0) as Hz by (simpl in Hf; lia);
      apply Z.log2_null in Hz). lia.
  - simpl. destruct (Z.ltb_spec 0 n) as [Hpos|]; [|done].
    destruct (lin_height L k) as [h| |]; [|done..]. simpl.
    destruct (h <? n); [done|]. destruct (Z.eqb_spec n 1); [done|].
    destruct (lin_exponential L k) as [l| |]; [|done..]. simpl.
    destruct (l !! _) as [b|]; [|done]. simpl. apply IH.
    pose proof (Z.log2_spec n Hpos) as [Hlo Hhi].
    pose proof (Z.log2_pos n ltac:(lia)).
    rewrite Z.shiftl_mul_pow2, <-Z.pow_succ_r by lia.
    replace (Z.succ (Z.log2 n - 1)) with (Z.log2 n) by lia.
    rewrite Z.pow_succ_r in Hhi by lia.
    destruct (Z.le_gt_cases (n - 2 ^ Z.log2 n) 0) as [Hle|Hgt].
    + rewrite Z.log2_nonpos by done. lia.
    + assert (Z.log2 (n - 2 ^ Z.log2 n) < Z.log2 n); [|lia].
      apply Z.log2_lt_pow2; lia.
Qed.

Lemma log2_u32 n : is_u32 n → Z.log2 n ≤ 32.
Proof.
  intros [H0 H1]. destruct (Z.eq_dec n 0) as [->|]; [done|].
  apply Z.lt_succ_r, Z.log2_lt_pow2; [lia|]. unfold u32_MAX in H1. simpl. lia.
Qed.

Lemma nth_ancestor_ok k h n : D k → lin_height L k = Ok h → 0 ≤ n ≤ h →
  ∃ a, nth_ancestor L k n = Ok a ∧ ancestor_at L n k a ∧ D a ∧
    lin_height L a = Ok (h - n).
Proof.
  intros Hk Hh Hn. destruct (linked_height k Hk) as (h' & Hh' & Hu). same_Ok.
  destruct (nth_ancestor_loop_ok 32 k n k h n) as (a & Ha & Hat); [done..| |].
  { apply log2_u32. unfold is_u32 in *. lia. }
  destruct (ancestor_at_height _ _ _ _ Hk Hh Hat) as (_ & HDa & Hha).
  by exists a.
Qed.

Lemma nth_ancestor_err k h n : lin_height L k = Ok h → 0 < n → h < n →
  nth_ancestor L k n = Err (lin_no_ancestor L k n).
Proof.
  intros Hh Hpos Hn. unfold nth_ancestor. generalize 32%nat. intros [|fuel]; simpl.
  all: destruct (Z.ltb_spec 0 n); [|lia].
  all: rewrite Hh; simpl; by destruct (Z.ltb_spec h n); [|lia].
Qed.

(** The [n]th ancestor, as an equivalence. *)
Lemma nth_ancestor_iff k h n a : D k → lin_height L k = Ok h → 0 ≤ n →
  nth_ancestor L k n = Ok a ↔ ancestor_at L n k a.
Proof.
  intros Hk Hh Hn. split.
  - intros H. destruct (Z.le_gt_cases n h) as [Hle|Hgt].
    + destruct (nth_ancestor_ok k h n) as (a' & Ha' & Hat & _); [done..|]. by same_Ok.
    + destruct (linked_height k Hk) as (h' & Hh' & [H0 _]). same_Ok.
      rewrite (nth_ancestor_err k h n) in H by (done || lia). done.
  - intros Hat. destruct (ancestor_at_height _ _ _ _ Hk Hh Hat) as (Hle & _).
    destruct (nth_ancestor_ok k h n) as (a' & Ha' & Hat' & _); [done..|].
    by rewrite (ancestor_at_det L n k a a').
Qed.

(** [a] is [k] or an ancestor exactly if it is the one at the difference of the
    heights. *)
Lemma rtc_ancestor_at k a h ha : D k → lin_height L k = Ok h → lin_height L a = Ok ha →
  rtc (parent_step L) k a ↔ ancestor_at L (h - ha) k a.
Proof.
  intros Hk Hh Ha. rewrite ancestor_at_rtc. split; [|by eauto].
  intros (n & Hat). destruct (ancestor_at_height _ _ _ _ Hk Hh Hat) as (_ & _ & Ha').
  same_Ok. by replace (h - (h - n)) with n by lia.
Qed.

Lemma descends_ok a k : D a → D k →
  ∃ b : bool, descends L a k = Ok b ∧ (b = true ↔ rtc (parent_step L) k a).
Proof.
  intros HDa Hk. unfold descends. destruct (decide (a = k)) as [->|Hne].
  { by exists true. }
  destruct (linked_height a HDa) as (ha & Ha & Hua), (linked_height k Hk) as (h & Hh & Hu).
  rewrite Ha, Hh. simpl.
  pose proof (rtc_ancestor_at k a h ha Hk Hh Ha) as Hiff.
  destruct (Z.ltb_spec h ha) as [Hlt|Hle].
  - exists false. split; [done|]. rewrite Hiff. split; [done|]. intros [? _]. lia.
  - destruct (nth_ancestor_ok k h (h - ha)) as (c & Hc & Hat & _);
      [done..|unfold is_u32 in *; lia|].
    rewrite Hc. simpl. eexists. split; [done|]. rewrite bool_decide_eq_true, Hiff. split.
    + by intros ->.
    + intros Hat'. by eapply ancestor_at_det.
Qed.

(** ** Rows of new blocks *)

(** The links of [k]'s ancestors that a row holds so far. *)
Definition row_prefix k (row : list K) : Prop :=
  ∀ (i : nat) a, row !! i = Some a → ancestor_at L (2 ^ (Z.of_nat i + 1)) k a.

(** [k] is a block of height [h] on top of [p]. *)
Context (k p : K) (h : Z).
Context (Hk : lin_height L k = Ok h) (Hstep : parent_step L k p).
Context (HDp : D p) (Hp : lin_height L p = Ok (h - 1)) (Hu : is_u32 h).

Lemma above_height n a : 0 < n → ancestor_at L n k a →
  n ≤ h ∧ D a ∧ lin_height L a = Ok (h - n).
Proof.
  intros Hn Hat. replace n with (1 + (n - 1)) in Hat by lia.
  apply ancestor_at_split in Hat as (p' & Hat1 & Hat2); [|lia..].
  rewrite <-(ancestor_at_det L 1 k p p') in Hat2; [|by apply ancestor_at_1|done].
  destruct (ancestor_at_height _ _ _ _ HDp Hp Hat2) as (Hle & HDa & Ha).
  split_and!; [lia|done|]. rewrite Ha. f_equal. lia.
Qed.

Lemma row_prefix_snoc row a :
  row_prefix k row → ancestor_at L (2 ^ (Z.of_nat (length row) + 1)) k a →
  row_prefix k (row ++ [a]).
Proof.
  intros Hrow Ha i b Hb. destruct (decide (i < length row)%nat) as [Hlt|Hge].
  - rewrite lookup_app_l in Hb by done. by apply Hrow.
  - rewrite lookup_app_r in Hb by lia. apply list_lookup_singleton_Some in Hb as [Hi <-].
    by replace i with (length row) by lia.
Qed.

Lemma pow2_double (j : nat) : 2 ^ (Z.of_nat j + 1) = 2 ^ Z.of_nat j + 2 ^ Z.of_nat j.
Proof. rewrite Z.pow_add_r by lia. lia. Qed.

Lemma extend_exponential_ok fuel row :
  row ≠ [] → row_prefix k row → 2 ^ Z.of_nat (length row) ≤ h →
  33 ≤ Z.of_nat fuel + Z.of_nat (length row) →
  ∃ row', extend_exponential L fuel h (2 ^ (Z.of_nat (length row) + 1)) row = Ok row' ∧
    row_ok L k h row'.
Proof.
  revert row; induction fuel as [|fuel IH]; intros row Hne Hpre Hlen Hf;
    cbn [extend_exponential].
  all: assert (2 ^ Z.of_nat (length row) < 2 ^ 32) as Hlt
    by (unfold is_u32, u32_MAX in Hu; lia);
    apply Z.pow_lt_mono_r_iff in Hlt; [|lia..].
  { lia. }
  destruct (Z.leb_spec (2 ^ (Z.of_nat (length row) + 1)) h) as [Hle|Hgt].
  - assert (∃ newest, last row = Some newest) as [newest Hlast].
    { destruct (last row) eqn:Hl; [by eexists|]. by apply last_None in Hl. }
    rewrite Hlast, expect_Some, bind_Ok.
    assert (ancestor_at L (2 ^ Z.of_nat (length row)) k newest) as Hnew.
    { rewrite last_lookup in Hlast. apply Hpre in Hlast.
      replace (Z.of_nat (length row)) with (Z.of_nat (pred (length row)) + 1); [done|].
      destruct row; [done|]. simpl. lia. }
    pose proof (Z.pow_pos_nonneg 2 (Z.of_nat (length row))) as Hpos.
    destruct (above_height _ _ (Hpos eq_refl ltac:(lia)) Hnew) as (_ & HDn & Hhn).
    rewrite Z.mod_small by (unfold is_u32, u32_MAX in Hu; lia).
    rewrite pow2_double in Hle |- *.
    replace ((_ + _) `div` 2) with (2 ^ Z.of_nat (length row))
      by (rewrite Z.add_diag, Z.mul_comm, Z.div_mul; lia).
    destruct (nth_ancestor_ok newest _ (2 ^ Z.of_nat (length row)) HDn Hhn)
      as (a & Ha & Hat & _); [lia|].
    rewrite Ha, bind_Ok.
    assert (2 ^ (Z.of_nat (length row) + 1) = 2 ^ Z.of_nat (length (row ++ [a]))) as Hlen1.
    { rewrite length_app. simpl. f_equal. lia. }
    replace ((2 ^ Z.of_nat (length row) + 2 ^ Z.of_nat (length row)) * 2)
      with (2 ^ (Z.of_nat (length (row ++ [a])) + 1))
      by (rewrite pow2_double, <-Hlen1, pow2_double; lia).
    apply IH.
    + by destruct row.
    + apply row_prefix_snoc; [done|]. rewrite pow2_double. by eapply ancestor_at_trans.
    + rewrite <-Hlen1, pow2_double. lia.
    + rewrite length_app. simpl. lia.
  - exists row. split; [done|]. split.
    + intros i Hi. destruct (lookup_lt_is_Some_2 row i) as [a Ha].
      * apply Nat2Z.inj_lt.
        assert (2 ^ (Z.of_nat i + 1) < 2 ^ (Z.of_nat (length row) + 1)) as Hi' by lia.
        apply Z.pow_lt_mono_r_iff in Hi'; lia.
      * exists a. split; [done|]. by apply Hpre.
    + intros i Hi. etrans; [|exact Hlen]. apply Z.pow_le_mono_r; lia.
Qed.

Lemma exponential_row_ok :
  ∃ row, exponential_row L (Some p) h = Ok row ∧ row_ok L k h row.
Proof.
  unfold exponential_row. destruct (Z.leb_spec 2 h) as [H2|H2].
  - destruct (nth_ancestor_ok p (h - 1) 1 HDp Hp) as (g & Hg & Hat & _); [lia|].
    rewrite expect_Some, bind_Ok, Hg, bind_Ok.
    apply (extend_exponential_ok 32 [g]); [done| |done|done].
    intros [|i] a Ha; simpl in Ha; [|done]. injection Ha as <-.
    change (2 ^ (Z.of_nat 0 + 1)) with (1 + 1).
    eapply ancestor_at_trans; [by apply ancestor_at_1|done].
  - exists []. split; [done|]. split; [|simpl; lia]. intros i Hi.
    assert (2 ^ 1 ≤ 2 ^ (Z.of_nat i + 1)); [apply Z.pow_le_mono_r; lia|lia].
Qed.
End Linked.

(** ** Common ancestors *)
Section Common.
Context {K E : Type} `{EqDecision K} (L : Lineage K E).
Context (D : K → Prop) (Hlink : linked_on L D).
Implicit Types (k a b c : K) (h n d : Z).

(** [c] is an ancestor of both blocks, or one of them. *)
Definition common k0 k1 c : Prop := rtc (parent_step L) k0 c ∧ rtc (parent_step L) k1 c.

(** The chain of ancestors is linear. *)
Lemma ancestor_through n k a c h hc : D k → lin_height L k = Ok h →
  ancestor_at L n k a → rtc (parent_step L) k c → lin_height L c = Ok hc → hc ≤ h - n →
  rtc (parent_step L) a c.
Proof.
  intros Hk Hh Hat Hc Hhc Hle. apply ancestor_at_rtc.
  apply (rtc_ancestor_at L D Hlink k c h hc) in Hc; [|done..].
  replace (h - hc) with (n + (h - hc - n)) in Hc by lia.
  apply ancestor_at_split in Hc as (a' & Ha' & Hc); [|by destruct Hat|lia].
  rewrite (ancestor_at_det L n k a a') by done. by eexists.
Qed.

(** The two blocks, brought to the smaller of their heights. *)
Lemma equalize_ok k0 k1 h0 h1 :
  D k0 → D k1 → lin_height L k0 = Ok h0 → lin_height L k1 = Ok h1 →
  ∃ a0 a1, equalize L k0 k1 = Ok (a0, a1, h0 `min` h1) ∧
    ancestor_at L (h0 - h0 `min` h1) k0 a0 ∧ ancestor_at L (h1 - h0 `min` h1) k1 a1.
Proof.
  intros Hk0 Hk1 Hh0 Hh1. unfold equalize. rewrite Hh0, bind_Ok, Hh1, bind_Ok.
  destruct (linked_height L D Hlink k0 Hk0) as (h0' & ? & [H00 _]). same_Ok.
  destruct (linked_height L D Hlink k1 Hk1) as (h1' & ? & [H10 _]). same_Ok.
  destruct (Z.compare_spec h0 h1) as [->|Hlt|Hgt].
  - exists k0, k1. rewrite Z.min_id, Z.sub_diag. by rewrite !ancestor_at_0.
  - destruct (nth_ancestor_ok L D Hlink k1 h1 (h1 - h0)) as (a & Ha & Hat & _); [done..|lia|].
    exists k0, a. rewrite Z.min_l, Ha, bind_Ok, Z.sub_diag, ancestor_at_0 by lia. done.
  - destruct (nth_ancestor_ok L D Hlink k0 h0 (h0 - h1)) as (a & Ha & Hat & _); [done..|lia|].
    exists a, k1. rewrite Z.min_r, Ha, bind_Ok, Z.sub_diag, ancestor_at_0 by lia. done.
Qed.

(** Bringing them to one height loses no common ancestor. *)
Lemma equalize_common k0 k1 h0 h1 a0 a1 c :
  D k0 → D k1 → lin_height L k0 = Ok h0 → lin_height L k1 = Ok h1 →
  ancestor_at L (h0 - h0 `min` h1) k0 a0 → ancestor_at L (h1 - h0 `min` h1) k1 a1 →
  common k0 k1 c ↔ common a0 a1 c.
Proof.
  intros Hk0 Hk1 Hh0 Hh1 Ha0 Ha1. split; intros [Hc0 Hc1].
  - destruct (proj1 (ancestor_at_rtc L k0 c) Hc0) as (n & Hn).
    destruct (ancestor_at_height L D Hlink n k0 c h0) as (_ & _ & Hc); [done..|].
    destruct (proj1 (ancestor_at_rtc L k1 c) Hc1) as (m & Hm).
    destruct (ancestor_at_height L D Hlink m k1 c h1) as (_ & _ & Hc'); [done..|].
    assert (h0 - n = h1 - m) by congruence. destruct Hn as [Hn _], Hm as [Hm _].
    split.
    + eapply (ancestor_through _ k0); [done..|]. lia.
    + eapply (ancestor_through _ k1); [done..|]. lia.
  - split; [trans a0|trans a1]; try done; apply ancestor_at_rtc; by eexists.
Qed.

(** From here on two blocks of one height. *)
Context (k0 k1 : K) (h : Z) (H0 : D k0) (H1 : D k1).
Context (Hh0 : lin_height L k0 = Ok h) (Hh1 : lin_height L k1 = Ok h).

(** Their ancestors [d] blocks before are the same. *)
Definition meet_at d : Prop := ∃ c, ancestor_at L d k0 c ∧ ancestor_at L d k1 c.

Lemma meet_at_le d d' : d ≤ d' ≤ h → meet_at d → meet_at d'.
Proof.
  intros Hd (c & Hc0 & Hc1).
  destruct (ancestor_at_height L D Hlink d k0 c h) as (_ & HDc & Hhc); [done..|].
  destruct (ancestor_at_total L D Hlink (d' - d) c (h - d)) as (b & Hb); [done..|lia|].
  exists b. replace d' with (d + (d' - d)) by lia.
  by split; eapply ancestor_at_trans.
Qed.

Lemma meet_at_decide d a0 a1 : 0 ≤ d ≤ h →
  nth_ancestor L k0 d = Ok a0 → nth_ancestor L k1 d = Ok a1 → meet_at d ↔ a0 = a1.
Proof.
  intros Hd Ha0 Ha1.
  apply (nth_ancestor_iff L D Hlink k0 h d a0 H0 Hh0) in Ha0; [|lia].
  apply (nth_ancestor_iff L D Hlink k1 h d a1 H1 Hh1) in Ha1; [|lia]. split.
  - intros (c & Hc0 & Hc1). by rewrite (ancestor_at_det L d k0 a0 c),
      (ancestor_at_det L d k1 a1 c).
  - intros ->. by exists a1.
Qed.

(** The search finds the smallest depth at which they meet. *)
Lemma bisect_ok fuel lo hi :
  2 * h ≤ u32_MAX → 1 ≤ lo ≤ hi → hi ≤ h → hi - lo < 2 ^ Z.of_nat fuel →
  meet_at hi → (∀ d, 0 ≤ d < lo → ¬ meet_at d) →
  ∃ d, bisect L fuel k0 k1 lo hi = Ok d ∧ 1 ≤ d ≤ h ∧ meet_at d ∧
    ∀ d', 0 ≤ d' < d → ¬ meet_at d'.
Proof.
  intros Hmax. revert lo hi; induction fuel as [|fuel IH]; intros lo hi Hlo Hhi Hf Hm Hn;
    cbn [bisect]; destruct (Z.ltb_spec lo hi) as [Hlt|Hge].
  2,4: exists hi; split_and!; [done|lia|done|done|]; intros d' ?; apply Hn; lia.
  { simpl in Hf. lia. }
  rewrite u32_add_small by lia.
  pose proof (Z.div_mod (lo + hi) 2 ltac:(lia)) as Hdm.
  pose proof (Z.mod_pos_bound (lo + hi) 2 ltac:(lia)) as Hmod.
  remember ((lo + hi) `div` 2) as mid eqn:Hmid. clear Hmid.
  destruct (nth_ancestor_ok L D Hlink k0 h mid) as (a0 & Ha0 & _); [done..|lia|].
  destruct (nth_ancestor_ok L D Hlink k1 h mid) as (a1 & Ha1 & _); [done..|lia|].
  rewrite Ha0, bind_Ok, Ha1, bind_Ok.
  pose proof (meet_at_decide mid a0 a1 ltac:(lia) Ha0 Ha1) as Hmeet.
  rewrite Nat2Z.inj_succ, Z.pow_succ_r in Hf by lia.
  destruct (decide (a0 = a1)) as [Heq|Hne].
  - apply IH; [lia|lia|lia|by apply Hmeet|done].
  - apply IH; [lia|lia|lia|done|]. intros d Hd Hmd.
    apply Hne, Hmeet, (meet_at_le d); [lia|done].
Qed.

(** If they meet at all, the result is the last common ancestor. *)
Lemma search_common_ok : 2 * h ≤ u32_MAX → k0 ≠ k1 → meet_at h →
  ∃ c, search_common L k0 k1 h = Ok c ∧ common k0 k1 c ∧
    ∀ c', common k0 k1 c' → rtc (parent_step L) c c'.
Proof.
  intros Hmax Hne Hmeet.
  destruct (linked_height L D Hlink k0 H0) as (h' & ? & [Hpos Hu]). same_Ok.
  assert (¬ meet_at 0) as Hn0.
  { intros (c & Hc0%ancestor_at_0 & Hc1%ancestor_at_0). congruence. }
  assert (h ≠ 0) by (intros ->; done).
  destruct (bisect_ok 33 1 h) as (d & Hd & Hdh & (c & Hc0 & Hc1) & Hmin);
    [lia|lia|lia|unfold u32_MAX in *; simpl; lia|done| |].
  { intros d Hd. by replace d with 0 by lia. }
  exists c. unfold search_common. rewrite Hd, bind_Ok. split_and!.
  - apply (nth_ancestor_iff L D Hlink k0 h); [done|done|lia|done].
  - split; apply ancestor_at_rtc; by exists d.
  - intros c' [Hr0 Hr1].
    destruct (proj1 (ancestor_at_rtc L k0 c') Hr0) as (n & Hn).
    destruct (ancestor_at_height L D Hlink n k0 c' h) as (Hle & _ & Hc'); [done..|].
    assert (meet_at n) as Hmn.
    { exists c'. split; [done|]. replace n with (h - (h - n)) by lia.
      by apply (rtc_ancestor_at L D Hlink). }
    destruct (decide (n < d)) as [Hlt|]; [destruct Hn; by destruct (Hmin n ltac:(lia))|].
    eapply (ancestor_through d k0 c c' h); [done..|]. lia.
Qed.

(** They meet at their own height exactly if they have a common ancestor. *)
Lemma meet_at_common : meet_at h ↔ ∃ c, common k0 k1 c.
Proof.
  split.
  - intros (c & Hc0 & Hc1). exists c. split; apply ancestor_at_rtc; by exists h.
  - intros (c & Hr0 & Hr1).
    destruct (proj1 (ancestor_at_rtc L k0 c) Hr0) as (n & Hn).
    destruct (ancestor_at_height L D Hlink n k0 c h) as (Hle & _ & Hc); [done..|].
    apply (meet_at_le n); [lia|]. exists c. split; [done|].
    replace n with (h - (h - n)) by lia. by apply (rtc_ancestor_at L D Hlink).
Qed.
End Common.

(** ** Growing a tree *)
Section Grow.
Context {K E : Type} `{EqDecision K}.
Implicit Types (L : Lineage K E) (k a b p : K) (h n : Z) (D : K → Prop).

(** Two lineages that read the same height and parent of a block. *)
Definition same_links L L' k : Prop :=
  lin_height L' k = lin_height L k ∧ lin_parent L' k = lin_parent L k.

Lemma parent_step_same L L' k p : same_links L L' k → parent_step L k p → parent_step L' k p.
Proof. intros [Hh Hp] (h & Hk & Hpos & Hpar). exists h. by rewrite Hh, Hp. Qed.

(** Below the blocks of [D] nothing but blocks of [D] is read. *)
Lemma nsteps_same L L' D (m : nat) k a : linked_on L D → (∀ b, D b → same_links L L' b) →
  D k → nsteps (parent_step L) m k a → nsteps (parent_step L') m k a.
Proof.
  intros Hlink Hsame Hk H. induction H as [k|m k p a Hp H IH]; [constructor|].
  destruct (linked_height L D Hlink k Hk) as (h & Hh & _).
  destruct (step_height L D Hlink k p h Hk Hh Hp) as (_ & HDp & _).
  econstructor; [|by apply IH]. eapply parent_step_same; [by apply Hsame|done].
Qed.

Lemma row_ok_same L L' D k h row : linked_on L D → (∀ b, D b → same_links L L' b) → D k →
  row_ok L k h row → row_ok L' k h row.
Proof.
  intros Hlink Hsame Hk [Hrow Hend]. split; [|done]. intros i Hi.
  destruct (Hrow i Hi) as (a & Ha & Hn & H). exists a. split; [done|]. split; [done|].
  by eapply nsteps_same.
Qed.

Lemma linked_on_iff L D D' : linked_on L D → (∀ b, D b ↔ D' b) → linked_on L D'.
Proof.
  intros Hlink Hiff k Hk. destruct (Hlink k) as (h & row & Hh & Hu & Hp & Hrow & Hok);
    [by apply Hiff|].
  exists h, row. split_and!; [done|done| |done|done]. intros Hpos.
  destruct (Hp Hpos) as (p & Hpar & HDp & Hhp). exists p. by rewrite <-Hiff.
Qed.

Lemma linked_on_same L L' D : linked_on L D →
  (∀ b, D b → same_links L L' b ∧ lin_exponential L' b = lin_exponential L b) →
  linked_on L' D.
Proof.
  intros Hlink Hsame k Hk. destruct (Hlink k Hk) as (h & row & Hh & Hu & Hp & Hrow & Hok).
  destruct (Hsame k Hk) as [[Hh' Hp'] He']. exists h, row. rewrite Hh', Hp', He'.
  split_and!; [done|done| |done|].
  - intros Hpos. destruct (Hp Hpos) as (p & Hpar & HDp & Hhp). exists p.
    split_and!; [done|done|]. destruct (Hsame p HDp) as [[-> _] _]. done.
  - eapply row_ok_same; [done| |done|done]. intros b Hb. by apply Hsame.
Qed.

(** A block [k] is put on top of [p], or at height 0: [Lm] is the lineage with its
    height and parent in place, where its row is computed, [L'] the one with the
    row. *)
Lemma linked_insert L Lm L' D k o h :
  linked_on L D →
  (∀ b, D b → same_links L Lm b ∧ lin_exponential Lm b = lin_exponential L b) →
  (∀ b, same_links Lm L' b) →
  (∀ b, b ≠ k → lin_exponential L' b = lin_exponential Lm b) →
  lin_height Lm k = Ok h → is_u32 h →
  (0 < h → ∃ p, o = Some p ∧ lin_parent Lm k = Ok p ∧ D p ∧ lin_height L p = Ok (h - 1)) →
  ∃ row, exponential_row Lm o h = Ok row ∧
    (lin_exponential L' k = Ok row → linked_on L' (λ b, D b ∨ b = k)).
Proof.
  intros Hlink Hm Hl He Hk Hu Ho.
  assert (linked_on Lm D) as Hlm by by eapply linked_on_same.
  assert (∃ row, exponential_row Lm o h = Ok row ∧ row_ok Lm k h row) as (row & Hrow & Hok).
  { destruct (decide (0 < h)) as [Hpos|Hz].
    - destruct (Ho Hpos) as (p & -> & Hpar & HDp & Hhp).
      apply (exponential_row_ok Lm D Hlm k p h); [by exists h|done| |done].
      destruct (Hm p HDp) as [[-> _] _]. done.
    - exists []. unfold exponential_row. destruct (Z.leb_spec 2 h); [lia|].
      split; [done|]. split; [|simpl; lia]. intros i Hi.
      assert (0 < 2 ^ (Z.of_nat i + 1)) by (apply Z.pow_pos_nonneg; lia). lia. }
  exists row. split; [done|]. intros Hk'.
  assert (∀ b a m, nsteps (parent_step Lm) m b a → nsteps (parent_step L') m b a) as Hns.
  { intros b a m H. induction H as [|m b c a Hs H IH]; [constructor|].
    econstructor; [by eapply parent_step_same|done]. }
  assert (∀ b h row, row_ok Lm b h row → row_ok L' b h row) as Hrows.
  { intros b h' row' [Hr Hend]. split; [|done]. intros i Hi.
    destruct (Hr i Hi) as (a & Ha & Hn & H). exists a. split; [done|]. split; [done|].
    by apply Hns. }
  intros b Hb. destruct (decide (b = k)) as [->|Hne].
  - exists h, row. destruct (Hl k) as [-> ->]. split_and!; [done|done| |done|by apply Hrows].
    intros Hpos. destruct (Ho Hpos) as (p & _ & Hpar & HDp & Hhp). exists p.
    split_and!; [done|by left|]. destruct (Hl p) as [-> _]. by destruct (Hm p HDp) as [[-> _] _].
  - destruct Hb as [Hb|]; [|done].
    destruct (Hlm b Hb) as (hb & rowb & Hhb & Hub & Hpb & Hrb & Hokb).
    exists hb, rowb. destruct (Hl b) as [-> ->]. rewrite He by done.
    split_and!; [done|done| |done|by apply Hrows].
    intros Hpos. destruct (Hpb Hpos) as (p & Hpar & HDp & Hhp). exists p.
    split_and!; [done|by left|]. by destruct (Hl p) as [-> _].
Qed.
End Grow.
