(* ===== verification/BlockTree.v ===== *)
(** Trees of blocks as the archive stores them (lib/archive/mod.rs).

    The archive stores the sidechain's headers and the mainchain's in the same way:
    headers under their hashes, heights, rows of exponential links and sets of
    successors, in databases of their own.  The invariant of such a tree, its
    preservation and the meaning of the queries are proved here once, for any tree
    with the operations of [TreeOps]; ArchiveProps.v has the two instances. *)
From S2P Require Import Prelude Ancestry.

(** What differs between the trees: the type [V] of a header, its hash and its
    parent, the key [t_slot] under which the successors of a block are kept (those
    of no block: the first blocks), and the errors. *)
Record TreeOps (K V S E : Type) := mkTreeOps {
  t_hash : V → K;
  t_prev : V → option K;
  t_slot : option K → S;
  t_parent : V → res E K;
  t_no_header : K → E;
  t_no_height : K → E;
  t_no_row : E;
  t_no_ancestor : K → Z → E;
}.
Arguments mkTreeOps {K V S E} _ _ _ _ _ _ _ _.
Arguments t_hash {K V S E} _ _.
Arguments t_prev {K V S E} _ _.
Arguments t_slot {K V S E} _ _.
Arguments t_parent {K V S E} _ _.
Arguments t_no_header {K V S E} _ _.
Arguments t_no_height {K V S E} _ _.
Arguments t_no_row {K V S E} _.
Arguments t_no_ancestor {K V S E} _ _ _.

(** A header with a parent reads as such, and blocks have different slots. *)
Class TreeLaws {K V S E} (O : TreeOps K V S E) := {
  t_parent_prev v p : t_prev O v = Some p → t_parent O v = Ok p;
  t_slot_inj k k' : t_slot O (Some k) = t_slot O (Some k') → k = k';
}.

Record Tree (K V S : Type) `{Countable K, Countable S} := mkTree {
  t_headers : gmap K V;
  t_heights : gmap K Z;
  t_rows : gmap K (list K);
  t_succs : gmap S (gset K);
}.
Arguments mkTree {K V S _ _ _ _} _ _ _ _.
Arguments t_headers {K V S _ _ _ _} _.
Arguments t_heights {K V S _ _ _ _} _.
Arguments t_rows {K V S _ _ _ _} _.
Arguments t_succs {K V S _ _ _ _} _.

Section BlockTree.
Context {K V S E : Type} `{Countable K, Countable S} (O : TreeOps K V S E) `{!TreeLaws O}.
Implicit Types (t : Tree K V S) (b c p : K) (v : V) (h n : Z).

Definition tree_lineage t : Lineage K E := {|
  lin_height := λ b, ok_or (t_heights t !! b) (t_no_height O b);
  lin_parent := λ b, v ← ok_or (t_headers t !! b) (t_no_header O b); t_parent O v;
  lin_exponential := λ b, ok_or (t_rows t !! b) (t_no_row O);
  lin_no_ancestor := t_no_ancestor O;
|}.

Definition known t b : Prop := is_Some (t_headers t !! b).

(** [p] is the parent of [c], by their headers. *)
Definition parent_of t c p : Prop :=
  ∃ v, t_headers t !! c = Some v ∧ t_prev O v = Some p.

(** [h] is the height of a block under [o]. *)
Definition height_above t (o : option K) h : Prop :=
  match o with
  | None => h = 0
  | Some p => 0 < h ∧ known t p ∧ t_heights t !! p = Some (h - 1)
  end.

Record tree_wf t : Prop := {
  tw_linked : linked_on (tree_lineage t) (known t);
  tw_header b v : t_headers t !! b = Some v →
    t_hash O v = b ∧ t_slot O (Some b) ≠ t_slot O None ∧
    ∃ h, t_heights t !! b = Some h ∧ height_above t (t_prev O v) h;
  tw_height b h : t_heights t !! b = Some h → known t b;
  tw_first : is_Some (t_succs t !! t_slot O None);
  tw_succ b : known t b → is_Some (t_succs t !! t_slot O (Some b));
  tw_children o s c : t_succs t !! t_slot O o = Some s →
    (∀ b, o = Some b → t_slot O (Some b) ≠ t_slot O None) →
    c ∈ s ↔ ∃ v, t_headers t !! c = Some v ∧ t_prev O v = o;
}.

(** The header [v] is put into [t] at the height [h]. *)
Record tree_put t v h t' : Prop := {
  tp_headers : t_headers t' = <[t_hash O v := v]> (t_headers t);
  tp_heights : t_heights t' = <[t_hash O v := h]> (t_heights t);
  tp_row : ∃ row o, t_rows t' = <[t_hash O v := row]> (t_rows t) ∧
    (∀ p, t_prev O v = Some p → o = Some p) ∧
    exponential_row
      (tree_lineage (mkTree (t_headers t') (t_heights t') (t_rows t) ∅)) o h = Ok row;
  tp_succ : ∃ s, t_succs t !! t_slot O (t_prev O v) = Some s ∧
    let succ := <[t_slot O (t_prev O v) := {[ t_hash O v ]} ∪ s]> (t_succs t) in
    t_succs t' = <[t_slot O (Some (t_hash O v)) :=
                    default ∅ (succ !! t_slot O (Some (t_hash O v)))]> succ;
}.

(** ** Putting a header keeps a tree well-formed *)
Section Put.
Context (v : V) (h : Z) (t t' : Tree K V S) (Hwf : tree_wf t).
Abbreviation k := (t_hash O v).
Context (Hcol : ∀ v', t_headers t !! k = Some v' → v' = v).
Context (Hslot : t_slot O (Some k) ≠ t_slot O None).
Context (Habove : height_above t (t_prev O v) h) (Hu : is_u32 h).
Context (Hput : tree_put t v h t').

(** A header that was there already is the same, at the same height. *)
Lemma known_again : known t k → t_headers t !! k = Some v ∧ t_heights t !! k = Some h.
Proof.
  intros [v' Hv']. rewrite (Hcol v' Hv') in Hv'. split; [done|].
  destruct (tw_header _ Hwf _ _ Hv') as (_ & _ & h2 & Hh2 & Hp2). rewrite Hh2. f_equal.
  unfold height_above in *. destruct (t_prev O v) as [p|]; [|by subst].
  destruct Habove as (_ & _ & Hp), Hp2 as (_ & _ & Hp2). rewrite Hp2 in Hp.
  injection Hp. lia.
Qed.

(** What was known is still there. *)
Lemma tree_put_keeps b : known t b →
  t_headers t' !! b = t_headers t !! b ∧ t_heights t' !! b = t_heights t !! b.
Proof.
  intros Hb. rewrite (tp_headers _ _ _ _ Hput), (tp_heights _ _ _ _ Hput).
  destruct (decide (b = k)) as [->|Hne].
  - destruct (known_again Hb) as [-> ->]. by rewrite !lookup_insert_eq.
  - by rewrite !lookup_insert_ne by done.
Qed.

Lemma tree_put_known b : known t' b ↔ known t b ∨ b = k.
Proof.
  unfold known. rewrite (tp_headers _ _ _ _ Hput), lookup_insert_is_Some.
  destruct (decide (k = b)); naive_solver.
Qed.

Lemma tree_put_linked : linked_on (tree_lineage t') (λ b, known t b ∨ b = k).
Proof.
  destruct (tp_row _ _ _ _ Hput) as (row & o & Hrows & Ho & Hrow).
  set (tm := mkTree (t_headers t') (t_heights t') (t_rows t) ∅ : Tree K V S) in *.
  destruct (linked_insert (tree_lineage t) (tree_lineage tm) (tree_lineage t')
    (known t) k o h) as (row' & Hrow' & Hl).
  - apply (tw_linked _ Hwf).
  - intros b Hb. destruct (tree_put_keeps b Hb) as [Hhd Hht].
    unfold same_links, tree_lineage. simpl. by rewrite Hhd, Hht.
  - done.
  - intros b Hne. simpl. by rewrite Hrows, lookup_insert_ne.
  - simpl. by rewrite (tp_heights _ _ _ _ Hput), lookup_insert_eq.
  - done.
  - intros Hpos. pose proof Habove as Hab. unfold height_above in Hab.
    destruct (t_prev O v) as [p|] eqn:Hp; [|lia].
    destruct Hab as (_ & Hkp & Hhp). exists p. split_and!; [by apply Ho| |done|].
    + simpl. rewrite (tp_headers _ _ _ _ Hput), lookup_insert_eq. simpl.
      by apply t_parent_prev.
    + simpl. by rewrite Hhp.
  - apply Hl. simpl. rewrite Hrows, lookup_insert_eq. simpl. congruence.
Qed.

(** A header is never above itself. *)
Lemma not_own_parent : t_prev O v ≠ Some k.
Proof.
  intros Hp. pose proof Habove as Hab. rewrite Hp in Hab. destruct Hab as (_ & Hk & Hhk). destruct (known_again Hk) as [_ Hhk'].
  rewrite Hhk in Hhk'. injection Hhk'. lia.
Qed.

Lemma children_after c o :
  (∃ v', t_headers t' !! c = Some v' ∧ t_prev O v' = o) ↔
  (∃ v', t_headers t !! c = Some v' ∧ t_prev O v' = o) ∨ (c = k ∧ t_prev O v = o).
Proof.
  rewrite (tp_headers _ _ _ _ Hput). destruct (decide (c = k)) as [->|Hne].
  - rewrite lookup_insert_eq. split; [naive_solver|].
    intros [(v' & Hk & Ho)|[_ Ho]]; [|by exists v].
    exists v. split; [done|]. by rewrite <-(Hcol v' Hk).
  - rewrite lookup_insert_ne by done. naive_solver.
Qed.

(** Different blocks, known or new, have different slots. *)
Lemma slot_prev o : (∀ b, o = Some b → t_slot O (Some b) ≠ t_slot O None) →
  t_slot O o = t_slot O (t_prev O v) → o = t_prev O v.
Proof.
  intros Ho Heq. pose proof Habove as Hab. unfold height_above in Hab.
  destruct (t_prev O v) as [p|] eqn:Hp, o as [b|]; [|exfalso..|done].
  - f_equal. by apply t_slot_inj.
  - destruct Hab as (_ & [vp Hvp] & _).
    by destruct (tw_header _ Hwf _ _ Hvp) as (_ & Hne & _).
  - by eapply Ho.
Qed.

Lemma tree_put_children o s c : t_succs t' !! t_slot O o = Some s →
  (∀ b, o = Some b → t_slot O (Some b) ≠ t_slot O None) →
  c ∈ s ↔ ∃ v', t_headers t' !! c = Some v' ∧ t_prev O v' = o.
Proof.
  intros Hs Ho. rewrite children_after. pose proof not_own_parent as Hself.
  destruct (tp_succ _ _ _ _ Hput) as (s0 & Hs0 & Hsucc). rewrite Hsucc in Hs. clear Hsucc.
  assert (∀ b, t_prev O v = Some b → t_slot O (Some b) ≠ t_slot O None) as Hprev.
  { intros b Hb. pose proof Habove as Hab. rewrite Hb in Hab.
    destruct Hab as (_ & [vp Hvp] & _).
    by destruct (tw_header _ Hwf _ _ Hvp) as (_ & Hne & _). }
  destruct (decide (t_slot O o = t_slot O (Some k))) as [Heq|Hne].
  - assert (o = Some k) as ->.
    { destruct o as [b|]; [f_equal; by apply t_slot_inj|]. by destruct Hslot. }
    rewrite lookup_insert_eq, lookup_insert_ne in Hs.
    2:{ intros Heq'. apply Hself. symmetry. apply slot_prev; [done|]. by symmetry. }
    injection Hs as <-. destruct (t_succs t !! t_slot O (Some k)) as [s1|] eqn:Hs1; simpl.
    + rewrite (tw_children _ Hwf _ _ c Hs1) by done. naive_solver.
    + split; [set_solver|]. intros [(v' & Hc & Hp)|[_ Hp]]; [|done].
      destruct (tw_header _ Hwf c v' Hc) as (_ & _ & h' & _ & Hpar). rewrite Hp in Hpar.
      destruct Hpar as (_ & Hk & _). destruct (tw_succ _ Hwf k Hk) as [s1 Hs]. congruence.
  - rewrite lookup_insert_ne in Hs by done.
    destruct (decide (t_slot O o = t_slot O (t_prev O v))) as [Heq|Hneq].
    + apply slot_prev in Heq as ->; [|done]. rewrite lookup_insert_eq in Hs.
      injection Hs as <-.
      rewrite elem_of_union, elem_of_singleton, (tw_children _ Hwf _ _ c Hs0) by done.
      naive_solver.
    + rewrite lookup_insert_ne in Hs by done.
      rewrite (tw_children _ Hwf _ _ c Hs) by done. naive_solver.
Qed.

Lemma tree_put_wf : tree_wf t'.
Proof.
  destruct (tp_succ _ _ _ _ Hput) as (s0 & Hs0 & Hsucc).
  assert (∀ o h', height_above t o h' → height_above t' o h') as Hab.
  { intros [p|] h'; [|done]. intros (Hpos & Hkp & Hhp). split_and!; [done| |].
    - apply tree_put_known. by left.
    - by destruct (tree_put_keeps p Hkp) as [_ ->]. }
  split.
  - eapply linked_on_iff; [apply tree_put_linked|]. intros b. symmetry. apply tree_put_known.
  - intros b v' Hb. rewrite (tp_headers _ _ _ _ Hput) in Hb.
    destruct (decide (b = k)) as [->|Hne].
    + rewrite lookup_insert_eq in Hb. injection Hb as <-. split_and!; [done|done|].
      exists h. rewrite (tp_heights _ _ _ _ Hput), lookup_insert_eq. auto.
    + rewrite lookup_insert_ne in Hb by done.
      destruct (tw_header _ Hwf b v' Hb) as (Hb' & Hs & hb & Hhb & Hpb).
      split_and!; [done|done|]. exists hb.
      destruct (tree_put_keeps b) as [_ ->]; [by eexists|]. auto.
  - intros b hb Hb. apply tree_put_known. rewrite (tp_heights _ _ _ _ Hput) in Hb.
    apply lookup_insert_Some in Hb as [[<- _]|[_ Hb]]; [by right|left].
    by eapply (tw_height _ Hwf).
  - rewrite Hsucc, lookup_insert_ne by done. apply lookup_insert_is_Some'.
    right. apply (tw_first _ Hwf).
  - intros b [Hb| ->]%tree_put_known; rewrite Hsucc; [|by rewrite lookup_insert_eq].
    apply lookup_insert_is_Some'. right. apply lookup_insert_is_Some'. right.
    by apply (tw_succ _ Hwf).
  - apply tree_put_children.
Qed.
End Put.

(** ** What the queries return in a well-formed tree *)
Section Queries.
Context (t : Tree K V S) (Hwf : tree_wf t).
Abbreviation L := (tree_lineage t).

(** The parent that the algorithms follow is the one of the headers. *)
Lemma parent_step_of c p : parent_step L c p ↔ parent_of t c p.
Proof.
  unfold parent_step, parent_of. simpl. split.
  - intros (h & Hh%ok_or_Ok & Hpos & Hp). apply bind_Ok_inv in Hp as (v & Hv%ok_or_Ok & Hp).
    exists v. split; [done|].
    destruct (tw_header _ Hwf c v Hv) as (_ & _ & h' & Hh' & Hab). simplify_eq.
    destruct (t_prev O v) as [q|] eqn:Hq; simpl in Hab; [|lia].
    rewrite (t_parent_prev _ _ Hq) in Hp. congruence.
  - intros (v & Hv & Hp). destruct (tw_header _ Hwf c v Hv) as (_ & _ & h & Hh & Hab).
    rewrite Hp in Hab. destruct Hab as (Hpos & _ & _). exists h. rewrite Hh, Hv. simpl.
    split_and!; [done|done|by apply t_parent_prev].
Qed.

Lemma nsteps_parent_of (m : nat) b a :
  nsteps (parent_step L) m b a ↔ nsteps (parent_of t) m b a.
Proof.
  split; intros H1; (induction H1 as [|m b c a Hs H1 IH]; [constructor|]);
    (econstructor; [by apply parent_step_of|done]).
Qed.

Lemma rtc_parent_of b a : rtc (parent_step L) b a ↔ rtc (parent_of t) b a.
Proof. rewrite !rtc_nsteps. by setoid_rewrite nsteps_parent_of. Qed.

Lemma lin_height_of b h : lin_height L b = Ok h ↔ t_heights t !! b = Some h.
Proof. apply ok_or_Ok. Qed.

Lemma known_height b : known t b → ∃ h, t_heights t !! b = Some h ∧ is_u32 h.
Proof.
  intros Hb. destruct (linked_height L _ (tw_linked _ Hwf) b Hb) as (h & Hh & Hu).
  exists h. by rewrite <-lin_height_of.
Qed.

Lemma tree_nth_ancestor b h n : t_heights t !! b = Some h → 0 ≤ n →
  (n ≤ h → ∃ a, nth_ancestor L b n = Ok a ∧ nsteps (parent_of t) (Z.to_nat n) b a) ∧
  (h < n → nth_ancestor L b n = Err (t_no_ancestor O b n)).
Proof.
  intros Hh Hn. pose proof (tw_height _ Hwf _ _ Hh) as Hb. apply lin_height_of in Hh. split.
  - intros Hle. destruct (nth_ancestor_ok L _ (tw_linked _ Hwf) b h n)
      as (a & Ha & [_ Hat] & _); [done..|].
    exists a. split; [done|]. by apply nsteps_parent_of.
  - intros Hlt. apply (nth_ancestor_err L b h n); [done| |done].
    destruct (known_height b Hb) as (h' & Hh' & [H0' _]). apply lin_height_of in Hh'.
    same_Ok. lia.
Qed.

Lemma tree_descends a b : known t a → known t b →
  ∃ r : bool, descends L a b = Ok r ∧ (r = true ↔ rtc (parent_of t) b a).
Proof.
  intros Ha Hb. destruct (descends_ok L _ (tw_linked _ Hwf) a b Ha Hb) as (r & Hr & Hiff).
  exists r. by rewrite <-rtc_parent_of.
Qed.

(** [c] is the last of the common ancestors of two blocks. *)
Definition last_common b0 b1 c : Prop :=
  rtc (parent_of t) b0 c ∧ rtc (parent_of t) b1 c ∧
  ∀ c', rtc (parent_of t) b0 c' → rtc (parent_of t) b1 c' → rtc (parent_of t) c c'.

Lemma common_of b0 b1 c :
  common L b0 b1 c ↔ rtc (parent_of t) b0 c ∧ rtc (parent_of t) b1 c.
Proof. unfold common. by rewrite !rtc_parent_of. Qed.

(** The blocks at the common height, and what the search finds from there. *)
Lemma tree_last_common b0 b1 h0 h1 :
  t_heights t !! b0 = Some h0 → t_heights t !! b1 = Some h1 →
  ∃ a0 a1, equalize L b0 b1 = Ok (a0, a1, h0 `min` h1) ∧
    (a0 = a1 → last_common b0 b1 a0) ∧
    (a0 ≠ a1 → ∃ g0 g1,
      nth_ancestor L a0 (h0 `min` h1) = Ok g0 ∧ nth_ancestor L a1 (h0 `min` h1) = Ok g1 ∧
      (g0 = g1 ↔ ∃ c, rtc (parent_of t) b0 c ∧ rtc (parent_of t) b1 c) ∧
      (g0 = g1 → 2 * (h0 `min` h1) ≤ u32_MAX →
        ∃ c, search_common L a0 a1 (h0 `min` h1) = Ok c ∧ last_common b0 b1 c)).
Proof.
  intros Hh0 Hh1. pose proof (tw_height _ Hwf _ _ Hh0) as Hk0.
  pose proof (tw_height _ Hwf _ _ Hh1) as Hk1. apply lin_height_of in Hh0, Hh1.
  pose proof (tw_linked _ Hwf) as Hlink.
  destruct (equalize_ok L _ Hlink b0 b1 h0 h1) as (a0 & a1 & Heq & Hat0 & Hat1); [done..|].
  pose proof (λ c, equalize_common L _ Hlink b0 b1 h0 h1 a0 a1 c Hk0 Hk1 Hh0 Hh1 Hat0 Hat1)
    as Hcom.
  destruct (ancestor_at_height L _ Hlink _ b0 a0 h0 Hk0 Hh0 Hat0) as (_ & Ha0 & Hha0).
  destruct (ancestor_at_height L _ Hlink _ b1 a1 h1 Hk1 Hh1 Hat1) as (_ & Ha1 & Hha1).
  replace (h0 - (h0 - h0 `min` h1)) with (h0 `min` h1) in Hha0 by lia.
  replace (h1 - (h1 - h0 `min` h1)) with (h0 `min` h1) in Hha1 by lia.
  exists a0, a1. split; [done|].
  assert (∀ c, common L a0 a1 c → (∀ c', common L a0 a1 c' → rtc (parent_step L) c c') →
    last_common b0 b1 c) as Hlast.
  { intros c Hc Hmax. apply Hcom, common_of in Hc as [Hc0 Hc1]. split_and!; [done|done|].
    intros c' Hc0' Hc1'. apply rtc_parent_of, Hmax, Hcom, common_of. done. }
  split.
  - intros ->. apply Hlast; [by split|]. by intros c' [Hc' _].
  - intros Hne. set (m := h0 `min` h1) in *.
    assert (is_u32 m) as [Hm0 _].
    { destruct (linked_height L _ Hlink a0 Ha0) as (h' & Hh' & Hu). by same_Ok. }
    destruct (nth_ancestor_ok L _ Hlink a0 m m) as (g0 & Hg0 & _); [done..|].
    destruct (nth_ancestor_ok L _ Hlink a1 m m) as (g1 & Hg1 & _); [done..|].
    exists g0, g1. split_and!; [done|done| |].
    + rewrite <-(meet_at_decide L _ Hlink a0 a1 m Ha0 Ha1 Hha0 Hha1 m) by done.
      rewrite (meet_at_common L _ Hlink a0 a1 m) by done.
      setoid_rewrite <-Hcom. by setoid_rewrite common_of.
    + intros Hg Hmax.
      destruct (search_common_ok L _ Hlink a0 a1 m) as (c & Hc & Hcc & Hcm); [done..| |].
      { by apply (meet_at_decide L _ Hlink a0 a1 m Ha0 Ha1 Hha0 Hha1 m g0 g1). }
      exists c. split; [done|]. by apply Hlast.
Qed.

(** Brought to one height, two blocks are the same exactly if one descends from the
    other. *)
Lemma tree_shared b0 b1 h0 h1 :
  t_heights t !! b0 = Some h0 → t_heights t !! b1 = Some h1 →
  ∃ a0 a1, equalize L b0 b1 = Ok (a0, a1, h0 `min` h1) ∧
    (a0 = a1 ↔ rtc (parent_of t) b0 b1 ∨ rtc (parent_of t) b1 b0).
Proof.
  intros Hh0 Hh1. pose proof (tw_height _ Hwf _ _ Hh0) as Hk0.
  pose proof (tw_height _ Hwf _ _ Hh1) as Hk1. apply lin_height_of in Hh0, Hh1.
  pose proof (tw_linked _ Hwf) as Hlink.
  destruct (equalize_ok L _ Hlink b0 b1 h0 h1) as (a0 & a1 & Heq & Hat0 & Hat1); [done..|].
  exists a0, a1. split; [done|]. rewrite <-!rtc_parent_of.
  rewrite (rtc_ancestor_at L _ Hlink b0 b1 h0 h1), (rtc_ancestor_at L _ Hlink b1 b0 h1 h0)
    by done.
  destruct (Z.le_gt_cases h0 h1) as [Hle|Hgt].
  - rewrite Z.min_l, Z.sub_diag, ancestor_at_0 in Hat0 by lia. subst a0.
    rewrite Z.min_l in Hat1 by lia. split; [by intros ->; right|].
    intros [[Hn Hat]|Hat]; [|by eapply ancestor_at_det].
    assert (h0 = h1) as -> by lia. rewrite Z.sub_diag, ancestor_at_0 in Hat1.
    rewrite Z.sub_diag in Hat. apply nsteps_0_inv in Hat. congruence.
  - rewrite Z.min_r in Hat0, Hat1 by lia.
    rewrite Z.sub_diag, ancestor_at_0 in Hat1. subst a1.
    split; [by intros <-; left|]. intros [Hat|[Hn _]]; [|lia].
    by eapply ancestor_at_det.
Qed.
End Queries.
End BlockTree.
