(* ===== verification/BlockTypes.v ===== *)
(** Headers, bodies and the Merkle root of a body (lib/types/mod.rs). *)
From S2P Require Import Prelude Bytes SwapTypes TxTypes Externals.
From S2P Require Import Accumulator.

Section BlockTypes.
Context {T : ExtTypes} {X : ExtFuns}.

Record Header := mkHeader {
  merkle_root : MerkleRoot;
  prev_side_hash : option BlockHash;
  prev_main_hash : BtcBlockHash;
  roots : list Hash;
}.

(** [Header::hash] *)
Definition header_hash (h : Header) : BlockHash :=
  blake3 (borsh_header (merkle_root h) (prev_side_hash h) (prev_main_hash h)
            (roots h)).

Record Body := mkBody {
  coinbase : list Output;
  transactions : list Transaction;
  body_authorizations : list Authorization;
}.

(** [Body::new] *)
Definition body_new (authorized_transactions : list (Authorized Transaction))
    (coinbase : list Output) : Body :=
  {| coinbase := coinbase;
     transactions := authorized_tx <$> authorized_transactions;
     body_authorizations := authorized_transactions ≫= authorizations |}.

(** [Body::authorized_transactions]: each transaction takes as many
    authorizations as it has inputs; running out of them panics. *)
Fixpoint split_authorizations (txs : list Transaction)
    (auths : list Authorization) : res () (list (Authorized Transaction)) :=
  match txs with
  | [] => Ok []
  | tx :: txs =>
      let n := length (inputs tx) in
      if (length auths <? n)%nat then Panic
      else rest ← split_authorizations txs (drop n auths);
           Ok (mkAuthorized tx (take n auths) :: rest)
  end.

Definition body_authorized_transactions (self : Body) :
    res () (list (Authorized Transaction)) :=
  split_authorizations (transactions self) (body_authorizations self).

(** [Body::inputs_len], [Body::get_inputs] *)
Definition body_inputs_len (self : Body) : nat :=
  sum_list (length ∘ inputs <$> transactions self).
Definition body_get_inputs (self : Body) : list OutPoint :=
  transactions self ≫= λ tx, (inputs tx).*1.

(** [Body::get_coinbase_value] *)
Definition get_coinbase_value (self : Body) : option Z :=
  checked_sum get_value (coinbase self).

(** ** The CBMT with fee and size totals *)
Record CbmtNode := mkNode {
  commitment : Hash;
  fees : Z;
  node_size : Z;
  index : Z;
}.

Definition default_node : CbmtNode :=
  {| commitment := zero_hash; fees := 0; node_size := 0; index := 0 |}.

(** [CbmtLeafPreCommitment] and [CbmtNodePreCommitment], serialised. *)
Definition leaf_pre_commitment (fee size : Z) (tx : Transaction) : list byte :=
  le_bytes 8 fee ++ le_bytes 8 size ++ canonical_encoding tx.
Definition node_pre_commitment (left : Hash) (fees size : Z) (right : Hash) :
    list byte :=
  arr_bytes left ++ le_bytes 8 fees ++ le_bytes 8 size ++ arr_bytes right.

(** [MergeFeeSizeTotal::merge]; the sum of the fees panics on overflow, the
    indices of the children are asserted to be consecutive. *)
Definition merge (lnode rnode : CbmtNode) : option CbmtNode :=
  fees ← u64_checked_add (fees lnode) (fees rnode);
  let size := (node_size lnode + node_size rnode) mod 2 ^ 64 in
  if index lnode + 1 =? index rnode then
    Some {| commitment :=
              blake3 (node_pre_commitment (commitment lnode) fees size
                        (commitment rnode));
            fees := fees;
            node_size := size;
            index := ((index lnode - 1) mod 2 ^ 64) / 2 |}
  else None.

(** The leaf of the [idx]-th of [n_txs] transactions. *)
Definition cbmt_leaf (n_txs idx : nat) (tx : FilledTransaction) :
    res (Txid * ComputeFeeError) CbmtNode :=
  fee ← match get_fee tx with
        | Ok fee => Ok fee
        | Err e => Err (txid (transaction tx), e)
        | Panic => Panic
        end;
  let size := canonical_size (transaction tx) in
  Ok {| commitment := blake3 (leaf_pre_commitment fee size (transaction tx));
        fees := fee;
        node_size := size;
        index := Z.of_nat (idx + n_txs) - 1 |}.

(** [Body::compute_merkle_root] *)
Definition compute_merkle_root (coinbase : list Output)
    (txs : list FilledTransaction) : res (Txid * ComputeFeeError) MerkleRoot :=
  leaves ← mapM_res id (imap (cbmt_leaf (length txs)) txs);
  root ← expect (cbmt_build_merkle_root merge default_node leaves);
  let coinbase_root := blake3 (borsh_outputs coinbase) in
  Ok (blake3 (arr_bytes coinbase_root ++ arr_bytes (commitment root))).

(** [Accumulator::apply_diff]; the error is a [UtreexoError]. *)
Definition apply_diff (d : AccumulatorDiff.t) (acc : MemForest) : option MemForest :=
  forest_modify acc (AccumulatorDiff.inserted d) (AccumulatorDiff.deleted d).

(** ** Coin movements outside bodies *)
Record BlockIndexEvents := mkIndexEvents {
  deposits : list (OutPoint * Output);
  bundle_spends : list (OutPoint * M6id);
}.
Definition no_index_events : BlockIndexEvents :=
  {| deposits := []; bundle_spends := [] |}.
Definition index_events_is_empty (e : BlockIndexEvents) : bool :=
  match deposits e, bundle_spends e with
  | [], [] => true
  | _, _ => false
  end.

(** ** Properties of bodies *)
Lemma split_authorizations_flat (ats : list (Authorized Transaction)) :
  (∀ at_, at_ ∈ ats →
    length (authorizations at_) = length (inputs (authorized_tx at_))) →
  split_authorizations (authorized_tx <$> ats) (ats ≫= authorizations) = Ok ats.
Proof.
  induction ats as [|[tx auths] ats IH]; intros Hlen; simpl; [done|].
  assert (length auths = length (inputs tx)) as Hl.
  { apply (Hlen (mkAuthorized tx auths)). set_solver. }
  rewrite length_app, (proj2 (Nat.ltb_ge _ _)) by lia.
  rewrite <-Hl, drop_app_length, take_app_length.
  fold (authorized_tx <$> ats). unfold mbind in IH; simpl in IH. rewrite IH; [done|].
  intros at_ Hin. apply Hlen. set_solver.
Qed.

(** Splitting the authorizations of a body back over its transactions undoes
    [Body::new]. *)
Theorem body_new_roundtrip ats cb :
  (∀ at_, at_ ∈ ats →
    length (authorizations at_) = length (inputs (authorized_tx at_))) →
  body_authorized_transactions (body_new ats cb) = Ok ats.
Proof. apply split_authorizations_flat. Qed.
End BlockTypes.
