(* ===== verification/SideTips.v ===== *)
(** The tips of the sidechain as of the mainchain's tip
    (lib/archive/side_tips/mod.rs).

    [bitcoin::Work] is a 256-bit unsigned integer of the bitcoin crate, here the
    [Z] it stands for; its arithmetic and its stored form are parameters. *)
From S2P Require Import Prelude Bytes SwapTypes TxTypes Externals Accumulator.
From S2P Require Import BlockTypes.

Class ExtWork := {
  (* bitcoin: [Work + Work] and [Work - Work] *)
  work_add : Z → Z → Z;
  work_sub : Z → Z → Z;
  (* bincode of a work and of a mainchain block hash *)
  bincode_work : Z → list byte;
  bincode_btc_block_hash : BtcBlockHash → list byte;
}.

(** What the model relies on: the sum and the difference are the numbers' as long
    as they fit into 256 bits. *)
Class WorkLaws (W : ExtWork) := {
  work_add_fits x y : 0 ≤ x → 0 ≤ y → x + y < 2 ^ 256 → work_add x y = x + y;
  work_sub_fits x y : 0 ≤ y ≤ x → x < 2 ^ 256 → work_sub x y = x - y;
}.

(** [BlockHeaderInfo] of a mainchain block *)
Record BlockHeaderInfo := mkHeaderInfo {
  info_block_hash : BtcBlockHash;
  info_prev_block_hash : BtcBlockHash;
  info_height : Z;
  info_work : Z;
}.
#[export] Instance BlockHeaderInfo_eq_dec : EqDecision BlockHeaderInfo.
Proof. solve_decision. Defined.

Record MainchainTip := mkMainchainTip {
  cumulative_work : Z;
  tip_info : option BlockHeaderInfo;
}.

(** [MainchainTip::block_hash] *)
Definition mainchain_tip_hash (t : MainchainTip) : BtcBlockHash :=
  match tip_info t with
  | Some info => info_block_hash info
  | None => zero_hash
  end.

Record SidechainTipInfo := mkTipInfo {
  sidechain_height : Z;
  tip_work : Z;
  tip_main_block_hash : BtcBlockHash;
}.
#[export] Instance SidechainTipInfo_eq_dec : EqDecision SidechainTipInfo.
Proof. solve_decision. Defined.
#[export] Instance SidechainTipInfo_countable : Countable SidechainTipInfo.
Proof.
  apply (inj_countable'
    (λ i, (sidechain_height i, tip_work i, tip_main_block_hash i))
    (λ p, mkTipInfo p.1.1 p.1.2 p.2)).
  by intros [].
Defined.

Record SidechainHeaderData := mkHeaderData {
  data_prev_side_hash : option BlockHash;
  data_prev_main_hash : BtcBlockHash;
}.

Record BmmCommitment := mkBmmCommitment {
  sidechain_block_hash : BlockHash;
  sidechain_header_data : SidechainHeaderData;
}.

Inductive SideTipsError :=
| MissingSidechainParent (h : BlockHash)
| MissingSidechainTip (h : BlockHash)
| InvalidMainchainParent (expected : BtcBlockHash)
| InvalidTipHeight (expected : Z)
| InvalidMainchainParentHeight (tip_height : Z)
| NoMainchainTip.

Record SideTips := mkSideTips {
  mainchain_tip : MainchainTip;
  sidechain_tips : gmap BlockHash SidechainTipInfo;
  ordered_sidechain_tips : gmap SidechainTipInfo BlockHash;
}.

Section SideTips.
Context {W : ExtWork}.
Implicit Types (st : SideTips) (info : SidechainTipInfo).

(** [SideTips::create] on an empty environment *)
Definition side_tips_create : SideTips := mkSideTips (mkMainchainTip 0 None) ∅ ∅.

(** The key that [SerdeBincode<SidechainTipInfo>] stores. *)
Definition tip_key info : list byte :=
  reverse (le_bytes 4 (sidechain_height info)) ++ bincode_work (tip_work info)
  ++ bincode_btc_block_hash (tip_main_block_hash info).

(** [best_side_tip] *)
Definition best_side_tip st : option (SidechainTipInfo * BlockHash) :=
  last (entries_by tip_key (ordered_sidechain_tips st)).

Definition connect_sidechain_tip (main_block_hash : BtcBlockHash) (cumulative_work : Z)
    (sidechain_block_hash : BlockHash) (sidechain_header_data : SidechainHeaderData)
    st : res SideTipsError SideTips :=
  sidechain_height ←
    match data_prev_side_hash sidechain_header_data with
    | Some parent_hash =>
        parent_info ← ok_or (sidechain_tips st !! parent_hash)
                        (MissingSidechainParent parent_hash);
        Ok (u32_saturating_add (sidechain_height parent_info) 1)
    | None => Ok 0
    end;
  match sidechain_tips st !! sidechain_block_hash with
  | Some _ => Ok st
  | None =>
      let side_tip_info := mkTipInfo sidechain_height cumulative_work main_block_hash in
      Ok {| mainchain_tip := mainchain_tip st;
            sidechain_tips := <[sidechain_block_hash := side_tip_info]> (sidechain_tips st);
            ordered_sidechain_tips :=
              <[side_tip_info := sidechain_block_hash]> (ordered_sidechain_tips st) |}
  end.

Definition disconnect_sidechain_tip (side_block_hash : BlockHash) st : SideTips :=
  match sidechain_tips st !! side_block_hash with
  | None => st
  | Some side_tip_info =>
      {| mainchain_tip := mainchain_tip st;
         sidechain_tips := delete side_block_hash (sidechain_tips st);
         ordered_sidechain_tips := delete side_tip_info (ordered_sidechain_tips st) |}
  end.

Definition connect_mainchain_tip (header_info : BlockHeaderInfo)
    (bmm_commitment : option BmmCommitment) st : res SideTipsError SideTips :=
  let mainchain_tip0 := mainchain_tip st in
  let expected_prev_main_hash := mainchain_tip_hash mainchain_tip0 in
  _ ← ensure (bool_decide (info_prev_block_hash header_info = expected_prev_main_hash))
        (InvalidMainchainParent expected_prev_main_hash);
  _ ← match tip_info mainchain_tip0 with
      | Some tip =>
          ensure (bool_decide (info_height header_info = u32_add (info_height tip) 1))
            (InvalidTipHeight (u32_add (info_height tip) 1))
      | None => Ok ()
      end;
  let cumulative_work :=
    work_add (cumulative_work mainchain_tip0) (info_work header_info) in
  st ← match bmm_commitment with
       | Some c =>
           connect_sidechain_tip (info_block_hash header_info) cumulative_work
             (sidechain_block_hash c) (sidechain_header_data c) st
       | None => Ok st
       end;
  Ok {| mainchain_tip := mkMainchainTip cumulative_work (Some header_info);
        sidechain_tips := sidechain_tips st;
        ordered_sidechain_tips := ordered_sidechain_tips st |}.

(** The new tip of [disconnect_mainchain_tip]. *)
Definition previous_tip (mainchain_tip_info : BlockHeaderInfo)
    (prev_tip_info : option BlockHeaderInfo) :
    res SideTipsError (option BlockHeaderInfo) :=
  let parent := info_prev_block_hash mainchain_tip_info in
  match prev_tip_info with
  | Some prev =>
      _ ← ensure (bool_decide (info_block_hash prev = parent)) (InvalidMainchainParent parent);
      _ ← ensure (bool_decide
                    (u32_add (info_height prev) 1 = info_height mainchain_tip_info))
            (InvalidMainchainParentHeight (info_height mainchain_tip_info));
      Ok (if decide (parent = zero_hash) then None else Some prev)
  | None => if decide (parent = zero_hash) then Ok None else Err (InvalidMainchainParent parent)
  end.

Definition disconnect_mainchain_tip (prev_tip_info : option BlockHeaderInfo)
    (bmm_commitment : option BlockHash) st : res SideTipsError SideTips :=
  let '(mkMainchainTip cumulative_work mainchain_tip_info) := mainchain_tip st in
  mainchain_tip_info ← ok_or mainchain_tip_info NoMainchainTip;
  new_mainchain_tip_info ← previous_tip mainchain_tip_info prev_tip_info;
  ordered ←
    match bmm_commitment with
    | Some side_block_hash =>
        side_tip_info ← ok_or (sidechain_tips st !! side_block_hash)
                          (MissingSidechainTip side_block_hash);
        if decide (tip_main_block_hash side_tip_info = info_block_hash mainchain_tip_info)
        then
          match ordered_sidechain_tips st !! side_tip_info with
          | Some _ => Ok (delete side_tip_info (ordered_sidechain_tips st))
          | None => Err (MissingSidechainTip side_block_hash)
          end
        else Ok (ordered_sidechain_tips st)
    | None => Ok (ordered_sidechain_tips st)
    end;
  Ok {| mainchain_tip :=
          mkMainchainTip (work_sub cumulative_work (info_work mainchain_tip_info))
            new_mainchain_tip_info;
        sidechain_tips := sidechain_tips st;
        ordered_sidechain_tips := ordered |}.
End SideTips.
