(* ===== verification/Rollback.v ===== *)
(** Values that support rollbacks (lib/state/rollback.rs): a non-empty history
    of height-stamped values. *)
From S2P Require Import Prelude.

Record HeightStamped (A : Type) := mkStamped { value : A; stamp_height : Z }.
Arguments mkStamped {A}.
Arguments value {A}.
Arguments stamp_height {A}.

(** [NonEmpty]: a head, then the later values, the most recent last. *)
Record RollBack (A : Type) := mkRollBack {
  rb_head : HeightStamped A;
  rb_tail : list (HeightStamped A);
}.
Arguments mkRollBack {A}.
Arguments rb_head {A}.
Arguments rb_tail {A}.

Section RollBack.
Context {A : Type}.
Implicit Type self : RollBack A.

(** [RollBack::new] *)
Definition rb_new (v : A) (h : Z) : RollBack A :=
  {| rb_head := mkStamped v h; rb_tail := [] |}.

Definition earliest self : HeightStamped A := rb_head self.

Definition latest self : HeightStamped A :=
  default (rb_head self) (last (rb_tail self)).

(** [RollBack::pop]: the history without its most recent value, if any is
    left, and that value. *)
Definition pop self : option (RollBack A) * HeightStamped A :=
  match last (rb_tail self) with
  | Some v =>
      (Some {| self with rb_tail := take (length (rb_tail self) - 1) (rb_tail self) |},
       v)
  | None => (None, rb_head self)
  end.

(** [RollBack::push]; [None] when the value is given back. *)
Definition push (v : A) (h : Z) self : option (RollBack A) :=
  if h <? stamp_height (latest self) then None
  else Some {| self with rb_tail := rb_tail self ++ [mkStamped v h] |}.

(** The whole history, earliest first. *)
Definition history self : list (HeightStamped A) := rb_head self :: rb_tail self.

(** Heights never decrease along a history. *)
Definition rb_wf self : Prop :=
  Sorted (λ a b, stamp_height a ≤ stamp_height b) (history self).

Lemma latest_last self : last (history self) = Some (latest self).
Proof.
  unfold latest, history. destruct (rb_tail self) as [|x l] using rev_ind; [done|].
  by rewrite app_comm_cons, !last_snoc.
Qed.

Lemma pop_push v h self self' :
  push v h self = Some self' → pop self' = (Some self, mkStamped v h).
Proof.
  unfold push. case_match; [done|]. intros [= <-]. unfold pop; simpl.
  rewrite last_snoc, length_app; simpl. rewrite Nat.add_sub, take_app_length.
  by destruct self.
Qed.

Lemma latest_push v h self self' :
  push v h self = Some self' → latest self' = mkStamped v h.
Proof.
  unfold push. case_match; [done|]. intros [= <-]. unfold latest; simpl.
  by rewrite last_snoc.
Qed.

Lemma earliest_push v h self self' :
  push v h self = Some self' → earliest self' = earliest self.
Proof. unfold push. case_match; [done|]. by intros [= <-]. Qed.

Lemma push_Some v h self :
  stamp_height (latest self) ≤ h → ∃ self', push v h self = Some self'.
Proof.
  intros Hle. unfold push. rewrite (proj2 (Z.ltb_ge _ _)) by lia. by eexists.
Qed.

Lemma rb_new_wf v h : rb_wf (rb_new v h).
Proof. repeat constructor. Qed.

Lemma Sorted_snoc (R : relation (HeightStamped A)) l x y :
  Sorted R l → last l = Some y → R y x → Sorted R (l ++ [x]).
Proof.
  induction 1 as [|z l Hs IH Hd]; simpl; [done|].
  destruct l as [|w l]; simpl in *.
  - intros [= ->] ?. by repeat constructor.
  - intros Hl Hr. constructor; [by apply IH|]. constructor. by inversion Hd.
Qed.

Lemma push_wf v h self self' :
  rb_wf self → push v h self = Some self' → rb_wf self'.
Proof.
  unfold push. destruct (Z.ltb_spec h (stamp_height (latest self))); [done|].
  intros Hwf [= <-]. unfold rb_wf, history in *; simpl.
  rewrite app_comm_cons. eapply Sorted_snoc; [exact Hwf|apply latest_last|].
  simpl. lia.
Qed.
End RollBack.

(** [push] refuses exactly the values older than the latest one; a pushed
    value is the latest, and popping it gives back the history it was pushed on;
    the heights of a history stay in order. *)
Theorem rollback_push_pop {A} (v : A) h self :
  rb_wf self →
  (push v h self = None ↔ h < stamp_height (latest self)) ∧
  ∀ self', push v h self = Some self' →
    rb_wf self' ∧ latest self' = mkStamped v h ∧ earliest self' = earliest self ∧
    pop self' = (Some self, mkStamped v h).
Proof.
  intros Hwf. split.
  - unfold push. destruct (Z.ltb_spec h (stamp_height (latest self))); naive_solver lia.
  - intros self' Hp. split_and!.
    + by eapply push_wf.
    + by eapply latest_push.
    + by eapply earliest_push.
    + by apply pop_push.
Qed.

Lemma rollback_push_pop_witness :
  push true 7 (rb_new false 5) =
    Some (mkRollBack (mkStamped false 5) [mkStamped true 7]) ∧
  pop (mkRollBack (mkStamped false 5) [mkStamped true 7]) =
    (Some (rb_new false 5), mkStamped true 7).
Proof.
  split; [reflexivity|].
  apply (rollback_push_pop true 7 (rb_new false 5)); [|reflexivity].
  repeat constructor.
Defined.
