(* ===== verification/Bundle.v ===== *)
(** Withdrawal bundles (lib/types/mod.rs): sizes and the weight prediction, the
    bundle itself, and aggregated withdrawals with their order. *)
From S2P Require Import Prelude Bytes SwapTypes TxTypes Externals.

Section Bundle.
Context {T : ExtTypes} {X : ExtFuns}.

(** [bitcoin::Transaction::MAX_STANDARD_WEIGHT], in weight units. *)
Definition MAX_STANDARD_WEIGHT : Z := 400000.
(** [bitcoin::Amount::SIZE], [absolute::LockTime::SIZE] and
    [Weight::WITNESS_SCALE_FACTOR]. *)
Definition AMOUNT_SIZE : Z := 8.
Definition LOCKTIME_SIZE : Z := 4.
Definition WITNESS_SCALE_FACTOR : Z := 4.

(** [WithdrawalBundle::txout_size] *)
Definition txout_size (spk_size : Z) : option Z :=
  size ← u32_checked_add AMOUNT_SIZE (varint_size spk_size);
  u32_checked_add size spk_size.

(** The helpers nested in [predict_weight]. *)
Definition OUTPOINT_SIZE : Z := 36.
Definition SEQUENCE_SIZE : Z := 4.
Definition txin_base_size (script_sig_size : Z) : option Z :=
  res ← u32_checked_add (OUTPOINT_SIZE + varint_size script_sig_size)
          script_sig_size;
  u32_checked_add res SEQUENCE_SIZE.
Definition vin_base_size (n_inputs sum_txin_base_sizes : Z) : option Z :=
  u32_checked_add (varint_size n_inputs) sum_txin_base_sizes.
Definition vout_size (n_outputs sum_txout_sizes : Z) : option Z :=
  u32_checked_add (varint_size n_outputs) sum_txout_sizes.
Definition VERSION_SIZE : Z := 4.
Definition tx_base_size (n_inputs sum_txin_base_sizes n_outputs
    sum_txout_sizes : Z) : option Z :=
  vin_base_size ← vin_base_size n_inputs sum_txin_base_sizes;
  res ← u32_checked_add VERSION_SIZE vin_base_size;
  vout_size ← vout_size n_outputs sum_txout_sizes;
  res ← u32_checked_add res vout_size;
  u32_checked_add res LOCKTIME_SIZE.

(** [WithdrawalBundle::predict_weight] *)
Definition predict_weight (n_outputs sum_txout_sizes : Z) : option Z :=
  sum_txin_base_sizes ← txin_base_size 0;
  n_outputs ← u32_checked_add n_outputs 2;
  inputs_commitment_txout_size ← txout_size 34;
  mainchain_fee_commitment_txout_size ← txout_size 10;
  sum_txout_sizes ←
    u32_checked_add
      (inputs_commitment_txout_size + mainchain_fee_commitment_txout_size)
      sum_txout_sizes;
  tx_base_size ← tx_base_size 1 sum_txin_base_sizes n_outputs sum_txout_sizes;
  tx_weight_wu ← u64_checked_mul tx_base_size WITNESS_SCALE_FACTOR;
  if tx_weight_wu <=? MAX_STANDARD_WEIGHT then Some tx_weight_wu else None.

(** ** The bundle *)
Record WithdrawalBundle := mkBundle {
  spend_utxos : gmap OutPoint Output;
  tx_output : list TxOut;
}.

(** The commitment to the inputs and the block height, in [new]. *)
Definition inputs_commitment_txout (block_height : Z)
    (spend_utxos : gmap OutPoint Output) : TxOut :=
  let inputs :=
    (entries_by outpoint_ord_key spend_utxos).*1
    ++ [Regular zero_hash block_height] in
  {| txout_value := 0;
     txout_script_pubkey :=
       op_return_push (arr_bytes (blake3 (borsh_outpoints inputs))) |}.

Definition mainchain_fee_txout (fee : Z) : TxOut :=
  {| txout_value := 0;
     txout_script_pubkey := op_return_push (reverse (le_bytes 8 fee)) |}.

(** [WithdrawalBundle::new]; [None] is [BundleTooHeavy]. *)
Definition bundle_new (block_height fee : Z)
    (spend_utxos : gmap OutPoint Output) (bundle_outputs : list TxOut) :
    option WithdrawalBundle :=
  let outputs :=
    mainchain_fee_txout fee
    :: inputs_commitment_txout block_height spend_utxos
    :: bundle_outputs in
  if MAX_STANDARD_WEIGHT <? btc_weight outputs then None
  else Some {| spend_utxos := spend_utxos; tx_output := outputs |}.

(** [WithdrawalBundle::compute_m6id] *)
Definition compute_m6id (self : WithdrawalBundle) : M6id :=
  btc_txid (tx_output self).

(** The entries of [spend_utxos] in the order of the [BTreeMap]. *)
Definition spend_list (self : WithdrawalBundle) : list (OutPoint * Output) :=
  entries_by outpoint_ord_key (spend_utxos self).

(** ** Aggregated withdrawals *)
Record AggregatedWithdrawal := mkAggregated {
  agg_spend_utxos : gmap OutPoint Output;
  agg_main_address : BtcAddress;
  agg_value : Z;
  agg_main_fee : Z;
}.

(** [a.cmp(&b) != Greater]: lexicographic by fee, value and address. *)
Definition agg_le (a b : AggregatedWithdrawal) : Prop :=
  agg_main_fee a < agg_main_fee b ∨
  (agg_main_fee a = agg_main_fee b ∧
   (agg_value a < agg_value b ∨
    (agg_value a = agg_value b ∧
     BtcAddress_le (agg_main_address a) (agg_main_address b)))).
#[export] Instance agg_le_dec : RelDecision agg_le.
Proof. intros a b. unfold agg_le. apply _. Defined.

(** [sort_by_key(|a| Reverse(a.clone()))], a stable sort, largest first. *)
Definition agg_ge : relation AggregatedWithdrawal := λ a b, agg_le b a.
#[export] Instance agg_ge_dec : RelDecision agg_ge := λ a b, agg_le_dec b a.
Definition sort_aggregated (l : list AggregatedWithdrawal) :
    list AggregatedWithdrawal := merge_sort agg_ge l.

(** ** The order is total, and the sorted list is canonical *)
Section order.
Context (addr_total : Total BtcAddress_le)
        (addr_trans : Transitive BtcAddress_le)
        (addr_antisymm : AntiSymm (=) BtcAddress_le).

Lemma agg_le_total a b : agg_le a b ∨ agg_le b a.
Proof using addr_total.
  unfold agg_le.
  destruct (addr_total (agg_main_address a) (agg_main_address b));
    destruct (Z.lt_total (agg_main_fee a) (agg_main_fee b)) as [?|[?|?]];
    destruct (Z.lt_total (agg_value a) (agg_value b)) as [?|[?|?]]; naive_solver lia.
Qed.

Lemma agg_le_trans a b c : agg_le a b → agg_le b c → agg_le a c.
Proof using addr_trans.
  unfold agg_le. intros Hab Hbc.
  destruct (Z.lt_total (agg_main_fee a) (agg_main_fee c)) as [?|[?|?]]; [tauto| |lia].
  destruct (Z.lt_total (agg_value a) (agg_value c)) as [?|[?|?]]; [tauto| |lia].
  right; split; [done|right; split; [done|]].
  destruct Hab as [?|(? & [?|(? & ?)])], Hbc as [?|(? & [?|(? & ?)])]; try lia.
  by etrans.
Qed.

Lemma agg_le_antisymm a b :
  agg_le a b → agg_le b a → agg_main_address a = agg_main_address b.
Proof using addr_antisymm.
  unfold agg_le. intros [?|(? & [?|(? & ?)])] [?|(? & [?|(? & ?)])]; try lia.
  by apply addr_antisymm.
Qed.

(** Two lists sorted by [agg_ge] with pairwise different addresses that are
    permutations of each other are equal. *)
Lemma sorted_aggregated_unique (l k : list AggregatedWithdrawal) :
  NoDup (agg_main_address <$> l) → l ≡ₚ k →
  StronglySorted agg_ge l → StronglySorted agg_ge k → l = k.
Proof using addr_total addr_trans addr_antisymm.
  intros Hnd Hp Hl. revert k Hp. induction Hl as [|a l Hl IH Ha]; intros k Hp Hk.
  - by apply Permutation_nil_l in Hp.
  - destruct Hk as [|b k Hk Hb]; [by apply Permutation_nil_r in Hp|].
    assert (a = b) as <-.
    { assert (a ∈ b :: k) as Hin by (rewrite <-Hp; set_solver).
      assert (b ∈ a :: l) as Hin' by (rewrite Hp; set_solver).
      apply elem_of_cons in Hin as [->|Hin]; [done|].
      apply elem_of_cons in Hin' as [->|Hin']; [done|].
      rewrite Forall_forall in Ha, Hb.
      specialize (Ha b Hin'). specialize (Hb a Hin).
      assert (agg_main_address a = agg_main_address b) as Heq
        by by apply agg_le_antisymm.
      csimpl in Hnd. apply NoDup_cons in Hnd as [Hnin _]. destruct Hnin.
      rewrite Heq. by apply list_elem_of_fmap_2. }
    f_equal. apply IH; [|by apply Permutation_cons_inv in Hp|done].
    csimpl in Hnd. by apply NoDup_cons in Hnd as [_ ?].
Qed.

Lemma sort_aggregated_canonical l k :
  NoDup (agg_main_address <$> l) → l ≡ₚ k →
  sort_aggregated l = sort_aggregated k.
Proof using addr_total addr_trans addr_antisymm.
  intros Hnd Hp. unfold sort_aggregated.
  assert (Total agg_ge) as Htot by (intros ??; apply agg_le_total).
  assert (Transitive agg_ge) as Htr.
  { intros x y z Hxy Hyz. unfold agg_ge in *. by eapply agg_le_trans. }
  apply sorted_aggregated_unique.
  - by rewrite merge_sort_Permutation.
  - by rewrite !merge_sort_Permutation.
  - by apply Sorted_StronglySorted, Sorted_merge_sort.
  - by apply Sorted_StronglySorted, Sorted_merge_sort.
Qed.
End order.

(** ** The weight prediction *)
Lemma predict_weight_bound n s w :
  predict_weight n s = Some w → w ≤ MAX_STANDARD_WEIGHT.
Proof.
  unfold predict_weight. intros H.
  repeat (apply bind_Some in H as (? & _ & H)).
  destruct (Z.leb_spec x5 MAX_STANDARD_WEIGHT); naive_solver.
Qed.
End Bundle.
