(* ===== verification/StateDb.v ===== *)
(** The sidechain state (lib/state/mod.rs, lib/state/error.rs): its databases,
    the persistence of swaps, output locks and reservations, and the operations
    that L1 monitoring and the user interface run on swaps.

    A database is a finite map and the state of the open transaction is the
    record [State]; an operation takes it and returns the new one.  An [Err]
    carries no state: the callers drop the write transaction, which aborts it.
    Failures of the storage engine itself (I/O, a full map) are not modelled,
    except the one the code handles: a swap record that does not decode. *)
From S2P Require Import Prelude Bytes SwapTypes TxTypes Externals.
From S2P Require Import Accumulator BlockTypes Rollback Bundle.

(** ** Errors *)

(** The messages of [Error::InvalidTransaction]. *)
Inductive InvalidTxReason :=
| ExpectedSwapCreate | SwapCreateNoInputs | SwapIdMismatch | SwapAlreadyExists
| L2AmountZero | NoOutputs | InputLockedToSwap | InputLockedToMissingSwap
| InputValueOverflow | InsufficientFunds | SwapPendingOverflow
| UnderEscrowed
| ExpectedSwapAccept | SwapNotOpen | SwapExpiredAtHeight | SwapAlreadyReserved
| AcceptNotOwner
| ExpectedSwapClaim | SwapNotReady | L1TxNotDetected
| LockedToDifferentSwap | NoLockedInput | NoLiveReservation | ClaimerMismatch
| OutputValueOverflow | ClaimUnderpays
| CannotSpendLocked
| OpenClaimNeedsClaimer
| SwapNotSerializable
| NotCancellable | NotFillable | ZeroConfirmations | L1TxTooOld
| NotWaiting.

Inductive WithdrawalBundleStatus := BundleConfirmed | BundleFailed | BundleSubmitted.
#[export] Instance WithdrawalBundleStatus_eq_dec : EqDecision WithdrawalBundleStatus.
Proof. solve_decision. Defined.

Inductive Error :=
| AuthorizationErr
| AmountOverflow
| AmountUnderflow
| BodyTooLarge
| ComputeMerkleRoot (e : Txid * ComputeFeeError)
| InvalidBody
| InvalidHeaderBlockHash
| InvalidHeaderPrevSideHash
| NoDepositBlock
| NotEnoughFees
| NoTip
| NoStxo (o : OutPoint)
| NotEnoughValueIn
| NoUtxo (o : OutPoint)
| SpendWithdrawalOutput
| NoWithdrawalBundleEventBlock
| Utreexo
| UtreexoProofFailed (t : Txid)
| UtreexoRootsMismatch
| UtxoDoubleSpent
| UtxoHashMismatch (o : OutPoint)
| TooManySigops
| UnexpectedWithdrawalBundleStatus (m : M6id) (s : WithdrawalBundleStatus)
    (status_height block_height : Z)
| UnknownWithdrawalBundle (m : M6id)
| UnknownWithdrawalBundleConfirmed (m : M6id)
| WrongPubKeyForAddress
| WithdrawalBundleTooHeavy
| SwapNotFound (s : SwapId)
| SwapNotCreator
| InvalidTransaction (r : InvalidTxReason)
| L1TxidAlreadyUsed (s existing : SwapId)
| ParentChainRpc.

Definition WITHDRAWAL_BUNDLE_FAILURE_GAP : Z := 4.

(** What a key of the swaps database holds. *)
Inductive SwapEntry :=
| Decodes (s : Swap)
| Corrupted.

(** [ExpiredSwapReversal] *)
Definition ExpiredSwapReversal : Type := SwapId * SwapState * list OutPoint.

Section State.
Context {T : ExtTypes} {X : ExtFuns}.

Inductive WithdrawalBundleInfo :=
| Known (bundle : WithdrawalBundle)
| Unknown
| UnknownConfirmed (spend_utxos : gmap OutPoint Output).

Definition is_known (i : WithdrawalBundleInfo) : bool :=
  match i with Known _ => true | _ => false end.

Record State := mkState {
  tip : option BlockHash;
  height : option Z;
  utxos : gmap OutPoint Output;
  stxos : gmap OutPoint SpentOutput;
  pending_withdrawal_bundle : option (WithdrawalBundle * Z);
  latest_failed_withdrawal_bundle : option (RollBack M6id);
  withdrawal_bundles :
    gmap M6id (WithdrawalBundleInfo * RollBack WithdrawalBundleStatus);
  block_index_events : gmap Z BlockIndexEvents;
  deposit_blocks : gmap Z (BtcBlockHash * Z);
  withdrawal_bundle_event_blocks : gmap Z (BtcBlockHash * Z);
  utreexo_accumulator : option MemForest;
  swaps : gmap SwapId SwapEntry;
  swaps_by_l1_txid : gmap (ParentChainType * SwapTxId) SwapId;
  swaps_by_recipient : gmap Address (list SwapId);
  locked_swap_outputs : gmap OutPoint SwapId;
  expired_swaps : gmap Z (list ExpiredSwapReversal);
  swap_reservations : gmap SwapId SwapReservation;
}.

(** [State::new] on a fresh environment. *)
Definition empty_state : State :=
  {| tip := None; height := None; utxos := ∅; stxos := ∅;
     pending_withdrawal_bundle := None;
     latest_failed_withdrawal_bundle := None;
     withdrawal_bundles := ∅; block_index_events := ∅; deposit_blocks := ∅;
     withdrawal_bundle_event_blocks := ∅; utreexo_accumulator := None;
     swaps := ∅; swaps_by_l1_txid := ∅; swaps_by_recipient := ∅;
     locked_swap_outputs := ∅; expired_swaps := ∅; swap_reservations := ∅ |}.

Implicit Type st : State.

(** ** Reading *)
Definition get_accumulator st : MemForest :=
  default forest_default (utreexo_accumulator st).

(** The height of the block after the tip,
    [try_get_height()?.map_or(0, |h| h + 1)]. *)
Definition next_height st : Z :=
  match height st with
  | Some h => u32_add h 1
  | None => 0
  end.

Definition get_block_index_events st (h : Z) : BlockIndexEvents :=
  default no_index_events (block_index_events st !! h).

Definition get_utxos_by_addresses st (addresses : gset Address) :
    gmap OutPoint Output :=
  filter (λ p, address p.2 ∈ addresses) (utxos st).

(** [State::fill_transaction] *)
Definition fill_transaction st (tx : Transaction) : res Error FilledTransaction :=
  spent ← mapM_res (λ i : OutPoint * Hash, ok_or (utxos st !! i.1) (NoUtxo i.1))
            (inputs tx);
  Ok {| transaction := tx; spent_utxos := spent |}.

(** [State::regenerate_proof] *)
Definition regenerate_proof st (tx : Transaction) : res Error Transaction :=
  p ← ok_or (forest_prove (get_accumulator st) (inputs tx).*2) Utreexo;
  Ok {| tx with proof := p |}.

(** [State::validate_utxo_hashes] *)
Definition validate_utxo_hashes (ftx : FilledTransaction) : res Error () :=
  foldM (λ _ '(outpoint, utxo_hash, output),
           ensure (bool_decide (utxo_hash = hash_pointed outpoint output))
             (UtxoHashMismatch outpoint))
    () (filled_inputs ftx).

(** [State::validate_filled_transaction]: the fee, or why there is none. *)
Definition validate_filled_transaction (ftx : FilledTransaction) : res Error Z :=
  _ ← validate_utxo_hashes ftx;
  value_in ← foldM (λ value_in utxo,
      _ ← ensure (negb (is_withdrawal (content utxo))) SpendWithdrawalOutput;
      ok_or (u64_checked_add value_in (get_value utxo)) AmountOverflow)
    0 (spent_utxos ftx);
  value_out ← foldM (λ value_out output,
      ok_or (u64_checked_add value_out (get_value output)) AmountOverflow)
    0 (outputs (transaction ftx));
  _ ← ensure (negb (value_in <? value_out)) NotEnoughValueIn;
  ok_or (u64_checked_sub value_in value_out) AmountUnderflow.

(** [body_sigops_limit] and [body_size_limit] *)
Definition limit_at (start h : Z) : Z :=
  let month := h / (6 * 24 * 30) in
  if month <? 120 then f64_limit_growth start month else start * 111.
Definition body_sigops_limit (h : Z) : Z := limit_at 42800 h.
Definition body_size_limit (h : Z) : Z := limit_at (8 * 1024 * 1024) h.

(** [last] of a database keyed by [SerdeBincode<u32>]: the entry whose encoded
    key is the greatest byte string. *)
Definition db_last {A} (m : gmap Z A) : option (Z * A) :=
  last (entries_by bincode_u32 m).

Definition get_last_deposit_block_hash st : option BtcBlockHash :=
  (λ p : Z * (BtcBlockHash * Z), fst p.2) <$> db_last (deposit_blocks st).
Definition get_last_withdrawal_bundle_event_block_hash st : option BtcBlockHash :=
  (λ p : Z * (BtcBlockHash * Z), fst p.2) <$>
    db_last (withdrawal_bundle_event_blocks st).

(** [State::get_latest_failed_withdrawal_bundle] *)
Definition get_latest_failed_withdrawal_bundle st :
    res Error (option (Z * M6id)) :=
  match latest_failed_withdrawal_bundle st with
  | None => Ok None
  | Some rb =>
      let m6id := value (latest rb) in
      '(_, bundle_status) ← expect (withdrawal_bundles st !! m6id);
      let bundle_status := latest bundle_status in
      _ ← assert_ (bool_decide (value bundle_status = BundleFailed));
      Ok (Some (stamp_height bundle_status, m6id))
  end.

(** [State::sidechain_wealth] *)
Definition is_deposit (o : OutPoint) : bool :=
  match o with Deposit _ _ => true | _ => false end.
Definition is_withdrawal_inpoint (i : InPoint) : bool :=
  match i with InWithdrawal _ => true | _ => false end.
Definition sidechain_wealth st : res Error Z :=
  total_deposit_utxo_value ←
    foldM (λ acc '(o, out),
        if is_deposit o then ok_or (u64_checked_add acc (get_value out)) AmountOverflow
        else Ok acc) 0 (entries_by outpoint_key (utxos st));
  '(total_deposit_stxo_value, total_withdrawal_stxo_value) ←
    foldM (λ '(dep, wd) '(o, spent),
        dep ← (if is_deposit o
               then ok_or (u64_checked_add dep (get_value (output spent))) AmountOverflow
               else Ok dep);
        wd ← (if is_withdrawal_inpoint (inpoint spent)
              then ok_or (u64_checked_add wd (get_value (output spent))) AmountOverflow
              else Ok wd);
        Ok (dep, wd)) (0, 0) (entries_by outpoint_key (stxos st));
  deposited ← ok_or (u64_checked_add total_deposit_utxo_value
                       total_deposit_stxo_value) AmountOverflow;
  ok_or (u64_checked_sub deposited total_withdrawal_stxo_value) AmountOverflow.

(** ** Output locks *)
Definition lock_output_to_swap (o : OutPoint) (id : SwapId) st : State :=
  {| st with locked_swap_outputs := <[o := id]> (locked_swap_outputs st) |}.
Definition unlock_output_from_swap (o : OutPoint) st : State :=
  {| st with locked_swap_outputs := delete o (locked_swap_outputs st) |}.
Definition is_output_locked_to_swap st (o : OutPoint) : option SwapId :=
  locked_swap_outputs st !! o.

(** The locked outputs, in key order, and the ones locked to a swap. *)
Definition locked_outputs st : list (OutPoint * SwapId) :=
  entries_by outpoint_key (locked_swap_outputs st).
Definition outputs_locked_to st (id : SwapId) : list OutPoint :=
  (filter (λ p, p.2 = id) (locked_outputs st)).*1.
Definition unlock_all (os : list OutPoint) st : State :=
  fold_left (λ st o, unlock_output_from_swap o st) os st.

(** [State::unlock_all_outputs_for_swap], without the count it logs. *)
Definition unlock_all_outputs_for_swap (id : SwapId) st : State :=
  unlock_all (outputs_locked_to st id) st.

(** ** Reservations *)
Definition get_swap_reservation st (id : SwapId) : option SwapReservation :=
  swap_reservations st !! id.
Definition reserve_swap (id : SwapId) (claimer : Address)
    (accepted_at_height : Z) st : State :=
  {| st with swap_reservations :=
       <[id := mkReservation claimer accepted_at_height]> (swap_reservations st) |}.
Definition clear_swap_reservation (id : SwapId) st : State :=
  {| st with swap_reservations := delete id (swap_reservations st) |}.

(** ** Swaps *)

(** [State::get_swap]: a record that does not decode reads as absent. *)
Definition get_swap st (id : SwapId) : option Swap :=
  match swaps st !! id with
  | Some (Decodes s) => Some s
  | Some Corrupted | None => None
  end.

(** [State::entitled_claimer_at] *)
Definition entitled_claimer_at st (swap : Swap) (h : Z) : option Address :=
  match l2_recipient swap with
  | Some recipient => Some recipient
  | None =>
      reservation ← get_swap_reservation st (swap_id swap);
      if is_live_at reservation (parent_chain swap) h
      then Some (claimer reservation) else None
  end.

(** Appending a swap to the list of its recipient, in [save_swap]. *)
Definition index_recipient (swap : Swap) (m : gmap Address (list SwapId)) :
    gmap Address (list SwapId) :=
  match l2_recipient swap with
  | Some recipient =>
      let recipient_swaps := default [] (m !! recipient) in
      if bool_decide (swap_id swap ∈ recipient_swaps) then m
      else <[recipient := recipient_swaps ++ [swap_id swap]]> m
  | None => m
  end.

(** [State::save_swap] *)
Definition save_swap (swap : Swap) st : res Error State :=
  _ ← ensure (bincode_swap_ok swap) (InvalidTransaction SwapNotSerializable);
  Ok {| st with
        swaps := <[swap_id swap := Decodes swap]> (delete (swap_id swap) (swaps st));
        swaps_by_l1_txid :=
          <[(parent_chain swap, l1_txid swap) := swap_id swap]> (swaps_by_l1_txid st);
        swaps_by_recipient := index_recipient swap (swaps_by_recipient st) |}.

(** Removing a swap from the list of its recipient, in
    [delete_swap_unchecked]. *)
Definition unindex_recipient (swap : Swap) (m : gmap Address (list SwapId)) :
    gmap Address (list SwapId) :=
  match l2_recipient swap with
  | Some recipient =>
      match m !! recipient with
      | Some recipient_swaps =>
          let recipient_swaps := filter (λ id, id ≠ swap_id swap) recipient_swaps in
          if bool_decide (recipient_swaps = []) then delete recipient m
          else <[recipient := recipient_swaps]> m
      | None => m
      end
  | None => m
  end.

(** [State::delete_swap_unchecked] *)
Definition delete_swap_unchecked (id : SwapId) st : State :=
  let st :=
    match get_swap st id with
    | Some swap =>
        {| st with
           swaps_by_l1_txid :=
             delete (parent_chain swap, l1_txid swap) (swaps_by_l1_txid st);
           swaps_by_recipient := unindex_recipient swap (swaps_by_recipient st) |}
    | None => unlock_all_outputs_for_swap id st
    end in
  {| st with swaps := delete id (swaps st) |}.

(** [State::cancel_swap] *)
Definition cancel_swap (id : SwapId) (creator : option Address) st :
    res Error State :=
  swap ← ok_or (get_swap st id) (SwapNotFound id);
  _ ← ensure (match l2_creator_address swap with
              | Some swap_creator => bool_decide (creator = Some swap_creator)
              | None => false
              end) SwapNotCreator;
  _ ← ensure (bool_decide (state swap = Pending)) (InvalidTransaction NotCancellable);
  let st := unlock_all_outputs_for_swap id st in
  save_swap (with_state Cancelled swap) st.

(** [State::get_swap_by_l1_txid] *)
Definition get_swap_by_l1_txid st (chain : ParentChainType) (t : SwapTxId) :
    option Swap :=
  id ← swaps_by_l1_txid st !! (chain, t);
  get_swap st id.

(** [State::get_swaps_by_recipient] *)
Definition get_swaps_by_recipient st (recipient : Address) : list Swap :=
  omap (get_swap st) (default [] (swaps_by_recipient st !! recipient)).

(** The swaps database in key order, as its iterator yields it; a corrupted
    record yields a decoding error and the iterator moves on. *)
Definition swap_entries st : list (SwapId * SwapEntry) :=
  entries_by arr_bytes (swaps st).

Definition MAX_CONSECUTIVE_ERRORS : Z := 10.

(** The first loop of [State::load_all_swaps]: the swaps read, and the number
    of decoding errors. *)
Fixpoint load_pass (entries : list (SwapId * SwapEntry))
    (consecutive_errors corrupted_count : Z) : list Swap * Z :=
  match entries with
  | [] => ([], corrupted_count)
  | (_, Decodes swap) :: entries =>
      let '(swaps, count) := load_pass entries 0 corrupted_count in
      (swap :: swaps, count)
  | (_, Corrupted) :: entries =>
      if MAX_CONSECUTIVE_ERRORS <=? consecutive_errors + 1
      then ([], corrupted_count + 1)
      else load_pass entries (consecutive_errors + 1) (corrupted_count + 1)
  end.

(** Its second loop, run when there were errors: it stops at the first one. *)
Fixpoint load_individually st (entries : list (SwapId * SwapEntry))
    (swaps : list Swap) : list Swap :=
  match entries with
  | [] => swaps
  | (id, Decodes _) :: entries =>
      let swaps :=
        match get_swap st id with
        | Some swap =>
            if existsb (λ s, bool_decide (swap_id s = id)) swaps then swaps
            else swaps ++ [swap]
        | None => swaps
        end in
      load_individually st entries swaps
  | (_, Corrupted) :: _ => swaps
  end.

(** [State::load_all_swaps] *)
Definition load_all_swaps st : list Swap :=
  let '(swaps, corrupted_count) := load_pass (swap_entries st) 0 0 in
  if 0 <? corrupted_count then load_individually st (swap_entries st) swaps
  else swaps.

(** [State::check_swap_corrupted] *)
Definition check_swap_corrupted st (id : SwapId) : bool :=
  match swaps st !! id with
  | Some (Decodes _) => false
  | None => false
  | Some Corrupted => true
  end.

(** The detailed scan of [State::find_corrupted_swaps]; its first scan only
    counts. *)
Definition find_corrupted_swaps st : list SwapId :=
  omap (λ p : SwapId * SwapEntry,
          match p with
          | (id, Decodes _) => if check_swap_corrupted st id then Some id else None
          | (_, Corrupted) => None
          end) (swap_entries st).

(** [State::cleanup_corrupted_swaps] *)
Definition cleanup_corrupted_swaps st : State * Z :=
  fold_left (λ '(st, deleted_count) id,
      ({| st with swaps := delete id (swaps st) |}, deleted_count + 1))
    (find_corrupted_swaps st) (st, 0).

(** [State::cleanup_orphaned_locks] *)
Definition cleanup_orphaned_locks st : State * Z :=
  fold_left (λ '(st, cleaned_count) '(outpoint, id),
      match get_swap st id with
      | Some _ => (st, cleaned_count)
      | None => (unlock_output_from_swap outpoint st, cleaned_count + 1)
      end) (locked_outputs st) (st, 0).

(** The state of a swap with [confirmations] of its L1 transaction. *)
Definition confirmed_state (confirmations required : Z) : SwapState :=
  if required <=? confirmations then ReadyToClaim
  else WaitingConfirmations confirmations required.

(** [State::update_swap_l1_txid] *)
Definition update_swap_l1_txid (id : SwapId) (t : SwapTxId) (confirmations : Z)
    (l1_claimer : option string) (l2_claimer : option Address)
    (block_hash : BlockHash) (block_height : Z) st : res Error State :=
  swap ← ok_or (get_swap st id) (SwapNotFound id);
  _ ← ensure (bool_decide (state swap = Pending)) (InvalidTransaction NotFillable);
  _ ← ensure (negb (confirmations =? 0)) (InvalidTransaction ZeroConfirmations);
  let max_age := max_l1_tx_age_blocks (parent_chain swap) in
  _ ← ensure (negb (max_age <? confirmations)) (InvalidTransaction L1TxTooOld);
  _ ← match get_swap_by_l1_txid st (parent_chain swap) t with
      | Some existing =>
          ensure (bool_decide (swap_id existing = id))
            (L1TxidAlreadyUsed id (swap_id existing))
      | None => Ok ()
      end;
  let old_l1_txid := l1_txid swap in
  let swap :=
    match l1_claimer with
    | Some claimer_addr => SwapTypes.update_l1_transaction t claimer_addr swap
    | None => SwapTypes.update_l1_txid t swap
    end in
  let swap :=
    match l2_claimer with
    | Some l2_addr => set_l2_claimer_address l2_addr swap
    | None => swap
    end in
  let swap := set_l1_txid_validation_block block_hash block_height swap in
  let swap :=
    with_state (confirmed_state confirmations (required_confirmations swap)) swap in
  let st :=
    {| st with swaps_by_l1_txid :=
         <[(parent_chain swap, t) := id]>
           (delete (parent_chain swap, old_l1_txid) (swaps_by_l1_txid st)) |} in
  save_swap swap st.

(** [State::update_swap_confirmations] *)
Definition update_swap_confirmations (id : SwapId) (new_confirmations : Z)
    (block_hash : BlockHash) (block_height : Z) st : res Error State :=
  swap ← ok_or (get_swap st id) (SwapNotFound id);
  match state swap with
  | WaitingConfirmations current required =>
      if new_confirmations <=? current then Ok st
      else
        let swap := set_l1_txid_validation_block block_hash block_height swap in
        save_swap (with_state (confirmed_state new_confirmations required) swap) st
  | _ => Err (InvalidTransaction NotWaiting)
  end.
End State.
