(* ===== verification/SwapRules.v ===== *)
(** Swap consensus rules (lib/state/swap.rs): the validation of swap
    transactions in blocks and in the mempool. *)
From S2P Require Import Prelude Bytes SwapTypes TxTypes Externals.
From S2P Require Import Accumulator BlockTypes Rollback Bundle StateDb.

Section SwapRules.
Context {T : ExtTypes} {X : ExtFuns}.
Implicit Types (st : State) (tx : Transaction) (ftx : FilledTransaction).

Definition fail {A} (r : InvalidTxReason) : res Error A := Err (InvalidTransaction r).
Definition require (b : bool) (r : InvalidTxReason) : res Error () :=
  ensure b (InvalidTransaction r).

(** [amount_paid_to] *)
Definition amount_paid_to tx (recipient : Address) : res Error Z :=
  ok_or (checked_sum get_value
           (filter (λ o, address o = recipient) (outputs tx)))
    (InvalidTransaction OutputValueOverflow).

(** The values that a transaction escrows for a swap. *)
Definition escrow_value (id : SwapId) (o : Output) : option Z :=
  match content o with
  | SwapPending value output_swap_id =>
      if bool_decide (output_swap_id = id) then Some value else None
  | _ => None
  end.

(** The locks check of [validate_swap_create], for one input. *)
Definition check_create_input st (id : SwapId) (i : OutPoint * Hash) : res Error () :=
  match is_output_locked_to_swap st i.1 with
  | Some locked_swap_id =>
      if bool_decide (locked_swap_id = id) then Ok ()
      else match get_swap st locked_swap_id with
           | Some _ => fail InputLockedToSwap
           | None => fail InputLockedToMissingSwap
           end
  | None => Ok ()
  end.

(** [validate_swap_create] *)
Definition validate_swap_create st tx ftx : res Error () :=
  match data tx with
  | SwapCreate sid _ _ _ l2_recipient l2_amount l1_recipient_address l1_amount =>
      first_input ← ok_or (head (spent_utxos ftx)) (InvalidTransaction SwapCreateNoInputs);
      let l2_sender_address := address first_input in
      let computed_swap_id :=
        from_l2_to_l1 l1_recipient_address l1_amount l2_sender_address l2_recipient in
      _ ← require (bool_decide (computed_swap_id = sid)) SwapIdMismatch;
      _ ← require (bool_decide (get_swap st computed_swap_id = None)) SwapAlreadyExists;
      _ ← require (negb (l2_amount =? 0)) L2AmountZero;
      _ ← require (negb (bool_decide (outputs tx = []))) NoOutputs;
      _ ← foldM (λ _ i, check_create_input st sid i) () (inputs tx);
      total_input_value ←
        ok_or (checked_sum get_value (spent_utxos ftx))
          (InvalidTransaction InputValueOverflow);
      let required_amount := l2_amount in
      _ ← require (negb (total_input_value <? required_amount)) InsufficientFunds;
      escrowed_value ←
        ok_or (checked_sum id (omap (escrow_value sid) (outputs tx)))
          (InvalidTransaction SwapPendingOverflow);
      require (negb (escrowed_value <? required_amount)) UnderEscrowed
  | _ => fail ExpectedSwapCreate
  end.

(** [validating_height] *)
Definition validating_height st : Z := next_height st.

(** [validate_no_locked_outputs] *)
Definition validate_no_locked_outputs st tx : res Error () :=
  match data tx with
  | SwapClaim _ _ _ => Ok ()
  | _ =>
      foldM (λ _ (i : OutPoint * Hash),
               require (bool_decide (is_output_locked_to_swap st i.1 = None))
                 CannotSpendLocked) () (inputs tx)
  end.

(** [validate_swap_accept] *)
Definition validate_swap_accept st tx ftx : res Error () :=
  match data tx with
  | SwapAccept id l2_claimer_address =>
      _ ← validate_no_locked_outputs st tx;
      swap ← ok_or (get_swap st id) (SwapNotFound id);
      _ ← require (bool_decide (l2_recipient swap = None)) SwapNotOpen;
      let height := validating_height st in
      _ ← match expires_at_height swap with
          | Some expires_at => require (negb (expires_at <=? height)) SwapExpiredAtHeight
          | None => Ok ()
          end;
      _ ← match get_swap_reservation st id with
          | Some reservation =>
              require (negb (is_live_at reservation (parent_chain swap) height))
                SwapAlreadyReserved
          | None => Ok ()
          end;
      require (existsb (λ utxo, bool_decide (address utxo = l2_claimer_address))
                 (spent_utxos ftx)) AcceptNotOwner
  | _ => fail ExpectedSwapAccept
  end.

(** The locks loop of [validate_swap_claim_consensus]: whether an input locked
    to the swap was found. *)
Definition check_claim_input st (id : SwapId) (found_locked_input : bool)
    (i : OutPoint * Hash) : res Error bool :=
  match is_output_locked_to_swap st i.1 with
  | Some locked_swap_id =>
      _ ← require (bool_decide (locked_swap_id = id)) LockedToDifferentSwap;
      Ok true
  | None => Ok found_locked_input
  end.

(** [validate_swap_claim_consensus] *)
Definition validate_swap_claim_consensus st tx : res Error () :=
  match data tx with
  | SwapClaim id l2_claimer_address _ =>
      found_locked_input ← foldM (check_claim_input st id) false (inputs tx);
      _ ← require found_locked_input NoLockedInput;
      let height := validating_height st in
      swap ← ok_or (get_swap st id) (SwapNotFound id);
      expected_recipient ←
        ok_or (entitled_claimer_at st swap height) (InvalidTransaction NoLiveReservation);
      _ ← match l2_claimer_address with
          | Some declared =>
              require (bool_decide (declared = expected_recipient)) ClaimerMismatch
          | None => Ok ()
          end;
      amount_to_recipient ← amount_paid_to tx expected_recipient;
      require (negb (amount_to_recipient <? l2_amount swap)) ClaimUnderpays
  | _ => fail ExpectedSwapClaim
  end.

(** [validate_swap_claim], the mempool's check *)
Definition validate_swap_claim st tx (_ : FilledTransaction) : res Error () :=
  match data tx with
  | SwapClaim id _ _ =>
      swap ← ok_or (get_swap st id) (SwapNotFound id);
      _ ← require (bool_decide (state swap = ReadyToClaim)) SwapNotReady;
      _ ← match l2_recipient swap with
          | None => require (negb (l1_txid_unset (l1_txid swap))) L1TxNotDetected
          | Some _ => Ok ()
          end;
      validate_swap_claim_consensus st tx
  | _ => fail ExpectedSwapClaim
  end.

(** [validate_block_transaction] *)
Definition validate_block_transaction st tx ftx : res Error () :=
  match data tx with
  | SwapCreate _ _ _ _ _ _ _ _ => validate_swap_create st tx ftx
  | SwapClaim _ _ _ => validate_swap_claim_consensus st tx
  | SwapAccept _ _ => validate_swap_accept st tx ftx
  | RegularTx => validate_no_locked_outputs st tx
  end.
End SwapRules.
