(* ===== verification/Auth.v ===== *)
(** Authorizations (lib/authorization.rs): counting, batching and chunking the
    verification of signatures.  The verification of one batch is frost's. *)
From S2P Require Import Prelude Bytes SwapTypes TxTypes Externals.
From S2P Require Import Accumulator BlockTypes.

Inductive AuthError :=
| NotEnoughAuthorizations
| SignatureVerification
| TooManyAuthorizations
| WrongKeyForAddress.

(** [slice.par_chunks(n)] *)
Fixpoint chunks_fuel {A} (fuel n : nat) (l : list A) : list (list A) :=
  match fuel with
  | O => []
  | S fuel =>
      match l with
      | [] => []
      | _ => take n l :: chunks_fuel fuel n (drop n l)
      end
  end.
Definition chunks {A} (n : nat) (l : list A) : list (list A) :=
  chunks_fuel (length l) n l.

(** ** Batches of signatures *)
Section Auth.
Context {T : ExtTypes} {X : ExtFuns}.

(** [HashComponents]: what a queued item adds to the hash *)
Definition hash_components (vk : VerifyingKey) (sig : Signature) (msg : list byte) : list byte :=
  vk_bytes vk ++ signature_R sig ++ signature_z sig ++ borsh_slice msg.

(** The keyed hasher is the bytes that went into it. *)
Record BatchVerifier := mkBatchVerifier {
  batch_hasher : list byte;
  batch_inner : list FrostItem;
  batch_items : Z;
}.

(** [BatchVerificationContext::verifier] *)
Definition verifier : BatchVerifier := mkBatchVerifier [] [] 0.

Definition queue_item (b : BatchVerifier) (vk : VerifyingKey) (sig : Signature)
    (msg : list byte) : res AuthError BatchVerifier :=
  item ← ok_or (frost_item_new vk sig msg) SignatureVerification;
  Ok (mkBatchVerifier (batch_hasher b ++ hash_components vk sig msg)
        (batch_inner b ++ [item]) (batch_items b + 1)).

(** The seed of the randomness with which the batch is verified depends on every key,
    signature and message in it, and on their number. *)
Definition batch_seed (b : BatchVerifier) : Hash :=
  blake3_keyed mac_key (batch_hasher b ++ borsh_usize (batch_items b)).
Definition batch_verify (b : BatchVerifier) : res AuthError () :=
  ensure (frost_batch_verify (batch_seed b) (batch_inner b)) SignatureVerification.

(** The loop over authorizations and messages in both functions below. *)
Definition verify_batch (l : list (Authorization * list byte)) : res AuthError () :=
  b ← foldM (λ b p, queue_item b (verifying_key p.1) (signature p.1) p.2) verifier l;
  batch_verify b.

(** [verify_authorized_transaction] *)
Definition verify_authorized_transaction (at_ : Authorized Transaction) :
    res AuthError () :=
  let tx := authorized_tx at_ in
  let auths := authorizations at_ in
  match Nat.compare (length auths) (length (inputs tx)) with
  | Lt => Err NotEnoughAuthorizations
  | Gt => Err TooManyAuthorizations
  | Eq =>
      if bool_decide (auths = []) then Ok ()
      else verify_batch ((λ a, (a, canonical_encoding tx)) <$> auths)
  end.

(** [CHUNK_SIZE], [1 << 14]; opaque to reduction. *)
Definition CHUNK_SIZE : Z := 16384.

(** [verify_authorizations] *)
Definition verify_authorizations (body : Body) : res AuthError () :=
  let verifications_required := body_inputs_len body in
  let auths := body_authorizations body in
  match Nat.compare (length auths) verifications_required with
  | Lt => Err NotEnoughAuthorizations
  | Gt => Err TooManyAuthorizations
  | Eq =>
      if (verifications_required =? 0)%nat then Ok ()
      else
        let messages :=
          transactions body ≫= λ tx,
            replicate (length (inputs tx)) (canonical_encoding tx) in
        let pairs := zip auths messages in
        foldM (λ _ chunk, verify_batch chunk) () (chunks (Z.to_nat CHUNK_SIZE) pairs)
  end.
End Auth.

(** What the code relies on: a batch that is not empty verifies exactly if each of its
    signatures does, whatever the randomness, and the item of a valid signature can be
    made. *)
Class BatchLaws {T : ExtTypes} (X : ExtFuns) := {
  signature_valid : VerifyingKey → Signature → list byte → Prop;
  frost_item_valid vk sig msg :
    signature_valid vk sig msg → is_Some (frost_item_new vk sig msg);
  frost_batch_each seed (l : list (VerifyingKey * Signature * list byte)) its :
    l ≠ [] → Forall2 (λ v i, frost_item_new v.1.1 v.1.2 v.2 = Some i) l its →
    frost_batch_verify seed its = true ↔ Forall (λ v, signature_valid v.1.1 v.1.2 v.2) l;
}.

(** ** Chunks *)
Lemma chunks_fuel_concat {A} fuel n (l : list A) :
  (0 < n)%nat → (length l ≤ fuel)%nat → concat (chunks_fuel fuel n l) = l.
Proof.
  intros Hn. revert l; induction fuel as [|fuel IH]; intros [|x l] Hl; simpl in *; try lia; try done.
  rewrite IH by (rewrite length_drop; simpl; lia). apply (take_drop n (x :: l)).
Qed.

Lemma chunks_concat {A} n (l : list A) : (0 < n)%nat → concat (chunks n l) = l.
Proof. intros Hn. by apply chunks_fuel_concat. Qed.

Lemma chunks_nonempty {A} n (l c : list A) : (0 < n)%nat → c ∈ chunks n l → c ≠ [].
Proof.
  intros Hn. unfold chunks. generalize (length l) as fuel. intros fuel.
  revert l; induction fuel as [|fuel IH]; intros [|x l]; simpl; [by intros ?%elem_of_nil..|].
  intros [->|Hc]%elem_of_cons; [by destruct n; [lia|]|by eapply IH].
Qed.

(** ** What passes *)
Section AuthProps.
Context {T : ExtTypes} {X : ExtFuns} {B : BatchLaws X}.
Implicit Types (p : Authorization * list byte) (tx : Transaction).

(** An authorization with a valid signature of its message. *)
Definition auth_valid p : Prop :=
  signature_valid (verifying_key p.1) (signature p.1) p.2.

Lemma queue_items b l b' :
  foldM (λ b p, queue_item b (verifying_key p.1) (signature p.1) p.2) b l = Ok b' →
  ∃ its, batch_inner b' = batch_inner b ++ its ∧
    Forall2 (λ p i, frost_item_new (verifying_key p.1) (signature p.1) p.2 = Some i) l its.
Proof.
  revert b; induction l as [|p l IH]; intros b Hl; simpl in Hl.
  { simplify_eq. exists []. by rewrite app_nil_r. }
  apply bind_Ok_inv in Hl as (b1 & Hp & Hl). unfold queue_item in Hp. res_inv.
  destruct (IH _ Hl) as (its & -> & Hall). simpl. exists (a :: its).
  by rewrite <-app_assoc; auto.
Qed.

Lemma queue_items_valid b l :
  Forall auth_valid l →
  ∃ b', foldM (λ b p, queue_item b (verifying_key p.1) (signature p.1) p.2) b l = Ok b'.
Proof.
  intros Hl. revert b; induction Hl as [|p l Hp _ IH]; intros b; simpl; [by eauto|].
  unfold queue_item at 2. destruct (frost_item_valid _ _ _ Hp) as (i & ->). apply IH.
Qed.

Lemma batch_items_verify seed l its :
  l ≠ [] →
  Forall2 (λ p i, frost_item_new (verifying_key p.1) (signature p.1) p.2 = Some i) l its →
  frost_batch_verify seed its = true ↔ Forall auth_valid l.
Proof.
  intros Hne Hits.
  rewrite (frost_batch_each seed ((λ p, (verifying_key p.1, signature p.1, p.2)) <$> l)).
  - by rewrite Forall_fmap.
  - by destruct l.
  - by rewrite Forall2_fmap_l.
Qed.

(** A batch passes exactly if each of its signatures is valid. *)
Lemma verify_batch_Ok l : l ≠ [] → verify_batch l = Ok () ↔ Forall auth_valid l.
Proof.
  intros Hne. unfold verify_batch. split.
  - intros H. apply bind_Ok_inv in H as (b & Hb & Hv). apply ensure_Ok in Hv.
    apply queue_items in Hb as (its & Heq & Hits). rewrite Heq in Hv.
    by eapply batch_items_verify.
  - intros Hl. destruct (queue_items_valid verifier l Hl) as (b & Hb). rewrite Hb. simpl.
    apply queue_items in Hb as (its & Heq & Hits). apply ensure_Ok. rewrite Heq.
    by eapply batch_items_verify.
Qed.

Lemma verify_transaction_Ok tx auths :
  verify_authorized_transaction (mkAuthorized tx auths) = Ok () ↔
  length auths = length (inputs tx) ∧
  Forall (λ a, auth_valid (a, canonical_encoding tx)) auths.
Proof.
  unfold verify_authorized_transaction. cbn [authorized_tx authorizations].
  destruct (Nat.compare_spec (length auths) (length (inputs tx))) as [Hl| |]; [|naive_solver lia..].
  case_bool_decide as Hnil; [subst; naive_solver|].
  rewrite verify_batch_Ok by (by destruct auths). rewrite Forall_fmap. naive_solver.
Qed.

Definition body_messages (txs : list Transaction) : list (list byte) :=
  txs ≫= λ tx, replicate (length (inputs tx)) (canonical_encoding tx).

Lemma verify_authorizations_Ok (body : Body) :
  verify_authorizations body = Ok () ↔
  length (body_authorizations body) = body_inputs_len body ∧
  Forall auth_valid (zip (body_authorizations body) (body_messages (transactions body))).
Proof.
  unfold verify_authorizations. cbv zeta. fold (body_messages (transactions body)).
  set (auths := body_authorizations body).
  destruct (Nat.compare_spec (length auths) (body_inputs_len body)) as [Hl| |];
    [|naive_solver lia..].
  case_match eqn:Hz.
  { apply Nat.eqb_eq in Hz. destruct auths; simpl in *; [naive_solver|lia]. }
  set (pairs := zip _ _). trans (Forall auth_valid pairs); [|naive_solver].
  assert (0 < Z.to_nat CHUNK_SIZE)%nat as Hc by (unfold CHUNK_SIZE; lia).
  rewrite foldM_unit.
  assert (Forall auth_valid pairs ↔
    Forall auth_valid (concat (chunks (Z.to_nat CHUNK_SIZE) pairs))) as ->
    by (by rewrite chunks_concat).
  rewrite Forall_concat, Forall_forall.
  split; intros H c Hin; specialize (H c Hin);
    by apply verify_batch_Ok in H || apply verify_batch_Ok; eauto using chunks_nonempty.
Qed.

Lemma length_body_messages txs :
  length (body_messages txs) = sum_list ((λ tx, length (inputs tx)) <$> txs).
Proof.
  unfold body_messages. induction txs as [|tx txs IH]; csimpl; [done|].
  by rewrite length_app, length_replicate, IH.
Qed.

Lemma zip_replicate {A C} (l : list A) n (c : C) :
  length l = n → zip l (replicate n c) = (λ a, (a, c)) <$> l.
Proof. intros <-. induction l; csimpl; [done|]. by f_equal. Qed.

(** The parallel check of a block in chunks is the check of its transactions one by one
    on their share of the block's authorizations. *)
Lemma verify_authorizations_shares (body : Body) :
  verify_authorizations body = Ok () ↔
  ∃ shares, body_authorizations body = concat shares ∧
    Forall2 (λ tx auths, verify_authorized_transaction (mkAuthorized tx auths) = Ok ())
      (transactions body) shares.
Proof.
  rewrite verify_authorizations_Ok. unfold body_inputs_len.
  generalize (body_authorizations body) as auths.
  induction (transactions body) as [|tx txs IH]; intros auths; csimpl.
  - split.
    + intros [Hl _]. exists []. by destruct auths.
    + intros (shares & -> & ->%Forall2_nil_inv_l). done.
  - split.
    + intros [Hl Hv]. set (n := length (inputs tx)) in *.
      rewrite <-(take_drop n auths) in Hv.
      assert (length (take n auths) = n) as Hn by (rewrite length_take; lia).
      rewrite zip_with_app in Hv by (by rewrite length_replicate).
      rewrite Forall_app, zip_replicate, Forall_fmap in Hv by done.
      destruct Hv as [Hv1 Hv2].
      destruct (proj1 (IH (drop n auths))) as (shares & Heq & Hall).
      { split; [|done]. rewrite length_drop, Hl. unfold compose, n. lia. }
      exists (take n auths :: shares). simpl. rewrite <-Heq, take_drop. split; [done|].
      constructor; [|done]. by apply verify_transaction_Ok.
    + intros (shares' & -> & (auths1 & shares & [Hl1 Hv1]%verify_transaction_Ok & Hall & ->)%Forall2_cons_inv_l).
      simpl. destruct (proj2 (IH (concat shares))) as [Hl Hv]; [by eauto|].
      rewrite length_app, Hl, Hl1. split; [done|].
      rewrite zip_with_app by (by rewrite length_replicate). apply Forall_app. split; [|done].
      rewrite zip_replicate by done. by apply Forall_fmap.
Qed.

Lemma verify_batch_err l :
  verify_batch l = Ok () ∨ verify_batch l = Err SignatureVerification.
Proof.
  unfold verify_batch. generalize verifier as b.
  induction l as [|p l IH]; intros b; simpl.
  - unfold batch_verify. destruct (frost_batch_verify _ _); simpl; auto.
  - destruct (queue_item b (verifying_key p.1) (signature p.1) p.2) as [b'|e|] eqn:Hq;
      simpl; [apply IH|right..];
      unfold queue_item in Hq; by destruct (frost_item_new _ _ _); simplify_eq/=.
Qed.

Lemma verify_chunks_err l :
  foldM (λ _ chunk, verify_batch chunk) () l = Ok () ∨
  foldM (λ _ chunk, verify_batch chunk) () l = Err SignatureVerification.
Proof.
  induction l as [|c l IH]; simpl; [by left|].
  destruct (verify_batch_err c) as [->| ->]; simpl; [done|by right].
Qed.

(** C20: Verifying the authorizations of a block, in chunks over all of its transactions,
    passes exactly if they can be dealt out to the transactions so that every
    transaction verifies with its own share; a wrong number of them is reported as
    such, and every other failure is one of signatures. *)
Theorem authorizations_split (body : Body) :
  match verify_authorizations body with
  | Ok () =>
      ∃ shares, body_authorizations body = concat shares ∧
        Forall2 (λ tx auths, verify_authorized_transaction (mkAuthorized tx auths) = Ok ())
          (transactions body) shares
  | Err NotEnoughAuthorizations =>
      (length (body_authorizations body) < body_inputs_len body)%nat
  | Err TooManyAuthorizations =>
      (body_inputs_len body < length (body_authorizations body))%nat
  | Err SignatureVerification =>
      length (body_authorizations body) = body_inputs_len body ∧
      ∀ shares, body_authorizations body = concat shares →
        ¬ Forall2 (λ tx auths, verify_authorized_transaction (mkAuthorized tx auths) = Ok ())
            (transactions body) shares
  | _ => False
  end.
Proof.
  pose proof (verify_authorizations_shares body) as Hsh.
  destruct (verify_authorizations body) as [[]|e|] eqn:Hv; [by apply Hsh|..];
    assert (∀ shares, body_authorizations body = concat shares →
      ¬ Forall2 (λ tx auths, verify_authorized_transaction (mkAuthorized tx auths) = Ok ())
          (transactions body) shares) as Hno
      by (intros shares Heq Hall; by eassert (_ = Ok ()) by (apply Hsh; eauto)).
  all: unfold verify_authorizations in Hv.
  all: destruct (Nat.compare_spec (length (body_authorizations body)) (body_inputs_len body));
    simplify_eq; try done.
  all: case_match; [done|].
  all: edestruct verify_chunks_err as [H'|H']; rewrite H' in Hv; by simplify_eq.
Qed.
End AuthProps.
