(* ===== verification/Block.v ===== *)
(** Connecting and disconnecting blocks (lib/state/block.rs). *)
From S2P Require Import Prelude Bytes SwapTypes TxTypes Externals.
From S2P Require Import Accumulator BlockTypes Rollback Bundle StateDb SwapRules.
From S2P Require Import Auth.

Section Block.
Context {T : ExtTypes} {X : ExtFuns}.
Implicit Types (st : State) (tx : Transaction) (ftx : FilledTransaction).

(** The header's parent is the tip, sigops and size within the limits: the
    checks that open [prevalidate] and [validate]. *)
Definition check_header_and_limits st (header : Header) (body : Body) : res Error () :=
  _ ← ensure (bool_decide (prev_side_hash header = tip st)) InvalidHeaderPrevSideHash;
  let h := next_height st in
  _ ← ensure (Z.of_nat (length (body_authorizations body)) <=? body_sigops_limit h)
        TooManySigops;
  ensure (borsh_body_length (coinbase body) (transactions body)
            (body_authorizations body) <=? body_size_limit h)
    BodyTooLarge.

(** [w[0] == w[1]] for some window of two. *)
Fixpoint adjacent_equal (l : list (list byte)) : bool :=
  match l with
  | a :: ((b :: _) as l) => bool_decide (a = b) || adjacent_equal l
  | _ => false
  end.

(** Double-spend detection: sort the keys, then scan neighbours. *)
Definition double_spent (keys : list (list byte)) : bool :=
  adjacent_equal (merge_sort bytes_leR keys).

Definition is_swap_claim (d : TxData) : bool :=
  match d with SwapClaim _ _ _ => true | _ => false end.

(** [swap_claim_pending]: the positions, among all spent outputs of the block,
    of the [SwapPending] outputs that claims spend. *)
Definition claim_pending_step (acc : nat * gset nat) ftx : nat * gset nat :=
  let '(auth_offset, pending) := acc in
  let pending :=
    if is_swap_claim (data (transaction ftx)) then
      fold_left (λ S '(i, utxo),
          if is_swap_pending (content utxo) then {[ (auth_offset + i)%nat ]} ∪ S else S)
        (imap pair (spent_utxos ftx)) pending
    else pending in
  ((auth_offset + length (spent_utxos ftx))%nat, pending).
Definition swap_claim_pending (ftxs : list FilledTransaction) : gset nat :=
  (fold_left claim_pending_step ftxs (0%nat, ∅)).2.

(** The loop that matches authorizations with the spent outputs. *)
Definition check_owners (auths : list Authorization)
    (ftxs : list FilledTransaction) : res Error () :=
  let pending := swap_claim_pending ftxs in
  foldM (λ _ '(idx, (authorization, spent_utxo)),
      if bool_decide (idx ∈ pending) then Ok ()
      else ensure (bool_decide (auth_address authorization = address spent_utxo))
             WrongPubKeyForAddress)
    () (imap pair (zip auths (ftxs ≫= spent_utxos))).

(** Coinbase outputs: their value and their insertions. *)
Definition coinbase_step (acc : Z * AccumulatorDiff.t) (p : OutPoint * Output) :
    res Error (Z * AccumulatorDiff.t) :=
  let '(coinbase_value, d) := acc in
  let '(outpoint, output) := p in
  coinbase_value ← ok_or (u64_checked_add coinbase_value (get_value output)) AmountOverflow;
  Ok (coinbase_value, AccumulatorDiff.insert (hash_pointed outpoint output) d).

(** The checks that close both validators: authorizations and roots. *)
Definition check_auths_and_roots (header : Header) (body : Body)
    (ftxs : list FilledTransaction) (acc : MemForest) (d : AccumulatorDiff.t) :
    res Error () :=
  _ ← check_owners (body_authorizations body) ftxs;
  _ ← ensure (is_ok (verify_authorizations body)) AuthorizationErr;
  acc ← ok_or (apply_diff d acc) Utreexo;
  ensure (bool_decide (forest_roots acc = roots header)) UtreexoRootsMismatch.

Definition merkle_root_of (cb : list Output) (ftxs : list FilledTransaction) :
    res Error MerkleRoot :=
  match compute_merkle_root cb ftxs with
  | Ok r => Ok r
  | Err e => Err (ComputeMerkleRoot e)
  | Panic => Panic
  end.

(** ** [prevalidate] *)
Record PrevalidatedBlock := mkPrevalidated {
  filled_transactions : list FilledTransaction;
  computed_merkle_root : MerkleRoot;
  total_fees : Z;
  pre_coinbase_value : Z;
  pre_next_height : Z;
  accumulator_diff : AccumulatorDiff.t;
}.

(** What the loop over the transactions of [prevalidate] accumulates. *)
Record PreAcc := mkPreAcc {
  all_input_keys : list (list byte);
  accumulator_diff_txs : list (bool * Hash);
  pre_filled : list FilledTransaction;
  pre_fees : Z;
}.

Definition prevalidate_input st
    (acc : list (list byte) * list Output * list Hash * list (bool * Hash))
    (i : OutPoint * Hash) :
    res Error (list (list byte) * list Output * list Hash * list (bool * Hash)) :=
  let '(keys, spent, hashes, diffs) := acc in
  let '(outpoint, utxo_hash) := i in
  spent_output ← ok_or (utxos st !! outpoint) (NoUtxo outpoint);
  Ok (keys ++ [outpoint_key outpoint], spent ++ [spent_output],
      hashes ++ [utxo_hash], diffs ++ [(false, utxo_hash)]).

Definition prevalidate_tx st (accumulator : MemForest) (acc : PreAcc) tx :
    res Error PreAcc :=
  let tid := txid tx in
  '(keys, spent, hashes, diffs) ←
    foldM (prevalidate_input st)
      (all_input_keys acc, [], [], accumulator_diff_txs acc) (inputs tx);
  let diffs :=
    diffs ++ ((λ '(o, out), (true, hash_pointed o out)) <$>
                regular_outputs tid (outputs tx)) in
  verified ← ok_or (forest_verify accumulator (proof tx) hashes) Utreexo;
  _ ← ensure verified (UtreexoProofFailed tid);
  let filled_tx := {| transaction := tx; spent_utxos := spent |} in
  _ ← validate_block_transaction st tx filled_tx;
  fee ← validate_filled_transaction filled_tx;
  total_fees ← ok_or (u64_checked_add (pre_fees acc) fee) AmountOverflow;
  Ok {| all_input_keys := keys;
        accumulator_diff_txs := diffs;
        pre_filled := pre_filled acc ++ [filled_tx];
        pre_fees := total_fees |}.

Definition diff_of_txs (d : AccumulatorDiff.t) (l : list (bool * Hash)) :
    AccumulatorDiff.t :=
  fold_left (λ d '(insert, h),
      if (insert : bool) then AccumulatorDiff.insert h d
      else AccumulatorDiff.remove h d) l d.

Definition prevalidate st (header : Header) (body : Body) : res Error PrevalidatedBlock :=
  _ ← check_header_and_limits st header body;
  let accumulator := get_accumulator st in
  acc ← foldM (prevalidate_tx st accumulator) (mkPreAcc [] [] [] 0) (transactions body);
  computed_merkle_root ← merkle_root_of (coinbase body) (pre_filled acc);
  _ ← ensure (bool_decide (computed_merkle_root = merkle_root header)) InvalidBody;
  _ ← ensure (negb (double_spent (all_input_keys acc))) UtxoDoubleSpent;
  '(coinbase_value, d) ←
    foldM coinbase_step (0, AccumulatorDiff.empty)
      (coinbase_outputs computed_merkle_root (coinbase body));
  let d := diff_of_txs d (accumulator_diff_txs acc) in
  _ ← ensure (negb (pre_fees acc <? coinbase_value)) NotEnoughFees;
  _ ← check_auths_and_roots header body (pre_filled acc) accumulator d;
  Ok {| filled_transactions := pre_filled acc;
        computed_merkle_root := computed_merkle_root;
        total_fees := pre_fees acc;
        pre_coinbase_value := coinbase_value;
        pre_next_height := next_height st;
        accumulator_diff := d |}.

(** ** [validate] *)
Record ValAcc := mkValAcc {
  val_keys : list (list byte);
  val_diff : AccumulatorDiff.t;
  val_fees : Z;
}.

Definition validate_tx st (accumulator : MemForest) (acc : ValAcc) ftx :
    res Error ValAcc :=
  let tx := transaction ftx in
  let tid := txid tx in
  _ ← validate_block_transaction st tx ftx;
  let d := fold_left (λ d '(_, utxo_hash), AccumulatorDiff.remove utxo_hash d)
             (inputs tx) (val_diff acc) in
  let d := fold_left (λ d '(o, out), AccumulatorDiff.insert (hash_pointed o out) d)
             (regular_outputs tid (outputs tx)) d in
  fee ← validate_filled_transaction ftx;
  total_fees ← ok_or (u64_checked_add (val_fees acc) fee) AmountOverflow;
  verified ← ok_or (forest_verify accumulator (proof tx) (inputs tx).*2) Utreexo;
  _ ← ensure verified (UtreexoProofFailed tid);
  Ok {| val_keys := val_keys acc ++ (outpoint_key <$> (inputs tx).*1);
        val_diff := d;
        val_fees := total_fees |}.

Definition validate st (header : Header) (body : Body) : res Error (Z * MerkleRoot) :=
  _ ← check_header_and_limits st header body;
  let accumulator := get_accumulator st in
  ftxs ← mapM_res (fill_transaction st) (transactions body);
  root ← merkle_root_of (coinbase body) ftxs;
  _ ← ensure (bool_decide (root = merkle_root header)) InvalidBody;
  '(coinbase_value, d) ←
    foldM coinbase_step (0, AccumulatorDiff.empty) (coinbase_outputs root (coinbase body));
  acc ← foldM (validate_tx st accumulator) (mkValAcc [] d 0) ftxs;
  _ ← ensure (negb (double_spent (val_keys acc))) UtxoDoubleSpent;
  _ ← ensure (negb (val_fees acc <? coinbase_value)) NotEnoughFees;
  _ ← check_auths_and_roots header body ftxs accumulator (val_diff acc);
  Ok (val_fees acc, root).
End Block.
