(* ===== verification/BlockConnect.v ===== *)
(** Connecting and disconnecting the tip (lib/state/block.rs,
    [connect_prevalidated], [connect], [disconnect_tip]): the ledger, the swap
    transactions, the header and the accumulator. *)
From S2P Require Import Prelude Bytes SwapTypes TxTypes Externals.
From S2P Require Import Accumulator BlockTypes Rollback Bundle StateDb SwapRules.
From S2P Require Import Auth Block.

Section BlockConnect.
Context {T : ExtTypes} {X : ExtFuns}.
Implicit Types (st : State) (tx : Transaction) (ftx : FilledTransaction).

(** [vout as u32], [vin as u32] *)
Definition as_u32 (n : nat) : Z := Z.of_nat n `mod` 2 ^ 32.

(** ** The ledger part of connecting *)
Definition put_utxo (p : OutPoint * Output) st : State :=
  {| st with utxos := <[p.1 := p.2]> (utxos st) |}.
Definition put_utxos (l : list (OutPoint * Output)) st : State :=
  fold_left (λ st p, put_utxo p st) l st.

(** Spending the [vin]-th input of a transaction. *)
Definition spend_input (tid : Txid) st (p : nat * (OutPoint * Hash)) :
    res Error State :=
  let '(vin, (outpoint, _)) := p in
  spent_output ← ok_or (utxos st !! outpoint) (NoUtxo outpoint);
  Ok {| st with
        utxos := delete outpoint (utxos st);
        stxos := <[outpoint := mkSpentOutput spent_output (InRegular tid (as_u32 vin))]>
                   (stxos st) |}.

(** ** Swap transactions of a connected block *)

(** The outputs of a transaction that escrow for a swap, by outpoint. *)
Definition escrow_outpoints (tid : Txid) (id : SwapId) (outs : list Output) :
    list OutPoint :=
  (filter (λ p : OutPoint * Output, escrow_value id p.2 ≠ None)
     (regular_outputs tid outs)).*1.

Definition lock_all (id : SwapId) (os : list OutPoint) st : State :=
  fold_left (λ st o, lock_output_to_swap o id st) os st.

(** The [SwapCreate] arm. *)
Definition connect_swap_create (block_height : Z) ftx (id : SwapId)
    (chain : ParentChainType) (l1_txid_bytes : list byte)
    (required : Z) (l2_recipient : option Address) (l2_amount : Z)
    (l1_recipient_address : string) (l1_amount : Z) st : res Error State :=
  let l2_creator := address <$> head (spent_utxos ftx) in
  let swap :=
    new_swap id L2ToL1 chain (from_bytes l1_txid_bytes) (Some required)
      l2_recipient l2_amount l1_recipient_address l1_amount block_height
      (Some (u32_add block_height (default_swap_expiration_blocks chain)))
      l2_creator in
  let st :=
    lock_all id (escrow_outpoints (txid (transaction ftx)) id
                   (outputs (transaction ftx))) st in
  save_swap swap st.

(** Unlocking the inputs that are locked to a swap. *)
Definition unlock_inputs (id : SwapId) (ins : list (OutPoint * Hash)) st : State :=
  fold_left (λ st (i : OutPoint * Hash),
      if bool_decide (is_output_locked_to_swap st i.1 = Some id)
      then unlock_output_from_swap i.1 st else st) ins st.

(** The [SwapClaim] arm. *)
Definition connect_swap_claim ftx (id : SwapId)
    (l2_claimer_address : option Address) st : res Error State :=
  swap ← ok_or (get_swap st id) (SwapNotFound id);
  '(swap, st) ← (if bool_decide (state swap = ReadyToClaim) then Ok (swap, st)
                 else let swap := with_state ReadyToClaim swap in
                      st ← save_swap swap st; Ok (swap, st));
  _ ← ensure (negb (bool_decide (l2_recipient swap = None)
                    && bool_decide (l2_claimer_address = None)))
        (InvalidTransaction OpenClaimNeedsClaimer);
  let st := unlock_inputs id (inputs (transaction ftx)) st in
  save_swap (mark_completed swap) st.

(** The [match] on the transaction data. *)
Definition connect_swap (block_height : Z) ftx st : res Error State :=
  match data (transaction ftx) with
  | SwapCreate id chain l1_txid_bytes required recipient amount l1_addr l1_amt =>
      connect_swap_create block_height ftx id chain l1_txid_bytes required
        recipient amount l1_addr l1_amt st
  | SwapClaim id l2_claimer_address _ =>
      connect_swap_claim ftx id l2_claimer_address st
  | SwapAccept id l2_claimer_address =>
      Ok (reserve_swap id l2_claimer_address block_height st)
  | RegularTx => Ok st
  end.

(** The body of the loop over the filled transactions. *)
Definition connect_tx (block_height : Z) st ftx : res Error State :=
  let tx := transaction ftx in
  let tid := txid tx in
  st ← foldM (spend_input tid) st (imap pair (inputs tx));
  let st := put_utxos (regular_outputs tid (outputs tx)) st in
  connect_swap block_height ftx st.

(** ** [connect_prevalidated] *)
Definition connect_prevalidated st (header : Header) (body : Body)
    (pre : PrevalidatedBlock) : res Error (State * MerkleRoot) :=
  _ ← ensure (bool_decide (tip st = prev_side_hash header)) InvalidHeaderPrevSideHash;
  _ ← ensure (bool_decide (computed_merkle_root pre = merkle_root header)) InvalidBody;
  let st := put_utxos (coinbase_outputs (computed_merkle_root pre) (coinbase body)) st in
  st ← foldM (connect_tx (pre_next_height pre)) st (filled_transactions pre);
  let st := {| st with tip := Some (header_hash header);
                       height := Some (pre_next_height pre) |} in
  acc ← ok_or (apply_diff (accumulator_diff pre) (get_accumulator st)) Utreexo;
  Ok ({| st with utreexo_accumulator := Some acc |}, computed_merkle_root pre).

(** [State::apply_block] *)
Definition apply_block st (header : Header) (body : Body) : res Error State :=
  pre ← prevalidate st header body;
  '(st, _) ← connect_prevalidated st header body pre;
  Ok st.

(** ** [connect], the path without a prevalidation: it ignores swaps. *)
Definition connect_input (tid : Txid)
    (acc : State * AccumulatorDiff.t * list Output) (p : nat * (OutPoint * Hash)) :
    res Error (State * AccumulatorDiff.t * list Output) :=
  let '(st, d, spent_utxos) := acc in
  let '(vin, (outpoint, utxo_hash)) := p in
  spent_output ← ok_or (utxos st !! outpoint) (NoUtxo outpoint);
  st ← spend_input tid st p;
  Ok (st, AccumulatorDiff.remove utxo_hash d, spent_utxos ++ [spent_output]).

Definition connect_body_tx (acc : State * AccumulatorDiff.t * list FilledTransaction)
    tx : res Error (State * AccumulatorDiff.t * list FilledTransaction) :=
  let '(st, d, filled_txs) := acc in
  let tid := txid tx in
  '(st, d, spent) ← foldM (connect_input tid) (st, d, []) (imap pair (inputs tx));
  let outs := regular_outputs tid (outputs tx) in
  let d := fold_left (λ d '(o, out), AccumulatorDiff.insert (hash_pointed o out) d)
             outs d in
  Ok (put_utxos outs st, d, filled_txs ++ [mkFilled tx spent]).

Definition connect st (header : Header) (body : Body) :
    res Error (State * MerkleRoot) :=
  _ ← ensure (bool_decide (tip st = prev_side_hash header)) InvalidHeaderPrevSideHash;
  let accumulator := get_accumulator st in
  let cb := coinbase_outputs (merkle_root header) (coinbase body) in
  let d := fold_left (λ d '(o, out), AccumulatorDiff.insert (hash_pointed o out) d)
             cb AccumulatorDiff.empty in
  '(st, d, filled_txs) ←
    foldM connect_body_tx (put_utxos cb st, d, []) (transactions body);
  root ← merkle_root_of (coinbase body) filled_txs;
  _ ← ensure (bool_decide (root = merkle_root header)) InvalidBody;
  let st := {| st with tip := Some (header_hash header);
                       height := Some (next_height st) |} in
  acc ← ok_or (apply_diff d accumulator) Utreexo;
  Ok ({| st with utreexo_accumulator := Some acc |}, root).

(** ** [disconnect_tip] *)

(** Unlocking, last to first, the [SwapPending] outputs of a disconnected
    [SwapCreate]. *)
Definition unlock_created (id : SwapId) (outs : list (OutPoint * Output)) st : State :=
  fold_left (λ st (p : OutPoint * Output),
      if is_swap_pending (content p.2)
         && bool_decide (is_output_locked_to_swap st p.1 = Some id)
      then unlock_output_from_swap p.1 st else st) (reverse outs) st.

(** Locking, last to first, the unlocked inputs of a disconnected claim. *)
Definition relock_inputs (id : SwapId) (ins : list (OutPoint * Hash)) st : State :=
  fold_left (λ st (i : OutPoint * Hash),
      if bool_decide (is_output_locked_to_swap st i.1 = None)
      then lock_output_to_swap i.1 id st else st) (reverse ins) st.

Definition disconnect_swap_claim (id : SwapId) tx st : res Error State :=
  swap ← ok_or (get_swap st id) (SwapNotFound id);
  let st := relock_inputs id (inputs tx) st in
  if bool_decide (state swap = Completed)
  then save_swap (with_state ReadyToClaim swap) st
  else Ok st.

Definition disconnect_swap tx st : res Error State :=
  match data tx with
  | SwapCreate id _ _ _ _ _ _ _ =>
      let st := unlock_created id (regular_outputs (txid tx) (outputs tx)) st in
      Ok (delete_swap_unchecked id (clear_swap_reservation id st))
  | SwapClaim id _ _ => disconnect_swap_claim id tx st
  | SwapAccept id _ => Ok (clear_swap_reservation id st)
  | RegularTx => Ok st
  end.

(** Deleting one output, coinbase or not. *)
Definition remove_output (acc : State * AccumulatorDiff.t) (p : OutPoint * Output) :
    res Error (State * AccumulatorDiff.t) :=
  let '(st, d) := acc in
  let '(outpoint, output) := p in
  _ ← ok_or (utxos st !! outpoint) (NoUtxo outpoint);
  Ok ({| st with utxos := delete outpoint (utxos st) |},
      AccumulatorDiff.remove (hash_pointed outpoint output) d).

(** Unspending one input. *)
Definition unspend_input (acc : State * AccumulatorDiff.t) (i : OutPoint * Hash) :
    res Error (State * AccumulatorDiff.t) :=
  let '(st, d) := acc in
  let '(outpoint, utxo_hash) := i in
  spent_output ← ok_or (stxos st !! outpoint) (NoStxo outpoint);
  Ok ({| st with stxos := delete outpoint (stxos st);
                 utxos := <[outpoint := output spent_output]> (utxos st) |},
      AccumulatorDiff.insert utxo_hash d).

Definition disconnect_tx (acc : State * AccumulatorDiff.t) tx :
    res Error (State * AccumulatorDiff.t) :=
  let '(st, d) := acc in
  st ← disconnect_swap tx st;
  acc ← foldM remove_output (st, d) (reverse (regular_outputs (txid tx) (outputs tx)));
  foldM unspend_input acc (reverse (inputs tx)).

(** The new tip and height. *)
Definition disconnect_header (header : Header) st : res Error State :=
  h ← expect (height st);
  match prev_side_hash header with
  | None => if h =? 0 then Ok {| st with tip := None; height := None |} else Err NoTip
  | Some prev =>
      if h =? 0 then Err NoTip
      else Ok {| st with tip := Some prev; height := Some (h - 1) |}
  end.

Definition disconnect_tip st (header : Header) (body : Body) : res Error State :=
  tip_hash ← ok_or (tip st) NoTip;
  _ ← ensure (bool_decide (tip_hash = header_hash header)) InvalidHeaderBlockHash;
  let accumulator := get_accumulator st in
  acc ← foldM disconnect_tx (st, AccumulatorDiff.empty) (reverse (transactions body));
  '(st, d) ← foldM remove_output acc
               (reverse (coinbase_outputs (merkle_root header) (coinbase body)));
  st ← disconnect_header header st;
  acc ← ok_or (apply_diff d accumulator) Utreexo;
  Ok {| st with utreexo_accumulator := Some acc |}.
End BlockConnect.
