(* ===== verification/BlockSpec.v ===== *)
(** What block validation accepts: a declarative description of the blocks that
    [prevalidate] and [validate] let through, and the proof that both functions
    implement it (lib/state/block.rs). *)
From S2P Require Import Prelude Bytes SwapTypes TxTypes Externals.
From S2P Require Import Accumulator BlockTypes Rollback Bundle StateDb SwapRules.
From S2P Require Import Auth Block.

Section BlockSpec.
Context {T : ExtTypes} {X : ExtFuns}.
Implicit Types (st : State) (tx : Transaction) (ftx : FilledTransaction).

(** One transaction passes every check made of it alone, and pays [fee]. *)
Record tx_checked st (acc : MemForest) tx ftx (fee : Z) : Prop := {
  tc_fill : fill_transaction st tx = Ok ftx;
  tc_proof : forest_verify acc (proof tx) (inputs tx).*2 = Some true;
  tc_swap : validate_block_transaction st tx ftx = Ok ();
  tc_fee : validate_filled_transaction ftx = Ok fee;
}.

(** The transactions of a block pass, their fees adding up from [z] to the
    last index without overflow. *)
Inductive checked_txs st (acc : MemForest) :
    Z → list Transaction → list FilledTransaction → Z → Prop :=
| checked_nil z : checked_txs st acc z [] [] z
| checked_cons z tx ftx fee z1 txs ftxs z2 :
    tx_checked st acc tx ftx fee →
    u64_checked_add z fee = Some z1 →
    checked_txs st acc z1 txs ftxs z2 →
    checked_txs st acc z (tx :: txs) (ftx :: ftxs) z2.

(** The insertions and removals of a transaction, in order. *)
Definition tx_diffs tx : list (bool * Hash) :=
  (pair false <$> (inputs tx).*2)
  ++ ((λ '(o, out), (true, hash_pointed o out)) <$>
        regular_outputs (txid tx) (outputs tx)).

Definition tx_keys tx : list (list byte) := outpoint_key <$> (inputs tx).*1.

(** The blocks that are accepted on [st], with what connecting them needs. *)
Record block_valid st (header : Header) (body : Body) (pre : PrevalidatedBlock) : Prop := {
  bv_header : check_header_and_limits st header body = Ok ();
  bv_txs : checked_txs st (get_accumulator st) 0 (transactions body)
             (filled_transactions pre) (total_fees pre);
  bv_root : merkle_root_of (coinbase body) (filled_transactions pre)
            = Ok (computed_merkle_root pre);
  bv_root_eq : computed_merkle_root pre = merkle_root header;
  bv_keys : double_spent (transactions body ≫= tx_keys) = false;
  bv_coinbase : ∃ d,
    foldM coinbase_step (0, AccumulatorDiff.empty)
      (coinbase_outputs (computed_merkle_root pre) (coinbase body))
    = Ok (pre_coinbase_value pre, d) ∧
    accumulator_diff pre = diff_of_txs d (transactions body ≫= tx_diffs);
  bv_fees : pre_coinbase_value pre ≤ total_fees pre;
  bv_auth : check_auths_and_roots header body (filled_transactions pre)
              (get_accumulator st) (accumulator_diff pre) = Ok ();
  bv_height : pre_next_height pre = next_height st;
}.

(** ** The loops of [prevalidate] *)
Definition lookup_input st (i : OutPoint * Hash) : res Error Output :=
  ok_or (utxos st !! i.1) (NoUtxo i.1).

Lemma prevalidate_inputs st keys spent hashes diffs ins :
  foldM (prevalidate_input st) (keys, spent, hashes, diffs) ins
  = (outs ← mapM_res (lookup_input st) ins;
     Ok (keys ++ (outpoint_key <$> ins.*1), spent ++ outs, hashes ++ ins.*2,
         diffs ++ (pair false <$> ins.*2))).
Proof.
  revert keys spent hashes diffs.
  induction ins as [|[o h] ins IH]; intros keys spent hashes diffs; simpl.
  { by rewrite !app_nil_r. }
  assert (lookup_input st (o, h) = ok_or (utxos st !! o) (NoUtxo o)) as -> by done.
  destruct (utxos st !! o) as [out|]; simpl; [|done].
  rewrite IH. destruct (mapM_res _ ins); simpl; [|done..].
  by rewrite <-!app_assoc.
Qed.

Lemma fill_transaction_lookup st tx :
  fill_transaction st tx
  = (outs ← mapM_res (lookup_input st) (inputs tx); Ok (mkFilled tx outs)).
Proof. done. Qed.

(** One step of [prevalidate] accepts exactly the checked transactions. *)
Lemma prevalidate_tx_Ok st a acc tx acc' :
  prevalidate_tx st a acc tx = Ok acc' ↔
  ∃ ftx fee z, tx_checked st a tx ftx fee ∧
    u64_checked_add (pre_fees acc) fee = Some z ∧
    acc' = {| all_input_keys := all_input_keys acc ++ tx_keys tx;
              accumulator_diff_txs := accumulator_diff_txs acc ++ tx_diffs tx;
              pre_filled := pre_filled acc ++ [ftx];
              pre_fees := z |}.
Proof.
  unfold prevalidate_tx. rewrite prevalidate_inputs. split.
  - intros H. res_inv. eexists _, _, _. split_and!; [split|..]; eauto.
    + rewrite fill_transaction_lookup. by match goal with H : mapM_res _ _ = Ok _ |- _ => rewrite H end.
    + unfold tx_diffs. by rewrite app_assoc.
  - intros (ftx & fee & z & [Hf Hp Hs Hv] & Hz & ->).
    rewrite fill_transaction_lookup in Hf. res_inv. rewrite Ha. simpl.
    rewrite Hp. simpl. rewrite Hs. simpl. rewrite Hv. simpl. rewrite Hz. simpl.
    unfold tx_diffs. by rewrite app_assoc.
Qed.

Lemma prevalidate_txs_Ok st a acc txs acc' :
  foldM (prevalidate_tx st a) acc txs = Ok acc' ↔
  ∃ ftxs z, checked_txs st a (pre_fees acc) txs ftxs z ∧
    acc' = {| all_input_keys := all_input_keys acc ++ (txs ≫= tx_keys);
              accumulator_diff_txs := accumulator_diff_txs acc ++ (txs ≫= tx_diffs);
              pre_filled := pre_filled acc ++ ftxs;
              pre_fees := z |}.
Proof.
  revert acc; induction txs as [|tx txs IH]; intros acc; simpl.
  - split.
    + intros [= <-]. exists [], (pre_fees acc). rewrite !app_nil_r.
      split; [constructor|by destruct acc].
    + intros (ftxs & z & Hc & ->). inversion Hc; subst.
      rewrite !app_nil_r. by destruct acc.
  - split.
    + intros H. apply bind_Ok_inv in H as (acc1 & H1 & H).
      apply prevalidate_tx_Ok in H1 as (ftx & fee & z & Hc & Hz & ->).
      apply IH in H as (ftxs & z2 & Hcs & ->). simpl in *.
      exists (ftx :: ftxs), z2. split; [by econstructor|]. by rewrite <-!app_assoc.
    + intros (ftxs & z & Hc & ->). inversion Hc; subst.
      erewrite (proj2 (prevalidate_tx_Ok _ _ acc tx _)) by eauto 10. simpl.
      apply IH. simpl. eexists _, _. split; [done|]. by rewrite <-!app_assoc.
Qed.

(** ** The loop of [validate] *)
Lemma diff_of_txs_app d l k : diff_of_txs d (l ++ k) = diff_of_txs (diff_of_txs d l) k.
Proof. apply fold_left_app. Qed.

Lemma diff_of_tx_diffs d tx :
  diff_of_txs d (tx_diffs tx)
  = fold_left (λ d '(o, out), AccumulatorDiff.insert (hash_pointed o out) d)
      (regular_outputs (txid tx) (outputs tx))
      (fold_left (λ d '(_, utxo_hash), AccumulatorDiff.remove utxo_hash d)
         (inputs tx) d).
Proof.
  unfold tx_diffs. rewrite diff_of_txs_app. unfold diff_of_txs.
  rewrite (fold_left_fmap _
    (λ d '(o, out), AccumulatorDiff.insert (hash_pointed o out) d)) by by intros ? [].
  f_equal. rewrite <-list_fmap_compose. apply fold_left_fmap. by intros ? [].
Qed.

Lemma validate_tx_Ok st a acc tx ftx acc' :
  fill_transaction st tx = Ok ftx →
  validate_tx st a acc ftx = Ok acc' ↔
  ∃ fee z, tx_checked st a tx ftx fee ∧
    u64_checked_add (val_fees acc) fee = Some z ∧
    acc' = {| val_keys := val_keys acc ++ tx_keys tx;
              val_diff := diff_of_txs (val_diff acc) (tx_diffs tx);
              val_fees := z |}.
Proof.
  intros Hfill.
  assert (transaction ftx = tx) as Htx.
  { rewrite fill_transaction_lookup in Hfill. res_inv. done. }
  unfold validate_tx. rewrite Htx, diff_of_tx_diffs. split.
  - intros H. res_inv. eexists _, _. split_and!; [split|..]; eauto.
  - intros (fee & z & [Hf Hp Hs Hv] & Hz & ->).
    rewrite Hs. simpl. rewrite Hv. simpl. rewrite Hz. simpl. by rewrite Hp.
Qed.

Lemma validate_txs_Ok st a acc txs ftxs acc' :
  mapM_res (fill_transaction st) txs = Ok ftxs →
  foldM (validate_tx st a) acc ftxs = Ok acc' ↔
  ∃ z, checked_txs st a (val_fees acc) txs ftxs z ∧
    acc' = {| val_keys := val_keys acc ++ (txs ≫= tx_keys);
              val_diff := diff_of_txs (val_diff acc) (txs ≫= tx_diffs);
              val_fees := z |}.
Proof.
  intros Hfill. apply mapM_res_Forall2 in Hfill.
  revert acc; induction Hfill as [|tx ftx txs ftxs Hf _ IH]; intros acc; simpl.
  - split.
    + intros [= <-]. exists (val_fees acc). rewrite app_nil_r.
      split; [constructor|by destruct acc].
    + intros (z & Hc & ->). inversion Hc; subst.
      rewrite app_nil_r. by destruct acc.
  - split.
    + intros H. apply bind_Ok_inv in H as (acc1 & H1 & H).
      apply (validate_tx_Ok _ _ _ _ _ _ Hf) in H1 as (fee & z & Hc & Hz & ->).
      apply IH in H as (z2 & Hcs & ->). simpl in *.
      exists z2. split; [by econstructor|].
      by rewrite diff_of_txs_app, <-!app_assoc.
    + intros (z & Hc & ->). inversion Hc; subst.
      erewrite (proj2 (validate_tx_Ok _ _ acc _ _ _ Hf)) by eauto 10. simpl.
      apply IH. simpl. eexists. split; [done|].
      by rewrite diff_of_txs_app, <-!app_assoc.
Qed.

Lemma checked_txs_fill st a z txs ftxs z' :
  checked_txs st a z txs ftxs z' → mapM_res (fill_transaction st) txs = Ok ftxs.
Proof.
  induction 1 as [|z tx ftx fee z1 txs ftxs z2 [Hf _ _ _] _ _ IH]; simpl; [done|].
  by rewrite Hf; simpl; rewrite IH.
Qed.

(** ** Both validators implement [block_valid] *)
Lemma prevalidate_spec st header body pre :
  prevalidate st header body = Ok pre ↔ block_valid st header body pre.
Proof.
  unfold prevalidate. split.
  - intros H. res_inv.
    apply prevalidate_txs_Ok in Ha0 as (ftxs & z & Hc & ->). simpl in *.
    split; simpl; eauto. lia.
  - intros [H1 H2 H3 H4 H5 (d & H6 & H7) H8 H9 H10].
    destruct pre as [ftxs root fees v h diff]. simpl in *.
    rewrite H1. simpl.
    erewrite (proj2 (prevalidate_txs_Ok _ _ _ _ _)) by eauto. simpl.
    rewrite H3. simpl. rewrite bool_decide_true by done. simpl.
    rewrite H5. simpl. rewrite H6. simpl.
    rewrite (proj2 (Z.ltb_ge _ _)) by lia. simpl. rewrite <-H7, H9. simpl.
    by rewrite H10.
Qed.

Lemma validate_spec st header body fees root :
  validate st header body = Ok (fees, root) ↔
  ∃ pre, block_valid st header body pre ∧
    total_fees pre = fees ∧ computed_merkle_root pre = root.
Proof.
  unfold validate. split.
  - intros H. apply bind_Ok_inv in H as ([] & H1 & H).
    apply bind_Ok_inv in H as (ftxs & Hfill & H). res_inv.
    apply (validate_txs_Ok _ _ _ _ _ _ Hfill) in Ha2 as (z & Hc & ->). simpl in *.
    exists (mkPrevalidated ftxs root z x (next_height st)
              (diff_of_txs y (transactions body ≫= tx_diffs))).
    split; [|done]. split; simpl; eauto. lia.
  - intros (pre & [H1 H2 H3 H4 H5 (d & H6 & H7) H8 H9 H10] & <- & <-).
    destruct pre as [ftxs root fees v h diff]. simpl in *.
    rewrite H1. simpl. rewrite (checked_txs_fill _ _ _ _ _ _ H2). simpl.
    rewrite H3. simpl. rewrite bool_decide_true by done. simpl. rewrite H6. simpl.
    erewrite (proj2 (validate_txs_Ok _ _ _ _ _ _ (checked_txs_fill _ _ _ _ _ _ H2)))
      by eauto. simpl.
    rewrite H5. simpl. rewrite (proj2 (Z.ltb_ge _ _)) by lia. simpl.
    by rewrite <-H7, H9.
Qed.

(** C16: The two validators accept the same blocks, those that [block_valid]
    describes, and agree on the fees and the Merkle root that they compute. *)
Theorem validators_agree st header body :
  (∀ pre, prevalidate st header body = Ok pre ↔ block_valid st header body pre) ∧
  (∀ fees root, validate st header body = Ok (fees, root) ↔
     ∃ pre, prevalidate st header body = Ok pre ∧
       total_fees pre = fees ∧ computed_merkle_root pre = root).
Proof.
  split; [apply prevalidate_spec|]. intros fees root. rewrite validate_spec.
  by setoid_rewrite prevalidate_spec.
Qed.
End BlockSpec.
