(* ===== verification/BlockProps.v ===== *)
(** What an accepted block guarantees: no double spends, no inflation, owners'
    authorizations, locked outputs, claims that pay (lib/state/block.rs,
    lib/state/swap.rs). *)
From S2P Require Import Prelude Bytes SwapTypes TxTypes Externals.
From S2P Require Import Accumulator BlockTypes Rollback Bundle StateDb SwapRules.
From S2P Require Import Auth Block BlockSpec.

(** ** Sort-and-scan *)
Lemma adjacent_equal_sorted (l : list (list byte)) :
  StronglySorted bytes_leR l → adjacent_equal l = false ↔ NoDup l.
Proof.
  induction 1 as [|a l Hs IH Ha]; [by split; [constructor|]|].
  destruct l as [|b l]; [split; [intros _; apply NoDup_singleton|done]|].
  change (adjacent_equal (a :: b :: l))
    with (bool_decide (a = b) || adjacent_equal (b :: l)).
  rewrite orb_false_iff, IH, bool_decide_eq_false, (NoDup_cons a (b :: l)).
  split; [|by intros [? ?]; split; [set_solver|]].
  intros [Hne Hnd]. split; [|done]. intros Hin. apply Hne.
  apply elem_of_cons in Hin as [->|Hin]; [done|].
  apply (anti_symm bytes_leR).
  - apply Forall_inv in Ha. done.
  - apply StronglySorted_inv in Hs as [_ Hb].
    by apply (proj1 (Forall_forall _ _) Hb).
Qed.

Lemma double_spent_NoDup (keys : list (list byte)) :
  double_spent keys = false ↔ NoDup keys.
Proof.
  unfold double_spent.
  rewrite adjacent_equal_sorted by (apply StronglySorted_merge_sort; apply _).
  by rewrite merge_sort_Permutation.
Qed.

Section BlockProps.
Context {T : ExtTypes} {X : ExtFuns}.
Implicit Types (st : State) (tx : Transaction) (ftx : FilledTransaction).

(** ** What the rules for one transaction say *)

(** The value that a transaction pays to an address. *)
Definition paid_to tx (a : Address) : Z :=
  sumZ get_value (filter (λ o, address o = a) (outputs tx)).

(** A claim of [id] that pays the claimer entitled at height [h]. *)
Record claim_pays st tx (id : SwapId) (c : option Address) (h : Z)
    (swap : Swap) (recipient : Address) : Prop := {
  cp_swap : get_swap st id = Some swap;
  cp_entitled : entitled_claimer_at st swap h = Some recipient;
  cp_declared : ∀ a, c = Some a → a = recipient;
  cp_pays : l2_amount swap ≤ paid_to tx recipient;
  cp_found : ∃ i, i ∈ inputs tx ∧ is_output_locked_to_swap st i.1 = Some id;
  cp_own : ∀ i id', i ∈ inputs tx →
    is_output_locked_to_swap st i.1 = Some id' → id' = id;
}.

Lemma check_claim_inputs st id b ins b' :
  foldM (check_claim_input st id) b ins = Ok b' →
  (∀ i id', i ∈ ins → is_output_locked_to_swap st i.1 = Some id' → id' = id) ∧
  (b' = true → b = true ∨ ∃ i, i ∈ ins ∧ is_output_locked_to_swap st i.1 = Some id).
Proof.
  revert b; induction ins as [|i ins IH]; intros b Hf; simpl in Hf.
  { simplify_eq. split; [set_solver|by left]. }
  apply bind_Ok_inv in Hf as (b1 & Hi & Hf). apply IH in Hf as [H1 H2].
  unfold check_claim_input, require in Hi.
  destruct (is_output_locked_to_swap st i.1) as [id'|] eqn:Hl; res_inv; subst.
  - split; [intros j id' [->|Hj]%elem_of_cons; [congruence|by apply H1]|].
    intros _. right. exists i. set_solver.
  - split; [intros j id' [->|Hj]%elem_of_cons; [congruence|by apply H1]|].
    intros Hb. destruct (H2 Hb) as [?|(j & ? & ?)]; [by left|].
    right. exists j. set_solver.
Qed.

Lemma claim_consensus_pays st tx id c p :
  data tx = SwapClaim id c p → validate_swap_claim_consensus st tx = Ok () →
  ∃ swap recipient, claim_pays st tx id c (next_height st) swap recipient.
Proof.
  intros Hd. unfold validate_swap_claim_consensus, require, amount_paid_to. rewrite Hd.
  intros H. res_inv. apply check_claim_inputs in Ha as [H1 H2].
  eexists _, _. split; eauto.
  - intros a' ->. res_inv. done.
  - apply checked_sum_Some in Ha4 as ->. apply Z.ltb_ge in H. exact H.
  - destruct (H2 eq_refl) as [?|?]; [done|done].
Qed.

(** The locked outputs that a transaction other than a claim may spend: none,
    or, for a [SwapCreate], those locked to its own identifier. *)
Definition spends_no_lock st tx : Prop :=
  ∀ i id, i ∈ inputs tx → is_output_locked_to_swap st i.1 = Some id →
    ∃ chain b r rc am l1 la,
      data tx = SwapCreate id chain b r rc am l1 la ∧ get_swap st id = None.

Lemma no_locked_outputs_Ok st tx :
  is_swap_claim (data tx) = false → validate_no_locked_outputs st tx = Ok () →
  ∀ i, i ∈ inputs tx → is_output_locked_to_swap st i.1 = None.
Proof.
  unfold validate_no_locked_outputs. intros Hc H.
  assert (foldM (λ _ (i : OutPoint * Hash),
    require (bool_decide (is_output_locked_to_swap st i.1 = None)) CannotSpendLocked)
    () (inputs tx) = Ok ()) as Hf by (by destruct (data tx)).
  rewrite foldM_unit in Hf. intros i Hi. specialize (Hf i Hi).
  unfold require in Hf. by res_inv.
Qed.

(** What an accepted [SwapCreate] satisfies. *)
Record create_ok st tx ftx (id : SwapId) (recipient : option Address)
    (amount : Z) (l1_addr : string) (l1_amt : Z) : Prop := {
  co_creator : ∃ out, head (spent_utxos ftx) = Some out ∧
    id = from_l2_to_l1 l1_addr l1_amt (address out) recipient;
  co_fresh : get_swap st id = None;
  co_positive : amount ≠ 0;
  co_funded : amount ≤ sumZ get_value (spent_utxos ftx);
  co_escrowed : amount ≤ sumZ (λ v, v) (omap (escrow_value id) (outputs tx));
  co_locks : ∀ i id', i ∈ inputs tx →
    is_output_locked_to_swap st i.1 = Some id' → id' = id;
}.

Lemma swap_create_Ok st tx ftx id chain b r rc am l1 la :
  data tx = SwapCreate id chain b r rc am l1 la →
  validate_swap_create st tx ftx = Ok () →
  create_ok st tx ftx id rc am l1 la.
Proof.
  intros Hd. unfold validate_swap_create, require. rewrite Hd. intros H. res_inv.
  match goal with H : foldM _ () _ = Ok () |- _ => rewrite foldM_unit in H; rename H into Hl end.
  repeat match goal with
  | H : checked_sum _ _ = Some _ |- _ => apply checked_sum_Some in H; subst
  | H : _ <? _ = false |- _ => apply Z.ltb_ge in H
  | H : _ =? _ = false |- _ => apply Z.eqb_neq in H
  end.
  split; try done; [by eauto|].
  intros i id' Hi Hid'. specialize (Hl i Hi). unfold check_create_input in Hl.
  rewrite Hid' in Hl. case_bool_decide; [done|]. by destruct (get_swap st id').
Qed.

Lemma block_transaction_locks st tx ftx :
  is_swap_claim (data tx) = false → validate_block_transaction st tx ftx = Ok () →
  spends_no_lock st tx.
Proof.
  intros Hc H i id Hi Hl. unfold validate_block_transaction in H.
  assert (validate_no_locked_outputs st tx = Ok () → False) as Hno.
  { intros Hn. rewrite (no_locked_outputs_Ok _ _ Hc Hn i Hi) in Hl. done. }
  destruct (data tx) as [|id' chain b r rc am l1 la| |] eqn:Hd; try done.
  - pose proof (swap_create_Ok _ _ _ _ _ _ _ _ _ _ _ Hd H) as Hco.
    rewrite (co_locks _ _ _ _ _ _ _ _ Hco i id Hi Hl).
    do 7 eexists. split; [done|]. apply Hco.
  - unfold validate_swap_accept in H. rewrite Hd in H. res_inv. done.
Qed.

(** ** What an accepted block says of its transactions *)
Lemma checked_txs_elem st a z txs ftxs z' tx :
  checked_txs st a z txs ftxs z' → tx ∈ txs →
  ∃ ftx fee, ftx ∈ ftxs ∧ transaction ftx = tx ∧ tx_checked st a tx ftx fee.
Proof.
  induction 1 as [|z tx' ftx fee z1 txs ftxs z2 Hc _ _ IH]; [set_solver|].
  intros [->|Hin]%elem_of_cons.
  - exists ftx, fee. split_and!; [set_solver| |done].
    destruct Hc as [Hf _ _ _]. rewrite fill_transaction_lookup in Hf. by res_inv.
  - destruct (IH Hin) as (ftx' & fee' & ? & ? & ?). exists ftx', fee'. set_solver.
Qed.

Lemma accepted_tx st header body pre tx :
  prevalidate st header body = Ok pre → tx ∈ transactions body →
  ∃ ftx fee, ftx ∈ filled_transactions pre ∧ transaction ftx = tx ∧
    tx_checked st (get_accumulator st) tx ftx fee.
Proof.
  intros Hv%prevalidate_spec. eapply checked_txs_elem, Hv.
Qed.

(** C1: In an accepted block, an output locked to an existing swap is only
    spent by a claim of that swap, which pays at least the swap's amount to the
    claimer entitled to it at this height. *)
Theorem escrow_only_claimed st header body pre tx o h id swap :
  prevalidate st header body = Ok pre →
  tx ∈ transactions body → (o, h) ∈ inputs tx →
  is_output_locked_to_swap st o = Some id → get_swap st id = Some swap →
  ∃ c p recipient,
    data tx = SwapClaim id c p ∧
    claim_pays st tx id c (next_height st) swap recipient.
Proof.
  intros Hpre Htx Hi Hl Hs.
  destruct (accepted_tx _ _ _ _ _ Hpre Htx) as (ftx & fee & _ & _ & Hc).
  pose proof (tc_swap _ _ _ _ _ Hc) as Hb.
  destruct (is_swap_claim (data tx)) eqn:Hcl.
  - destruct (data tx) as [| |id' c p|] eqn:Hd; try done.
    unfold validate_block_transaction in Hb. rewrite Hd in Hb.
    destruct (claim_consensus_pays _ _ _ _ _ Hd Hb) as (swap' & recipient & Hp).
    pose proof (cp_own _ _ _ _ _ _ _ Hp (o, h) id Hi Hl) as <-.
    exists c, p, recipient. split; [done|].
    by replace swap with swap' by (pose proof (cp_swap _ _ _ _ _ _ _ Hp); congruence).
  - destruct (block_transaction_locks _ _ _ Hcl Hb (o, h) id Hi Hl)
      as (? & ? & ? & ? & ? & ? & ? & _ & ?). congruence.
Qed.

(** C2: Every claim of an accepted block spends an output locked to its swap and
    none locked to another, and pays at least the swap's amount to the claimer
    entitled to it; any other transaction spends no locked output, save that a
    [SwapCreate] may spend outputs locked to its own, not yet existing swap. *)
Theorem accepted_block_swaps st header body pre tx :
  prevalidate st header body = Ok pre → tx ∈ transactions body →
  match data tx with
  | SwapClaim id c _ =>
      ∃ swap recipient, claim_pays st tx id c (next_height st) swap recipient
  | SwapCreate id _ _ _ recipient amount l1_addr l1_amt =>
      ∃ ftx, fill_transaction st tx = Ok ftx ∧
        create_ok st tx ftx id recipient amount l1_addr l1_amt
  | _ => ∀ i, i ∈ inputs tx → is_output_locked_to_swap st i.1 = None
  end.
Proof.
  intros Hpre Htx. destruct (accepted_tx _ _ _ _ _ Hpre Htx) as (ftx & fee & _ & _ & Hc).
  pose proof (tc_swap _ _ _ _ _ Hc) as Hb. unfold validate_block_transaction in Hb.
  destruct (data tx) as [|id chain b r rc am l1 la|id c p|id c] eqn:Hd.
  - apply no_locked_outputs_Ok; [by rewrite Hd|done].
  - exists ftx. split; [apply Hc|]. by eapply swap_create_Ok.
  - by eapply claim_consensus_pays.
  - unfold validate_swap_accept in Hb. rewrite Hd in Hb. res_inv.
    apply no_locked_outputs_Ok; [by rewrite Hd|done].
Qed.

(** No outpoint is spent twice, within a transaction or across transactions, and
    every outpoint spent is unspent. *)
Definition spends_once st (body : Body) : Prop :=
  NoDup (body_get_inputs body) ∧
  ∀ o, o ∈ body_get_inputs body → is_Some (utxos st !! o).

(** An accepted block spends each outpoint once, and only unspent ones. *)
Theorem accepted_block_no_double_spend st header body pre :
  prevalidate st header body = Ok pre → spends_once st body.
Proof.
  intros Hpre. split.
  - apply prevalidate_spec in Hpre as Hv.
    pose proof (bv_keys _ _ _ _ Hv) as Hk. apply double_spent_NoDup in Hk.
    apply (NoDup_fmap_1 outpoint_key).
    enough (outpoint_key <$> body_get_inputs body = transactions body ≫= tx_keys)
      as -> by done.
    unfold body_get_inputs. clear. induction (transactions body) as [|tx txs IH];
      csimpl; [done|]. by rewrite fmap_app, IH.
  - intros o Ho. unfold body_get_inputs in Ho.
    apply list_elem_of_bind in Ho as (tx & Ho & Htx).
    destruct (accepted_tx _ _ _ _ _ Hpre Htx) as (ftx & fee & _ & _ & Hc).
    pose proof (tc_fill _ _ _ _ _ Hc) as Hf.
    unfold fill_transaction in Hf. res_inv. apply mapM_res_Forall2 in Ha.
    apply list_elem_of_fmap in Ho as (i & -> & Hi).
    apply list_elem_of_lookup in Hi as [k Hk].
    destruct (Forall2_lookup_l _ _ _ _ _ Ha Hk) as (out & _ & Hl).
    apply ok_or_Ok in Hl. by eexists.
Qed.
End BlockProps.
