(* ===== verification/Ledger.v ===== *)
(** The ledger under [connect_prevalidated] and [disconnect_tip]
    (lib/state/block.rs): the unspent and spent outputs, the tip and the height.

    Swap transactions do not touch it, and disconnecting a block restores it. *)
From S2P Require Import Prelude Bytes SwapTypes TxTypes Externals.
From S2P Require Import Accumulator BlockTypes Rollback Bundle StateDb SwapRules.
From S2P Require Import Auth Block BlockSpec BlockProps BlockConnect.

Section Ledger.
Context {T : ExtTypes} {X : ExtFuns}.
Implicit Types (st s t : State) (tx : Transaction) (ftx : FilledTransaction).

(** What swap operations leave alone, and what ledger operations leave
    alone. *)
Definition ledger st :=
  (utxos st, stxos st, tip st, height st, utreexo_accumulator st).
Definition sans_ledger st : State := {| st with utxos := ∅; stxos := ∅ |}.

(** ** Swap operations leave the ledger alone *)
Lemma ledger_save_swap swap st st' : save_swap swap st = Ok st' → ledger st' = ledger st.
Proof. unfold save_swap. intros H. by res_inv. Qed.

Lemma ledger_lock_all id os st : ledger (lock_all id os st) = ledger st.
Proof. by apply fold_left_proj. Qed.

Lemma ledger_unlock_all os st : ledger (unlock_all os st) = ledger st.
Proof. by apply fold_left_proj. Qed.

Lemma ledger_unlock_inputs id ins st : ledger (unlock_inputs id ins st) = ledger st.
Proof. apply fold_left_proj. intros. by case_bool_decide. Qed.

Lemma ledger_relock_inputs id ins st : ledger (relock_inputs id ins st) = ledger st.
Proof. apply fold_left_proj. intros. by case_bool_decide. Qed.

Lemma ledger_unlock_created id outs st : ledger (unlock_created id outs st) = ledger st.
Proof. apply fold_left_proj. intros. by destruct (_ && _). Qed.

Lemma ledger_delete_swap id st : ledger (delete_swap_unchecked id st) = ledger st.
Proof.
  unfold delete_swap_unchecked.
  destruct (get_swap st id); [done|]. apply ledger_unlock_all.
Qed.

Lemma ledger_connect_swap h ftx st st' :
  connect_swap h ftx st = Ok st' → ledger st' = ledger st.
Proof.
  unfold connect_swap. destruct (data _) as [|id chain b r rc a l1 la|id c p|id c].
  - by intros [= <-].
  - unfold connect_swap_create. intros ->%ledger_save_swap. apply ledger_lock_all.
  - unfold connect_swap_claim. intros H. res_inv.
    apply ledger_save_swap in H as ->. rewrite ledger_unlock_inputs.
    destruct (bool_decide (state a = ReadyToClaim)); res_inv; [done|].
    by eapply ledger_save_swap.
  - by intros [= <-].
Qed.

Lemma ledger_disconnect_swap tx st st' :
  disconnect_swap tx st = Ok st' → ledger st' = ledger st.
Proof.
  unfold disconnect_swap. destruct (data _) as [|id chain b r rc a l1 la|id c p|id c].
  - by intros [= <-].
  - intros [= <-]. rewrite ledger_delete_swap.
    by trans (ledger (unlock_created id (regular_outputs (txid tx) (outputs tx)) st));
      [|apply ledger_unlock_created].
  - unfold disconnect_swap_claim. intros H. res_inv.
    case_bool_decide; res_inv.
    + apply ledger_save_swap in H as ->. apply ledger_relock_inputs.
    + apply ledger_relock_inputs.
  - by intros [= <-].
Qed.

(** ** Undoing insertions and spends *)
Lemma put_utxos_fold l st :
  foldM (λ st p, @Ok Error State (put_utxo p st)) st l = Ok (put_utxos l st).
Proof. apply (foldM_pure (λ st p, put_utxo p st)). Qed.

Lemma put_utxos_lookup_ne l st o :
  o ∉ l.*1 → utxos (put_utxos l st) !! o = utxos st !! o.
Proof.
  revert st; induction l as [|[o' out] l IH]; intros st Ho; [done|].
  csimpl in Ho. apply not_elem_of_cons in Ho as [Hne Ho].
  change (put_utxos ((o', out) :: l) st) with (put_utxos l (put_utxo (o', out) st)).
  rewrite IH by done. simpl. by rewrite lookup_insert_ne.
Qed.

Lemma put_utxos_frame l st :
  sans_ledger (put_utxos l st) = sans_ledger st ∧ stxos (put_utxos l st) = stxos st.
Proof.
  split; [by apply (fold_left_proj sans_ledger)|by apply (fold_left_proj stxos)].
Qed.

(** The outputs [l] are new on [st] and pairwise different. *)
Definition outputs_new (l : list (OutPoint * Output)) st : Prop :=
  NoDup l.*1 ∧ ∀ o, o ∈ l.*1 → utxos st !! o = None.

Lemma remove_outputs_undo l s t d :
  outputs_new l s → utxos t = utxos (put_utxos l s) →
  ∃ d', foldM remove_output (t, d) (reverse l) = Ok ({| t with utxos := utxos s |}, d').
Proof.
  intros Hnew Ht.
  destruct (foldM_undo (λ s l, outputs_new l s)
    (λ s (td : State * AccumulatorDiff.t), td.1 = {| t with utxos := utxos s |})
    (λ s p, @Ok Error State (put_utxo p s)) remove_output id s l (put_utxos l s) (t, d))
    as ([t' d'] & Hf & Heq); simpl in *.
  - intros s' [o out] k s1 [t1 d1] [_ Hfr] [= <-] Ht1. simpl in *; subst t1; simpl.
    rewrite lookup_insert_eq. simpl. eexists _. split; [done|]. simpl.
    rewrite delete_insert_id; [done|]. apply Hfr. set_solver.
  - intros s' [o out] k s1 [Hnd Hfr] [= <-]. csimpl in Hnd.
    apply NoDup_cons in Hnd as [Hni Hnd]. split; [done|].
    intros o' Ho'. simpl. rewrite lookup_insert_ne by set_solver. apply Hfr. set_solver.
  - done.
  - apply put_utxos_fold.
  - rewrite <-Ht. by destruct t.
  - rewrite list_fmap_id in Hf. exists d'. by rewrite Hf, Heq.
Qed.

(** The inputs [l] are pairwise different and not spent on [st]. *)
Definition inputs_unspent (l : list OutPoint) st : Prop :=
  NoDup l ∧ ∀ o, o ∈ l → stxos st !! o = None.

Lemma unspend_inputs_undo tid (l : list (nat * (OutPoint * Hash))) s s1 t d :
  inputs_unspent l.*2.*1 s → foldM (spend_input tid) s l = Ok s1 →
  utxos t = utxos s1 → stxos t = stxos s1 →
  ∃ d', foldM unspend_input (t, d) (reverse l.*2)
        = Ok ({| t with utxos := utxos s; stxos := stxos s |}, d').
Proof.
  intros Hin Hf Hu Hs.
  destruct (foldM_undo
    (λ s (l : list (nat * (OutPoint * Hash))), inputs_unspent l.*2.*1 s)
    (λ s (td : State * AccumulatorDiff.t),
       td.1 = {| t with utxos := utxos s; stxos := stxos s |})
    (spend_input tid) unspend_input snd s l s1 (t, d)) as ([t' d'] & Hf' & Heq);
    simpl in *.
  - intros s' [vin [o h]] k s2 [t1 d1] [_ Hfr] Hsp Ht1. simpl in *. res_inv. simpl.
    rewrite lookup_insert_eq. simpl. eexists _. split; [done|]. simpl.
    rewrite delete_insert_id, insert_delete_id; [done..|]. apply Hfr. set_solver.
  - intros s' [vin [o h]] k s2 [Hnd Hfr] Hsp. csimpl in *. res_inv.
    apply NoDup_cons in Hnd as [Hni Hnd]. split; [done|]. intros o' Ho'. simpl.
    rewrite lookup_insert_ne by set_solver. apply Hfr. set_solver.
  - done.
  - done.
  - rewrite <-Hu, <-Hs. by destruct t.
  - exists d'. by rewrite Hf', Heq.
Qed.

(** ** The transactions of a block, one after the other *)
Definition tx_ins tx : list OutPoint := (inputs tx).*1.
Definition tx_outs tx : list (OutPoint * Output) :=
  regular_outputs (txid tx) (outputs tx).

Lemma imap_pair_snd {A} (l : list A) : (imap pair l).*2 = l.
Proof. rewrite fmap_imap. simpl. rewrite <-(list_fmap_id l) at 2. by rewrite <-imap_const. Qed.

Lemma spend_inputs_lookup tid (l : list (nat * (OutPoint * Hash))) s s1 :
  foldM (spend_input tid) s l = Ok s1 →
  sans_ledger s1 = sans_ledger s ∧
  (∀ o, utxos s1 !! o = if bool_decide (o ∈ l.*2.*1) then None else utxos s !! o) ∧
  (∀ o, o ∉ l.*2.*1 → stxos s1 !! o = stxos s !! o).
Proof.
  revert s; induction l as [|[vin [o h]] l IH]; intros s Hf; simpl in Hf.
  { by simplify_eq. }
  apply bind_Ok_inv in Hf as (s2 & Hs2 & Hf).
  apply IH in Hf as (Hsans & Hu & Hs). simpl in Hs2. res_inv.
  split_and!; [by unfold sans_ledger; f_equal| |].
  - intros o'. rewrite Hu. csimpl. destruct (decide (o' ∈ l.*2.*1)).
    { by rewrite !bool_decide_true by set_solver. }
    rewrite bool_decide_false by done. destruct (decide (o' = o)) as [->|].
    + rewrite bool_decide_true by set_solver. by rewrite lookup_delete_eq.
    + rewrite bool_decide_false by set_solver. by rewrite lookup_delete_ne.
  - csimpl. intros o' Ho'. rewrite Hs by set_solver.
    by rewrite lookup_insert_ne by set_solver.
Qed.

(** [connect_tx] in two parts: the ledger, then the swap. *)
Lemma connect_tx_parts h s ftx s1 :
  connect_tx h s ftx = Ok s1 →
  let tx := transaction ftx in
  ∃ sa, foldM (spend_input (txid tx)) s (imap pair (inputs tx)) = Ok sa ∧
    connect_swap h ftx (put_utxos (tx_outs tx) sa) = Ok s1 ∧
    ledger s1 = ledger (put_utxos (tx_outs tx) sa).
Proof.
  unfold connect_tx. intros Hc. res_inv. eexists. split_and!; [done|done|].
  by eapply ledger_connect_swap.
Qed.

(** What the transactions [q], still to be connected on [s], need. *)
Record chain_ok s (q : list Transaction) : Prop := {
  ch_ins : NoDup (q ≫= tx_ins);
  ch_outs : NoDup (q ≫= tx_outs).*1;
  ch_unspent : ∀ o, o ∈ q ≫= tx_ins → stxos s !! o = None;
  ch_other : ∀ o, o ∈ q ≫= tx_ins → o ∉ (q ≫= tx_outs).*1;
  ch_new : ∀ o, o ∈ (q ≫= tx_outs).*1 → utxos s !! o = None;
}.

Lemma chain_ok_step h s ftx q s1 :
  chain_ok s (transaction ftx :: q) → connect_tx h s ftx = Ok s1 →
  chain_ok s1 q ∧
  (∀ o, o ∉ tx_ins (transaction ftx) → o ∉ (tx_outs (transaction ftx)).*1 →
     utxos s1 !! o = utxos s !! o).
Proof.
  intros [Hi Ho Hu Hx Hn] Hc. apply connect_tx_parts in Hc as (sa & Hsp & _ & Hl).
  injection Hl as Hut Hst _ _ _.
  apply spend_inputs_lookup in Hsp as (_ & Hlu & Hls).
  rewrite imap_pair_snd in *. fold (tx_ins (transaction ftx)) in *.
  csimpl in *. rewrite fmap_app in *.
  apply NoDup_app in Hi as (_ & Hi1 & Hi2), Ho as (_ & Ho1 & Ho2).
  assert (∀ o, o ∉ tx_ins (transaction ftx) → o ∉ (tx_outs (transaction ftx)).*1 →
     utxos s1 !! o = utxos s !! o) as Hsame.
  { intros o Hoi Hoo. rewrite Hut, put_utxos_lookup_ne by done.
    rewrite Hlu. by rewrite bool_decide_false. }
  split; [|done]. split; [done|done| | |].
  - intros o Hin. rewrite Hst, (proj2 (put_utxos_frame _ _)).
    rewrite Hls; [apply Hu; set_solver|]. intros Hin'. by apply (Hi1 o).
  - intros o Hin Hin'. apply (Hx o); [set_solver|]. apply elem_of_app. auto.
  - intros o Hin. rewrite Hsame; [apply Hn; set_solver| |].
    + intros Hin'. apply (Hx o); set_solver.
    + intros Hin'. by apply (Ho1 o).
Qed.

(** ** Swaps survive disconnecting *)

(** Every swap of [s] is in [t]. *)
Definition keeps_swaps s t : Prop :=
  ∀ id, is_Some (get_swap s id) → is_Some (get_swap t id).

(** What validation guarantees about the swap that a transaction names. *)
Definition swap_known st tx : Prop :=
  match data tx with
  | SwapCreate id _ _ _ _ _ _ _ => get_swap st id = None
  | SwapClaim id _ _ => is_Some (get_swap st id)
  | _ => True
  end.

Lemma get_swap_ext st st' id : swaps st' = swaps st → get_swap st' id = get_swap st id.
Proof. unfold get_swap. by intros ->. Qed.

Lemma get_swap_save swap st st' id :
  save_swap swap st = Ok st' →
  get_swap st' id = if bool_decide (id = swap_id swap) then Some swap else get_swap st id.
Proof.
  unfold save_swap. intros H. res_inv. unfold get_swap; simpl.
  case_bool_decide; subst.
  - by rewrite lookup_insert_eq.
  - by rewrite lookup_insert_ne, lookup_delete_ne by done.
Qed.

Lemma save_swap_total swap st :
  bincode_swap_ok swap = true → ∃ st', save_swap swap st = Ok st'.
Proof. intros Hb. unfold save_swap. rewrite Hb. by eexists. Qed.

Lemma keeps_swaps_save swap s st st' :
  keeps_swaps s st → save_swap swap st = Ok st' → keeps_swaps s st'.
Proof.
  intros Hk Hs id Hid. rewrite (get_swap_save _ _ _ _ Hs).
  case_bool_decide; [done|by apply Hk].
Qed.

Lemma keeps_swaps_ext s st st' :
  swaps st' = swaps st → keeps_swaps s st → keeps_swaps s st'.
Proof. intros Heq Hk id Hid. rewrite (get_swap_ext _ _ _ Heq). by apply Hk. Qed.

Lemma swaps_unlock_all os st : swaps (unlock_all os st) = swaps st.
Proof. by apply (fold_left_proj swaps). Qed.
Lemma swaps_lock_all id os st : swaps (lock_all id os st) = swaps st.
Proof. by apply (fold_left_proj swaps). Qed.
Lemma swaps_unlock_inputs id ins st : swaps (unlock_inputs id ins st) = swaps st.
Proof. apply (fold_left_proj swaps). intros. by case_bool_decide. Qed.
Lemma swaps_relock_inputs id ins st : swaps (relock_inputs id ins st) = swaps st.
Proof. apply (fold_left_proj swaps). intros. by case_bool_decide. Qed.
Lemma swaps_unlock_created id outs st : swaps (unlock_created id outs st) = swaps st.
Proof. apply (fold_left_proj swaps). intros. by destruct (_ && _). Qed.

Lemma get_swap_delete_ne id id' st :
  id' ≠ id → get_swap (delete_swap_unchecked id st) id' = get_swap st id'.
Proof.
  intros Hne. unfold get_swap at 1, delete_swap_unchecked. simpl.
  rewrite lookup_delete_ne by done. destruct (get_swap st id); simpl; [done|].
  unfold unlock_all_outputs_for_swap. by rewrite swaps_unlock_all.
Qed.

Lemma connect_swap_keeps s h ftx st st' :
  keeps_swaps s st → connect_swap h ftx st = Ok st' → keeps_swaps s st'.
Proof.
  intros Hk. unfold connect_swap.
  destruct (data _) as [|id chain b r rc a l1 la|id c p|id c].
  - by intros [= <-].
  - apply keeps_swaps_save. eapply keeps_swaps_ext; [apply swaps_lock_all|done].
  - unfold connect_swap_claim. intros H. res_inv.
    eapply keeps_swaps_save; [|exact H].
    eapply keeps_swaps_ext; [apply swaps_unlock_inputs|].
    destruct (bool_decide (state a = ReadyToClaim)); res_inv; [done|].
    by eapply keeps_swaps_save.
  - by intros [= <-].
Qed.

(** Disconnecting the swap of a validated transaction succeeds. *)
Lemma disconnect_swap_total s tx t :
  (∀ swap, bincode_swap_ok swap = true) →
  swap_known s tx → keeps_swaps s t →
  ∃ t', disconnect_swap tx t = Ok t' ∧ keeps_swaps s t'.
Proof.
  intros Hbin Hknown Hk. unfold disconnect_swap, swap_known in *.
  destruct (data tx) as [|id chain b r rc a l1 la|id c p|id c].
  - by eexists.
  - eexists. split; [done|]. intros id' Hid'.
    rewrite get_swap_delete_ne by (intros ->; rewrite Hknown in Hid'; by destruct Hid').
    erewrite get_swap_ext by apply swaps_unlock_created. by apply Hk.
  - destruct (Hk id Hknown) as [swap Hsw]. unfold disconnect_swap_claim.
    rewrite Hsw. simpl. case_bool_decide.
    + destruct (save_swap_total (with_state ReadyToClaim swap)
        (relock_inputs id (inputs tx) t)) as [t' Ht']; [done|].
      exists t'. split; [done|]. eapply keeps_swaps_save; [|done].
      eapply keeps_swaps_ext; [apply swaps_relock_inputs|done].
    + eexists. split; [done|].
      eapply keeps_swaps_ext; [apply swaps_relock_inputs|done].
  - eexists. split; [done|]. done.
Qed.

(** ** Disconnecting undoes connecting *)

(** A state of the disconnecting loop against the state of the connecting one:
    the same ledger, the tip and height of the block, no swap of [st0] lost. *)
Definition mirrors st0 (tp : option BlockHash) (h : option Z) s
    (td : State * AccumulatorDiff.t) : Prop :=
  utxos td.1 = utxos s ∧ stxos td.1 = stxos s ∧
  tip td.1 = tp ∧ height td.1 = h ∧ keeps_swaps st0 td.1.

Lemma disconnect_tx_undo st0 tp th h s ftx q s1 td :
  (∀ swap, bincode_swap_ok swap = true) →
  chain_ok s (transaction ftx :: q) → swap_known st0 (transaction ftx) →
  connect_tx h s ftx = Ok s1 → mirrors st0 tp th s1 td →
  ∃ td', disconnect_tx td (transaction ftx) = Ok td' ∧ mirrors st0 tp th s td'.
Proof.
  intros Hbin [Hi Ho Hu Hx Hn] Hknown Hc (Mu & Ms & Mt & Mh & Mk).
  apply connect_tx_parts in Hc as (sa & Hsp & _ & Hl).
  injection Hl as Hut Hst _ _ _.
  destruct td as [t d]; simpl in *.
  destruct (disconnect_swap_total st0 (transaction ftx) t) as (t1 & Hd & Hk1); [done..|].
  pose proof (ledger_disconnect_swap _ _ _ Hd) as Hl1.
  injection Hl1 as Hu1 Hs1 Ht1 Hh1 _.
  pose proof (spend_inputs_lookup _ _ _ _ Hsp) as (_ & Hlu & _).
  rewrite imap_pair_snd in Hlu.
  csimpl in *. rewrite fmap_app in *.
  apply NoDup_app in Hi as (Hi & _ & _), Ho as (Ho & _ & _).
  destruct (remove_outputs_undo (tx_outs (transaction ftx)) sa t1 d) as [d1 Hd1].
  { split; [done|]. intros o Hin. rewrite Hlu. case_bool_decide as Hin'; [done|].
    apply Hn. set_solver. }
  { congruence. }
  destruct (unspend_inputs_undo (txid (transaction ftx)) (imap pair (inputs (transaction ftx)))
    s sa {| t1 with utxos := utxos sa |} d1) as [d2 Hd2]; simpl.
  { rewrite imap_pair_snd. split; [done|]. intros o Hin. apply Hu. set_solver. }
  { done. }
  { done. }
  { rewrite Hs1, Ms, Hst. apply put_utxos_frame. }
  exists ({| t1 with utxos := utxos s; stxos := stxos s |}, d2).
  split; [|split_and!; simpl; try congruence; done].
  unfold disconnect_tx. rewrite Hd. simpl. fold (tx_outs (transaction ftx)).
  rewrite Hd1. simpl. rewrite imap_pair_snd in Hd2. by rewrite Hd2.
Qed.

Lemma disconnect_txs_undo st0 tp th h s ftxs s1 td :
  (∀ swap, bincode_swap_ok swap = true) →
  chain_ok s (transaction <$> ftxs) →
  (∀ ftx, ftx ∈ ftxs → swap_known st0 (transaction ftx)) →
  foldM (connect_tx h) s ftxs = Ok s1 → mirrors st0 tp th s1 td →
  ∃ td', foldM disconnect_tx td (reverse (transaction <$> ftxs)) = Ok td' ∧
         mirrors st0 tp th s td'.
Proof.
  intros Hbin Hch Hk Hf Hm.
  eapply (foldM_undo
    (λ s l, chain_ok s (transaction <$> l) ∧
            ∀ ftx, ftx ∈ l → swap_known st0 (transaction ftx))
    (mirrors st0 tp th)); [| |split; done|done|done].
  - intros s' ftx l s2 t2 [Hc' Hk'] Hs2 Hm2.
    eapply disconnect_tx_undo; [done|done| |done|done]. apply Hk'. set_solver.
  - intros s' ftx l s2 [Hc' Hk'] Hs2. split.
    + by eapply chain_ok_step.
    + intros ftx' Hin. apply Hk'. set_solver.
Qed.

(** ** Blocks *)

(** The outpoints that a block creates. *)
Definition block_created (header : Header) (body : Body) : list (OutPoint * Output) :=
  coinbase_outputs (merkle_root header) (coinbase body)
  ++ (transactions body ≫= tx_outs).

(** They are pairwise different and new.  Validation does not ask for it: the
    identifier of a transaction that spends something is new, but a transaction without
    inputs, or the coinbase of a block without transactions, may be repeated, with outputs
    of value zero ([Scenarios.repeated_coinbase_lost], [Scenarios.twice_in_a_block]). *)
Definition block_fresh st header body : Prop :=
  NoDup (block_created header body).*1 ∧
  ∀ o, o ∈ (block_created header body).*1 → utxos st !! o = None ∧ stxos st !! o = None.

(** No outpoint is both spent and unspent; there is a tip exactly when there is
    a height, a [u32] below the maximum. *)
Definition ledger_wf st : Prop :=
  dom (utxos st) ## dom (stxos st) ∧
  match tip st, height st with
  | Some _, Some h => 0 ≤ h < u32_MAX
  | None, None => True
  | _, _ => False
  end.

Lemma checked_txs_inputs st a z txs ftxs z' :
  checked_txs st a z txs ftxs z' →
  transaction <$> ftxs = txs ∧
  (∀ o, o ∈ txs ≫= tx_ins → is_Some (utxos st !! o)).
Proof.
  induction 1 as [|z tx ftx fee z1 txs ftxs z2 [Hf _ _ _] _ _ [IH1 IH2]]; csimpl.
  { split; [done|]. set_solver. }
  rewrite fill_transaction_lookup in Hf. res_inv. split; [done|].
  intros o [Hin|Hin]%elem_of_app; [|by apply IH2].
  unfold tx_ins in Hin. apply list_elem_of_fmap in Hin as (i & -> & Hin).
  apply mapM_res_Forall2 in Ha.
  apply list_elem_of_lookup in Hin as [k Hk].
  destruct (Forall2_lookup_l _ _ _ _ _ Ha Hk) as (out & _ & Hl).
  unfold lookup_input in Hl. apply ok_or_Ok in Hl. by eexists.
Qed.

Lemma checked_txs_swaps st a z txs ftxs z' :
  checked_txs st a z txs ftxs z' →
  ∀ ftx, ftx ∈ ftxs → swap_known st (transaction ftx).
Proof.
  induction 1 as [|z tx ftx fee z1 txs ftxs z2 [Hf _ Hs _] _ _ IH]; [set_solver|].
  intros ftx' [->|Hin]%elem_of_cons; [|by apply IH].
  rewrite fill_transaction_lookup in Hf. res_inv. unfold swap_known. simpl.
  unfold validate_block_transaction in Hs.
  destruct (data tx) as [|id chain b r rc am l1 la|id c p|id c] eqn:Hd; try done.
  - unfold validate_swap_create in Hs. rewrite Hd in Hs. unfold require in Hs.
    res_inv. subst. done.
  - unfold validate_swap_claim_consensus in Hs. rewrite Hd in Hs. unfold require in Hs.
    res_inv. by eexists.
Qed.

Lemma swaps_sans_ledger s t : sans_ledger s = sans_ledger t → swaps s = swaps t.
Proof. intros H. by apply (f_equal swaps) in H. Qed.

Lemma connect_tx_keeps st0 h s ftx s1 :
  keeps_swaps st0 s → connect_tx h s ftx = Ok s1 → keeps_swaps st0 s1.
Proof.
  intros Hk Hc. apply connect_tx_parts in Hc as (sa & Hsp & Hsw & _).
  apply spend_inputs_lookup in Hsp as (Hsans & _ & _).
  eapply connect_swap_keeps; [|done].
  eapply keeps_swaps_ext; [|exact Hk]. apply swaps_sans_ledger.
  rewrite (proj1 (put_utxos_frame _ _)). done.
Qed.

Lemma connect_txs_keeps st0 h s ftxs s1 :
  keeps_swaps st0 s → foldM (connect_tx h) s ftxs = Ok s1 → keeps_swaps st0 s1.
Proof.
  intros Hk. apply foldM_inv; [done|]. intros s' ftx s2 _. apply connect_tx_keeps.
Qed.

(** A fresh, accepted block can be connected transaction by transaction. *)
Lemma block_chain_ok st header body pre :
  ledger_wf st → block_fresh st header body → block_valid st header body pre →
  chain_ok (put_utxos (coinbase_outputs (merkle_root header) (coinbase body)) st)
    (transactions body).
Proof.
  intros [Hdisj _] [Hnd Hnew] Hv. unfold block_created in *. rewrite fmap_app in *.
  apply NoDup_app in Hnd as (_ & Hx & Hnd).
  pose proof (checked_txs_inputs _ _ _ _ _ _ (bv_txs _ _ _ _ Hv)) as [_ Hin].
  assert (∀ o, o ∈ transactions body ≫= tx_ins →
    o ∉ (coinbase_outputs (merkle_root header) (coinbase body)).*1
        ++ (transactions body ≫= tx_outs).*1) as Hother.
  { intros o Ho Hc. apply Hin in Ho as [out Ho].
    destruct (Hnew o Hc) as [Hn _]. congruence. }
  split; [|done| | |].
  - pose proof (bv_keys _ _ _ _ Hv) as Hk. apply double_spent_NoDup in Hk.
    apply (NoDup_fmap_1 outpoint_key). clear -Hk.
    induction (transactions body) as [|tx txs IH]; [constructor|]. csimpl in *.
    rewrite fmap_app. apply NoDup_app in Hk as (H1 & H2 & H3).
    apply NoDup_app. split_and!; [done| |by apply IH].
    assert (outpoint_key <$> (txs ≫= tx_ins) = txs ≫= tx_keys) as ->; [|done].
    clear. induction txs as [|tx txs IH]; csimpl; [done|]. by rewrite fmap_app, IH.
  - intros o Ho. rewrite (proj2 (put_utxos_frame _ _)). apply Hin in Ho.
    apply not_elem_of_dom. intros Hs. apply (Hdisj o); [by apply elem_of_dom|done].
  - intros o Ho Hc. apply (Hother o Ho). set_solver.
  - intros o Ho. rewrite put_utxos_lookup_ne.
    + apply Hnew. set_solver.
    + intros Hc. by apply (Hx o).
Qed.

(** The height after connecting, then disconnecting. *)
Lemma disconnect_header_undo st header t :
  ledger_wf st → prev_side_hash header = tip st → height t = Some (next_height st) →
  ∃ t', disconnect_header header t = Ok t' ∧ tip t' = tip st ∧ height t' = height st ∧
        utxos t' = utxos t ∧ stxos t' = stxos t.
Proof.
  intros [_ Hwf] Hprev Hh. unfold disconnect_header. rewrite Hh. simpl. rewrite Hprev.
  unfold next_height in *. destruct (tip st) as [p|], (height st) as [h|]; try done.
  - assert (u32_add h 1 = h + 1) as -> by (apply u32_add_small; lia).
    destruct (Z.eqb_spec (h + 1) 0); [lia|]. eexists. split; [done|]. simpl.
    split_and!; try done. f_equal. lia.
  - simpl. eexists. split; [done|]. done.
Qed.

(** Disconnecting the block just connected, up to the forest. *)
Lemma disconnect_tip_undo st header body pre st' root :
  (∀ swap, bincode_swap_ok swap = true) →
  ledger_wf st → block_fresh st header body →
  prevalidate st header body = Ok pre →
  connect_prevalidated st header body pre = Ok (st', root) →
  ∃ t' td1 t2 d,
    foldM disconnect_tx (st', AccumulatorDiff.empty) (reverse (transactions body)) = Ok td1 ∧
    foldM remove_output td1
      (reverse (coinbase_outputs (merkle_root header) (coinbase body))) = Ok (t2, d) ∧
    disconnect_tip st' header body
    = (acc ← ok_or (apply_diff d (get_accumulator st')) Utreexo;
       Ok {| t' with utreexo_accumulator := Some acc |}) ∧
    utxos t' = utxos st ∧ stxos t' = stxos st ∧ tip t' = tip st ∧ height t' = height st.
Proof.
  intros Hbin Hwf Hfr Hpre Hc. apply prevalidate_spec in Hpre as Hv.
  pose proof (block_chain_ok _ _ _ _ Hwf Hfr Hv) as Hch.
  pose proof (bv_txs _ _ _ _ Hv) as Htxs.
  pose proof (checked_txs_inputs _ _ _ _ _ _ Htxs) as [Htx _].
  pose proof (checked_txs_swaps _ _ _ _ _ _ Htxs) as Hsw.
  unfold connect_prevalidated in Hc. res_inv.
  set (cb := coinbase_outputs (merkle_root header) (coinbase body)) in *.
  rewrite (bv_root_eq _ _ _ _ Hv) in *. fold cb in Ha1.
  match goal with H : foldM (connect_tx _) _ _ = Ok ?s |- _ => rename s into s2, H into Hf end.
  match goal with |- context [disconnect_tip ?s _ _] => set (st1 := s) in * end.
  rewrite <-Htx in Hch.
  destruct (disconnect_txs_undo st (Some (header_hash header))
    (Some (pre_next_height pre)) _ _ _ _ (st1, AccumulatorDiff.empty) Hbin Hch Hsw Hf)
    as ([t d] & Hd & Mu & Ms & Mt & Mh & _).
  { split_and!; try done. simpl. apply (keeps_swaps_ext _ s2); [done|].
    eapply connect_txs_keeps; [|exact Hf].
    eapply keeps_swaps_ext; [|intros id Hid; exact Hid].
    apply swaps_sans_ledger, put_utxos_frame. }
  rewrite Htx in Hd. simpl in *.
  destruct (remove_outputs_undo cb st t d) as [d' Hd']; [|done|].
  { destruct Hfr as [Hnd Hnew]. unfold block_created in *. rewrite fmap_app in *.
    split; [by apply NoDup_app in Hnd as (? & _ & _)|].
    intros o Ho. apply Hnew. set_solver. }
  destruct (disconnect_header_undo st header {| t with utxos := utxos st |})
    as (t' & Hh' & Ht1 & Ht2 & Ht3 & Ht4); simpl; [done|congruence| |].
  { rewrite Mh. f_equal. apply (bv_height _ _ _ _ Hv). }
  unfold disconnect_tip. subst st1. simpl. rewrite bool_decide_true by done. simpl.
  rewrite Hd. simpl. fold cb. rewrite Hd'. simpl. rewrite Hh'. simpl.
  exists t', (t, d), {| t with utxos := utxos st |}, d'.
  split_and!; try done. rewrite Ht4. simpl. rewrite Ms. apply put_utxos_frame.
Qed.
(** C14: Connecting an accepted block whose outpoints are new and disconnecting it again
    restores the unspent outputs, the spent outputs, the tip and the height;
    disconnecting cannot fail, except in the Utreexo forest.  (Swaps are assumed to be
    encodable.) *)
Theorem disconnect_restores_ledger st header body pre st' root :
  (∀ swap, bincode_swap_ok swap = true) →
  ledger_wf st → block_fresh st header body →
  prevalidate st header body = Ok pre →
  connect_prevalidated st header body pre = Ok (st', root) →
  disconnect_tip st' header body = Err Utreexo ∨
  ∃ st'', disconnect_tip st' header body = Ok st'' ∧
    utxos st'' = utxos st ∧ stxos st'' = stxos st ∧
    tip st'' = tip st ∧ height st'' = height st.
Proof.
  intros Hbin Hwf Hfr Hpre Hc.
  destruct (disconnect_tip_undo _ _ _ _ _ _ Hbin Hwf Hfr Hpre Hc)
    as (t' & td1 & t2 & d & _ & _ & -> & Hu & Hs & Ht & Hh).
  destruct (apply_diff d _) as [acc|]; simpl; [right; by eexists|by left].
Qed.
End Ledger.
