(* ===== verification/Value.v ===== *)
(** Conservation of value: an accepted block moves the fees to its coinbase and
    creates nothing (lib/state/mod.rs [validate_filled_transaction],
    lib/state/block.rs). *)
From S2P Require Import Prelude Bytes SwapTypes TxTypes Externals.
From S2P Require Import Accumulator BlockTypes Rollback Bundle StateDb SwapRules.
From S2P Require Import Auth Block BlockSpec BlockProps BlockConnect Ledger.

Section Value.
Context {T : ExtTypes} {X : ExtFuns}.
Implicit Types (st s t : State) (tx : Transaction) (ftx : FilledTransaction).

(** ** The fee of a transaction *)
Lemma sum_loop_Ok {A} (f : A → Z) (chk : A → res Error ()) l a z :
  foldM (λ acc x, _ ← chk x; ok_or (u64_checked_add acc (f x)) AmountOverflow) a l = Ok z →
  z = a + sumZ f l ∧ ∀ x, x ∈ l → chk x = Ok ().
Proof.
  revert a; induction l as [|x l IH]; intros a Hf; simpl in Hf.
  { simplify_eq. simpl. split; [lia|set_solver]. }
  apply bind_Ok_inv in Hf as (b & Hb & Hf). apply IH in Hf as [-> Hc].
  apply bind_Ok_inv in Hb as ([] & Hx & Hb).
  apply ok_or_Ok, u64_checked_add_Some in Hb as [-> _]. simpl. split; [lia|].
  intros y [->|Hy]%elem_of_cons; auto.
Qed.

Lemma sum_loop_plain_Ok {A} (f : A → Z) l a z :
  foldM (λ acc x, @ok_or Error _ (u64_checked_add acc (f x)) AmountOverflow) a l = Ok z →
  z = a + sumZ f l.
Proof.
  intros Hf. apply (sum_loop_Ok f (λ _, Ok ())) in Hf. by destruct Hf.
Qed.

(** What a transaction that validates satisfies. *)
Lemma validate_filled_fee ftx fee :
  validate_filled_transaction ftx = Ok fee →
  fee = sumZ get_value (spent_utxos ftx) - sumZ get_value (outputs (transaction ftx)) ∧
  0 ≤ fee ∧
  (∀ out, out ∈ spent_utxos ftx → is_withdrawal (content out) = false) ∧
  (∀ o h out, (o, h, out) ∈ filled_inputs ftx → h = hash_pointed o out).
Proof.
  unfold validate_filled_transaction. intros H.
  apply bind_Ok_inv in H as ([] & Hh & H).
  apply bind_Ok_inv in H as (vin & Hin & H).
  apply bind_Ok_inv in H as (vout & Hout & H). res_inv.
  apply (sum_loop_Ok get_value (λ utxo,
    ensure (negb (is_withdrawal (content utxo))) SpendWithdrawalOutput)) in Hin as [-> Hw].
  apply sum_loop_plain_Ok in Hout as ->.
  match goal with H : u64_checked_sub _ _ = Some _ |- _ =>
    apply u64_checked_sub_Some in H as [-> ?] end.
  split_and!; [lia|lia| |].
  - intros out Ho. specialize (Hw out Ho). by res_inv.
  - intros o h out Ho. unfold validate_utxo_hashes in Hh.
    rewrite (foldM_ext _ (λ _ p, ensure (bool_decide
      (p.1.2 = hash_pointed p.1.1 p.2)) (UtxoHashMismatch p.1.1))) in Hh
      by (by intros [] [[] ?] _).
    rewrite foldM_unit in Hh. specialize (Hh _ Ho). by res_inv.
Qed.

(** ** The value of the unspent outputs *)
Definition utxo_value (m : gmap OutPoint Output) : Z :=
  map_fold (λ _ out acc, get_value out + acc) 0 m.

Lemma utxo_value_insert m o out :
  m !! o = None → utxo_value (<[o := out]> m) = get_value out + utxo_value m.
Proof.
  intros Hn. unfold utxo_value.
  by rewrite map_fold_insert_L by (done || intros; lia).
Qed.

Lemma utxo_value_delete m o out :
  m !! o = Some out → utxo_value (delete o m) = utxo_value m - get_value out.
Proof.
  intros Ho. rewrite <-(insert_delete_id m o out) at 2 by done.
  rewrite utxo_value_insert by (by rewrite lookup_delete_eq). lia.
Qed.

Lemma put_utxos_value l s :
  outputs_new l s →
  utxo_value (utxos (put_utxos l s)) = utxo_value (utxos s) + sumZ (get_value ∘ snd) l.
Proof.
  revert s; induction l as [|[o out] l IH]; intros s [Hnd Hn]; [simpl; lia|].
  change (put_utxos ((o, out) :: l) s) with (put_utxos l (put_utxo (o, out) s)).
  csimpl in Hnd. apply NoDup_cons in Hnd as [Hni Hnd]. rewrite IH.
  - simpl. rewrite utxo_value_insert; [lia|]. apply Hn. set_solver.
  - split; [done|]. intros o' Ho'. simpl. rewrite lookup_insert_ne by set_solver.
    apply Hn. set_solver.
Qed.

Lemma spend_inputs_value tid (l : list (nat * (OutPoint * Hash))) s s1 outs :
  Forall2 (λ o out, utxos s !! o = Some out) l.*2.*1 outs → NoDup l.*2.*1 →
  foldM (spend_input tid) s l = Ok s1 →
  utxo_value (utxos s1) = utxo_value (utxos s) - sumZ get_value outs.
Proof.
  revert s outs; induction l as [|[vin [o h]] l IH]; intros s outs Hall Hnd Hf; csimpl in *.
  { inversion Hall. simplify_eq. simpl. lia. }
  inversion Hall as [|? out ? outs' Ho Hall']; simplify_eq.
  apply NoDup_cons in Hnd as [Hni Hnd].
  apply bind_Ok_inv in Hf as (s2 & Hs2 & Hf). rewrite Ho in Hs2. simpl in Hs2.
  injection Hs2 as <-. apply (IH _ outs') in Hf; [| |done].
  - rewrite Hf. simpl. rewrite (utxo_value_delete _ _ out) by done. lia.
  - apply Forall2_same_length_lookup in Hall' as [Hlen Hlk].
    apply Forall2_same_length_lookup. split; [done|].
    intros k o' out' Hk1 Hk2. simpl. rewrite lookup_delete_ne; [by eapply Hlk|].
    intros <-. apply Hni. by eapply list_elem_of_lookup_2.
Qed.

(** ** Connecting transactions *)
Lemma connect_tx_value h s ftx q s1 :
  chain_ok s (transaction ftx :: q) →
  Forall2 (λ o out, utxos s !! o = Some out) (tx_ins (transaction ftx)) (spent_utxos ftx) →
  connect_tx h s ftx = Ok s1 →
  utxo_value (utxos s1)
  = utxo_value (utxos s) - sumZ get_value (spent_utxos ftx)
    + sumZ get_value (outputs (transaction ftx)).
Proof.
  intros [Hi Ho _ _ Hn] Hall Hc.
  apply connect_tx_parts in Hc as (sa & Hsp & _ & Hl). injection Hl as -> _ _ _ _.
  csimpl in *. rewrite fmap_app in *.
  apply NoDup_app in Hi as (Hi & _ & _), Ho as (Ho & _ & _).
  rewrite put_utxos_value.
  - rewrite (spend_inputs_value _ _ _ _ (spent_utxos ftx)
      ltac:(by rewrite imap_pair_snd) ltac:(by rewrite imap_pair_snd) Hsp).
    unfold tx_outs, regular_outputs. rewrite (sumZ_imap _ get_value) by done. lia.
  - split; [done|]. intros o Ho'. apply spend_inputs_lookup in Hsp as (_ & -> & _).
    case_bool_decide; [done|]. apply Hn. set_solver.
Qed.

Lemma fill_Forall2 st tx ftx :
  fill_transaction st tx = Ok ftx →
  Forall2 (λ o out, utxos st !! o = Some out) (tx_ins tx) (spent_utxos ftx).
Proof.
  unfold fill_transaction. intros H. res_inv. apply mapM_res_Forall2 in Ha.
  unfold tx_ins. apply Forall2_fmap_l. eapply Forall2_impl; [exact Ha|].
  intros i out Hi. by apply ok_or_Ok in Hi.
Qed.

Lemma connect_txs_value st0 a h z txs ftxs z' s s1 :
  checked_txs st0 a z txs ftxs z' →
  chain_ok s txs → (∀ o, o ∈ txs ≫= tx_ins → utxos s !! o = utxos st0 !! o) →
  foldM (connect_tx h) s ftxs = Ok s1 →
  utxo_value (utxos s1) = utxo_value (utxos s) - (z' - z) ∧ z ≤ z'.
Proof.
  intros Hc. revert s; induction Hc as [|z tx ftx fee z1 txs ftxs z2 Hc Hz _ IH];
    intros s Hch Hsame Hf.
  { simpl in Hf. simplify_eq. lia. }
  pose proof (tc_fill _ _ _ _ _ Hc) as Hfill.
  assert (transaction ftx = tx) as Htx.
  { rewrite fill_transaction_lookup in Hfill. by res_inv. }
  apply bind_Ok_inv in Hf as (s2 & Hs2 & Hf).
  apply fill_Forall2 in Hfill. rewrite <-Htx in Hch.
  destruct (chain_ok_step _ _ _ _ _ Hch Hs2) as [Hch2 Hkeep].
  assert (Forall2 (λ o out, utxos s !! o = Some out) (tx_ins (transaction ftx))
    (spent_utxos ftx)) as Hall.
  { rewrite Htx. apply Forall2_same_length_lookup in Hfill as [Hlen Hlk].
    apply Forall2_same_length_lookup. split; [done|]. intros k o out Hk1 Hk2.
    rewrite Hsame; [by eapply Hlk|]. csimpl. apply elem_of_app. left.
    by eapply list_elem_of_lookup_2. }
  pose proof (connect_tx_value _ _ _ _ _ Hch Hall Hs2) as Hv.
  destruct (IH s2) as [IH1 IH2]; [done| |done|].
  - intros o Ho. destruct Hch as [Hi Hout _ Hx _]. csimpl in *. rewrite fmap_app in *.
    apply NoDup_app in Hi as (_ & Hi & _).
    rewrite Hkeep; [apply Hsame; set_solver| |].
    + intros Hin. by apply (Hi o).
    + intros Hin. apply (Hx o); set_solver.
  - apply u64_checked_add_Some in Hz as [-> _].
    destruct (validate_filled_fee _ _ (tc_fee _ _ _ _ _ Hc)) as (Hfee & ? & _).
    split; lia.
Qed.

Lemma coinbase_fold_value l a d v d' :
  foldM coinbase_step (a, d) l = Ok (v, d') → v = a + sumZ (get_value ∘ snd) l.
Proof.
  revert a d; induction l as [|[o out] l IH]; intros a d Hf; simpl in Hf.
  { simplify_eq. simpl. lia. }
  apply bind_Ok_inv in Hf as ([b d1] & Hb & Hf). apply IH in Hf as ->.
  apply bind_Ok_inv in Hb as (c & Hc & Hb). simplify_eq.
  apply ok_or_Ok, u64_checked_add_Some in Hc as [-> _]. simpl. lia.
Qed.

(** C15: Connecting an accepted block, whose outpoints are new, takes the total fees out
    of the unspent outputs and puts the coinbase in, which is at most the fees: no value is
    created. *)
Theorem block_conserves_value st header body pre st' root :
  ledger_wf st → block_fresh st header body →
  prevalidate st header body = Ok pre →
  connect_prevalidated st header body pre = Ok (st', root) →
  utxo_value (utxos st')
    = utxo_value (utxos st) - total_fees pre + pre_coinbase_value pre ∧
  pre_coinbase_value pre ≤ total_fees pre ∧
  pre_coinbase_value pre = sumZ get_value (coinbase body) ∧
  utxo_value (utxos st') ≤ utxo_value (utxos st).
Proof.
  intros Hwf Hfr Hpre Hc. apply prevalidate_spec in Hpre as Hv.
  pose proof (block_chain_ok _ _ _ _ Hwf Hfr Hv) as Hch.
  pose proof (bv_txs _ _ _ _ Hv) as Htxs.
  pose proof (bv_fees _ _ _ _ Hv) as Hfees.
  destruct (bv_coinbase _ _ _ _ Hv) as (d & Hcb & _).
  apply coinbase_fold_value in Hcb. rewrite (bv_root_eq _ _ _ _ Hv) in Hcb.
  unfold connect_prevalidated in Hc. res_inv. rewrite (bv_root_eq _ _ _ _ Hv) in *.
  destruct Hfr as [Hnd Hnew]. unfold block_created in Hnd, Hnew.
  rewrite fmap_app in Hnd, Hnew. apply NoDup_app in Hnd as (Hnd & Hx & _).
  match goal with H : foldM (connect_tx _) _ _ = Ok _ |- _ => rename H into Hf end.
  eapply connect_txs_value in Hf as [Hval _]; [|exact Htxs|exact Hch|].
  2:{ intros o Ho. apply put_utxos_lookup_ne. intros Hin.
      destruct (checked_txs_inputs _ _ _ _ _ _ Htxs) as [_ Hsome].
      apply Hsome in Ho as [out Ho]. destruct (Hnew o) as [Hn _]; [set_solver|].
      congruence. }
  rewrite put_utxos_value in Hval.
  2:{ split; [done|]. intros o Ho. apply Hnew. set_solver. }
  assert (sumZ (get_value ∘ snd) (coinbase_outputs (merkle_root header) (coinbase body))
    = sumZ get_value (coinbase body)) as Hsum.
  { unfold coinbase_outputs. by rewrite (sumZ_imap _ get_value). }
  simpl. split_and!; lia.
Qed.
End Value.
