(* ===== verification/Commitment.v ===== *)
(** The Utreexo accumulator commits to the unspent outputs.

    The forest is another crate; what the program relies on is the interface
    [ForestLaws].  Against it, connecting an accepted block keeps the leaves of
    the accumulator equal to the hashes of the unspent outputs, and disconnecting
    the block always succeeds (lib/state/block.rs, lib/types/mod.rs). *)
From S2P Require Import Prelude Bytes SwapTypes TxTypes Externals.
From S2P Require Import Accumulator BlockTypes Rollback Bundle StateDb.
From S2P Require Import SwapRules Auth Block BlockSpec BlockProps BlockConnect.
From S2P Require Import Ledger Value.

(** A forest stores a set of leaves: a modification that deletes stored leaves
    and inserts new ones succeeds, and changes the set accordingly. *)
Class ForestLaws {T : ExtTypes} (X : ExtFuns) := {
  leaves : MemForest → gset Hash;
  forest_modify_leaves f ins del :
    NoDup ins → NoDup del →
    (∀ h, h ∈ ins → h ∉ leaves f) → (∀ h, h ∈ del → h ∈ leaves f) →
    ∃ f', forest_modify f ins del = Some f' ∧
      leaves f' = (leaves f ∖ list_to_set del) ∪ list_to_set ins;
}.

(** ** Changes of a UTXO set *)
Section Ops.
Context {T : ExtTypes} {X : ExtFuns}.
Implicit Types (m : gmap OutPoint Output) (p : OutPoint * Output).

Inductive utxo_op := Put (p : OutPoint * Output) | Take (p : OutPoint * Output).

Definition op_pair (op : utxo_op) : OutPoint * Output :=
  match op with Put p | Take p => p end.
Definition inverse (op : utxo_op) : utxo_op :=
  match op with Put p => Take p | Take p => Put p end.
Definition op_ok m (op : utxo_op) : Prop :=
  match op with
  | Put p => m !! p.1 = None
  | Take p => m !! p.1 = Some p.2
  end.
Definition apply_op m (op : utxo_op) : gmap OutPoint Output :=
  match op with
  | Put p => <[p.1 := p.2]> m
  | Take p => delete p.1 m
  end.
Definition run_ops m (ops : list utxo_op) : gmap OutPoint Output :=
  fold_left apply_op ops m.
Fixpoint ops_ok m (ops : list utxo_op) : Prop :=
  match ops with
  | [] => True
  | op :: ops => op_ok m op ∧ ops_ok (apply_op m op) ops
  end.

Lemma run_ops_app m ops ops' : run_ops m (ops ++ ops') = run_ops (run_ops m ops) ops'.
Proof. apply fold_left_app. Qed.

Lemma ops_ok_app m ops ops' :
  ops_ok m (ops ++ ops') ↔ ops_ok m ops ∧ ops_ok (run_ops m ops) ops'.
Proof.
  revert m; induction ops as [|op ops IH]; intros m; simpl; [tauto|].
  rewrite IH. unfold run_ops. simpl. tauto.
Qed.

Lemma op_undo m op :
  op_ok m op → op_ok (apply_op m op) (inverse op) ∧ apply_op (apply_op m op) (inverse op) = m.
Proof.
  destruct op as [[o out]|[o out]]; simpl; intros Ho.
  - by rewrite lookup_insert_eq, delete_insert_id.
  - by rewrite lookup_delete_eq, insert_delete_id.
Qed.

(** The inverse changes, in reverse order, lead back. *)
Lemma ops_undo m ops :
  ops_ok m ops →
  ops_ok (run_ops m ops) (reverse (inverse <$> ops)) ∧
  run_ops (run_ops m ops) (reverse (inverse <$> ops)) = m.
Proof.
  revert m; induction ops as [|op ops IH]; intros m; [done|].
  intros [Hop Hok]. apply IH in Hok as [Hok Hrun].
  change (run_ops m (op :: ops)) with (run_ops (apply_op m op) ops).
  change (inverse <$> op :: ops) with (inverse op :: (inverse <$> ops)).
  rewrite reverse_cons, ops_ok_app, run_ops_app, Hrun.
  apply op_undo in Hop as [??]. by split_and!.
Qed.

(** ** The leaves of a UTXO set *)
Definition pair_hash p : Hash := hash_pointed p.1 p.2.
Definition leaf_op (op : utxo_op) : AccumulatorDiff.op :=
  match op with
  | Put p => AccumulatorDiff.Insert (pair_hash p)
  | Take p => AccumulatorDiff.Remove (pair_hash p)
  end.
Definition leaf_set m : gset Hash := list_to_set (pair_hash <$> map_to_list m).

(** Different outputs among [U] have different hashes. *)
Definition collision_free (U : list (OutPoint * Output)) : Prop :=
  ∀ p q, p ∈ U → q ∈ U → pair_hash p = pair_hash q → p = q.
Definition within (U : list (OutPoint * Output)) m : Prop :=
  ∀ o out, m !! o = Some out → (o, out) ∈ U.

Lemma elem_of_leaf_set m h :
  h ∈ leaf_set m ↔ ∃ p, m !! p.1 = Some p.2 ∧ h = pair_hash p.
Proof.
  unfold leaf_set. rewrite elem_of_list_to_set, list_elem_of_fmap. split.
  - intros ([o out] & -> & Hin). apply elem_of_map_to_list in Hin. by exists (o, out).
  - intros ([o out] & Hin & ->). exists (o, out). split; [done|].
    by apply elem_of_map_to_list.
Qed.

Lemma within_step U m op :
  within U m → op_pair op ∈ U → within U (apply_op m op).
Proof.
  intros Hm Hop o out. destruct op as [[o' out']|[o' out']]; simpl in *.
  - intros [[<- <-]|[_ Ho]]%lookup_insert_Some; [done|by apply Hm].
  - intros [_ Ho]%lookup_delete_Some. by apply Hm.
Qed.

Lemma within_run U m ops :
  within U m → (∀ op, op ∈ ops → op_pair op ∈ U) → within U (run_ops m ops).
Proof.
  revert m; induction ops as [|op ops IH]; intros m Hm Hin; [done|].
  apply IH; [apply within_step; [done|apply Hin; by left]|].
  intros op' ?. apply Hin. by right.
Qed.

#[export] Instance collision_free_dec U : Decision (collision_free U).
Proof.
  destruct (decide (Forall (λ p, Forall (λ q, pair_hash p = pair_hash q → p = q) U) U))
    as [H|H]; [left; abstract (intros p q Hp Hq; rewrite !Forall_forall in H;
      specialize (H p Hp); rewrite Forall_forall in H; by apply H)|].
  right. abstract (intros Hcf; apply H; rewrite Forall_forall; intros p Hp;
    apply Forall_forall; intros q Hq; by apply Hcf).
Defined.

Lemma leaf_step U m op :
  collision_free U → within U m → op_pair op ∈ U → op_ok m op →
  AccumulatorDiff.set_step (leaf_set m) (leaf_op op) = Some (leaf_set (apply_op m op)).
Proof.
  intros Hcf Hm Hop Hok.
  assert (∀ q, m !! q.1 = Some q.2 → pair_hash (op_pair op) = pair_hash q →
    op_pair op = q) as Hinj.
  { intros [o out] Hq. apply Hcf; [done|]. by apply Hm. }
  destruct op as [[o out]|[o out]]; simpl in *.
  - case_decide as Hin.
    { apply elem_of_leaf_set in Hin as ([o' out'] & Hq & Heq).
      specialize (Hinj _ Hq Heq). by simplify_eq/=. }
    f_equal. apply set_eq. intros h.
    rewrite elem_of_union, elem_of_singleton, !elem_of_leaf_set. split.
    + intros [->|(q & Hq & ->)].
      * exists (o, out). simpl. by rewrite lookup_insert_eq.
      * exists q. split; [|done]. rewrite lookup_insert_ne; [done|]. intros ->. congruence.
    + intros (q & Hq & ->). apply lookup_insert_Some in Hq as [[Ho Hout]|[_ Hq]]; [|eauto].
      left. destruct q; simpl in *. by subst.
  - rewrite decide_True by (apply elem_of_leaf_set; by exists (o, out)).
    f_equal. apply set_eq. intros h.
    rewrite elem_of_difference, elem_of_singleton, !elem_of_leaf_set. split.
    + intros [(q & Hq & ->) Hne]. exists q. split; [|done].
      rewrite lookup_delete_ne; [done|]. intros ->. apply Hne. unfold pair_hash. simpl.
      congruence.
    + intros (q & [Ho Hq]%lookup_delete_Some & ->). split; [by exists q|].
      intros Heq. specialize (Hinj q Hq (eq_sym Heq)). by subst.
Qed.

Lemma leaf_run U m ops :
  collision_free U → within U m → (∀ op, op ∈ ops → op_pair op ∈ U) → ops_ok m ops →
  AccumulatorDiff.set_run (leaf_set m) (leaf_op <$> ops) = Some (leaf_set (run_ops m ops)).
Proof.
  intros Hcf. revert m; induction ops as [|op ops IH]; intros m Hm Hops Hok; [done|].
  destruct Hok as [Hop Hok]. csimpl.
  unfold AccumulatorDiff.set_run in *. simpl.
  rewrite (leaf_step U) by (try done; apply Hops; by left).
  apply IH; [|intros op' ?; apply Hops; by right|done].
  apply within_step; [done|apply Hops; by left].
Qed.
End Ops.

(** ** The changes that a block makes *)
Section Commitment.
Context {T : ExtTypes} {X : ExtFuns}.
Implicit Types (st s t : State) (tx : Transaction) (ftx : FilledTransaction).
Implicit Type d : AccumulatorDiff.t.

Definition tx_ops ftx : list utxo_op :=
  (Take <$> zip (tx_ins (transaction ftx)) (spent_utxos ftx))
  ++ (Put <$> tx_outs (transaction ftx)).
Definition block_ops (header : Header) (body : Body) (ftxs : list FilledTransaction) :
    list utxo_op :=
  (Put <$> coinbase_outputs (merkle_root header) (coinbase body)) ++ (ftxs ≫= tx_ops).

Lemma put_ops l s :
  outputs_new l s →
  ops_ok (utxos s) (Put <$> l) ∧ run_ops (utxos s) (Put <$> l) = utxos (put_utxos l s).
Proof.
  revert s; induction l as [|[o out] l IH]; intros s [Hnd Hn]; [done|].
  csimpl in Hnd. apply NoDup_cons in Hnd as [Hni Hnd].
  destruct (IH (put_utxo (o, out) s)) as [Hok Hrun].
  { split; [done|]. intros o' Ho'. simpl. rewrite lookup_insert_ne by set_solver.
    apply Hn. csimpl. set_solver. }
  split; [|exact Hrun]. split; [|exact Hok]. apply Hn. csimpl. set_solver.
Qed.

Lemma take_ops tid (l : list (nat * (OutPoint * Hash))) s s1 outs :
  Forall2 (λ o out, utxos s !! o = Some out) l.*2.*1 outs → NoDup l.*2.*1 →
  foldM (spend_input tid) s l = Ok s1 →
  ops_ok (utxos s) (Take <$> zip l.*2.*1 outs) ∧
  run_ops (utxos s) (Take <$> zip l.*2.*1 outs) = utxos s1.
Proof.
  revert s outs; induction l as [|[vin [o h]] l IH]; intros s outs Hall Hnd Hf.
  { simpl in Hf. by simplify_eq. }
  csimpl in *. inversion Hall as [|? out ? outs' Ho Hall']; simplify_eq.
  apply NoDup_cons in Hnd as [Hni Hnd].
  apply bind_Ok_inv in Hf as (s2 & Hs2 & Hf). rewrite Ho in Hs2. simpl in Hs2.
  injection Hs2 as <-. apply (IH _ outs') in Hf as [Hok Hrun]; [|clear Hf|done].
  - split; [|exact Hrun]. split; [done|exact Hok].
  - apply Forall2_same_length_lookup in Hall' as [Hlen Hlk].
    apply Forall2_same_length_lookup. split; [done|].
    intros k o' out' Hk1 Hk2. simpl. rewrite lookup_delete_ne; [by eapply Hlk|].
    intros <-. apply Hni. by eapply list_elem_of_lookup_2.
Qed.

Lemma connect_tx_ops h s ftx q s1 :
  chain_ok s (transaction ftx :: q) →
  Forall2 (λ o out, utxos s !! o = Some out) (tx_ins (transaction ftx)) (spent_utxos ftx) →
  connect_tx h s ftx = Ok s1 →
  ops_ok (utxos s) (tx_ops ftx) ∧ run_ops (utxos s) (tx_ops ftx) = utxos s1.
Proof.
  intros [Hi Ho _ _ Hn] Hall Hc.
  apply connect_tx_parts in Hc as (sa & Hsp & _ & Hl). injection Hl as -> _ _ _ _.
  csimpl in *. rewrite fmap_app in *.
  apply NoDup_app in Hi as (Hi & _ & _), Ho as (Ho & _ & _).
  pose proof (spend_inputs_lookup _ _ _ _ Hsp) as (_ & Hlu & _).
  eapply take_ops in Hsp as [Hok Hrun]; [|rewrite imap_pair_snd; exact Hall|].
  2:{ by rewrite imap_pair_snd. }
  rewrite imap_pair_snd in Hok, Hrun.
  destruct (put_ops (tx_outs (transaction ftx)) sa) as [Hok2 Hrun2].
  { split; [done|]. intros o Ho'. rewrite Hlu.
    case_bool_decide; [done|]. apply Hn. set_solver. }
  unfold tx_ops. rewrite ops_ok_app, run_ops_app.
  change (tx_ins (transaction ftx)) with (inputs (transaction ftx)).*1.
  by rewrite Hrun.
Qed.

(** The inputs of [q] are unspent on [s] as they are on [st0], wherever the first
    transaction leaves them alone. *)
Lemma inputs_kept h st0 s ftx q s1 :
  chain_ok s (transaction ftx :: q) → connect_tx h s ftx = Ok s1 →
  (∀ o, o ∈ (transaction ftx :: q) ≫= tx_ins → utxos s !! o = utxos st0 !! o) →
  ∀ o, o ∈ q ≫= tx_ins → utxos s1 !! o = utxos st0 !! o.
Proof.
  intros Hch Hc Hsame o Ho.
  destruct (chain_ok_step _ _ _ _ _ Hch Hc) as [_ Hkeep].
  destruct Hch as [Hi _ _ Hx _]. csimpl in *. rewrite fmap_app in *.
  apply NoDup_app in Hi as (_ & Hi & _). rewrite Hkeep.
  - apply Hsame. set_solver.
  - intros Hin. by apply (Hi o).
  - intros Hin. apply (Hx o); set_solver.
Qed.

Lemma spent_kept st0 s tx q outs :
  Forall2 (λ o out, utxos st0 !! o = Some out) (tx_ins tx) outs →
  (∀ o, o ∈ (tx :: q) ≫= tx_ins → utxos s !! o = utxos st0 !! o) →
  Forall2 (λ o out, utxos s !! o = Some out) (tx_ins tx) outs.
Proof.
  intros Hall Hsame. apply Forall2_same_length_lookup in Hall as [Hlen Hlk].
  apply Forall2_same_length_lookup. split; [done|]. intros k o out Hk1 Hk2.
  rewrite Hsame; [by eapply Hlk|]. csimpl. apply elem_of_app. left.
  by eapply list_elem_of_lookup_2.
Qed.

Lemma connect_txs_ops st0 a h z txs ftxs z' s s1 :
  checked_txs st0 a z txs ftxs z' →
  chain_ok s txs → (∀ o, o ∈ txs ≫= tx_ins → utxos s !! o = utxos st0 !! o) →
  foldM (connect_tx h) s ftxs = Ok s1 →
  ops_ok (utxos s) (ftxs ≫= tx_ops) ∧ run_ops (utxos s) (ftxs ≫= tx_ops) = utxos s1.
Proof.
  intros Hc. revert s; induction Hc as [|z tx ftx fee z1 txs ftxs z2 Hc _ _ IH];
    intros s Hch Hsame Hf.
  { simpl in Hf. by simplify_eq. }
  pose proof (tc_fill _ _ _ _ _ Hc) as Hfill.
  assert (transaction ftx = tx) as Htx.
  { rewrite fill_transaction_lookup in Hfill. by res_inv. }
  apply bind_Ok_inv in Hf as (s2 & Hs2 & Hf).
  apply fill_Forall2 in Hfill. rewrite <-Htx in Hch, Hfill, Hsame.
  pose proof (spent_kept _ _ _ _ _ Hfill Hsame) as Hall.
  destruct (connect_tx_ops _ _ _ _ _ Hch Hall Hs2) as [Hok1 Hrun1].
  destruct (chain_ok_step _ _ _ _ _ Hch Hs2) as [Hch2 _].
  destruct (IH s2 Hch2 (inputs_kept _ _ _ _ _ _ Hch Hs2 Hsame) Hf) as [Hok2 Hrun2].
  csimpl. rewrite ops_ok_app, run_ops_app, Hrun1. done.
Qed.

(** ** The diffs that connecting and disconnecting collect *)
Definition steps (ops : list utxo_op) d : AccumulatorDiff.t :=
  fold_left AccumulatorDiff.step (leaf_op <$> ops) d.

Lemma steps_app ops ops' d : steps (ops ++ ops') d = steps ops' (steps ops d).
Proof. unfold steps. rewrite fmap_app. apply fold_left_app. Qed.

(** The hashes that a validated transaction names are those of its inputs. *)
Definition hashes_ok ftx : Prop :=
  Forall2 (λ i out, i.2 = hash_pointed i.1 out) (inputs (transaction ftx)) (spent_utxos ftx).

Lemma checked_hashes st a tx ftx fee : tx_checked st a tx ftx fee → hashes_ok ftx.
Proof.
  intros Hc. pose proof (tc_fill _ _ _ _ _ Hc) as Hfill.
  rewrite fill_transaction_lookup in Hfill. res_inv.
  apply mapM_res_Forall2, Forall2_length in Ha.
  apply Forall2_same_length_lookup. split; [done|]. simpl. intros k [o h] out H1 H2.
  eapply (proj2 (proj2 (proj2 (validate_filled_fee _ _ (tc_fee _ _ _ _ _ Hc))))).
  unfold filled_inputs. simpl. eapply list_elem_of_lookup_2.
  by rewrite lookup_zip_with, H1; simpl; rewrite H2.
Qed.

Lemma takes_diff (ins : list (OutPoint * Hash)) outs d :
  Forall2 (λ i out, i.2 = hash_pointed i.1 out) ins outs →
  diff_of_txs d (pair false <$> ins.*2) = steps (Take <$> zip ins.*1 outs) d.
Proof.
  intros Hh. revert d; induction Hh as [|[o h] out ins outs Hh _ IH]; intros d; [done|].
  csimpl in *. rewrite Hh. apply IH.
Qed.

Lemma puts_diff l d :
  diff_of_txs d ((λ '(o, out), (true, hash_pointed o out)) <$> l) = steps (Put <$> l) d.
Proof. revert d; induction l as [|[o out] l IH]; intros d; [done|]. apply IH. Qed.

Lemma diff_of_tx ftx d :
  hashes_ok ftx → diff_of_txs d (tx_diffs (transaction ftx)) = steps (tx_ops ftx) d.
Proof.
  intros Hh. unfold tx_ops, tx_diffs. rewrite diff_of_txs_app, steps_app.
  by rewrite (takes_diff _ (spent_utxos ftx)), puts_diff.
Qed.

Lemma diff_of_block st a z txs ftxs z' d :
  checked_txs st a z txs ftxs z' →
  diff_of_txs d (txs ≫= tx_diffs) = steps (ftxs ≫= tx_ops) d.
Proof.
  intros Hc. revert d; induction Hc as [|z tx ftx fee z1 txs ftxs z2 Hc _ _ IH]; intros d;
    [done|]. csimpl.
  assert (transaction ftx = tx) as <-.
  { pose proof (tc_fill _ _ _ _ _ Hc) as H. rewrite fill_transaction_lookup in H. by res_inv. }
  rewrite diff_of_txs_app, steps_app, diff_of_tx by by eapply checked_hashes. apply IH.
Qed.

Lemma coinbase_diff l v d v' d' :
  foldM coinbase_step (v, d) l = Ok (v', d') → d' = steps (Put <$> l) d.
Proof.
  revert v d; induction l as [|[o out] l IH]; intros v d Hf; simpl in Hf.
  { by simplify_eq. }
  apply bind_Ok_inv in Hf as ([b d1] & Hb & Hf). apply IH in Hf as ->.
  by res_inv.
Qed.

(** Disconnecting collects the inverse changes, in reverse order. *)
Lemma remove_outputs_diff l s d s' d' :
  foldM remove_output (s, d) l = Ok (s', d') → d' = steps (Take <$> l) d.
Proof.
  revert s d; induction l as [|[o out] l IH]; intros s d Hf; simpl in Hf.
  { by simplify_eq. }
  apply bind_Ok_inv in Hf as ([s1 d1] & Hb & Hf). apply IH in Hf as ->. by res_inv.
Qed.

Lemma unspend_inputs_diff l outs s d s' d' :
  Forall2 (λ (i : OutPoint * Hash) out, i.2 = hash_pointed i.1 out) l outs →
  foldM unspend_input (s, d) l = Ok (s', d') → d' = steps (Put <$> zip l.*1 outs) d.
Proof.
  intros Hh. revert s d; induction Hh as [|[o h] out l outs Hh _ IH]; intros s d Hf;
    simpl in Hf.
  { by simplify_eq. }
  apply bind_Ok_inv in Hf as ([s1 d1] & Hb & Hf). apply IH in Hf as ->. res_inv. csimpl.
  unfold steps. by simpl in *; subst.
Qed.

Lemma zip_reverse {A B} (l : list A) (k : list B) :
  length l = length k → zip (reverse l) (reverse k) = reverse (zip l k).
Proof.
  revert k; induction l as [|x l IH]; intros [|y k] Hlen; simplify_eq/=; [done|].
  rewrite !reverse_cons, zip_with_app by (by rewrite !length_reverse).
  by rewrite IH.
Qed.

Lemma reverse_inverse_put l :
  reverse (inverse <$> (Put <$> l)) = Take <$> reverse l.
Proof. by rewrite <-list_fmap_compose, <-fmap_reverse. Qed.
Lemma reverse_inverse_take l :
  reverse (inverse <$> (Take <$> l)) = Put <$> reverse l.
Proof. by rewrite <-list_fmap_compose, <-fmap_reverse. Qed.

Lemma disconnect_tx_diff ftx s d s' d' :
  hashes_ok ftx → disconnect_tx (s, d) (transaction ftx) = Ok (s', d') →
  d' = steps (reverse (inverse <$> tx_ops ftx)) d.
Proof.
  intros Hh. unfold disconnect_tx. intros Hd.
  apply bind_Ok_inv in Hd as (s1 & _ & Hd).
  apply bind_Ok_inv in Hd as ([s2 d2] & Hr & Hu).
  apply remove_outputs_diff in Hr as ->.
  eapply unspend_inputs_diff in Hu as ->; [|by apply Forall2_reverse].
  unfold tx_ops. rewrite fmap_app, reverse_app, steps_app.
  rewrite reverse_inverse_put, reverse_inverse_take. f_equal.
  rewrite fmap_reverse, zip_reverse; [done|].
  rewrite length_fmap. by eapply Forall2_length.
Qed.

Lemma disconnect_txs_diff st a z txs ftxs z' s d s' d' :
  checked_txs st a z txs ftxs z' →
  foldM disconnect_tx (s, d) (reverse txs) = Ok (s', d') →
  d' = steps (reverse (inverse <$> (ftxs ≫= tx_ops))) d.
Proof.
  intros Hc. revert s d s' d'.
  induction Hc as [|z tx ftx fee z1 txs ftxs z2 Hc _ _ IH]; intros s d s' d' Hf.
  { simpl in Hf. by simplify_eq. }
  rewrite reverse_cons, foldM_app in Hf.
  apply bind_Ok_inv in Hf as ([s1 d1] & Hf & Hd). apply IH in Hf as ->.
  assert (transaction ftx = tx) as <-.
  { pose proof (tc_fill _ _ _ _ _ Hc) as H. rewrite fill_transaction_lookup in H. by res_inv. }
  simpl in Hd. apply bind_Ok_inv in Hd as ([s2 d2] & Hd & Heq). simplify_eq.
  apply disconnect_tx_diff in Hd as ->; [|by eapply checked_hashes].
  csimpl. by rewrite fmap_app, reverse_app, steps_app.
Qed.

(** ** Against the interface of the forest *)
Context {FL : ForestLaws X}.

(** The leaves of the accumulator are the hashes of the unspent outputs. *)
Definition commits st : Prop := leaves (get_accumulator st) = leaf_set (utxos st).

Lemma apply_commits U (m : gmap OutPoint Output) ops f :
  collision_free U → within U m → (∀ op, op ∈ ops → op_pair op ∈ U) → ops_ok m ops →
  leaves f = leaf_set m →
  ∃ f', apply_diff (steps ops AccumulatorDiff.empty) f = Some f' ∧
    leaves f' = leaf_set (run_ops m ops).
Proof.
  intros Hcf Hm Hops Hok Hf. pose proof (leaf_run U m ops Hcf Hm Hops Hok) as Hrun.
  unfold apply_diff, steps.
  change (fold_left AccumulatorDiff.step (leaf_op <$> ops) AccumulatorDiff.empty)
    with (AccumulatorDiff.run (leaf_op <$> ops)).
  destruct (forest_modify_leaves f
    (AccumulatorDiff.inserted (AccumulatorDiff.run (leaf_op <$> ops)))
    (AccumulatorDiff.deleted (AccumulatorDiff.run (leaf_op <$> ops)))) as (f' & Hf' & Hl).
  - apply AccumulatorDiff.NoDup_inserted.
  - apply AccumulatorDiff.NoDup_deleted.
  - intros h Hh. rewrite Hf. by apply (AccumulatorDiff.run_inserted _ _ _ h Hrun).
  - intros h Hh. rewrite Hf. by apply (AccumulatorDiff.run_deleted _ _ _ h Hrun).
  - exists f'. split; [done|]. rewrite Hl, Hf. apply set_eq. intros h.
    rewrite elem_of_union, elem_of_difference, !elem_of_list_to_set,
      (AccumulatorDiff.run_inserted _ _ _ _ Hrun), (AccumulatorDiff.run_deleted _ _ _ _ Hrun).
    destruct (decide (h ∈ leaf_set (run_ops m ops))), (decide (h ∈ leaf_set m)); tauto.
Qed.

(** The outputs around a block: those unspent before it and those it creates. *)
Definition universe st header body : list (OutPoint * Output) :=
  map_to_list (utxos st) ++ block_created header body.

Lemma within_universe st header body : within (universe st header body) (utxos st).
Proof. intros o out Ho. apply elem_of_app. left. by apply elem_of_map_to_list. Qed.

Lemma takes_unspent st tx ftx p :
  fill_transaction st tx = Ok ftx → p ∈ zip (tx_ins tx) (spent_utxos ftx) →
  utxos st !! p.1 = Some p.2.
Proof.
  intros Hf%fill_Forall2 [k Hk]%list_elem_of_lookup. destruct p as [o out].
  apply lookup_zip_with_Some in Hk as (o' & out' & [= <- <-] & Ho & Hout).
  eapply (Forall2_lookup_lr _ _ _ _ _ _ Hf); done.
Qed.

(** The outputs that a block's changes name are in its universe. *)
Lemma block_ops_universe st header body pre op :
  block_valid st header body pre →
  op ∈ block_ops header body (filled_transactions pre) →
  op_pair op ∈ universe st header body.
Proof.
  intros Hv. pose proof (bv_txs _ _ _ _ Hv) as Htxs.
  unfold block_ops, universe, block_created. intros [Hop|Hop]%elem_of_app.
  { apply list_elem_of_fmap in Hop as (p & -> & Hp). simpl. set_solver. }
  apply list_elem_of_bind in Hop as (ftx & Hop & Hftx).
  assert (fill_transaction st (transaction ftx) = Ok ftx ∧
          transaction ftx ∈ transactions body) as [Hfill Htx].
  { clear Hop. revert Htxs. generalize 0 (total_fees pre).
    generalize (transactions body). revert Hftx.
    induction (filled_transactions pre) as [|ftx' ftxs IH]; [by intros ?%elem_of_nil|].
    intros Hin txs z z' Hc. inversion Hc as [|? tx ? ? ? txs' ? ? Hc1 ? Hc2]; subst.
    apply elem_of_cons in Hin as [->|Hin].
    - pose proof (tc_fill _ _ _ _ _ Hc1) as Hf. pose proof Hf as Hf'.
      rewrite fill_transaction_lookup in Hf'. res_inv. split; [done|by left].
    - destruct (IH Hin _ _ _ Hc2). split; [done|by right]. }
  unfold tx_ops in Hop. apply elem_of_app in Hop as [Hop|Hop];
    apply list_elem_of_fmap in Hop as (p & -> & Hp); simpl; apply elem_of_app.
  - left. pose proof (takes_unspent _ _ _ _ Hfill Hp) as Hu. destruct p.
    by apply elem_of_map_to_list.
  - right. apply elem_of_app. right. apply list_elem_of_bind. by exists (transaction ftx).
Qed.

(** Connecting a block makes exactly its changes. *)
Lemma block_ops_connect st header body pre st' root :
  ledger_wf st → block_fresh st header body → block_valid st header body pre →
  connect_prevalidated st header body pre = Ok (st', root) →
  ops_ok (utxos st) (block_ops header body (filled_transactions pre)) ∧
  run_ops (utxos st) (block_ops header body (filled_transactions pre)) = utxos st' ∧
  ∃ acc, apply_diff (accumulator_diff pre) (get_accumulator st) = Some acc ∧
         get_accumulator st' = acc.
Proof.
  intros Hwf Hfr Hv Hc. pose proof (block_chain_ok _ _ _ _ Hwf Hfr Hv) as Hch.
  pose proof (bv_txs _ _ _ _ Hv) as Htxs.
  unfold connect_prevalidated in Hc. res_inv. rewrite (bv_root_eq _ _ _ _ Hv) in *.
  destruct Hfr as [Hnd Hnew]. unfold block_created in Hnd, Hnew.
  rewrite fmap_app in Hnd, Hnew. apply NoDup_app in Hnd as (Hnd & Hx & _).
  match goal with H : foldM (connect_tx _) _ _ = Ok ?s |- _ =>
    rename s into s1, H into Hf end.
  match goal with H : apply_diff _ _ = Some ?a |- _ => rename a into acc, H into Happ end.
  destruct (put_ops (coinbase_outputs (merkle_root header) (coinbase body)) st)
    as [Hok1 Hrun1].
  { split; [done|]. intros o Ho. apply Hnew. set_solver. }
  assert (utreexo_accumulator s1 = utreexo_accumulator st) as Hacc.
  { apply (foldM_inv (λ s, utreexo_accumulator s = utreexo_accumulator st)) in Hf;
      [done|apply (f_equal utreexo_accumulator (proj1 (put_utxos_frame _ _)))|].
    intros s ftx s' _ Hs Hctx. apply connect_tx_parts in Hctx as (sa & Hsp & _ & Hl).
    injection Hl as _ _ _ _ ->.
    apply spend_inputs_lookup in Hsp as (Hsans & _).
    rewrite <-Hs. trans (utreexo_accumulator sa);
      [apply (f_equal utreexo_accumulator (proj1 (put_utxos_frame _ _)))|].
    by apply (f_equal utreexo_accumulator) in Hsans. }
  eapply connect_txs_ops in Hf as [Hok2 Hrun2]; [|exact Htxs|exact Hch|].
  2:{ intros o Ho. apply put_utxos_lookup_ne. intros Hin.
      destruct (checked_txs_inputs _ _ _ _ _ _ Htxs) as [_ Hsome].
      apply Hsome in Ho as [out Ho]. destruct (Hnew o) as [Hn _]; [set_solver|].
      congruence. }
  unfold block_ops. rewrite ops_ok_app, run_ops_app, Hrun1. split_and!; [done..|].
  exists acc. split; [|done]. unfold get_accumulator in *. simpl in *. by rewrite <-Hacc.
Qed.

(** The diff that validation computes is that of the changes. *)
Lemma block_diff st header body pre :
  block_valid st header body pre →
  accumulator_diff pre
  = steps (block_ops header body (filled_transactions pre)) AccumulatorDiff.empty.
Proof.
  intros Hv. destruct (bv_coinbase _ _ _ _ Hv) as (d & Hcb & ->).
  rewrite (bv_root_eq _ _ _ _ Hv) in Hcb. apply coinbase_diff in Hcb as ->.
  unfold block_ops. rewrite steps_app. eapply diff_of_block, Hv.
Qed.

(** If the accumulator commits to the unspent outputs, it still does after an
    accepted block is connected, as long as the hashes of the outputs around the
    block do not collide. *)
Theorem connect_commits st header body pre st' root :
  ledger_wf st → block_fresh st header body →
  collision_free (universe st header body) → commits st →
  prevalidate st header body = Ok pre →
  connect_prevalidated st header body pre = Ok (st', root) →
  commits st'.
Proof.
  intros Hwf Hfr Hcf Hcom Hpre%prevalidate_spec Hc.
  destruct (block_ops_connect _ _ _ _ _ _ Hwf Hfr Hpre Hc) as (Hok & Hrun & acc & Hacc & Heq).
  rewrite (block_diff _ _ _ _ Hpre) in Hacc.
  destruct (apply_commits (universe st header body) (utxos st)
    (block_ops header body (filled_transactions pre)) (get_accumulator st))
    as (f & Hf & Hl); [done|apply within_universe| |done|done|].
  { intros op. by apply block_ops_universe. }
  unfold commits. rewrite <-Hrun, Heq. congruence.
Qed.

(** C29: An accepted block whose outpoints are new can be disconnected once it is
    connected: if the accumulator commits to the unspent outputs and the hashes of the
    outputs around the block do not collide, disconnecting never fails, and leads back to
    the ledger before the block, with an accumulator that commits to its unspent
    outputs.  (Swaps are assumed to be encodable.) *)
Theorem disconnect_succeeds st header body pre st' root :
  (∀ swap, bincode_swap_ok swap = true) →
  ledger_wf st → block_fresh st header body →
  collision_free (universe st header body) → commits st →
  prevalidate st header body = Ok pre →
  connect_prevalidated st header body pre = Ok (st', root) →
  ∃ st'', disconnect_tip st' header body = Ok st'' ∧ commits st'' ∧
    utxos st'' = utxos st ∧ stxos st'' = stxos st ∧
    tip st'' = tip st ∧ height st'' = height st.
Proof.
  intros Hbin Hwf Hfr Hcf Hcom Hpre Hc. apply prevalidate_spec in Hpre as Hv.
  destruct (block_ops_connect _ _ _ _ _ _ Hwf Hfr Hv Hc) as (Hok & Hrun & acc & Hacc & Heq).
  destruct (disconnect_tip_undo _ _ _ _ _ _ Hbin Hwf Hfr Hpre Hc)
    as (t' & td1 & t2 & d & Htxs & Hcb & Hdisc & Hu & Hs & Ht & Hh).
  set (ops := block_ops header body (filled_transactions pre)) in *.
  assert (d = steps (reverse (inverse <$> ops)) AccumulatorDiff.empty) as ->.
  { destruct td1 as [t1 d1]. apply remove_outputs_diff in Hcb as ->.
    eapply disconnect_txs_diff in Htxs as ->; [|apply Hv]. unfold ops, block_ops.
    by rewrite fmap_app, reverse_app, steps_app, reverse_inverse_put. }
  destruct (apply_commits (universe st header body) (utxos st) ops (get_accumulator st))
    as (f & Hf & Hl); [done|apply within_universe| |done|done|].
  { intros op. by apply block_ops_universe. }
  destruct (ops_undo _ _ Hok) as [Hok' Hrun'].
  destruct (apply_commits (universe st header body) (run_ops (utxos st) ops)
    (reverse (inverse <$> ops)) (get_accumulator st')) as (f' & Hf' & Hl').
  { done. }
  { apply within_run; [apply within_universe|]. intros op. by apply block_ops_universe. }
  { intros op Hop. apply elem_of_reverse, list_elem_of_fmap in Hop as (op' & -> & Hop).
    apply (block_ops_universe _ _ _ _ _ Hv) in Hop. by destruct op'. }
  { done. }
  { rewrite Heq, <-Hl. rewrite (block_diff _ _ _ _ Hv) in Hacc. fold ops in Hacc. congruence. }
  rewrite Hdisc, Hf'. eexists. split; [done|]. split_and!; try done.
  unfold commits, get_accumulator. simpl. by rewrite Hl', Hrun', Hu.
Qed.
End Commitment.
