(* ===== verification/Peg.v ===== *)
(** The events of the two-way peg (lib/state/two_way_peg_data.rs): deposits,
    the withdrawal bundle that the state proposes, and the submission,
    confirmation and failure of bundles.

    What is only logged (the sums of the values of a bundle) is left out. *)
From S2P Require Import Prelude Bytes SwapTypes TxTypes Externals.
From S2P Require Import Accumulator BlockTypes Rollback Bundle StateDb SwapRules.
From S2P Require Import BlockConnect.


Section Peg.
Context {T : ExtTypes} {X : ExtFuns}.
Implicit Types (st : State) (d : AccumulatorDiff.t).

(** [BlockEvent] *)
Inductive BlockEvent :=
| DepositEvent (outpoint : OutPoint) (output : Output)
| BundleEvent (m6id : M6id) (status : WithdrawalBundleStatus).

(** [TwoWayPegData::block_info], in order. *)
Definition TwoWayPegData : Type := list (BtcBlockHash * list BlockEvent).

(** ** [collect_withdrawal_bundle] *)

(** Adding one withdrawal output to the aggregate of its address. *)
Fixpoint aggregate (o : OutPoint) (out : Output) (addr : BtcAddress) (v f : Z)
    (l : list AggregatedWithdrawal) : option (list AggregatedWithdrawal) :=
  match l with
  | [] =>
      value ← u64_checked_add 0 v;
      fee ← u64_checked_add 0 f;
      Some [mkAggregated {[ o := out ]} addr value fee]
  | a :: l =>
      if decide (agg_main_address a = addr) then
        value ← u64_checked_add (agg_value a) v;
        fee ← u64_checked_add (agg_main_fee a) f;
        Some (mkAggregated (<[o := out]> (agg_spend_utxos a)) addr value fee :: l)
      else l ← aggregate o out addr v f l; Some (a :: l)
  end.

Definition aggregate_step (l : list AggregatedWithdrawal) (p : OutPoint * Output) :
    res Error (list AggregatedWithdrawal) :=
  match content p.2 with
  | Withdrawal value main_fee main_address =>
      ok_or (aggregate p.1 p.2 main_address value main_fee l) AmountOverflow
  | _ => Ok l
  end.

Record BundleAcc := mkBundleAcc {
  acc_fee : Z;
  acc_spend_utxos : gmap OutPoint Output;
  acc_outputs : list TxOut;
  acc_txouts_size : Z;
}.

(** The loop that fills the bundle; [fee +=] panics on overflow. *)
Fixpoint fill_bundle (l : list AggregatedWithdrawal) (acc : BundleAcc) :
    res Error BundleAcc :=
  match l with
  | [] => Ok acc
  | a :: l =>
      let spk := script_pubkey (agg_main_address a) in
      match u32_try_from (Z.of_nat (length (acc_outputs acc)) + 1) with
      | None => Ok acc
      | Some n_outputs =>
          match (spk_size ← u32_try_from (Z.of_nat (length spk)); txout_size spk_size) with
          | None => fill_bundle l acc
          | Some txout_size =>
              match u32_checked_add (acc_txouts_size acc) txout_size with
              | None => Ok acc
              | Some size =>
                  match predict_weight n_outputs size with
                  | None => Ok acc
                  | Some _ =>
                      fee ← expect (u64_checked_add (acc_fee acc) (agg_main_fee a));
                      fill_bundle l
                        {| acc_fee := fee;
                           acc_spend_utxos := agg_spend_utxos a ∪ acc_spend_utxos acc;
                           acc_outputs := acc_outputs acc ++ [mkTxOut (agg_value a) spk];
                           acc_txouts_size := size |}
                  end
              end
          end
      end
  end.

Definition collect_withdrawal_bundle st (block_height : Z) :
    res Error (option WithdrawalBundle) :=
  aggregated ← foldM aggregate_step [] (entries_by outpoint_key (utxos st));
  match aggregated with
  | [] => Ok None
  | _ =>
      acc ← fill_bundle (sort_aggregated aggregated) (mkBundleAcc 0 ∅ [] 0);
      bundle ← ok_or (bundle_new block_height (acc_fee acc) (acc_spend_utxos acc)
                        (acc_outputs acc)) WithdrawalBundleTooHeavy;
      Ok (Some bundle)
  end.

(** ** Bundle events *)

(** Spending an output with a bundle, and unspending it. *)
Definition bundle_spend (m6id : M6id) (acc : State * AccumulatorDiff.t)
    (p : OutPoint * Output) : State * AccumulatorDiff.t :=
  let '(st, d) := acc in
  ({| st with utxos := delete p.1 (utxos st);
              stxos := <[p.1 := mkSpentOutput p.2 (InWithdrawal m6id)]> (stxos st) |},
   AccumulatorDiff.remove (hash_pointed p.1 p.2) d).
Definition bundle_unspend (acc : State * AccumulatorDiff.t) (p : OutPoint * Output) :
    State * AccumulatorDiff.t :=
  let '(st, d) := acc in
  ({| st with stxos := delete p.1 (stxos st);
              utxos := <[p.1 := p.2]> (utxos st) |},
   AccumulatorDiff.insert (hash_pointed p.1 p.2) d).

Definition put_bundle (m6id : M6id) (info : WithdrawalBundleInfo)
    (status : RollBack WithdrawalBundleStatus) st : State :=
  {| st with withdrawal_bundles := <[m6id := (info, status)]> (withdrawal_bundles st) |}.

(** What an event changes: state, accumulator diff, index events. *)
Record EventAcc := mkEventAcc {
  ev_state : State;
  ev_diff : AccumulatorDiff.t;
  ev_index : BlockIndexEvents;
}.

Definition connect_withdrawal_bundle_submitted (block_height : Z) (m6id : M6id)
    (acc : EventAcc) : res Error EventAcc :=
  let st := ev_state acc in
  let unknown :=
    match withdrawal_bundles st !! m6id with
    | Some (_, bundle_status) =>
        _ ← assert_ (bool_decide (value (earliest bundle_status) = BundleSubmitted));
        Ok acc
    | None =>
        Ok {| acc with ev_state :=
                put_bundle m6id Unknown (rb_new BundleSubmitted block_height) st |}
    end in
  match pending_withdrawal_bundle st with
  | Some (bundle, bundle_block_height) =>
      if bool_decide (compute_m6id bundle = m6id) then
        _ ← assert_ (bundle_block_height =? u32_sub block_height 1);
        let '(st, d) := fold_left (bundle_spend m6id) (spend_list bundle)
                          (st, ev_diff acc) in
        let st := put_bundle m6id (Known bundle) (rb_new BundleSubmitted block_height) st in
        Ok {| ev_state := {| st with pending_withdrawal_bundle := None |};
              ev_diff := d;
              ev_index :=
                {| deposits := deposits (ev_index acc);
                   bundle_spends :=
                     bundle_spends (ev_index acc)
                     ++ ((λ p : OutPoint * Output, (p.1, m6id)) <$> spend_list bundle) |} |}
      else unknown
  | None => unknown
  end.

(** The unspent outputs in the order of a [BTreeMap]. *)
Definition utxo_list st : list (OutPoint * Output) :=
  entries_by outpoint_ord_key (utxos st).

(** Marking an output spent by an unknown bundle; [utxos] is cleared after the
    loop. *)
Definition mark_spent (m6id : M6id) (acc : State * AccumulatorDiff.t)
    (p : OutPoint * Output) : State * AccumulatorDiff.t :=
  let '(st, d) := acc in
  ({| st with stxos := <[p.1 := mkSpentOutput p.2 (InWithdrawal m6id)]> (stxos st) |},
   AccumulatorDiff.remove (hash_pointed p.1 p.2) d).

Definition connect_withdrawal_bundle_confirmed (block_height : Z) (m6id : M6id)
    (acc : EventAcc) : res Error EventAcc :=
  let st := ev_state acc in
  '(bundle, bundle_status) ←
    ok_or (withdrawal_bundles st !! m6id) (UnknownWithdrawalBundle m6id);
  if bool_decide (value (latest bundle_status) = BundleConfirmed) then Ok acc
  else
    _ ← assert_ (bool_decide (value (latest bundle_status) = BundleSubmitted));
    '(st, d, bundle) ←
      (if is_known bundle then Ok (st, ev_diff acc, bundle)
       else if block_height =? 0 then
         let us := utxos st in
         let '(st, d) := fold_left (mark_spent m6id) (utxo_list st) (st, ev_diff acc) in
         Ok ({| st with utxos := ∅ |}, d, UnknownConfirmed us)
       else Err (UnknownWithdrawalBundleConfirmed m6id));
    bundle_status ← expect (push BundleConfirmed block_height bundle_status);
    Ok {| ev_state := put_bundle m6id bundle bundle_status st;
          ev_diff := d; ev_index := ev_index acc |}.

(** The record of failed bundles after one more failure. *)
Definition push_failed (m6id : M6id) (block_height : Z) st : res Error State :=
  rb ← match latest_failed_withdrawal_bundle st with
       | Some rb => expect (push m6id block_height rb)
       | None => Ok (rb_new m6id block_height)
       end;
  Ok {| st with latest_failed_withdrawal_bundle := Some rb |}.

Definition connect_withdrawal_bundle_failed (block_height : Z) (m6id : M6id)
    (acc : EventAcc) : res Error EventAcc :=
  let st := ev_state acc in
  '(bundle, bundle_status) ←
    ok_or (withdrawal_bundles st !! m6id) (UnknownWithdrawalBundle m6id);
  if bool_decide (value (latest bundle_status) = BundleFailed) then Ok acc
  else
    _ ← assert_ (bool_decide (value (latest bundle_status) = BundleSubmitted));
    bundle_status ← expect (push BundleFailed block_height bundle_status);
    '(st, d) ←
      match bundle with
      | Known b =>
          let '(st, d) := fold_left bundle_unspend (spend_list b) (st, ev_diff acc) in
          st ← push_failed m6id block_height st;
          Ok (st, d)
      | _ => Ok (st, ev_diff acc)
      end;
    Ok {| ev_state := put_bundle m6id bundle bundle_status st;
          ev_diff := d; ev_index := ev_index acc |}.

Definition connect_withdrawal_bundle_event (block_height : Z) (m6id : M6id)
    (status : WithdrawalBundleStatus) (acc : EventAcc) : res Error EventAcc :=
  match status with
  | BundleSubmitted => connect_withdrawal_bundle_submitted block_height m6id acc
  | BundleConfirmed => connect_withdrawal_bundle_confirmed block_height m6id acc
  | BundleFailed => connect_withdrawal_bundle_failed block_height m6id acc
  end.

(** The loop over the events also keeps the last block with a deposit and the
    last one with a bundle event. *)
Record PegAcc := mkPegAcc {
  peg_event : EventAcc;
  latest_deposit_block_hash : option BtcBlockHash;
  latest_withdrawal_bundle_event_block_hash : option BtcBlockHash;
}.

Definition connect_deposit (outpoint : OutPoint) (out : Output) (acc : EventAcc) :
    EventAcc :=
  {| ev_state := put_utxo (outpoint, out) (ev_state acc);
     ev_diff := AccumulatorDiff.insert (hash_pointed outpoint out) (ev_diff acc);
     ev_index :=
       {| deposits := deposits (ev_index acc) ++ [(outpoint, out)];
          bundle_spends := bundle_spends (ev_index acc) |} |}.

Definition connect_event (block_height : Z) (acc : PegAcc)
    (e : BtcBlockHash * BlockEvent) : res Error PegAcc :=
  let '(event_block_hash, event) := e in
  match event with
  | DepositEvent outpoint out =>
      Ok {| peg_event := connect_deposit outpoint out (peg_event acc);
            latest_deposit_block_hash := Some event_block_hash;
            latest_withdrawal_bundle_event_block_hash :=
              latest_withdrawal_bundle_event_block_hash acc |}
  | BundleEvent m6id status =>
      ev ← connect_withdrawal_bundle_event block_height m6id status (peg_event acc);
      Ok {| peg_event := ev;
            latest_deposit_block_hash := latest_deposit_block_hash acc;
            latest_withdrawal_bundle_event_block_hash := Some event_block_hash |}
  end.

(** The events of all blocks, in order, with the hash of their block. *)
Definition all_events (data : TwoWayPegData) : list (BtcBlockHash * BlockEvent) :=
  data ≫= λ p, pair p.1 <$> p.2.
End Peg.
