(* ===== verification/Monitor.v ===== *)
(** L1 monitoring of swaps, and connecting and disconnecting two-way peg data
    (lib/state/two_way_peg_data.rs).  The answers of the parent chain's RPC are
    an argument. *)
From S2P Require Import Prelude Bytes SwapTypes TxTypes Externals Hex.
From S2P Require Import Accumulator BlockTypes Rollback Bundle StateDb SwapRules.
From S2P Require Import BlockConnect Peg F64 ParentRpc.

(** The answer to [find_transactions_by_address_and_amount] for a swap: [None]
    when no RPC is configured for its chain, [Some None] for an error. *)
Definition L1Answer : Type := option (option (list (string * TransactionInfo))).

(** The search behind an answer, at the node that is configured for the swap's chain;
    [get_rpc_config] is the argument that the net task passes. *)
Definition l1_query `{R : ExtRpc} (rpc_node : RpcConfig → RpcNode)
    (get_rpc_config : ParentChainType → option RpcConfig) (swap : Swap) : L1Answer :=
  rpc_config ← get_rpc_config (parent_chain swap);
  Some match find_transactions_by_address_and_amount (rpc_node rpc_config)
               (l1_recipient_address swap) (l1_amount swap) with
       | Ok matches => Some matches
       | _ => None
       end.

Section Monitor.
Context {T : ExtTypes} {X : ExtFuns}.
Implicit Types (st : State) (d : AccumulatorDiff.t).

(** A match that is confirmed, in a block, and not too old. *)
Definition acceptable_match (chain : ParentChainType) (m : string * TransactionInfo) : bool :=
  negb (ti_confirmations m.2 =? 0)
  && negb (bool_decide (ti_blockheight m.2 = None))
  && negb (max_l1_tx_age_blocks chain <? ti_confirmations m.2).

(** [query_and_update_swap] on the RPC's answer: the updated swap, if any.
    An error of the query or of the parsing is only logged by the caller, and
    leaves the swap as it is too. *)
Definition query_and_update_swap st (matches : option (list (string * TransactionInfo)))
    (swap : Swap) (block_hash : BlockHash) (block_height : Z) : option Swap :=
  matches ← matches;
  '(_, tx_info) ← head (filter (λ m, acceptable_match (parent_chain swap) m = true) matches);
  t ← from_hex_rpc (ti_txid tx_info);
  let confirmations := ti_confirmations tx_info in
  if SwapTypes.l1_txid_unset (l1_txid swap) then
    let used :=
      match get_swap_by_l1_txid st (parent_chain swap) t with
      | Some existing => negb (bool_decide (swap_id existing = swap_id swap))
      | None => false
      end in
    if used then None
    else
      let swap := SwapTypes.update_l1_txid t swap in
      let swap := set_l1_txid_validation_block block_hash block_height swap in
      Some (with_state (confirmed_state confirmations (required_confirmations swap)) swap)
  else
    let current_confirmations :=
      match state swap with
      | WaitingConfirmations current _ => current
      | _ => 0
      end in
    if current_confirmations <? confirmations then
      Some (with_state (confirmed_state confirmations (required_confirmations swap)) swap)
    else None.

Definition is_open_state (s : SwapState) : bool :=
  match s with
  | Pending | WaitingConfirmations _ _ => true
  | _ => false
  end.

Definition expired_at (swap : Swap) (block_height : Z) : bool :=
  match expires_at_height swap with
  | Some expires_at => expires_at <=? block_height
  | None => false
  end.

(** Expiring a swap: its outputs are unlocked, it is cancelled, and what undoes
    this is recorded. *)
Definition expire_swap (swap : Swap) (acc : State * list ExpiredSwapReversal) :
    res Error (State * list ExpiredSwapReversal) :=
  let '(st, reversals) := acc in
  let unlocked_outpoints := outputs_locked_to st (swap_id swap) in
  let previous_state := state swap in
  st ← save_swap (with_state Cancelled swap) (unlock_all unlocked_outpoints st);
  Ok (st, reversals ++ [(swap_id swap, previous_state, unlocked_outpoints)]).

(** The body of the loop of [process_coinshift_transactions]. *)
Definition process_swap (l1 : Swap → L1Answer) (block_height : Z)
    (block_hash : BlockHash) (acc : State * list ExpiredSwapReversal) (swap : Swap) :
    res Error (State * list ExpiredSwapReversal) :=
  if negb (is_open_state (state swap)) then Ok acc
  else if expired_at swap block_height then expire_swap swap acc
  else
    let '(st, reversals) := acc in
    match l1 swap with
    | Some matches =>
        match query_and_update_swap st matches swap block_hash block_height with
        | Some swap => st ← save_swap swap st; Ok (st, reversals)
        | None => Ok acc
        end
    | None => Ok acc
    end.

Definition process_coinshift_transactions (l1 : Swap → L1Answer) (block_height : Z)
    (block_hash : BlockHash) st : res Error State :=
  '(st, reversals) ←
    foldM (process_swap l1 block_height block_hash) (st, []) (load_all_swaps st);
  if bool_decide (reversals = []) then Ok st
  else Ok {| st with expired_swaps := <[block_height := reversals]> (expired_swaps st) |}.

(** ** [connect] *)

(** The key of the next entry of a database of event blocks. *)
Definition next_seq_idx {A} (m : gmap Z A) : Z :=
  match db_last m with
  | Some (seq_idx, _) => u32_add seq_idx 1
  | None => 0
  end.
Definition push_event_block (m : gmap Z (BtcBlockHash * Z))
    (h : option BtcBlockHash) (block_height : Z) : gmap Z (BtcBlockHash * Z) :=
  match h with
  | Some h => <[next_seq_idx m := (h, block_height)]> m
  | None => m
  end.

(** The height of the latest failure, 0 when there is none. *)
Definition last_failure_height st : res Error Z :=
  failed ← get_latest_failed_withdrawal_bundle st;
  Ok match failed with Some (h, _) => h | None => 0 end.

(** Proposing a bundle, when none is pending and the last failure is old. *)
Definition propose_bundle (block_height : Z) st : res Error State :=
  failure_height ← last_failure_height st;
  if (WITHDRAWAL_BUNDLE_FAILURE_GAP <=? u32_sub block_height failure_height)
     && match pending_withdrawal_bundle st with None => true | Some _ => false end
  then
    bundle ← collect_withdrawal_bundle st block_height;
    match bundle with
    | Some bundle =>
        Ok {| st with pending_withdrawal_bundle := Some (bundle, block_height) |}
    | None => Ok st
    end
  else Ok st.

Definition record_index_events (block_height : Z) (e : BlockIndexEvents) st : State :=
  if index_events_is_empty e then st
  else {| st with block_index_events := <[block_height := e]> (block_index_events st) |}.

Definition connect_two_way_peg_data (data : TwoWayPegData) (l1 : Swap → L1Answer) st :
    res Error State :=
  block_height ← ok_or (height st) NoTip;
  let accumulator := get_accumulator st in
  acc ← foldM (connect_event block_height)
          (mkPegAcc (mkEventAcc st AccumulatorDiff.empty no_index_events) None None)
          (all_events data);
  let ev := peg_event acc in
  let st := record_index_events block_height (ev_index ev) (ev_state ev) in
  block_hash ← ok_or (tip st) NoTip;
  st ← process_coinshift_transactions l1 block_height block_hash st;
  let st := {| st with
    deposit_blocks :=
      push_event_block (deposit_blocks st) (latest_deposit_block_hash acc) block_height;
    withdrawal_bundle_event_blocks :=
      push_event_block (withdrawal_bundle_event_blocks st)
        (latest_withdrawal_bundle_event_block_hash acc) block_height |} in
  st ← propose_bundle block_height st;
  accumulator ← ok_or (apply_diff (ev_diff ev) accumulator) Utreexo;
  Ok {| st with utreexo_accumulator := Some accumulator |}.

(** ** [disconnect] *)
Definition unspend_bundle_input (acc : State * AccumulatorDiff.t)
    (p : OutPoint * Output) : res Error (State * AccumulatorDiff.t) :=
  _ ← ok_or (stxos acc.1 !! p.1) (NoStxo p.1);
  Ok (bundle_unspend acc p).
Definition respend_bundle_input (m6id : M6id) (acc : State * AccumulatorDiff.t)
    (p : OutPoint * Output) : res Error (State * AccumulatorDiff.t) :=
  _ ← ok_or (utxos acc.1 !! p.1) (NoUtxo p.1);
  Ok (bundle_spend m6id acc p).

Definition delete_bundle (m6id : M6id) st : State :=
  {| st with withdrawal_bundles := delete m6id (withdrawal_bundles st) |}.

Definition disconnect_withdrawal_bundle_submitted (block_height : Z) (m6id : M6id)
    (acc : State * AccumulatorDiff.t) : res Error (State * AccumulatorDiff.t) :=
  let '(st, d) := acc in
  match withdrawal_bundles st !! m6id with
  | None =>
      match pending_withdrawal_bundle st with
      | Some (bundle, _) =>
          if bool_decide (compute_m6id bundle = m6id) then Ok acc
          else Err (UnknownWithdrawalBundle m6id)
      | None => Err (UnknownWithdrawalBundle m6id)
      end
  | Some (bundle, bundle_status) =>
      let s := latest bundle_status in
      if block_height <? stamp_height s then
        Err (UnexpectedWithdrawalBundleStatus m6id (value s) (stamp_height s) block_height)
      else if negb (bool_decide (value s = BundleSubmitted))
              || negb (stamp_height s =? block_height) then Ok acc
      else
        '(st, d) ←
          match bundle with
          | Known b =>
              '(st, d) ← foldM unspend_bundle_input acc (reverse (spend_list b));
              Ok ({| st with pending_withdrawal_bundle :=
                       Some (b, u32_sub (stamp_height s) 1) |}, d)
          | _ => Ok acc
          end;
        Ok (delete_bundle m6id st, d)
  end.

(** The status of a bundle without its latest value, [s] at this height. *)
Definition pop_status (s : WithdrawalBundleStatus) (block_height : Z)
    (bundle_status : RollBack WithdrawalBundleStatus) :
    res Error (RollBack WithdrawalBundleStatus) :=
  let '(prev, last) := pop bundle_status in
  _ ← assert_ (bool_decide (value last = s));
  _ ← assert_ (stamp_height last =? block_height);
  prev ← expect prev;
  _ ← assert_ (bool_decide (value (latest prev) = BundleSubmitted));
  Ok prev.

Definition disconnect_withdrawal_bundle_confirmed (block_height : Z) (m6id : M6id)
    (acc : State * AccumulatorDiff.t) : res Error (State * AccumulatorDiff.t) :=
  let '(st, d) := acc in
  '(bundle, bundle_status) ←
    ok_or (withdrawal_bundles st !! m6id) (UnknownWithdrawalBundle m6id);
  if bool_decide (value (pop bundle_status).2 = BundleSubmitted) then Ok acc
  else
    prev ← pop_status BundleConfirmed block_height bundle_status;
    '(st, d, bundle) ←
      match bundle with
      | UnknownConfirmed us =>
          '(st, d) ← foldM unspend_bundle_input acc (entries_by outpoint_ord_key us);
          Ok (st, d, Unknown)
      | _ => Ok (st, d, bundle)
      end;
    Ok (put_bundle m6id bundle prev st, d).

Definition pop_failed (m6id : M6id) (block_height : Z) st : res Error State :=
  rb ← expect (latest_failed_withdrawal_bundle st);
  let '(prev, last) := pop rb in
  _ ← assert_ (bool_decide (value last = m6id));
  _ ← assert_ (stamp_height last =? block_height);
  Ok {| st with latest_failed_withdrawal_bundle := prev |}.

Definition disconnect_withdrawal_bundle_failed (block_height : Z) (m6id : M6id)
    (acc : State * AccumulatorDiff.t) : res Error (State * AccumulatorDiff.t) :=
  let '(st, d) := acc in
  '(bundle, bundle_status) ←
    ok_or (withdrawal_bundles st !! m6id) (UnknownWithdrawalBundle m6id);
  if bool_decide (value (pop bundle_status).2 = BundleSubmitted) then Ok acc
  else
    prev ← pop_status BundleFailed block_height bundle_status;
    '(st, d) ←
      match bundle with
      | Known b =>
          '(st, d) ← foldM (respend_bundle_input m6id) acc (reverse (spend_list b));
          st ← pop_failed m6id block_height st;
          Ok (st, d)
      | _ => Ok acc
      end;
    Ok (put_bundle m6id bundle prev st, d).

Definition disconnect_withdrawal_bundle_event (block_height : Z) (m6id : M6id)
    (status : WithdrawalBundleStatus) (acc : State * AccumulatorDiff.t) :
    res Error (State * AccumulatorDiff.t) :=
  match status with
  | BundleSubmitted => disconnect_withdrawal_bundle_submitted block_height m6id acc
  | BundleConfirmed => disconnect_withdrawal_bundle_confirmed block_height m6id acc
  | BundleFailed => disconnect_withdrawal_bundle_failed block_height m6id acc
  end.

Record UnpegAcc := mkUnpegAcc {
  un_state : State * AccumulatorDiff.t;
  un_deposit : option BtcBlockHash;
  un_bundle : option BtcBlockHash;
}.

Definition disconnect_event (block_height : Z) (acc : UnpegAcc)
    (e : BtcBlockHash * BlockEvent) : res Error UnpegAcc :=
  let '(event_block_hash, event) := e in
  match event with
  | DepositEvent outpoint out =>
      sd ← remove_output (un_state acc) (outpoint, out);
      Ok {| un_state := sd;
            un_deposit := Some (default event_block_hash (un_deposit acc));
            un_bundle := un_bundle acc |}
  | BundleEvent m6id status =>
      sd ← disconnect_withdrawal_bundle_event block_height m6id status (un_state acc);
      Ok {| un_state := sd;
            un_deposit := un_deposit acc;
            un_bundle := Some (default event_block_hash (un_bundle acc)) |}
  end.

(** Undoing one expiry: the state before, and the locks. *)
Definition restore_expired st (r : ExpiredSwapReversal) : res Error State :=
  let '(id, previous_state, unlocked_outpoints) := r in
  st ← match get_swap st id with
       | Some swap => save_swap (with_state previous_state swap) st
       | None => Ok st
       end;
  Ok (lock_all id unlocked_outpoints st).

Definition restore_expiries (block_height : Z) st : res Error State :=
  match expired_swaps st !! block_height with
  | Some reversals =>
      st ← foldM restore_expired st reversals;
      Ok {| st with expired_swaps := delete block_height (expired_swaps st) |}
  | None => Ok st
  end.

(** Removing the last entry of a database of event blocks. *)
Definition pop_event_block (err : Error) (m : gmap Z (BtcBlockHash * Z))
    (h : option BtcBlockHash) (block_height : Z) :
    res Error (gmap Z (BtcBlockHash * Z)) :=
  match h with
  | Some h =>
      '(seq_idx, (last_hash, last_height)) ← ok_or (db_last m) err;
      _ ← assert_ (bool_decide (h = last_hash));
      _ ← assert_ (block_height =? last_height);
      Ok (delete seq_idx m)
  | None => Ok m
  end.

Definition drop_proposed_bundle (block_height : Z) st : res Error State :=
  failure_height ← last_failure_height st;
  Ok (if (WITHDRAWAL_BUNDLE_FAILURE_GAP <=? u32_sub block_height failure_height)
         && match pending_withdrawal_bundle st with
            | Some (_, bundle_height) => bundle_height =? block_height
            | None => false
            end
      then {| st with pending_withdrawal_bundle := None |}
      else st).

Definition disconnect_two_way_peg_data (data : TwoWayPegData) st : res Error State :=
  block_height ← expect (height st);
  let accumulator := get_accumulator st in
  let st := {| st with block_index_events := delete block_height (block_index_events st) |} in
  st ← restore_expiries block_height st;
  acc ← foldM (disconnect_event block_height)
          (mkUnpegAcc (st, AccumulatorDiff.empty) None None) (reverse (all_events data));
  let '(st, d) := un_state acc in
  event_blocks ← pop_event_block NoWithdrawalBundleEventBlock
                   (withdrawal_bundle_event_blocks st) (un_bundle acc) block_height;
  let st := {| st with withdrawal_bundle_event_blocks := event_blocks |} in
  st ← drop_proposed_bundle block_height st;
  deposit_blocks ← pop_event_block NoDepositBlock (deposit_blocks st) (un_deposit acc)
                     block_height;
  let st := {| st with deposit_blocks := deposit_blocks |} in
  accumulator ← ok_or (apply_diff d accumulator) Utreexo;
  Ok {| st with utreexo_accumulator := Some accumulator |}.
End Monitor.
