(* ===== verification/Archive.v ===== *)
(** The archive of headers and bodies, of the sidechain and of the mainchain
    (lib/archive/mod.rs).

    Each database of the archive is a map.  A write happens inside a transaction
    that the caller drops when an operation fails, so a failed operation leaves no
    trace: operations return the new archive or an error. *)
From S2P Require Import Prelude Bytes SwapTypes TxTypes Externals Accumulator.
From S2P Require Import BlockTypes Bundle StateDb Peg Ancestry SideTips.

(** The iteration order of [HashMap] and [HashSet], which the standard library
    leaves open. *)
Class HashIter := {
  map_iter : ∀ {V : Type}, gmap Hash V → list (Hash * V);
  set_iter : gset Hash → list Hash;
}.
Class HashIterLaws (I : HashIter) := {
  map_iter_perm {V} (m : gmap Hash V) : map_iter m ≡ₚ map_to_list m;
  set_iter_perm (s : gset Hash) : set_iter s ≡ₚ elements s;
}.

Inductive BmmResult := Verified | Failed.
#[export] Instance BmmResult_eq_dec : EqDecision BmmResult.
Proof. solve_decision. Defined.

Record Tip := mkTip { block_hash : BlockHash; main_block_hash : BtcBlockHash }.
#[export] Instance Tip_eq_dec : EqDecision Tip.
Proof. solve_decision. Defined.

Inductive ArchiveError :=
| DbMissingKey
| InvalidPrevSideHash
| NoAccumulator (h : BlockHash)
| NoAncestor (h : BlockHash) (depth : Z)
| NoMainAncestor (h : BtcBlockHash) (depth : Z)
| NoBlockHash (h : BlockHash)
| NoBmmResult (h : BlockHash)
| NoBody (h : BlockHash)
| NoHeader (h : BlockHash)
| NoHeight (h : BlockHash)
| NoMainBlockHash (h : BtcBlockHash)
| NoMainBlockInfo (h : BtcBlockHash)
| NoMainHeaderInfo (h : BtcBlockHash)
| NoMainHeight (h : BtcBlockHash)
| SideTipsErr (e : SideTipsError).

(** [?] on a result of the side tips *)
Definition from_side_tips {A} (m : res SideTipsError A) : res ArchiveError A :=
  match m with
  | Ok a => Ok a
  | Err e => Err (SideTipsErr e)
  | Panic => Panic
  end.

Section Archive.
Context {T : ExtTypes} {X : ExtFuns} {W : ExtWork} {I : HashIter}.

(** [mainchain::BlockInfo] *)
Record BlockInfo := mkBlockInfo {
  bmm_commitment : option BlockHash;
  events : list BlockEvent;
}.

Record Archive := mkArchive {
  accumulators : gmap BlockHash MemForest;
  block_hash_to_height : gmap BlockHash Z;
  bmm_results : gmap BlockHash (gmap BtcBlockHash BmmResult);
  bodies : gmap BlockHash Body;
  exponential_ancestors : gmap BlockHash (list BlockHash);
  exponential_main_ancestors : gmap BtcBlockHash (list BtcBlockHash);
  headers : gmap BlockHash Header;
  invalid_blocks : gset BlockHash;
  main_block_hash_to_height : gmap BtcBlockHash Z;
  main_block_infos : gmap BtcBlockHash BlockInfo;
  main_header_infos : gmap BtcBlockHash BlockHeaderInfo;
  main_successors : gmap BtcBlockHash (gset BtcBlockHash);
  side_tips : SideTips;
  successors : gmap (option BlockHash) (gset BlockHash);
  total_work : gmap BtcBlockHash Z;
}.
Implicit Types (ar : Archive) (header : Header) (body : Body).

(** [Archive::new] on an empty environment. *)
Definition archive_new : Archive := {|
  accumulators := ∅; block_hash_to_height := ∅; bmm_results := ∅; bodies := ∅;
  exponential_ancestors := ∅; exponential_main_ancestors := ∅; headers := ∅;
  invalid_blocks := ∅; main_block_hash_to_height := ∅; main_block_infos := ∅;
  main_header_infos := ∅; main_successors := {[ zero_hash := ∅ ]};
  side_tips := side_tips_create; successors := {[ None := ∅ ]}; total_work := ∅ |}.

(** ** Reads *)
Definition archive_accumulator ar (h : BlockHash) : res ArchiveError MemForest :=
  ok_or (accumulators ar !! h) (NoAccumulator h).
Definition archive_height ar (h : BlockHash) : res ArchiveError Z :=
  ok_or (block_hash_to_height ar !! h) (NoHeight h).
Definition get_bmm_results ar (h : BlockHash) : gmap BtcBlockHash BmmResult :=
  default ∅ (bmm_results ar !! h).
Definition contains_body ar (h : BlockHash) : bool :=
  match bodies ar !! h with Some _ => true | None => false end.
Definition try_get_bmm_result ar (h : BlockHash) (main_hash : BtcBlockHash) :
    option BmmResult := get_bmm_results ar h !! main_hash.
Definition get_bmm_result ar (h : BlockHash) (main_hash : BtcBlockHash) :
    res ArchiveError BmmResult :=
  ok_or (try_get_bmm_result ar h main_hash) (NoBmmResult h).
Definition get_body ar (h : BlockHash) : res ArchiveError Body :=
  ok_or (bodies ar !! h) (NoBody h).
Definition invalidated_block ar (h : BlockHash) : bool :=
  bool_decide (h ∈ invalid_blocks ar).
Definition get_header ar (h : BlockHash) : res ArchiveError Header :=
  ok_or (headers ar !! h) (NoHeader h).
Definition get_main_block_info ar (h : BtcBlockHash) : res ArchiveError BlockInfo :=
  ok_or (main_block_infos ar !! h) (NoMainBlockInfo h).
Definition get_main_height ar (h : BtcBlockHash) : res ArchiveError Z :=
  ok_or (main_block_hash_to_height ar !! h) (NoMainHeight h).
Definition get_main_header_info ar (h : BtcBlockHash) : res ArchiveError BlockHeaderInfo :=
  ok_or (main_header_infos ar !! h) (NoMainHeaderInfo h).
Definition get_main_successors ar (h : BtcBlockHash) :
    res ArchiveError (gset BtcBlockHash) :=
  ok_or (main_successors ar !! h) (NoMainBlockHash h).
Definition get_successors ar (h : option BlockHash) : res ArchiveError (gset BlockHash) :=
  match successors ar !! h with
  | Some s => Ok s
  | None => h ← expect h; Err (NoBlockHash h)
  end.
Definition get_total_work ar (h : BtcBlockHash) : res ArchiveError Z :=
  ok_or (total_work ar !! h) (NoMainHeaderInfo h).

(** The greatest element by a key, in a fold over an iterator: a later one has to
    be better.  The order of the iterator is open, and with it which one of equally
    good ones comes out. *)
Definition max_by_key {A} (key : A → res ArchiveError Z) (l : list A) :
    res ArchiveError (option A) :=
  best ← foldM (λ (best : option (Z * A)) x,
      k ← key x;
      Ok (match best with
          | Some (k', y) => if k' <? k then Some (k, x) else Some (k', y)
          | None => Some (k, x)
          end)) None l;
  Ok (snd <$> (best : option (Z * A))).

Definition try_get_best_main_verification ar (h : BlockHash) :
    res ArchiveError (option BtcBlockHash) :=
  max_by_key (get_total_work ar)
    (omap (λ p : BtcBlockHash * BmmResult,
       if decide (p.2 = Verified) then Some p.1 else None)
     (map_iter (get_bmm_results ar h))).
Definition get_best_main_verification ar (h : BlockHash) : res ArchiveError BtcBlockHash :=
  best ← try_get_best_main_verification ar h;
  ok_or best (NoBmmResult h).

(** ** Ancestors, in the two trees *)
Definition side_lineage ar : Lineage BlockHash ArchiveError := {|
  lin_height := archive_height ar;
  lin_parent := λ h, header ← get_header ar h; expect (prev_side_hash header);
  lin_exponential := λ h, ok_or (exponential_ancestors ar !! h) DbMissingKey;
  lin_no_ancestor := NoAncestor;
|}.
Definition main_lineage ar : Lineage BtcBlockHash ArchiveError := {|
  lin_height := get_main_height ar;
  lin_parent := λ h, info ← get_main_header_info ar h; Ok (info_prev_block_hash info);
  lin_exponential := λ h, ok_or (exponential_main_ancestors ar !! h) DbMissingKey;
  lin_no_ancestor := NoMainAncestor;
|}.

Definition get_nth_ancestor ar := nth_ancestor (side_lineage ar).
Definition get_nth_main_ancestor ar := nth_ancestor (main_lineage ar).
Definition is_descendant ar := descends (side_lineage ar).
Definition is_main_descendant ar := descends (main_lineage ar).

Definition get_block_locator ar (h : BlockHash) : res ArchiveError (list BlockHash) :=
  header ← get_header ar h;
  row ← ok_or (exponential_ancestors ar !! h) DbMissingKey;
  Ok (match prev_side_hash header with
      | Some parent => reverse (reverse row ++ [parent])
      | None => row
      end).

Definition last_common_ancestor ar (block_hash0 block_hash1 : BlockHash) :
    res ArchiveError (option BlockHash) :=
  '(block_hash0, block_hash1, height0) ←
    equalize (side_lineage ar) block_hash0 block_hash1;
  if decide (block_hash0 = block_hash1) then Ok (Some block_hash0)
  else
    oldest_ancestor_0 ← get_nth_ancestor ar block_hash0 height0;
    oldest_ancestor_1 ← get_nth_ancestor ar block_hash1 height0;
    if decide (oldest_ancestor_0 = oldest_ancestor_1) then
      Some <$> search_common (side_lineage ar) block_hash0 block_hash1 height0
    else Ok None.

Definition last_common_main_ancestor ar (block_hash0 block_hash1 : BtcBlockHash) :
    res ArchiveError BtcBlockHash :=
  '(block_hash0, block_hash1, height0) ←
    equalize (main_lineage ar) block_hash0 block_hash1;
  if decide (block_hash0 = block_hash1) then Ok block_hash0
  else search_common (main_lineage ar) block_hash0 block_hash1 height0.

Definition shared_mainchain_lineage ar (block_hash0 block_hash1 : BtcBlockHash) :
    res ArchiveError bool :=
  '(block_hash0, block_hash1, _) ← equalize (main_lineage ar) block_hash0 block_hash1;
  Ok (bool_decide (block_hash0 = block_hash1)).
End Archive.
