(* ===== verification/Proto.v ===== *)
(** The mainchain node's protocol (lib/types/proto.rs): decoding its messages, and the
    clients of its services.

    The messages are generated at build time.  The code takes each of them apart by a
    pattern that names all of its fields, and the records here have those fields; a
    field that the code ignores is left out.  A field that the code only decodes may be
    a [ConsensusHex] or a [ReverseHex], depending on the generated type: [HashField]. *)
From S2P Require Import Prelude Bytes SwapTypes TxTypes Externals Hex Addresses.
From S2P Require Import Accumulator BlockTypes Bundle StateDb Peg SideTips Archive.

(** bitcoin: the consensus encoding of 32 bytes, of a transaction with some outputs, and
    the parser of addresses; borsh: [try_from_slice] is an argument where it is used;
    prost: the generated enumeration of networks, by its tag. *)
Inductive GenNetwork := NetUnknown | NetUnspecified | NetMainnet | NetRegtest | NetSignet | NetTestnet.
Class ExtConsensus {T : ExtTypes} := {
  consensus_serialize : Hash → list byte;
  consensus_deserialize : list byte → option Hash;
  consensus_serialize_tx : list TxOut → list byte;
  parse_btc_address : list byte → option BtcAddress;
  network_try_from : Z → option GenNetwork;
}.
Class ConsensusLaws {T : ExtTypes} (C : ExtConsensus) : Prop :=
  consensus_roundtrip h : consensus_deserialize (consensus_serialize h) = Some h.

(** The messages that errors name. *)
Inductive Message :=
| MConsensusHex | MHex | MReverseHex | MOutPoint | MDepositOutput | MDeposit
| MBundleStatusEvent | MBundleEvent | MBlockInfoEvent | MBlockInfo | MInfo | MResponseItem
| MBlockHeaderInfo | MConnectBlock | MDisconnectBlock | MSubscribeEvent | MSubscribeResponse
| MBlockNotFound | MOptionalCommitment | MCommitment | MCommitmentResponse
| MChainInfoResponse | MChainTipResponse | MHeaderInfoResponse | MBlockInfoResponse
| MBmmTxResponse | MDepositTxResponse | MAddressResponse.

Inductive ProtoError :=
| Grpc
| InvalidEnumVariant (field_name : string) (message : Message) (variant : GenNetwork)
| InvalidFieldValue (field_name : string) (message : Message) (value : list byte)
| InvalidRepeatedValue (field_name : string) (message : Message)
| MissingField (field_name : string) (message : Message)
| UnknownEnumTag (field_name : string) (message : Message) (tag : Z).

(** ** Hexadecimal messages *)
Record ConsensusHex := mkConsensusHex { consensus_hex : option (list byte) }.
Record HexMessage := mkHex { hex_message : option (list byte) }.
Record ReverseHex := mkReverseHex { reverse_hex : option (list byte) }.

Section Proto.
Context {T : ExtTypes} {X : ExtFuns} {W : ExtWork} {C : ExtConsensus} {XT : ExtText}.

(** [ConsensusHex::decode], for a type of 32 bytes *)
Definition consensus_hex_decode (message : Message) (field_name : string) (self : ConsensusHex) :
    res ProtoError Hash :=
  hex ← ok_or (consensus_hex self) (MissingField "hex" MConsensusHex);
  ok_or (bytes ← hex_decode hex; consensus_deserialize bytes)
    (InvalidFieldValue field_name message hex).
Definition consensus_hex_encode (value : Hash) : ConsensusHex :=
  mkConsensusHex (Some (hex_encode (consensus_serialize value))).

(** [Hex::decode_bytes], [Hex::decode] and [Hex::encode] *)
Definition hex_decode_bytes (message : Message) (field_name : string) (self : HexMessage) :
    res ProtoError (list byte) :=
  hex ← ok_or (hex_message self) (MissingField "hex" MHex);
  ok_or (hex_decode hex) (InvalidFieldValue field_name message hex).
Definition hex_message_decode {A} (try_from_slice : list byte → option A) (message : Message)
    (field_name : string) (self : HexMessage) : res ProtoError A :=
  hex ← ok_or (hex_message self) (MissingField "hex" MHex);
  ok_or (bytes ← hex_decode hex; try_from_slice bytes) (InvalidFieldValue field_name message hex).
Definition hex_message_encode (value : list byte) : HexMessage :=
  mkHex (Some (hex_encode value)).

(** [ReverseHex::decode] and [ReverseHex::encode] *)
Definition reverse_hex_decode (message : Message) (field_name : string) (self : ReverseHex) :
    res ProtoError Hash :=
  hex ← ok_or (reverse_hex self) (MissingField "hex" MReverseHex);
  bytes ← ok_or (hex_decode hex) (InvalidFieldValue field_name message hex);
  ok_or (consensus_deserialize (reverse bytes)) (InvalidFieldValue field_name message hex).
Definition reverse_hex_encode (value : Hash) : ReverseHex :=
  mkReverseHex (Some (hex_encode (reverse (consensus_serialize value)))).

Inductive HashField := Consensus (m : ConsensusHex) | Reversed (m : ReverseHex).
Definition field_decode (message : Message) (field_name : string) (f : HashField) :
    res ProtoError Hash :=
  match f with
  | Consensus m => consensus_hex_decode message field_name m
  | Reversed m => reverse_hex_decode message field_name m
  end.

(** [opt.ok_or_else(|| missing_field(..))?] *)
Definition required {A} (message : Message) (field_name : string) (o : option A) :
    res ProtoError A := ok_or o (MissingField field_name message).
(** [opt.map(f).transpose()?] *)
Definition transposed {A B} (f : A → res ProtoError B) (o : option A) : res ProtoError (option B) :=
  match o with
  | Some a => b ← f a; Ok (Some b)
  | None => Ok None
  end.

(** ** Deposits *)
Record GenOutPoint := mkGenOutPoint { g_txid : option HashField; g_vout : option Z }.
Definition outpoint_try_from (outpoint : GenOutPoint) : res ProtoError (BtcTxid * Z) :=
  txid ← required MOutPoint "txid" (g_txid outpoint);
  txid ← field_decode MOutPoint "txid" txid;
  vout ← required MOutPoint "vout" (g_vout outpoint);
  Ok (txid, vout).

Record GenDepositOutput := mkGenDepositOutput {
  g_address : option HexMessage;
  g_value_sats : option Z;
}.

(** [std::str::from_utf8]: the well-formed sequences of the Unicode standard *)
Definition between (lo hi : Z) (b : byte) : bool := (lo <=? Z_of_byte b) && (Z_of_byte b <=? hi).
Definition continuation : byte → bool := between 128 191.
Definition second_of_three (b0 b1 : byte) : bool :=
  (between 224 224 b0 && between 160 191 b1) ||
  ((between 225 236 b0 || between 238 239 b0) && continuation b1) ||
  (between 237 237 b0 && between 128 159 b1).
Definition second_of_four (b0 b1 : byte) : bool :=
  (between 240 240 b0 && between 144 191 b1) ||
  (between 241 243 b0 && continuation b1) ||
  (between 244 244 b0 && between 128 143 b1).
Fixpoint utf8_valid (l : list byte) : bool :=
  match l with
  | [] => true
  | b0 :: l =>
      if between 0 127 b0 then utf8_valid l
      else
        match l with
        | [] => false
        | b1 :: l =>
            if between 194 223 b0 then continuation b1 && utf8_valid l
            else
              match l with
              | [] => false
              | b2 :: l =>
                  if second_of_three b0 b1 then continuation b2 && utf8_valid l
                  else
                    match l with
                    | [] => false
                    | b3 :: l =>
                        second_of_four b0 b1 && continuation b2 && continuation b3 &&
                        utf8_valid l
                    end
              end
        end
  end.

(** [Address::ALL_ZEROS] *)
Definition ALL_ZEROS : Address := arr_repeat 20 x00.

(** The block ['address]: an address that cannot be read is no error. *)
Definition deposit_address (address_bytes : list byte) : Address :=
  if utf8_valid address_bytes then
    match from_deposit_address address_bytes with
    | Ok address => address
    | _ =>
        match address_from_str address_bytes with
        | Ok address => address
        | _ => ALL_ZEROS
        end
    end
  else ALL_ZEROS.

Definition deposit_output_try_from (output : GenDepositOutput) : res ProtoError Output :=
  address ← required MDepositOutput "address" (g_address output);
  address_bytes ← hex_decode_bytes MDepositOutput "address" address;
  let address := deposit_address address_bytes in
  value ← required MDepositOutput "value_sats" (g_value_sats output);
  Ok (mkOutput address (Value value)).

(** [mainchain::Deposit] *)
Record MainDeposit := mkMainDeposit {
  tx_index : Z;
  deposit_outpoint : BtcTxid * Z;
  deposit_output : Output;
}.
Record GenDeposit := mkGenDeposit {
  g_sequence_number : option Z;
  g_outpoint : option GenOutPoint;
  g_output : option GenDepositOutput;
}.
Definition deposit_try_from (deposit : GenDeposit) : res ProtoError MainDeposit :=
  sequence_number ← required MDeposit "sequence_number" (g_sequence_number deposit);
  outpoint ← required MDeposit "outpoint" (g_outpoint deposit);
  output ← required MDeposit "output" (g_output deposit);
  outpoint ← outpoint_try_from outpoint;
  output ← deposit_output_try_from output;
  Ok (mkMainDeposit sequence_number outpoint output).

(** What the state makes of a deposit; it never reads [tx_index]. *)
Definition event_of_deposit (d : MainDeposit) : BlockEvent :=
  DepositEvent (Deposit (deposit_outpoint d).1 (deposit_outpoint d).2) (deposit_output d).

(** ** Withdrawal bundles *)
Inductive GenBundleStatus := GenFailed | GenSubmitted | GenSucceeded.
Definition bundle_status_from (event : GenBundleStatus) : WithdrawalBundleStatus :=
  match event with
  | GenFailed => BundleFailed
  | GenSubmitted => BundleSubmitted
  | GenSucceeded => BundleConfirmed
  end.
Record GenBundleEvent := mkGenBundleEvent {
  g_m6id : option HashField;
  (* the message with the status may be missing, and the status in it *)
  g_bundle_event : option (option GenBundleStatus);
}.
Definition bundle_status_try_from (event : option GenBundleStatus) :
    res ProtoError WithdrawalBundleStatus :=
  event ← required MBundleStatusEvent "event" event;
  Ok (bundle_status_from event).
Definition bundle_event_try_from (event : GenBundleEvent) :
    res ProtoError (M6id * WithdrawalBundleStatus) :=
  m6id ← required MBundleEvent "m6id" (g_m6id event);
  m6id ← field_decode MBundleEvent "m6id" m6id;
  status ← required MBundleEvent "event" (g_bundle_event event);
  status ← bundle_status_try_from status;
  Ok (m6id, status).

(** ** Block infos *)
Inductive GenBlockEvent := GenDepositEvent (d : GenDeposit) | GenWithdrawalBundle (e : GenBundleEvent).
Definition block_event_of (event : GenBlockEvent) : res ProtoError BlockEvent :=
  match event with
  | GenDepositEvent deposit =>
      deposit ← deposit_try_from deposit; Ok (event_of_deposit deposit)
  | GenWithdrawalBundle bundle_event =>
      '(m6id, status) ← bundle_event_try_from bundle_event; Ok (BundleEvent m6id status)
  end.
(** [BlockEvent::try_from] of the message around it *)
Definition block_event_try_from (event : option GenBlockEvent) : res ProtoError BlockEvent :=
  event ← required MBlockInfoEvent "event" event;
  block_event_of event.

Record GenBlockInfo := mkGenBlockInfo {
  g_bmm_commitment : option HashField;
  g_events : list (option GenBlockEvent);
}.
Definition block_info_try_from (block_info : GenBlockInfo) : res ProtoError BlockInfo :=
  bmm_commitment ← transposed (field_decode MBlockInfo "bmm_commitment")
    (g_bmm_commitment block_info);
  events ← mapM_res block_event_try_from (g_events block_info);
  Ok (mkBlockInfo bmm_commitment events).

Record GenBlockHeaderInfo := mkGenBlockHeaderInfo {
  g_block_hash : option ReverseHex;
  g_prev_block_hash : option ReverseHex;
  g_height : Z;
  g_work : option ConsensusHex;
}.
Definition block_header_info_try_from (header_info : GenBlockHeaderInfo) :
    res ProtoError BlockHeaderInfo :=
  block_hash ← required MBlockHeaderInfo "block_hash" (g_block_hash header_info);
  block_hash ← reverse_hex_decode MBlockHeaderInfo "block_hash" block_hash;
  prev_block_hash ← required MBlockHeaderInfo "prev_block_hash" (g_prev_block_hash header_info);
  prev_block_hash ← reverse_hex_decode MBlockHeaderInfo "prev_block_hash" prev_block_hash;
  work ← required MBlockHeaderInfo "work" (g_work header_info);
  work ← consensus_hex_decode MBlockHeaderInfo "work" work;
  Ok (mkHeaderInfo block_hash prev_block_hash (g_height header_info)
        (le_value (arr_bytes work))).

(** [get_block_info_response::Info] *)
Record GenInfo := mkGenInfo {
  g_header_info : option GenBlockHeaderInfo;
  g_block_info : option GenBlockInfo;
}.
Definition info_try_from (info : GenInfo) : res ProtoError (BlockHeaderInfo * BlockInfo) :=
  header_info ← required MInfo "header_info" (g_header_info info);
  header_info ← block_header_info_try_from header_info;
  block_info ← required MInfo "block_info" (g_block_info info);
  block_info ← block_info_try_from block_info;
  Ok (header_info, block_info).

(** ** Two-way peg data *)
Record GenResponseItem := mkGenResponseItem {
  g_block_header_info : option GenBlockHeaderInfo;
  g_item_block_info : option GenBlockInfo;
}.
(** [mainchain::TwoWayPegData]: [hashlink]'s map moves a key that is inserted again to the
    end. *)
Definition PegBlocks : Type := list (BtcBlockHash * BlockInfo).
Definition linked_insert_block (p : BtcBlockHash * BlockInfo) (m : PegBlocks) : PegBlocks :=
  filter (λ q, q.1 ≠ p.1) m ++ [p].

Definition response_item_try_from (item : GenResponseItem) :
    res ProtoError (BtcBlockHash * BlockInfo) :=
  block_header_info ← required MResponseItem "block_header_info" (g_block_header_info item);
  info ← block_header_info_try_from block_header_info;
  block_info ← required MResponseItem "block_info" (g_item_block_info item);
  block_info ← block_info_try_from block_info;
  Ok (info_block_hash info, block_info).
Definition two_way_peg_data_try_from (blocks : list GenResponseItem) : res ProtoError PegBlocks :=
  foldM (λ m item, p ← response_item_try_from item; Ok (linked_insert_block p m)) [] blocks.

Definition is_deposit_event (e : BlockEvent) : option (OutPoint * Output) :=
  match e with DepositEvent o out => Some (o, out) | BundleEvent _ _ => None end.
Definition is_bundle_event (e : BlockEvent) : option (M6id * WithdrawalBundleStatus) :=
  match e with BundleEvent m s => Some (m, s) | DepositEvent _ _ => None end.

(** [BlockInfo::deposits], [into_deposits] and [withdrawal_bundle_events] *)
Definition info_deposits (b : BlockInfo) : list (OutPoint * Output) :=
  omap is_deposit_event (events b).
Definition info_bundle_events (b : BlockInfo) : list (M6id * WithdrawalBundleStatus) :=
  omap is_bundle_event (events b).

(** [TwoWayPegData]'s [deposits], [withdrawal_bundle_events] and the latest of each *)
Definition peg_deposits (m : PegBlocks) : list (BtcBlockHash * list (OutPoint * Output)) :=
  omap (λ p, if decide (info_deposits p.2 = []) then None else Some (p.1, info_deposits p.2)) m.
Definition peg_bundle_events (m : PegBlocks) :
    list (BtcBlockHash * (M6id * WithdrawalBundleStatus)) :=
  m ≫= λ p, (λ e, (p.1, e)) <$> info_bundle_events p.2.
Definition latest_deposit_block_hash (m : PegBlocks) : option BtcBlockHash :=
  fst <$> last (peg_deposits m).
Definition latest_withdrawal_bundle_event_block_hash (m : PegBlocks) : option BtcBlockHash :=
  fst <$> last (peg_bundle_events m).

(** ** The stream of events *)

(** [mainchain::Event] *)
Inductive MainchainEvent :=
| ConnectBlock (header_info : BlockHeaderInfo) (block_info : BlockInfo)
| DisconnectBlock (block_hash : BtcBlockHash).

Inductive GenEvent :=
| GenConnectBlock (header_info : option GenBlockHeaderInfo) (block_info : option GenBlockInfo)
| GenDisconnectBlock (block_hash : option HashField).
Definition event_try_from (event : GenEvent) : res ProtoError MainchainEvent :=
  match event with
  | GenConnectBlock header_info block_info =>
      header_info ← required MConnectBlock "header_info" header_info;
      block_info ← required MConnectBlock "block_info" block_info;
      header_info ← block_header_info_try_from header_info;
      block_info ← block_info_try_from block_info;
      Ok (ConnectBlock header_info block_info)
  | GenDisconnectBlock block_hash =>
      block_hash ← required MDisconnectBlock "disconnect_block" block_hash;
      block_hash ← field_decode MDisconnectBlock "disconnect_block" block_hash;
      Ok (DisconnectBlock block_hash)
  end.
(** [subscribe_events_response::Event] and [SubscribeEventsResponse] around it *)
Definition subscribed_event_try_from (event : option GenEvent) : res ProtoError MainchainEvent :=
  event ← required MSubscribeEvent "event" event;
  event_try_from event.
Definition subscribe_response_try_from (response : option (option GenEvent)) :
    res ProtoError MainchainEvent :=
  event ← required MSubscribeResponse "event" response;
  subscribed_event_try_from event.

(** ** Commitments of a block and its ancestors *)
Inductive BmmCommitments :=
| NotFound (block_hash : BtcBlockHash)
| Commitments (head : option BlockHash) (tail : list (option BlockHash)).
Inductive GenCommitmentResult :=
| GenBlockNotFound (block_hash : option HashField)
| GenCommitment (commitment : option HashField) (ancestor_commitments : list (option HashField)).

Definition block_not_found_try_from (block_hash : option HashField) : res ProtoError BtcBlockHash :=
  block_hash ← required MBlockNotFound "block_hash" block_hash;
  field_decode MBlockNotFound "block_hash" block_hash.
(** [OptionalCommitment] *)
Definition optional_commitment_try_from : option HashField → res ProtoError (option BlockHash) :=
  transposed (field_decode MOptionalCommitment "commitment").
Definition commitment_result_try_from (r : GenCommitmentResult) : res ProtoError BmmCommitments :=
  match r with
  | GenBlockNotFound block_hash =>
      block_hash ← block_not_found_try_from block_hash; Ok (NotFound block_hash)
  | GenCommitment commitment ancestor_commitments =>
      commitment ← transposed (field_decode MCommitment "commitment") commitment;
      ancestor_commitments ← mapM_res optional_commitment_try_from ancestor_commitments;
      Ok (Commitments commitment ancestor_commitments)
  end.

(** ** The validator's client

    What the service answers to a request; [None] is a status that is an error. *)
Record Validator := {
  srv_block_header_info : ReverseHex → Z → option (list GenBlockHeaderInfo);
  srv_block_info : ReverseHex → Z → Z → option (list GenInfo);
  srv_bmm_h_star_commitment : ReverseHex → Z → Z → option (option GenCommitmentResult);
  srv_chain_info : option Z;
  srv_chain_tip : option (option GenBlockHeaderInfo);
  srv_two_way_peg_data : Z → option ReverseHex → ReverseHex → option (list GenResponseItem);
  srv_events : Z → option (list (option (option (option GenEvent))));
}.
Implicit Types (srv : Validator).

(** [.await?.into_inner()] *)
Definition answered {A} (response : option A) : res ProtoError A := ok_or response Grpc.

Definition get_block_header_info srv (block_hash : BtcBlockHash) :
    res ProtoError (option BlockHeaderInfo) :=
  header_infos ← answered (srv_block_header_info srv (reverse_hex_encode block_hash) 0);
  match header_infos with
  | [] => Ok None
  | header_info :: _ => info ← block_header_info_try_from header_info; Ok (Some info)
  end.

(** That infos are of a block and its ancestors, one after the other. *)
Fixpoint sequential_headers (expected_block_hash : BtcBlockHash) (l : list BlockHeaderInfo) : bool :=
  match l with
  | [] => true
  | header_info :: l =>
      bool_decide (info_block_hash header_info = expected_block_hash) &&
      sequential_headers (info_prev_block_hash header_info) l
  end.
Definition get_block_header_infos srv (block_hash : BtcBlockHash) (max_ancestors : Z) :
    res ProtoError (option (BlockHeaderInfo * list BlockHeaderInfo)) :=
  header_infos ← answered
    (srv_block_header_info srv (reverse_hex_encode block_hash) max_ancestors);
  header_infos ← mapM_res block_header_info_try_from header_infos;
  match header_infos with
  | [] => Ok None
  | head :: tail =>
      _ ← ensure (sequential_headers (info_prev_block_hash head) tail)
            (InvalidRepeatedValue "header_infos" MHeaderInfoResponse);
      Ok (Some (head, tail))
  end.

Abbreviation Infos := (BlockHeaderInfo * BlockInfo)%type.

(** [get_block_infos], from the decoded answer on *)
Fixpoint sequential (expected_block_hash : BtcBlockHash) (l : list Infos) : bool :=
  match l with
  | [] => true
  | (header_info, _) :: l =>
      bool_decide (info_block_hash header_info = expected_block_hash) &&
      sequential (info_prev_block_hash header_info) l
  end.
Definition checked_infos (answer : res ProtoError (list Infos)) :
    res ProtoError (option (Infos * list Infos)) :=
  infos ← answer;
  match infos with
  | [] => Ok None
  | head :: tail =>
      _ ← ensure (sequential (info_prev_block_hash head.1) tail)
            (InvalidRepeatedValue "infos" MBlockInfoResponse);
      Ok (Some (head, tail))
  end.
(** The request and the decoding of its answer *)
Definition decoded_infos srv (block_hash : BtcBlockHash) (max_ancestors : Z) :
    res ProtoError (list Infos) :=
  infos ← answered
    (srv_block_info srv (reverse_hex_encode block_hash) THIS_SIDECHAIN max_ancestors);
  mapM_res info_try_from infos.
Definition get_block_infos srv (block_hash : BtcBlockHash) (max_ancestors : Z) :
    res ProtoError (option (Infos * list Infos)) :=
  checked_infos (decoded_infos srv block_hash max_ancestors).

Definition get_bmm_hstar_commitments srv (block_hash : BtcBlockHash) (max_ancestors : Z) :
    res ProtoError BmmCommitments :=
  result ← answered
    (srv_bmm_h_star_commitment srv (reverse_hex_encode block_hash) THIS_SIDECHAIN max_ancestors);
  result ← required MCommitmentResponse "result" result;
  commitment_result_try_from result.

(** [bitcoin::Network] *)
Inductive Network := Bitcoin_ | Regtest_ | Signet_ | Testnet_.
Definition network_decode (message : Message) (field_name : string) (self : GenNetwork) :
    res ProtoError Network :=
  match self with
  | NetUnknown | NetUnspecified => Err (InvalidEnumVariant field_name message self)
  | NetMainnet => Ok Bitcoin_
  | NetRegtest => Ok Regtest_
  | NetSignet => Ok Signet_
  | NetTestnet => Ok Testnet_
  end.
Definition get_chain_info srv : res ProtoError Network :=
  network ← answered (srv_chain_info srv);
  gen ← ok_or (network_try_from network) (UnknownEnumTag "network" MChainInfoResponse network);
  network_decode MChainInfoResponse "network" gen.

Definition get_chain_tip srv : res ProtoError BlockHeaderInfo :=
  block_header_info ← answered (srv_chain_tip srv);
  block_header_info ← required MChainTipResponse "block_header_info" block_header_info;
  block_header_info_try_from block_header_info.

Definition get_two_way_peg_data srv (start_block_hash : option BtcBlockHash)
    (end_block_hash : BtcBlockHash) : res ProtoError PegBlocks :=
  response ← answered
    (srv_two_way_peg_data srv THIS_SIDECHAIN (reverse_hex_encode <$> start_block_hash)
       (reverse_hex_encode end_block_hash));
  two_way_peg_data_try_from response.

(** The stream of events: an item may be a status that is an error. *)
Definition stream_item (event_res : option (option (option GenEvent))) :
    res ProtoError MainchainEvent :=
  event ← answered event_res;
  subscribe_response_try_from event.
Definition subscribe_events srv : res ProtoError (list (res ProtoError MainchainEvent)) :=
  event_stream ← answered (srv_events srv THIS_SIDECHAIN);
  Ok (fmap (M:=list) stream_item event_stream).

(** ** The clients of the block producer and of the wallet *)
Record ProposeRequest := mkPropose { propose_sidechain_id : Z; propose_transaction : list byte }.
Definition propose_withdrawal_bundle (srv : ProposeRequest → bool) (transaction : list TxOut) :
    res ProtoError () :=
  ensure (srv (mkPropose THIS_SIDECHAIN (consensus_serialize_tx transaction))) Grpc.

Record BmmTxRequest := mkBmmTx {
  bmm_sidechain_id : Z;
  bmm_value_sats : Z;
  bmm_height : Z;
  bmm_critical_hash : ConsensusHex;
  bmm_prev_bytes : ReverseHex;
}.
Definition create_bmm_critical_data_tx (srv : BmmTxRequest → option (option HashField))
    (value_sats height : Z) (critical_hash : Hash) (prev_bytes : BtcBlockHash) :
    res ProtoError BtcTxid :=
  txid ← answered
    (srv (mkBmmTx THIS_SIDECHAIN value_sats height (consensus_hex_encode critical_hash)
            (reverse_hex_encode prev_bytes)));
  txid ← required MBmmTxResponse "txid" txid;
  field_decode MBmmTxResponse "txid" txid.

Record DepositTxRequest := mkDepositTx {
  dtx_sidechain_id : Z;
  dtx_address : list byte;
  dtx_value_sats : Z;
  dtx_fee_sats : Z;
}.
Definition create_deposit_tx (srv : DepositTxRequest → option (option HashField))
    (address : Address) (value_sats fee_sats : Z) : res ProtoError BtcTxid :=
  txid ← answered (srv (mkDepositTx THIS_SIDECHAIN (as_base58 address) value_sats fee_sats));
  txid ← required MDepositTxResponse "txid" txid;
  field_decode MDepositTxResponse "txid" txid.

Definition create_new_address (srv : option (list byte)) : res ProtoError BtcAddress :=
  address ← answered srv;
  ok_or (parse_btc_address address) (InvalidFieldValue "address" MAddressResponse address).
End Proto.
