(* ===== verification/ProtoProps.v ===== *)
(** Decoding the mainchain node's messages (lib/types/proto.rs): an honest node's
    messages are read as what they stand for, and nothing that a depositor writes makes
    a block unreadable. *)
From S2P Require Import Prelude Bytes SwapTypes TxTypes Externals Hex Addresses.
From S2P Require Import Accumulator BlockTypes Bundle StateDb Peg SideTips Archive Proto.

Lemma utf8_ascii l : Forall (λ b, Z_of_byte b < 128) l → utf8_valid l = true.
Proof.
  induction 1 as [|b l Hb _ IH]; [done|]. simpl. unfold between.
  pose proof (Z_of_byte_range b). rewrite (proj2 (Z.leb_le 0 _)), (proj2 (Z.leb_le _ 127)) by lia.
  done.
Qed.

Lemma mapM_res_inverse {E A B} (f : B → res E A) (g : A → B) l :
  Forall (λ x, f (g x) = Ok x) l → mapM_res f (g <$> l) = Ok l.
Proof. induction 1 as [|x l Hx _ IH]; csimpl; [done|]. by rewrite Hx, IH. Qed.

#[local] Arguments deposit_address : simpl never.
#[local] Arguments format_for_deposit : simpl never.
#[local] Arguments hex_decode_bytes : simpl never.
#[local] Arguments hex_message_encode : simpl never.

Section ProtoProps.
Context {T : ExtTypes} {X : ExtFuns} {W : ExtWork} {C : ExtConsensus} {XT : ExtText}.
Context {CL : ConsensusLaws C}.
Implicit Types (message : Message) (name : string) (h : Hash).

(** ** Hashes *)
Lemma consensus_hex_roundtrip message name h :
  consensus_hex_decode message name (consensus_hex_encode h) = Ok h.
Proof.
  unfold consensus_hex_decode, consensus_hex_encode. simpl.
  rewrite hex_decode_encode. simpl. by rewrite (consensus_roundtrip h).
Qed.
Lemma reverse_hex_roundtrip message name h :
  reverse_hex_decode message name (reverse_hex_encode h) = Ok h.
Proof.
  unfold reverse_hex_decode, reverse_hex_encode. simpl.
  rewrite hex_decode_encode. simpl. by rewrite reverse_involutive, (consensus_roundtrip h).
Qed.

Lemma hex_bytes_roundtrip message name l :
  hex_decode_bytes message name (hex_message_encode l) = Ok l.
Proof. unfold hex_decode_bytes, hex_message_encode. simpl. by rewrite hex_decode_encode. Qed.

(** A hash in a field of either type. *)
Definition field_message (reversed : bool) h : HashField :=
  if reversed then Reversed (reverse_hex_encode h) else Consensus (consensus_hex_encode h).
Lemma field_roundtrip message name r h : field_decode message name (field_message r h) = Ok h.
Proof. destruct r; [apply reverse_hex_roundtrip|apply consensus_hex_roundtrip]. Qed.

(** ** The messages of an honest node

    [r] says which type the fields with hashes have.  Heights and values are the
    numbers; a deposit names its address in the form for deposits. *)
Context (r : bool).

Definition output_message (out : Output) : GenDepositOutput :=
  mkGenDepositOutput (Some (hex_message_encode (format_for_deposit (address out))))
    (Some (get_value out)).
Definition event_message (e : BlockEvent) : option GenBlockEvent :=
  match e with
  | DepositEvent (Deposit txid vout) out =>
      Some (GenDepositEvent (mkGenDeposit (Some 0)
        (Some (mkGenOutPoint (Some (field_message r txid)) (Some vout)))
        (Some (output_message out))))
  | DepositEvent _ _ => None
  | BundleEvent m6id status =>
      Some (GenWithdrawalBundle (mkGenBundleEvent (Some (field_message r m6id))
        (Some (Some (match status with
                     | BundleFailed => GenFailed
                     | BundleSubmitted => GenSubmitted
                     | BundleConfirmed => GenSucceeded
                     end)))))
  end.
Definition block_info_message (b : BlockInfo) : GenBlockInfo :=
  mkGenBlockInfo (field_message r <$> bmm_commitment b) (event_message <$> events b).
(** [work.to_le_bytes()] *)
Definition work_bytes (w : Z) : Hash := exist _ (le_bytes 32 w) (length_le_bytes 32 w).
Definition header_info_message (i : BlockHeaderInfo) : GenBlockHeaderInfo :=
  mkGenBlockHeaderInfo (Some (reverse_hex_encode (info_block_hash i)))
    (Some (reverse_hex_encode (info_prev_block_hash i))) (info_height i)
    (Some (consensus_hex_encode (work_bytes (info_work i)))).
Definition info_message (x : BlockHeaderInfo * BlockInfo) : GenInfo :=
  mkGenInfo (Some (header_info_message x.1)) (Some (block_info_message x.2)).

(** What a mainchain block can hold: deposits of a value at a mainchain outpoint. *)
Definition sendable_event (e : BlockEvent) : Prop :=
  match e with
  | DepositEvent (Deposit _ _) out => ∃ v, content out = Value v
  | DepositEvent _ _ => False
  | BundleEvent _ _ => True
  end.
Definition sendable (x : BlockHeaderInfo * BlockInfo) : Prop :=
  0 ≤ info_work x.1 < 2 ^ 256 ∧ Forall sendable_event (events x.2).

Lemma deposit_address_named `{!TextLaws XT} a : deposit_address (format_for_deposit a) = a.
Proof.
  unfold deposit_address. rewrite utf8_ascii by apply format_for_deposit_ascii.
  by rewrite format_for_deposit_accepted.
Qed.

Lemma event_roundtrip `{!TextLaws XT} e :
  sendable_event e → block_event_try_from (event_message e) = Ok e.
Proof.
  destruct e as [[| |txid vout] [a c]|m6id status]; try done.
  - intros [v Hv]. simpl in Hv. subst c. unfold event_message, block_event_try_from. simpl.
    unfold deposit_try_from, outpoint_try_from, deposit_output_try_from. simpl.
    rewrite field_roundtrip. simpl. rewrite hex_bytes_roundtrip. simpl.
    by rewrite deposit_address_named.
  - intros _. unfold event_message, block_event_try_from. simpl.
    unfold bundle_event_try_from. simpl. rewrite field_roundtrip. by destruct status.
Qed.

Lemma block_info_roundtrip `{!TextLaws XT} b :
  Forall sendable_event (events b) → block_info_try_from (block_info_message b) = Ok b.
Proof.
  intros He. unfold block_info_try_from, block_info_message. simpl.
  assert (transposed (field_decode MBlockInfo "bmm_commitment")
    (field_message r <$> bmm_commitment b) = Ok (bmm_commitment b)) as ->.
  { destruct (bmm_commitment b); simpl; [by rewrite field_roundtrip|done]. }
  simpl. rewrite mapM_res_inverse; [by destruct b|].
  eapply Forall_impl; [exact He|]. apply event_roundtrip.
Qed.

Lemma header_info_roundtrip i : 0 ≤ info_work i < 2 ^ 256 →
  block_header_info_try_from (header_info_message i) = Ok i.
Proof.
  intros Hw. unfold block_header_info_try_from, header_info_message. simpl.
  do 2 (rewrite ?reverse_hex_roundtrip; cbn [mbind res_bind]).
  rewrite consensus_hex_roundtrip. cbn [mbind res_bind].
  change (arr_bytes (work_bytes (info_work i))) with (le_bytes 32 (info_work i)).
  rewrite le_value_bytes by (change (256 ^ Z.of_nat 32) with (2 ^ 256); done). by destruct i.
Qed.

Lemma info_roundtrip `{!TextLaws XT} x : sendable x → info_try_from (info_message x) = Ok x.
Proof.
  intros [Hw He]. unfold info_try_from, info_message. simpl.
  rewrite header_info_roundtrip by done. simpl.
  rewrite block_info_roundtrip by done. by destruct x.
Qed.

(** ** Deposits *)

(** The address that a depositor's bytes name, if they name one. *)
Definition names (bytes : list byte) (a : Address) : Prop :=
  utf8_valid bytes = true ∧
  (from_deposit_address bytes = Ok a ∨
   (∀ b, from_deposit_address bytes ≠ Ok b) ∧ base58_decode bytes = Some (arr_bytes a)).

Lemma read_address_cases bytes :
  (∃ a, names bytes a ∧ deposit_address bytes = a) ∨
  ((∀ a, ¬ names bytes a) ∧ deposit_address bytes = ALL_ZEROS).
Proof.
  unfold deposit_address, names. destruct (utf8_valid bytes); [|right; naive_solver].
  destruct (from_deposit_address bytes) as [a|e|] eqn:Hd; [left; naive_solver|..].
  all: destruct (address_from_str bytes) as [a|e'|] eqn:Hs;
    [left; exists a; split; [|done]; split; [done|]; right; split; [naive_solver|];
       by apply address_from_str_Ok
    |right; split; [|done]; intros a [_ [?|[_ Ha%address_from_str_Ok]]]; congruence..].
Qed.

Lemma names_unique bytes a b : names bytes a → names bytes b → a = b.
Proof.
  intros [_ [Ha|[Ha1 Ha]]] [_ [Hb|[Hb1 Hb]]]; [congruence|by destruct (Hb1 a)|by destruct (Ha1 b)|].
  apply arr_ext. congruence.
Qed.

Lemma names_credited bytes a : names bytes a → deposit_address bytes = a.
Proof.
  intros Ha. destruct (read_address_cases bytes) as [(b & Hb & ->)|[Hno _]].
  - by eapply names_unique.
  - by destruct (Hno a).
Qed.

(** The message of a deposit with all of its fields. *)
Definition deposit_message (bytes : list byte) (txid : BtcTxid) (vout value index : Z) :
    GenDeposit :=
  mkGenDeposit (Some index) (Some (mkGenOutPoint (Some (field_message r txid)) (Some vout)))
    (Some (mkGenDepositOutput (Some (hex_message_encode bytes)) (Some value))).

Lemma deposit_message_decoded bytes txid vout value index :
  deposit_try_from (deposit_message bytes txid vout value index)
  = Ok (mkMainDeposit index (txid, vout) (mkOutput (deposit_address bytes) (Value value))).
Proof.
  unfold deposit_try_from, outpoint_try_from, deposit_output_try_from. simpl.
  rewrite field_roundtrip. simpl. by rewrite hex_bytes_roundtrip.
Qed.

(** A deposit whose bytes name no address is not ignored, as the log says: it credits the
    zero address. *)
Lemma unreadable_deposit_credited bytes txid vout value index :
  (∀ a, ¬ names bytes a) →
  deposit_try_from (deposit_message bytes txid vout value index)
  = Ok (mkMainDeposit index (txid, vout) (mkOutput ALL_ZEROS (Value value))).
Proof.
  intros Hno. rewrite deposit_message_decoded.
  by destruct (read_address_cases bytes) as [(a & Ha & _)|[_ ->]]; [destruct (Hno a)|].
Qed.

(** C21: A deposit whose bytes name an address, in the prefixed form or in the bare one,
    is decoded and credits its value to exactly this address, under its outpoint; and no
    message whatsoever credits an address (other than the zero address) that its bytes do
    not name. *)
Theorem deposit_credited (bytes : list byte) (a : Address) (txid : BtcTxid) (vout value index : Z) :
  names bytes a →
  (event_of_deposit <$> deposit_try_from (deposit_message bytes txid vout value index)
   = Ok (DepositEvent (Deposit txid vout) (mkOutput a (Value value)))) ∧
  ∀ m d, deposit_try_from m = Ok d → address (deposit_output d) ≠ ALL_ZEROS →
    ∃ output text bytes', g_output m = Some output ∧ g_address output = Some text ∧
      hex_decode_bytes MDepositOutput "address" text = Ok bytes' ∧
      names bytes' (address (deposit_output d)).
Proof.
  intros Ha. split.
  { rewrite deposit_message_decoded, (names_credited bytes a Ha). done. }
  intros m d Hd Hnz. unfold deposit_try_from in Hd.
  apply bind_Ok_inv in Hd as (n & _ & Hd). apply bind_Ok_inv in Hd as (op & _ & Hd).
  apply bind_Ok_inv in Hd as (output & Hout & Hd). apply bind_Ok_inv in Hd as (o & _ & Hd).
  apply bind_Ok_inv in Hd as (out & Hdec & [= <-]). unfold deposit_output_try_from in Hdec.
  apply bind_Ok_inv in Hdec as (text & Htext & Hdec).
  apply bind_Ok_inv in Hdec as (bytes' & Hhex & Hdec).
  apply bind_Ok_inv in Hdec as (v & _ & [= <-]). simpl in *.
  apply ok_or_Ok in Hout, Htext. exists output, text, bytes'. split_and!; [done..|].
  by destruct (read_address_cases bytes') as [(b & Hb & ->)|[_ Hz]].
Qed.
End ProtoProps.
