(* ===== verification/Reconstruct.v ===== *)
(** Rebuilding the swaps from the blocks of the archive (lib/state/mod.rs,
    [reconstruct_swaps_from_blockchain]), the check at a node's start that calls for it
    (lib/node/mod.rs, [Node::new]), and the diagnosis of a swap's record. *)
From S2P Require Import Prelude Bytes SwapTypes TxTypes Externals Accumulator.
From S2P Require Import BlockTypes Rollback Bundle StateDb SwapRules Auth Block.
From S2P Require Import BlockSpec BlockProps BlockConnect Ledger Ancestry SideTips Archive.

Section Reconstruct.
Context {T : ExtTypes} {X : ExtFuns}.
Implicit Types (st : State) (ar : Archive) (tx : Transaction).

(** The archive's errors are wrapped into an error of the state by their text. *)
Inductive ReconstructError :=
| RcArchive (e : ArchiveError)
| RcState (e : Error).
Definition rc_archive {A} (m : res ArchiveError A) : res ReconstructError A :=
  match m with Ok a => Ok a | Err e => Err (RcArchive e) | Panic => Panic end.
Definition rc_state {A} (m : res Error A) : res ReconstructError A :=
  match m with Ok a => Ok a | Err e => Err (RcState e) | Panic => Panic end.

(** The blocks from the tip down; [fuel] bounds the line. *)
Fixpoint line_down (fuel : nat) ar (current_hash : option BlockHash) :
    res ArchiveError (list BlockHash) :=
  match current_hash with
  | None => Ok []
  | Some block_hash =>
      match fuel with
      | O => Panic
      | S fuel =>
          header ← get_header ar block_hash;
          rest ← line_down fuel ar (prev_side_hash header);
          Ok (block_hash :: rest)
      end
  end.

(** Locking the escrow of a created swap, where nothing is locked yet. *)
Definition reconstruct_locks (id : SwapId) tx st : State :=
  fold_left (λ st (p : OutPoint * Output),
      match content p.2 with
      | SwapPending _ output_swap_id =>
          if bool_decide (output_swap_id = id)
             && bool_decide (is_output_locked_to_swap st p.1 = None)
          then lock_output_to_swap p.1 id st else st
      | _ => st
      end) (regular_outputs (txid tx) (outputs tx)) st.

(** One transaction of a block at [height]: the state and the number of swaps. *)
Definition reconstruct_tx (height : Z) (acc : State * Z) tx : res Error (State * Z) :=
  let '(st, swap_count) := acc in
  filled ← fill_transaction st tx;
  match data tx with
  | SwapCreate id chain l1_txid_bytes required recipient amount l1_addr l1_amt =>
      let swap :=
        new_swap id L2ToL1 chain (from_bytes l1_txid_bytes) (Some required) recipient amount
          l1_addr l1_amt height None (address <$> head (spent_utxos filled)) in
      st ← save_swap swap (reconstruct_locks id tx st);
      Ok (st, u32_add swap_count 1)
  | SwapClaim id _ _ =>
      match get_swap st id with
      | Some swap =>
          st ← save_swap (mark_completed swap) (unlock_inputs id (inputs tx) st);
          Ok (st, swap_count)
      | None => Ok acc
      end
  | SwapAccept id l2_claimer_address =>
      match get_swap st id with
      | Some _ => Ok (reserve_swap id l2_claimer_address height st, swap_count)
      | None => Ok acc
      end
  | RegularTx => Ok acc
  end.

Definition reconstruct_block ar (acc : State * Z) (p : nat * BlockHash) :
    res ReconstructError (State * Z) :=
  let height := Z.of_nat p.1 `mod` 2 ^ 32 in
  _ ← rc_archive (get_header ar p.2);
  body ← rc_archive (get_body ar p.2);
  rc_state (foldM (reconstruct_tx height) acc (transactions body)).

Definition reconstruct_swaps_from_blockchain ar (tip_hash : option BlockHash) st :
    res ReconstructError (State * Z) :=
  match (match tip_hash with Some h => Some h | None => tip st end) with
  | None => Ok (st, 0)
  | Some tip =>
      _ ← rc_archive (archive_height ar tip);
      block_hashes ← rc_archive (line_down (S (size (headers ar))) ar (Some tip));
      foldM (reconstruct_block ar) (st, 0) (imap pair (reverse block_hashes))
  end.

(** [Node::new]: an error is logged, and the write transaction dropped. *)
Definition reconstruct_at_start ar st : State :=
  if bool_decide (find_corrupted_swaps st = []) then st
  else match reconstruct_swaps_from_blockchain ar None st with
       | Ok (st, _) => st
       | _ => st
       end.

(** ** [diagnose_swap] *)
Record SwapDiagnostic := mkSwapDiagnostic {
  diag_swap_id : SwapId;
  diag_exists : bool;
  diag_corrupted : bool;
  diag_can_deserialize : bool;
  diag_swap : option Swap;
}.
Definition diagnose_swap st (id : SwapId) : SwapDiagnostic :=
  match swaps st !! id with
  | Some (Decodes swap) => mkSwapDiagnostic id true false true (Some swap)
  | None => mkSwapDiagnostic id false false false None
  | Some Corrupted => mkSwapDiagnostic id true true false None
  end.

(** ** Rebuilding needs every input to be unspent *)
Lemma reconstruct_locks_ledger id tx st : ledger (reconstruct_locks id tx st) = ledger st.
Proof.
  apply fold_left_proj. intros t p. destruct (content p.2) as [| |v id']; [done..|].
  by destruct (bool_decide (id' = id) && _).
Qed.

Lemma reconstruct_tx_ledger h acc tx acc' :
  reconstruct_tx h acc tx = Ok acc' →
  ledger acc'.1 = ledger acc.1 ∧ ∀ i, i ∈ inputs tx → is_Some (utxos acc.1 !! i.1).
Proof.
  destruct acc as [st n]. unfold reconstruct_tx. intros H.
  apply bind_Ok_inv in H as (filled & Hf & H). split.
  - destruct (data tx) as [|id chain b r rc a l1 la|id c p|id c]; cbn [fst].
    + by injection H as <-.
    + apply bind_Ok_inv in H as (st1 & Hs%ledger_save_swap & [= <-]). cbn [fst].
      by rewrite Hs, reconstruct_locks_ledger.
    + destruct (get_swap st id); [|by injection H as <-].
      apply bind_Ok_inv in H as (st1 & Hs%ledger_save_swap & [= <-]). cbn [fst].
      by rewrite Hs, ledger_unlock_inputs.
    + by destruct (get_swap st id); injection H as <-.
  - intros i Hi. unfold fill_transaction in Hf. apply bind_Ok_inv in Hf as (spent & Hs & _).
    apply mapM_res_Forall2 in Hs.
    apply list_elem_of_lookup in Hi as [k Hk].
    destruct (Forall2_lookup_l _ _ _ _ _ Hs Hk) as (out & _ & Ho).
    apply ok_or_Ok in Ho. simpl. by eexists.
Qed.

Lemma reconstruct_txs_ledger h acc l acc' :
  foldM (reconstruct_tx h) acc l = Ok acc' →
  ledger acc'.1 = ledger acc.1 ∧ ∀ tx i, tx ∈ l → i ∈ inputs tx → is_Some (utxos acc.1 !! i.1).
Proof.
  revert acc. induction l as [|tx l IH]; intros acc H.
  { simpl in H. injection H as <-. split; [done|]. by intros tx i ?%elem_of_nil. }
  apply bind_Ok_inv in H as (acc1 & (Hl1 & H1)%reconstruct_tx_ledger & (Hl & H2)%IH).
  split; [congruence|]. intros tx' i [->|Htx]%elem_of_cons Hi; [by apply H1|].
  assert (utxos acc.1 = utxos acc1.1) as -> by (unfold ledger in Hl1; congruence).
  by eapply H2.
Qed.

(** The line of blocks from a tip down. *)
Inductive on_line ar : BlockHash → BlockHash → Prop :=
| on_line_tip h : on_line ar h h
| on_line_up h header p h' :
    headers ar !! h = Some header → prev_side_hash header = Some p → on_line ar p h' →
    on_line ar h h'.

Lemma line_down_elem fuel ar h l h' :
  line_down fuel ar (Some h) = Ok l → on_line ar h h' → h' ∈ l.
Proof.
  intros Hl Ho. revert fuel l Hl. induction Ho as [h|h header p h' Hh Hp _ IH]; intros fuel l Hl;
    destruct fuel as [|fuel]; try done; simpl in Hl;
    apply bind_Ok_inv in Hl as (header' & Hh' & Hl); apply bind_Ok_inv in Hl as (rest & Hr & [= <-]).
  - by left.
  - right. apply ok_or_Ok in Hh'. assert (header' = header) as -> by congruence.
    rewrite Hp in Hr. by eapply IH.
Qed.

Lemma reconstruct_blocks_ledger ar l acc acc' :
  foldM (reconstruct_block ar) acc l = Ok acc' →
  ledger acc'.1 = ledger acc.1 ∧
  ∀ k h, (k, h) ∈ l → ∃ body, bodies ar !! h = Some body ∧
    ∀ tx i, tx ∈ transactions body → i ∈ inputs tx → is_Some (utxos acc.1 !! i.1).
Proof.
  revert acc. induction l as [|[k h] l IH]; intros acc H.
  { simpl in H. injection H as <-. split; [done|]. by intros k h ?%elem_of_nil. }
  apply bind_Ok_inv in H as (acc1 & H1 & (Hl & H2)%IH).
  unfold reconstruct_block in H1. apply bind_Ok_inv in H1 as (header & _ & H1).
  apply bind_Ok_inv in H1 as (body & Hb & H1). cbn [snd] in Hb.
  destruct (get_body ar h) as [b|e|] eqn:Hbody; [|done..]. injection Hb as ->.
  apply ok_or_Ok in Hbody.
  destruct (foldM _ acc _) as [acc1'|e|] eqn:Hf; [|done..]. injection H1 as ->.
  apply reconstruct_txs_ledger in Hf as [Hl1 Hf]. split; [congruence|].
  intros k' h' [[= -> ->]|Hin]%elem_of_cons; [by exists body|].
  destruct (H2 _ _ Hin) as (body' & Hb' & Hin'). exists body'. split; [done|].
  assert (utxos acc.1 = utxos acc1.1) as -> by (unfold ledger in Hl1; congruence). exact Hin'.
Qed.

(** The swaps can be rebuilt only if every input of every transaction on the tip's
    line is unspent, although it is the blocks themselves that spent them: one
    transaction with a spent input anywhere, and nothing is rebuilt. *)
Theorem reconstruct_needs_unspent ar st b body tx i tip_ :
  tip st = Some tip_ → on_line ar tip_ b → bodies ar !! b = Some body →
  tx ∈ transactions body → i ∈ inputs tx → utxos st !! i.1 = None →
  (∀ st' n, reconstruct_swaps_from_blockchain ar None st ≠ Ok (st', n)) ∧
  reconstruct_at_start ar st = st.
Proof.
  intros Htip Hline Hbody Htx Hi Hspent.
  assert (∀ st' n, reconstruct_swaps_from_blockchain ar None st ≠ Ok (st', n)) as Hfail.
  { intros st' n H. unfold reconstruct_swaps_from_blockchain in H. rewrite Htip in H.
    apply bind_Ok_inv in H as (h & _ & H). apply bind_Ok_inv in H as (l & Hl & H).
    destruct (line_down _ _ _) as [l'|e|] eqn:Hd; [|done..]. injection Hl as ->.
    pose proof (line_down_elem _ _ _ _ _ Hd Hline) as Hin.
    apply reconstruct_blocks_ledger in H as [_ H].
    apply elem_of_reverse in Hin as Hin'. apply list_elem_of_lookup in Hin' as [k Hk].
    destruct (H k b) as (body' & Hb & Hall).
    { apply list_elem_of_lookup_2 with k. rewrite list_lookup_imap, Hk. done. }
    assert (body' = body) as -> by congruence.
    destruct (Hall tx i Htx Hi) as [out Ho]. simpl in Ho. congruence. }
  split; [exact Hfail|]. unfold reconstruct_at_start. case_bool_decide; [done|].
  destruct (reconstruct_swaps_from_blockchain ar None st) as [[st' n]|e|] eqn:Hr; [|done..].
  by destruct (Hfail st' n).
Qed.
End Reconstruct.
