(* ===== verification/ArchiveWrites.v ===== *)
(** Writing to the archive (lib/archive/mod.rs): headers, bodies, accumulators,
    mainchain headers and block infos, and the removal of blocks. *)
From S2P Require Import Prelude Bytes SwapTypes TxTypes Externals Accumulator.
From S2P Require Import BlockTypes Bundle StateDb Peg Ancestry SideTips Archive.

(** [iter.any(f)] with a test that may fail *)
Fixpoint anyM {E A} (f : A → res E bool) (l : list A) : res E bool :=
  match l with
  | [] => Ok false
  | x :: l => b ← f x; if b : bool then Ok true else anyM f l
  end.

Section ArchiveWrites.
Context {T : ExtTypes} {X : ExtFuns} {W : ExtWork} {I : HashIter}.
Implicit Types (ar : Archive) (header : Header) (body : Body).

Definition put_accumulator (block_hash : BlockHash) (accumulator : MemForest) ar : Archive :=
  {| ar with accumulators := <[block_hash := accumulator]> (accumulators ar) |}.

(** ** [put_header] *)

(** Whether a block verified by [parent_bmm_results] is in the ancestry of
    [main_block]. *)
Definition parent_committed ar (parent_bmm_results : gmap BtcBlockHash BmmResult)
    (main_block : BtcBlockHash) : res ArchiveError bool :=
  anyM (λ p : BtcBlockHash * BmmResult,
      if decide (p.2 = Verified) then is_main_descendant ar p.1 main_block
      else Ok false) (map_iter parent_bmm_results).

(** The result of the BMM request for a header in one mainchain block. *)
Definition bmm_result_at ar header
    (parent_bmm_results : option (gmap BtcBlockHash BmmResult))
    (main_block : BtcBlockHash) : res ArchiveError BmmResult :=
  info ← get_main_block_info ar main_block;
  match bmm_commitment info with
  | None => Ok Failed
  | Some commitment =>
      if decide (commitment = header_hash header) then
        main_header_info ← get_main_header_info ar main_block;
        if decide (prev_main_hash header = info_prev_block_hash main_header_info) then
          match parent_bmm_results with
          | None => Ok Verified
          | Some results =>
              b ← parent_committed ar results main_block;
              Ok (if b : bool then Verified else Failed)
          end
        else Ok Failed
      else Ok Failed
  end.

Definition header_height header ar : res ArchiveError Z :=
  match prev_side_hash header with
  | None => Ok 0
  | Some parent =>
      parent_height ← ok_or (block_hash_to_height ar !! parent) InvalidPrevSideHash;
      Ok (u32_add parent_height 1)
  end.

Definition store_header (block_hash : BlockHash) (height : Z) header ar : Archive :=
  {| ar with
     block_hash_to_height := <[block_hash := height]> (block_hash_to_height ar);
     headers := <[block_hash := header]> (headers ar) |}.

(** Add to the successors of the predecessor, then store the block's own. *)
Definition add_successor (predecessor : option BlockHash) (block_hash : BlockHash) ar :
    res ArchiveError Archive :=
  pred_successors ← get_successors ar predecessor;
  let succ := <[predecessor := {[ block_hash ]} ∪ pred_successors]> (successors ar) in
  let own := default ∅ (succ !! Some block_hash) in
  Ok {| ar with successors := <[Some block_hash := own]> succ |}.

(** Populate the exponential ancestors. *)
Definition store_row (block_hash : BlockHash) (parent : option BlockHash) (height : Z) ar :
    res ArchiveError Archive :=
  row ← exponential_row (side_lineage ar) parent height;
  Ok {| ar with exponential_ancestors := <[block_hash := row]> (exponential_ancestors ar) |}.

(** Populate the BMM verifications. *)
Definition store_bmm_results (block_hash : BlockHash) header ar : res ArchiveError Archive :=
  let parent_bmm_results := get_bmm_results ar <$> prev_side_hash header in
  main_blocks ← get_main_successors ar (prev_main_hash header);
  results ← foldM (λ results main_block,
      r ← bmm_result_at ar header parent_bmm_results main_block;
      Ok (<[main_block := r]> results))
    (get_bmm_results ar block_hash) (set_iter main_blocks);
  Ok {| ar with bmm_results := <[block_hash := results]> (bmm_results ar) |}.

Definition put_header header ar : res ArchiveError Archive :=
  height ← header_height header ar;
  let block_hash := header_hash header in
  ar ← add_successor (prev_side_hash header) block_hash
         (store_header block_hash height header ar);
  ar ← store_row block_hash (prev_side_hash header) height ar;
  store_bmm_results block_hash header ar.

(** ** Mainchain blocks *)
Definition put_main_block_info (main_hash : BtcBlockHash) (block_info : BlockInfo) ar :
    res ArchiveError Archive :=
  main_header_info ← get_main_header_info ar main_hash;
  _ ← if decide (info_prev_block_hash main_header_info = zero_hash) then Ok ()
      else
        _ ← get_main_block_info ar (info_prev_block_hash main_header_info);
        Ok ();
  let ar := {| ar with
    main_block_infos := <[main_hash := block_info]> (main_block_infos ar) |} in
  match bmm_commitment block_info with
  | None => Ok ar
  | Some commitment =>
      match headers ar !! commitment with
      | None => Ok ar
      | Some header =>
          bmm_result ←
            if decide (prev_main_hash header = info_prev_block_hash main_header_info) then
              match prev_side_hash header with
              | Some parent =>
                  b ← parent_committed ar (get_bmm_results ar parent) main_hash;
                  Ok (if b : bool then Verified else Failed)
              | None => Ok Verified
              end
            else Ok Failed;
          Ok {| ar with
            bmm_results :=
              <[commitment := <[main_hash := bmm_result]> (get_bmm_results ar commitment)]>
                (bmm_results ar) |}
      end
  end.

(** The height and the total work of a new mainchain header. *)
Definition main_height_and_work (header_info : BlockHeaderInfo) ar :
    res ArchiveError (Z * Z) :=
  let prev := info_prev_block_hash header_info in
  if decide (prev = zero_hash) then Ok (0, info_work header_info)
  else
    prev_height ← get_main_height ar prev;
    prev_work ← get_total_work ar prev;
    Ok (u32_add prev_height 1, work_add prev_work (info_work header_info)).

Definition store_main_header (header_info : BlockHeaderInfo) (height work : Z) ar : Archive :=
  let block_hash := info_block_hash header_info in
  {| ar with
     main_block_hash_to_height := <[block_hash := height]> (main_block_hash_to_height ar);
     main_header_infos := <[block_hash := header_info]> (main_header_infos ar);
     total_work := <[block_hash := work]> (total_work ar) |}.

(** Add to the successors of the predecessor, then store the block's own. *)
Definition add_main_successor (predecessor block_hash : BtcBlockHash) ar :
    res ArchiveError Archive :=
  pred_successors ← get_main_successors ar predecessor;
  let succ := <[predecessor := {[ block_hash ]} ∪ pred_successors]> (main_successors ar) in
  let own := default ∅ (succ !! block_hash) in
  Ok {| ar with main_successors := <[block_hash := own]> succ |}.

(** Populate the exponential ancestors. *)
Definition store_main_row (block_hash parent : BtcBlockHash) (height : Z) ar :
    res ArchiveError Archive :=
  row ← exponential_row (main_lineage ar) (Some parent) height;
  Ok {| ar with
    exponential_main_ancestors := <[block_hash := row]> (exponential_main_ancestors ar) |}.

Definition put_main_header_info (header_info : BlockHeaderInfo) ar :
    res ArchiveError Archive :=
  let prev := info_prev_block_hash header_info in
  _ ← ensure (match main_header_infos ar !! prev with
              | None => bool_decide (prev = zero_hash)
              | Some _ => true
              end) (NoMainHeaderInfo prev);
  '(height, work) ← main_height_and_work header_info ar;
  ar ← add_main_successor prev (info_block_hash header_info)
         (store_main_header header_info height work ar);
  store_main_row (info_block_hash header_info) prev height ar.

(** ** Bodies *)

(** The closure [update_side_tips] of [put_body]: connects a block in each
    mainchain block that verifies it, and queues its successors. *)
Definition connect_verified (mainchain_tip_hash : BtcBlockHash) (block_hash : BlockHash)
    header (acc : Archive * bool) (p : BtcBlockHash * BmmResult) :
    res ArchiveError (Archive * bool) :=
  let '(ar, connected_sidechain_tip) := acc in
  let '(main_block_hash, bmm_result) := p in
  match bmm_result with
  | Failed => Ok (ar, connected_sidechain_tip)
  | Verified =>
      if match prev_side_hash header with
         | Some side_parent =>
             bool_decide (sidechain_tips (side_tips ar) !! side_parent = None)
         | None => false
         end
      then Ok (ar, connected_sidechain_tip)
      else
        in_main ← is_main_descendant ar main_block_hash mainchain_tip_hash;
        if in_main : bool then
          cumulative_work ← get_total_work ar main_block_hash;
          tips ← from_side_tips
            (connect_sidechain_tip main_block_hash cumulative_work block_hash
               (mkHeaderData (prev_side_hash header) (prev_main_hash header))
               (side_tips ar));
          Ok ({| ar with side_tips := tips |}, true)
        else Ok (ar, connected_sidechain_tip)
  end.

Definition update_side_tips (mainchain_tip_hash : BtcBlockHash) (block_hash : BlockHash)
    header (acc : Archive * list BlockHash) : res ArchiveError (Archive * list BlockHash) :=
  let '(ar, queue) := acc in
  '(ar, connected_sidechain_tip) ←
    foldM (connect_verified mainchain_tip_hash block_hash header) (ar, false)
      (map_iter (get_bmm_results ar block_hash));
  if connected_sidechain_tip : bool then
    succ ← get_successors ar (Some block_hash);
    Ok (ar, queue ++ set_iter succ)
  else Ok (ar, queue).

Fixpoint connect_queue (fuel : nat) (mainchain_tip_hash : BtcBlockHash)
    (acc : Archive * list BlockHash) : res ArchiveError Archive :=
  match acc with
  | (ar, []) => Ok ar
  | (ar, block_hash :: queue) =>
      match fuel with
      | O => Panic
      | S fuel =>
          if contains_body ar block_hash then
            header ← get_header ar block_hash;
            acc ← update_side_tips mainchain_tip_hash block_hash header (ar, queue);
            connect_queue fuel mainchain_tip_hash acc
          else connect_queue fuel mainchain_tip_hash (ar, queue)
      end
  end.

(** A block is queued at most once, as the successor of its parent, so that there
    are at most as many turns as headers. *)
Definition put_body (block_hash : BlockHash) body ar : res ArchiveError Archive :=
  header ← get_header ar block_hash;
  let ar := {| ar with bodies := <[block_hash := body]> (bodies ar) |} in
  let main_tip := mainchain_tip_hash (mainchain_tip (side_tips ar)) in
  acc ← update_side_tips main_tip block_hash header (ar, []);
  connect_queue (size (headers ar)) main_tip acc.

Fixpoint disconnect_queue (fuel : nat) (queue : list BlockHash) ar :
    res ArchiveError Archive :=
  match queue with
  | [] => Ok ar
  | block_hash :: queue =>
      match fuel with
      | O => Panic
      | S fuel =>
          match sidechain_tips (side_tips ar) !! block_hash with
          | None => disconnect_queue fuel queue ar
          | Some _ =>
              let ar := {| ar with
                side_tips := disconnect_sidechain_tip block_hash (side_tips ar) |} in
              succ ← get_successors ar (Some block_hash);
              disconnect_queue fuel (queue ++ set_iter succ) ar
          end
      end
  end.

Definition delete_body (block_hash : BlockHash) ar : res ArchiveError Archive :=
  let ar := {| ar with bodies := delete block_hash (bodies ar) |} in
  disconnect_queue (S (size (headers ar))) [block_hash] ar.

(** ** [invalidate_block] *)
Definition invalidate_one (block_hash : BlockHash) ar : Archive :=
  let ar := {| ar with
    accumulators := delete block_hash (accumulators ar);
    block_hash_to_height := delete block_hash (block_hash_to_height ar);
    bodies := delete block_hash (bodies ar);
    exponential_ancestors := delete block_hash (exponential_ancestors ar) |} in
  let ar :=
    match headers ar !! block_hash with
    | Some header =>
        match successors ar !! prev_side_hash header with
        | Some pred_successors =>
            {| ar with successors :=
                 <[prev_side_hash header := pred_successors ∖ {[ block_hash ]}]>
                   (successors ar) |}
        | None => ar
        end
    | None => ar
    end in
  {| ar with
     headers := delete block_hash (headers ar);
     invalid_blocks := {[ block_hash ]} ∪ invalid_blocks ar |}.

(** The stack of the loop, its top first. *)
Fixpoint invalidate_loop (fuel : nat) (stack : list BlockHash) ar : option Archive :=
  match stack with
  | [] => Some ar
  | block_hash :: stack =>
      match fuel with
      | O => None
      | S fuel =>
          let ar := invalidate_one block_hash ar in
          let stack :=
            match successors ar !! Some block_hash with
            | Some succ => reverse (set_iter succ) ++ stack
            | None => stack
            end in
          invalidate_loop fuel stack
            {| ar with successors := delete (Some block_hash) (successors ar) |}
      end
  end.

Definition invalidate_block (block_hash : BlockHash) ar : option Archive :=
  invalidate_loop (S (size (headers ar))) [block_hash] ar.
End ArchiveWrites.
