(* ===== verification/ArchiveProps.v ===== *)
(** The archive's two trees stay well-formed, and what its queries return then
    (lib/archive/mod.rs). *)
From S2P Require Import Prelude Bytes SwapTypes TxTypes Externals Accumulator.
From S2P Require Import BlockTypes Bundle StateDb Peg Ancestry BlockTree SideTips.
From S2P Require Import Archive ArchiveWrites.

(** ** The two instances *)
Section Trees.
Context {T : ExtTypes} {X : ExtFuns}.

Definition side_ops : TreeOps BlockHash Header (option BlockHash) ArchiveError := {|
  t_hash := header_hash;
  t_prev := prev_side_hash;
  t_slot := λ o, o;
  t_parent := λ header, expect (prev_side_hash header);
  t_no_header := NoHeader;
  t_no_height := NoHeight;
  t_no_row := DbMissingKey;
  t_no_ancestor := NoAncestor;
|}.

(** The first mainchain blocks are those above the zero hash. *)
Definition main_prev (info : BlockHeaderInfo) : option BtcBlockHash :=
  if decide (info_prev_block_hash info = zero_hash) then None
  else Some (info_prev_block_hash info).

Definition main_ops : TreeOps BtcBlockHash BlockHeaderInfo BtcBlockHash ArchiveError := {|
  t_hash := info_block_hash;
  t_prev := main_prev;
  t_slot := default zero_hash;
  t_parent := λ info, Ok (info_prev_block_hash info);
  t_no_header := NoMainHeaderInfo;
  t_no_height := NoMainHeight;
  t_no_row := DbMissingKey;
  t_no_ancestor := NoMainAncestor;
|}.

#[export] Instance side_laws : TreeLaws side_ops.
Proof. split; [by simpl; intros v p ->|by intros k k' [=]]. Qed.
#[export] Instance main_laws : TreeLaws main_ops.
Proof.
  split; [|done]. intros v p. simpl. unfold main_prev. by case_decide; intros [= <-].
Qed.

Definition side_tree (ar : Archive) : Tree BlockHash Header (option BlockHash) :=
  mkTree (headers ar) (block_hash_to_height ar) (exponential_ancestors ar) (successors ar).
Definition main_tree (ar : Archive) : Tree BtcBlockHash BlockHeaderInfo BtcBlockHash :=
  mkTree (main_header_infos ar) (main_block_hash_to_height ar)
    (exponential_main_ancestors ar) (main_successors ar).

(** The archive reads its trees as [BlockTree.v] does. *)
Lemma side_lineage_tree ar : side_lineage ar = tree_lineage side_ops (side_tree ar).
Proof. done. Qed.
Lemma main_lineage_tree ar : main_lineage ar = tree_lineage main_ops (main_tree ar).
Proof. done. Qed.
End Trees.

Section ArchiveProps.
Context {T : ExtTypes} {X : ExtFuns} {W : ExtWork} {I : HashIter}.
Implicit Types (ar : Archive) (header hd : Header) (info : BlockHeaderInfo) (h n : Z).

(** The total work of a mainchain block is its own on top of its parent's. *)
Definition work_wf ar : Prop :=
  ∀ b info, main_header_infos ar !! b = Some info →
    ∃ w, total_work ar !! b = Some w ∧
    match main_prev info with
    | None => w = info_work info
    | Some p => ∃ w', total_work ar !! p = Some w' ∧ w = work_add w' (info_work info)
    end.

Record archive_wf ar : Prop := {
  aw_side : tree_wf side_ops (side_tree ar);
  aw_main : tree_wf main_ops (main_tree ar);
  aw_work : work_wf ar;
}.

(** Parents, by the headers alone. *)
Definition side_parent ar := parent_of side_ops (side_tree ar).
Definition main_parent ar := parent_of main_ops (main_tree ar).

Lemma archive_new_wf : archive_wf archive_new.
Proof.
  assert (∀ {K V S E} `{Countable K, Countable S} (O : TreeOps K V S E) m,
    m !! t_slot O None = Some ∅ → (∀ o s, m !! o = Some s → s = ∅) →
    tree_wf O (mkTree ∅ ∅ ∅ m : Tree K V S)) as Hempty.
  { intros K V S0 E ? ? ? ? O m Hm Hs. split; try done.
    - by intros k [? Hk].
    - by intros b [? Hb].
    - intros o s c Ho _. simpl in Ho. rewrite (Hs _ _ Ho). simpl. set_solver. }
  split; [apply Hempty..|by intros b info Hb].
  - done.
  - assert (successors archive_new = {[ None := ∅ ]}) as -> by done.
    by intros o s [<- <-]%lookup_singleton_Some.
  - done.
  - assert (main_successors archive_new = {[ zero_hash := ∅ ]}) as -> by done.
    by intros o s [<- <-]%lookup_singleton_Some.
Qed.

(** ** [put_header] *)

(** The parts of the archive that a new sidechain header leaves alone. *)
Record same_main ar ar' : Prop := {
  sm_tree : main_tree ar' = main_tree ar;
  sm_bodies : bodies ar' = bodies ar;
  sm_infos : main_block_infos ar' = main_block_infos ar;
  sm_work : total_work ar' = total_work ar;
  sm_tips : side_tips ar' = side_tips ar;
}.

Lemma get_successors_Ok ar o s : get_successors ar o = Ok s ↔ successors ar !! o = Some s.
Proof.
  unfold get_successors. destruct (successors ar !! o); [naive_solver|].
  destruct o; simpl; naive_solver.
Qed.

Lemma put_header_inv header ar ar' :
  put_header header ar = Ok ar' →
  ∃ h, header_height header ar = Ok h ∧
    tree_put side_ops (side_tree ar) header h (side_tree ar') ∧ same_main ar ar'.
Proof.
  unfold put_header. intros H. apply bind_Ok_inv in H as (h & Hh & H).
  apply bind_Ok_inv in H as (ar1 & H1 & H). apply bind_Ok_inv in H as (ar2 & H2 & H).
  unfold add_successor in H1. apply bind_Ok_inv in H1 as (s & Hs & [= <-]).
  apply get_successors_Ok in Hs. unfold store_row in H2.
  apply bind_Ok_inv in H2 as (row & Hrow & [= <-]). unfold store_bmm_results in H.
  apply bind_Ok_inv in H as (main & _ & H). apply bind_Ok_inv in H as (results & _ & [= <-]).
  exists h. split_and!; [done| |by split]. split; simpl; [done|done| |].
  - exists row, (prev_side_hash header). split_and!; [done|done|exact Hrow].
  - by exists s.
Qed.

(** The height of a header above a known block. *)
Lemma header_height_above header ar h :
  tree_wf side_ops (side_tree ar) →
  (∀ p hp, prev_side_hash header = Some p → block_hash_to_height ar !! p = Some hp →
    hp < u32_MAX) →
  header_height header ar = Ok h →
  height_above (side_tree ar) (prev_side_hash header) h ∧ is_u32 h.
Proof.
  intros Hwf Hmax Hh. unfold header_height in Hh.
  destruct (prev_side_hash header) as [p|] eqn:Hp; simpl.
  - apply bind_Ok_inv in Hh as (hp & Hhp%ok_or_Ok & [= <-]).
    pose proof (tw_height _ _ Hwf p hp Hhp) as Hkp.
    destruct (known_height side_ops _ Hwf p Hkp) as (hp' & Hhp' & [H0 _]). simpl in Hhp'.
    simplify_eq. pose proof (Hmax p hp eq_refl Hhp) as Hlt.
    rewrite u32_add_small by lia. split; [|split; lia].
    split_and!; [lia|done|]. rewrite Hhp. f_equal. lia.
  - simplify_eq. split; [done|]. split; [done|]. unfold u32_MAX. lia.
Qed.

(** Storing a header keeps the archive well-formed: heights, rows of exponential
    links and successors agree with the headers afterwards.  The header may be
    there already; nothing of the mainchain's part, no body and no side tip
    changes. *)
Theorem put_header_wf header ar ar' :
  archive_wf ar →
  (∀ hd, headers ar !! header_hash header = Some hd → hd = header) →
  (∀ p h, prev_side_hash header = Some p → block_hash_to_height ar !! p = Some h →
    h < u32_MAX) →
  put_header header ar = Ok ar' →
  archive_wf ar' ∧ headers ar' = <[header_hash header := header]> (headers ar) ∧
  same_main ar ar'.
Proof.
  intros [Hside Hmain Hwork] Hcol Hmax (h & Hh & Hput & Hsame)%put_header_inv.
  destruct (header_height_above header ar h) as (Habove & Hu); [done..|].
  split_and!; [|apply (tp_headers _ _ _ _ _ Hput)|done]. split.
  - by eapply (tree_put_wf side_ops header h (side_tree ar)).
  - by rewrite (sm_tree _ _ Hsame).
  - pose proof (f_equal t_headers (sm_tree _ _ Hsame)) as Hinfos. simpl in Hinfos.
    unfold work_wf. by rewrite Hinfos, (sm_work _ _ Hsame).
Qed.

(** ** [put_main_header_info] *)
Lemma main_height_and_work_inv info ar h w :
  main_height_and_work info ar = Ok (h, w) →
  match main_prev info with
  | None => h = 0 ∧ w = info_work info
  | Some p => ∃ hp wp, main_block_hash_to_height ar !! p = Some hp ∧
      total_work ar !! p = Some wp ∧ h = u32_add hp 1 ∧ w = work_add wp (info_work info)
  end.
Proof.
  unfold main_height_and_work, main_prev. case_decide; [naive_solver|].
  intros H0. apply bind_Ok_inv in H0 as (hp & Hhp%ok_or_Ok & H0).
  apply bind_Ok_inv in H0 as (wp & Hwp%ok_or_Ok & [= <- <-]). by exists hp, wp.
Qed.

Lemma put_main_header_info_inv info ar ar' :
  put_main_header_info info ar = Ok ar' →
  ∃ h w, main_height_and_work info ar = Ok (h, w) ∧
    tree_put main_ops (main_tree ar) info h (main_tree ar') ∧
    total_work ar' = <[info_block_hash info := w]> (total_work ar) ∧
    side_tree ar' = side_tree ar.
Proof.
  unfold put_main_header_info. intros H. apply bind_Ok_inv in H as ([] & _ & H).
  apply bind_Ok_inv in H as ([h w] & Hhw & H). apply bind_Ok_inv in H as (ar1 & H1 & H).
  unfold add_main_successor in H1. apply bind_Ok_inv in H1 as (s & Hs%ok_or_Ok & [= <-]).
  unfold store_main_row in H. apply bind_Ok_inv in H as (row & Hrow & [= <-]).
  exists h, w. split_and!; [done| |done|done].
  assert (default zero_hash (main_prev info) = info_prev_block_hash info) as Hprev.
  { unfold main_prev. by case_decide. }
  split; [done|done| |].
  - exists row, (Some (info_prev_block_hash info)). split_and!; [done| |exact Hrow].
    intros p. simpl. unfold main_prev. case_decide; naive_solver.
  - simpl. rewrite Hprev. by exists s.
Qed.

(** Storing a mainchain header keeps the archive well-formed, the total work
    included; nothing of the sidechain's tree changes. *)
Theorem put_main_header_info_wf info ar ar' :
  archive_wf ar → info_block_hash info ≠ zero_hash →
  (∀ i, main_header_infos ar !! info_block_hash info = Some i → i = info) →
  (∀ h, main_block_hash_to_height ar !! info_prev_block_hash info = Some h → h < u32_MAX) →
  put_main_header_info info ar = Ok ar' →
  archive_wf ar' ∧
  main_header_infos ar' = <[info_block_hash info := info]> (main_header_infos ar) ∧
  side_tree ar' = side_tree ar.
Proof.
  intros [Hside Hmain Hwork] Hnz Hcol Hmax H.
  apply put_main_header_info_inv in H as (h & w & Hhw & Hput & Hw & Hsame).
  apply main_height_and_work_inv in Hhw.
  assert (height_above (main_tree ar) (main_prev info) h ∧ is_u32 h) as (Habove & Hu).
  { unfold main_prev in *. case_decide as Hz.
    - destruct Hhw as [-> _]. split; [done|]. split; [done|]. unfold u32_MAX. lia.
    - destruct Hhw as (hp & wp & Hhp & _ & -> & _).
      pose proof (tw_height _ _ Hmain _ hp Hhp) as Hkp.
      destruct (known_height main_ops _ Hmain _ Hkp) as (hp' & Hhp' & [H0 _]).
      simpl in Hhp'. simplify_eq. pose proof (Hmax hp Hhp).
      rewrite u32_add_small by lia. split; [|split; lia]. split_and!; [lia|done|].
      simpl. rewrite Hhp. f_equal. lia. }
  split_and!; [|apply (tp_headers _ _ _ _ _ Hput)|done]. split.
  - by rewrite Hsame.
  - by eapply (tree_put_wf main_ops info h (main_tree ar)).
  - pose proof (tp_headers _ _ _ _ _ Hput) as Hinfos. simpl in Hinfos.
    unfold work_wf. rewrite Hinfos, Hw.
    assert (∀ b w', is_Some (main_header_infos ar !! b) → total_work ar !! b = Some w' →
      <[info_block_hash info := w]> (total_work ar) !! b = Some w') as Hold.
    { intros b w' [i Hi] Hw'. destruct (decide (b = info_block_hash info)) as [->|];
        [|by rewrite lookup_insert_ne].
      rewrite lookup_insert_eq. f_equal. rewrite (Hcol i Hi) in Hi.
      destruct (Hwork _ _ Hi) as (w2 & Hw2 & Hp2). simplify_eq.
      destruct (main_prev info) as [p|]; [|naive_solver].
      destruct Hhw as (? & wp & _ & Hwp & _ & ->), Hp2 as (wp' & Hwp' & ->). congruence. }
    intros b i Hi. destruct (decide (b = info_block_hash info)) as [->|Hne].
    + rewrite lookup_insert_eq in Hi. injection Hi as <-. exists w.
      rewrite lookup_insert_eq. split; [done|].
      unfold height_above in Habove. destruct (main_prev info) as [p|]; [|naive_solver].
      destruct Hhw as (? & wp & _ & Hwp & _ & ->), Habove as (_ & Hkp & _).
      exists wp. split; [|done]. by apply Hold.
    + rewrite lookup_insert_ne in Hi by done. destruct (Hwork b i Hi) as (w' & Hw' & Hp).
      exists w'. split; [apply Hold; [by eexists|done]|].
      destruct (tw_header _ _ Hmain b i Hi) as (_ & _ & h' & _ & Hab). simpl in Hab.
      destruct (main_prev i) as [p|]; [|done]. destruct Hp as (wp & Hwp & ->).
      destruct Hab as (_ & Hkp & _). exists wp. split; [|done]. by apply Hold.
Qed.

(** ** Queries *)

(** In a well-formed archive the query for the [n]th ancestor returns the block
    [n] parents before, in either tree, if there is one, and the error that names
    the request otherwise; the loop over the exponential links needs no more turns
    than a machine integer has bits. *)
Theorem get_nth_ancestor_spec ar n :
  archive_wf ar → 0 ≤ n →
  (∀ b h, block_hash_to_height ar !! b = Some h →
    (n ≤ h → ∃ a, get_nth_ancestor ar b n = Ok a ∧
      nsteps (side_parent ar) (Z.to_nat n) b a) ∧
    (h < n → get_nth_ancestor ar b n = Err (NoAncestor b n))) ∧
  (∀ b h, main_block_hash_to_height ar !! b = Some h →
    (n ≤ h → ∃ a, get_nth_main_ancestor ar b n = Ok a ∧
      nsteps (main_parent ar) (Z.to_nat n) b a) ∧
    (h < n → get_nth_main_ancestor ar b n = Err (NoMainAncestor b n))).
Proof.
  intros [Hside Hmain _] Hn. split; intros b h Hb.
  - by apply (tree_nth_ancestor side_ops (side_tree ar)).
  - by apply (tree_nth_ancestor main_ops (main_tree ar)).
Qed.

Lemma is_main_descendant_ok ar a b :
  archive_wf ar → is_Some (main_header_infos ar !! a) → is_Some (main_header_infos ar !! b) →
  ∃ r : bool, is_main_descendant ar a b = Ok r ∧ (r = true ↔ rtc (main_parent ar) b a).
Proof. intros [_ Hmain _] Ha Hb. by apply (tree_descends main_ops (main_tree ar)). Qed.

(** For two stored blocks the test for descent says whether the one is reached
    from the other along parents. *)
Theorem is_descendant_spec ar a b :
  archive_wf ar → is_Some (headers ar !! a) → is_Some (headers ar !! b) →
  ∃ r : bool, is_descendant ar a b = Ok r ∧ (r = true ↔ rtc (side_parent ar) b a).
Proof. intros [Hside _ _] Ha Hb. by apply (tree_descends side_ops (side_tree ar)). Qed.

(** C34: For two stored blocks the query for the last common ancestor returns the
    common ancestor that descends from all others, and [None] exactly if the blocks
    have no ancestor in common. *)
Theorem last_common_ancestor_spec ar b0 b1 h0 h1 :
  archive_wf ar →
  block_hash_to_height ar !! b0 = Some h0 → block_hash_to_height ar !! b1 = Some h1 →
  2 * (h0 `min` h1) ≤ u32_MAX →
  (∃ c, last_common_ancestor ar b0 b1 = Ok (Some c) ∧
    last_common side_ops (side_tree ar) b0 b1 c) ∨
  (last_common_ancestor ar b0 b1 = Ok None ∧
    ∀ c, rtc (side_parent ar) b0 c → rtc (side_parent ar) b1 c → False).
Proof.
  intros [Hside _ _] H0 H1 Hmax. unfold last_common_ancestor, get_nth_ancestor.
  rewrite side_lineage_tree.
  destruct (tree_last_common side_ops (side_tree ar) Hside b0 b1 h0 h1)
    as (a0 & a1 & -> & Heq & Hne); [done..|]. rewrite bind_Ok.
  destruct (decide (a0 = a1)) as [->|Hd]; [left; eauto|].
  destruct (Hne Hd) as (g0 & g1 & -> & -> & Hg & Hs). rewrite !bind_Ok.
  destruct (decide (g0 = g1)) as [->|Hgd].
  - destruct Hs as (c & -> & Hc); [done..|]. left. by exists c.
  - right. split; [done|]. intros c Hc0 Hc1. by apply Hgd, Hg; exists c.
Qed.

(** The mainchain's version has no answer for blocks without a common ancestor; for
    the others it is the same. *)
Lemma last_common_main_ancestor_ok ar b0 b1 h0 h1 c :
  archive_wf ar →
  main_block_hash_to_height ar !! b0 = Some h0 →
  main_block_hash_to_height ar !! b1 = Some h1 → 2 * (h0 `min` h1) ≤ u32_MAX →
  rtc (main_parent ar) b0 c → rtc (main_parent ar) b1 c →
  ∃ a, last_common_main_ancestor ar b0 b1 = Ok a ∧
    last_common main_ops (main_tree ar) b0 b1 a.
Proof.
  intros [_ Hmain _] H0 H1 Hmax Hc0 Hc1. unfold last_common_main_ancestor.
  rewrite main_lineage_tree.
  destruct (tree_last_common main_ops (main_tree ar) Hmain b0 b1 h0 h1)
    as (a0 & a1 & -> & Heq & Hne); [done..|]. rewrite bind_Ok.
  destruct (decide (a0 = a1)) as [->|Hd]; [eauto|].
  destruct (Hne Hd) as (g0 & g1 & _ & _ & Hg & Hs). apply Hs; [|done].
  apply Hg. by exists c.
Qed.

(** Two mainchain blocks share a lineage if one descends from the other. *)
Lemma shared_mainchain_lineage_ok ar b0 b1 h0 h1 :
  archive_wf ar →
  main_block_hash_to_height ar !! b0 = Some h0 →
  main_block_hash_to_height ar !! b1 = Some h1 →
  ∃ r : bool, shared_mainchain_lineage ar b0 b1 = Ok r ∧
    (r = true ↔ rtc (main_parent ar) b0 b1 ∨ rtc (main_parent ar) b1 b0).
Proof.
  intros [_ Hmain _] H0 H1. unfold shared_mainchain_lineage. rewrite main_lineage_tree.
  destruct (tree_shared main_ops (main_tree ar) Hmain b0 b1 h0 h1)
    as (a0 & a1 & -> & Hiff); [done..|]. eexists. split; [done|].
  by rewrite bool_decide_eq_true.
Qed.
End ArchiveProps.
