(* ===== verification/Invalidate.v ===== *)
(** Invalidating a block removes it and its descendants from the archive
    ([invalidate_block] of lib/archive/mod.rs). *)
From S2P Require Import Prelude Bytes SwapTypes TxTypes Externals Accumulator.
From S2P Require Import BlockTypes Bundle StateDb Peg Ancestry BlockTree SideTips.
From S2P Require Import Archive ArchiveWrites ArchiveProps.

(** A map without the keys of a list. *)
Abbreviation without R m := (foldr delete m R) (only parsing).

Lemma lookup_without {K V} `{Countable K} (R : list K) (m : gmap K V) c :
  without R m !! c = if decide (c ∈ R) then None else m !! c.
Proof.
  case_decide as Hin; [by apply lookup_foldr_delete|by apply lookup_foldr_delete_not_elem_of].
Qed.

Section Invalidate.
Context {T : ExtTypes} {X : ExtFuns} {W : ExtWork} {I : HashIter} {IL : HashIterLaws I}.
Context (b : BlockHash) (ar : Archive) (Hwf : archive_wf ar).
Implicit Types (c p x : BlockHash) (cur : Archive) (R stack : list BlockHash).

(** [c] descends from [b], or is [b]. *)
Abbreviation below c := (rtc (side_parent ar) c b).

Lemma wf_side : tree_wf side_ops (side_tree ar).
Proof. apply Hwf. Qed.

Lemma side_parent_known c p : side_parent ar c p →
  is_Some (headers ar !! c) ∧ is_Some (headers ar !! p).
Proof.
  intros (hd & Hc & Hp). simpl in Hc. split; [by eexists|].
  destruct (tw_header _ _ wf_side c hd Hc) as (_ & _ & h & _ & Hab).
  rewrite Hp in Hab. by destruct Hab as (_ & Hk & _).
Qed.

Lemma side_parent_height c p h : side_parent ar c p → block_hash_to_height ar !! c = Some h →
  0 < h ∧ block_hash_to_height ar !! p = Some (h - 1).
Proof.
  intros (hd & Hc & Hp) Hh. simpl in Hc.
  destruct (tw_header _ _ wf_side c hd Hc) as (_ & _ & h' & Hh' & Hab). simpl in Hh'.
  simplify_eq. rewrite Hp in Hab. by destruct Hab as (Hpos & _ & ?).
Qed.

(** Heights grow along descent, so nothing is below its own child. *)
Lemma below_height c x h : rtc (side_parent ar) c x → block_hash_to_height ar !! c = Some h →
  ∃ hx, block_hash_to_height ar !! x = Some hx ∧ hx ≤ h.
Proof.
  intros Hr. revert h. induction Hr as [c|c p x Hp Hr IH]; intros h Hh; [by exists h|].
  destruct (side_parent_height c p h Hp Hh) as [Hpos Hhp].
  destruct (IH _ Hhp) as (hx & Hx & Hle). exists hx. split; [done|lia].
Qed.

Lemma not_below_child c p : side_parent ar c p → ¬ rtc (side_parent ar) p c.
Proof.
  intros Hp Hr. destruct (side_parent_known c p Hp) as [Hc _].
  destruct (known_height side_ops _ wf_side c Hc) as (h & Hh & _). simpl in Hh.
  destruct (side_parent_height c p h Hp Hh) as [_ Hhp].
  destruct (below_height p c (h - 1) Hr Hhp) as (h' & Hh' & Hle). simplify_eq. lia.
Qed.

(** The stored successors of a block are its children. *)
Lemma successors_children x s c : successors ar !! Some x = Some s → c ∈ s ↔ side_parent ar c x.
Proof. intros Hs. by apply (tw_children _ _ wf_side (Some x) s c Hs). Qed.

(** The successors of [b]'s parent, without [b]. *)
Definition successors_above : gmap (option BlockHash) (gset BlockHash) :=
  match headers ar !! b with
  | Some hd => alter (.∖ {[ b ]}) (prev_side_hash hd) (successors ar)
  | None => successors ar
  end.

(** The archive without the blocks of [R]. *)
Record removed R cur : Prop := {
  rm_accumulators : accumulators cur = without R (accumulators ar);
  rm_heights : block_hash_to_height cur = without R (block_hash_to_height ar);
  rm_bodies : bodies cur = without R (bodies ar);
  rm_rows : exponential_ancestors cur = without R (exponential_ancestors ar);
  rm_headers : headers cur = without R (headers ar);
  rm_invalid : invalid_blocks cur = list_to_set R ∪ invalid_blocks ar;
  rm_successors : successors cur = without (Some <$> R) successors_above;
  rm_main : main_tree cur = main_tree ar;
  rm_work : total_work cur = total_work ar;
}.

(** The blocks of [R] are done, those of [stack] wait: together they are different
    blocks below [b], closed under parents, and the blocks below [b] that are
    missing are below one that waits. *)
Record progress R stack : Prop := {
  pg_nodup : NoDup (R ++ stack);
  pg_first : b ∈ R;
  pg_below c : c ∈ R ++ stack → below c ∧ (c = b ∨ ∃ p, p ∈ R ∧ side_parent ar c p);
  pg_cover c p : side_parent ar c p → p ∈ R → c ∈ R ++ stack;
}.

Lemma side_parent_det c p p' : side_parent ar c p → side_parent ar c p' → p = p'.
Proof. intros (hd & Hc & Hp) (hd' & Hc' & Hp'). congruence. Qed.

(** One turn of the loop on a block other than the first. *)
Lemma invalidate_step R x stack cur :
  removed R cur → progress R (x :: stack) →
  ∃ s, successors (invalidate_one x cur) !! Some x = Some s ∧
    removed (x :: R) {| (invalidate_one x cur) with
      successors := delete (Some x) (successors (invalidate_one x cur)) |} ∧
    progress (x :: R) (reverse (set_iter s) ++ stack).
Proof.
  intros [Hacc Hht Hbo Hro Hhd Hin Hsu Hma Hwo] [Hnd Hb Hbelow Hcover].
  destruct (Hbelow x) as [Hxb [->|(p & Hp & Hxp)]]; [set_solver|..].
  { apply NoDup_app in Hnd as (_ & Hd & _). destruct (Hd b Hb). by left. }
  assert (x ∉ R) as Hx.
  { apply NoDup_app in Hnd as (_ & Hd & _). intros Hxr. destruct (Hd x Hxr). by left. }
  assert (invalidate_one x cur = {| cur with
    accumulators := delete x (accumulators cur);
    block_hash_to_height := delete x (block_hash_to_height cur);
    bodies := delete x (bodies cur);
    exponential_ancestors := delete x (exponential_ancestors cur);
    headers := delete x (headers cur);
    invalid_blocks := {[ x ]} ∪ invalid_blocks cur |}) as ->.
  { destruct Hxp as (hd & Hxhd & Hpr). simpl in Hxhd, Hpr. unfold invalidate_one. simpl.
    rewrite Hhd, lookup_without, decide_False, Hxhd, Hpr by done. simpl.
    rewrite Hsu, lookup_without, decide_True; [done|]. by apply list_elem_of_fmap_2. }
  simpl. destruct (side_parent_known x p Hxp) as [Hxk _].
  destruct (tw_succ _ _ wf_side x Hxk) as [s Hs]. simpl in Hs. exists s.
  assert (successors_above !! Some x = Some s) as Hs'.
  { unfold successors_above. destruct (headers ar !! b) as [hd|] eqn:Hbh; [|done].
    rewrite lookup_alter_ne; [done|]. intros Hpr.
    destruct (not_below_child b x); [by exists hd|done]. }
  assert (∀ c, c ∈ set_iter s ↔ side_parent ar c x) as Hchild.
  { intros c. rewrite set_iter_perm, elem_of_elements. by apply successors_children. }
  assert (∀ c, side_parent ar c x → c ∉ R ++ x :: stack) as Hnew.
  { intros c Hcx Hc. destruct (Hbelow c Hc) as [_ [->|(q & Hq & Hcq)]].
    - by apply (not_below_child b x).
    - by rewrite (side_parent_det c q x) in Hq. }
  split_and!.
  - rewrite Hsu, lookup_without, decide_False; [done|].
    by intros (? & [= <-] & ?)%list_elem_of_fmap.
  - split; simpl; [by f_equal..|by rewrite Hin, union_assoc_L|by rewrite Hsu|exact Hma|done].
  - split.
    + rewrite reverse_Permutation. simpl.
      assert (R ++ x :: stack ≡ₚ x :: R ++ stack) as Hperm
        by by rewrite Permutation_middle.
      rewrite Hperm in Hnd. apply NoDup_cons in Hnd as [Hx' Hnd].
      apply NoDup_cons. split.
      * rewrite !elem_of_app. intros [|[Hc|]]; [set_solver| |set_solver].
        apply Hchild in Hc. by destruct (not_below_child x x).
      * rewrite app_assoc, (Permutation_app_comm R), <-app_assoc. apply NoDup_app.
        split_and!; [rewrite set_iter_perm; apply NoDup_elements| |done].
        intros c Hc%Hchild%Hnew. set_solver.
    + by right.
    + intros c. rewrite !elem_of_app, elem_of_cons, elem_of_reverse.
      intros [[->|Hc]|[Hc|Hc]].
      * split; [done|]. right. exists p. split; [by right|done].
      * destruct (Hbelow c) as [? [->|(q & ? & ?)]]; [set_solver| |]; (split; [done|]);
          [by left|]. right. exists q. split; [by right|done].
      * apply Hchild in Hc. split; [by eapply rtc_l|]. right. exists x.
        split; [by left|done].
      * destruct (Hbelow c) as [? [->|(q & ? & ?)]]; [set_solver| |]; (split; [done|]);
          [by left|]. right. exists q. split; [by right|done].
    + intros c q Hcq [->|Hq]%elem_of_cons.
      * apply elem_of_app. right. apply elem_of_app. left.
        by apply elem_of_reverse, Hchild.
      * specialize (Hcover c q Hcq Hq). set_solver.
Qed.

(** The first turn, on [b] itself, which need not be stored. *)
Lemma invalidate_first :
  let cur := invalidate_one b ar in
  let stack := match successors cur !! Some b with
               | Some s => reverse (set_iter s)
               | None => []
               end in
  removed [b] {| cur with successors := delete (Some b) (successors cur) |} ∧
  progress [b] stack.
Proof.
  assert (successors (invalidate_one b ar) = successors_above) as Hsucc.
  { unfold invalidate_one, successors_above. simpl.
    destruct (headers ar !! b) as [hd|] eqn:Hb; [|done].
    destruct (tw_header _ _ wf_side b hd Hb) as (_ & _ & h & _ & Hab).
    assert (is_Some (successors ar !! prev_side_hash hd)) as [s Hs].
    { simpl in Hab. destruct (prev_side_hash hd) as [p|].
      - by apply (tw_succ _ _ wf_side p), Hab.
      - apply (tw_first _ _ wf_side). }
    rewrite Hs. simpl. apply map_eq. intros o.
    destruct (decide (o = prev_side_hash hd)) as [->|Hne].
    - by rewrite lookup_insert_eq, lookup_alter_eq, Hs.
    - by rewrite lookup_insert_ne, lookup_alter_ne. }
  assert (successors_above !! Some b = successors ar !! Some b) as Hsb.
  { unfold successors_above. destruct (headers ar !! b) as [hd|] eqn:Hb; [|done].
    apply lookup_alter_ne. intros Hpr. destruct (not_below_child b b); [by exists hd|done]. }
  cbv zeta. rewrite Hsucc, Hsb. split.
  - unfold invalidate_one. simpl. destruct (headers ar !! b) as [hd|] eqn:Hb; simpl.
    + destruct (successors ar !! prev_side_hash hd); by split; simpl; rewrite ?union_empty_r_L.
    + by split; simpl; rewrite ?union_empty_r_L.
  - assert (∀ c, c ∈ match successors ar !! Some b with
                     | Some s => reverse (set_iter s) | None => [] end ↔
                 side_parent ar c b) as Hchild.
    { intros c. destruct (successors ar !! Some b) as [s|] eqn:Hs.
      - rewrite elem_of_reverse, set_iter_perm, elem_of_elements. by apply successors_children.
      - split; [by intros ?%elem_of_nil|]. intros Hc.
        destruct (side_parent_known c b Hc) as [_ Hb].
        destruct (tw_succ _ _ wf_side b Hb) as [s Hs']. simpl in Hs'. congruence. }
    split.
    + apply NoDup_cons. split; [rewrite Hchild; intros Hb; by apply (not_below_child b b)|].
      destruct (successors ar !! Some b) as [s|]; [|constructor].
      rewrite reverse_Permutation, set_iter_perm. apply NoDup_elements.
    + by left.
    + intros c [->|Hc]%elem_of_cons; [by split; [|left]|]. apply Hchild in Hc.
      split; [by apply rtc_once|]. right. exists b. split; [by left|done].
    + intros c p Hcp ->%list_elem_of_singleton. right. by apply Hchild.
Qed.

(** At most as many blocks wait or are done as there are headers, and [b]. *)
Lemma progress_length R stack :
  progress R stack → (length (R ++ stack) ≤ S (size (headers ar)))%nat.
Proof.
  intros [Hnd _ Hbelow _].
  assert (R ++ stack ⊆ b :: (map_to_list (headers ar)).*1) as Hsub.
  { intros c Hc. destruct (Hbelow c Hc) as [_ [->|(p & _ & Hcp)]]; [by left|right].
    destruct (side_parent_known c p Hcp) as [[hd Hhd] _].
    apply list_elem_of_fmap. exists (c, hd). split; [done|]. by apply elem_of_map_to_list. }
  apply NoDup_submseteq, submseteq_length in Hsub; [|done].
  simpl in Hsub. by rewrite length_fmap, length_map_to_list in Hsub.
Qed.

Lemma invalidate_loop_ok fuel R stack cur :
  removed R cur → progress R stack →
  (S (size (headers ar)) ≤ fuel + length R)%nat →
  ∃ R' ar', invalidate_loop fuel stack cur = Some ar' ∧ removed R' ar' ∧ progress R' [].
Proof.
  revert R stack cur; induction fuel as [|fuel IH]; intros R [|x stack] cur Hrm Hpg Hf;
    cbn [invalidate_loop].
  1,3: by exists R, cur.
  - exfalso. pose proof (progress_length R (x :: stack) Hpg) as Hle.
    rewrite length_app in Hle. simpl in Hle. lia.
  - destruct (invalidate_step R x stack cur Hrm Hpg) as (s & -> & Hrm' & Hpg').
    by apply (IH (x :: R)); [done|done|simpl; lia].
Qed.

(** At the end exactly the blocks below [b] are done. *)
Lemma progress_done R c : progress R [] → c ∈ R ↔ below c.
Proof.
  intros [_ Hb Hbelow Hcover]. split.
  - intros Hc. apply Hbelow. by rewrite app_nil_r.
  - revert c. apply rtc_ind_l; [done|]. intros c p Hcp _ Hp.
    specialize (Hcover c p Hcp Hp). by rewrite app_nil_r in Hcover.
Qed.

(** What is left is well-formed. *)
Lemma removed_wf R cur : removed R cur → (∀ c, c ∈ R ↔ below c) → archive_wf cur.
Proof.
  intros [_ Hht _ Hro Hhd _ Hsu Hma Hwo] HR.
  assert (∀ c p, side_parent ar c p → c ∉ R → p ∉ R) as Hup.
  { intros c p Hcp Hc Hp. apply Hc, HR. apply HR in Hp. by eapply rtc_l. }
  assert (∀ c, is_Some (headers cur !! c) ↔ is_Some (headers ar !! c) ∧ c ∉ R) as Hk.
  { intros c. rewrite Hhd, lookup_without. case_decide; [|naive_solver].
    split; [by intros []|naive_solver]. }
  split; [|rewrite Hma; apply Hwf|].
  2:{ unfold work_wf. rewrite Hwo. pose proof (f_equal t_headers Hma) as Hm. simpl in Hm.
      rewrite Hm. apply Hwf. }
  split.
  - apply (linked_on_same (side_lineage ar)).
    + intros c Hc%Hk. destruct Hc as [Hc HcR].
      destruct (tw_linked _ _ wf_side c Hc) as (h & row & Hh & Hu & Hp & Hrow & Hok).
      exists h, row. split_and!; [done|done| |done|done]. intros Hpos.
      destruct (Hp Hpos) as (p & Hpar & Hkp & Hhp). exists p. split_and!; [done| |done].
      apply Hk. split; [done|]. apply (Hup c); [|done].
      apply (parent_step_of side_ops (side_tree ar) wf_side). by exists h.
    + intros c [_ HcR]%Hk. unfold same_links. simpl. unfold archive_height, get_header.
      by rewrite Hht, Hhd, Hro, !lookup_without, !decide_False.
  - simpl. intros c hd Hc.
    assert (c ∉ R) as HcR by by (apply Hk; eexists).
    rewrite Hhd, lookup_without, decide_False in Hc by done.
    destruct (tw_header _ _ wf_side c hd Hc) as (Hash & Hslot & h & Hh & Hab).
    split_and!; [done|done|]. exists h. rewrite Hht, lookup_without, decide_False by done.
    split; [done|]. simpl in Hab. destruct (prev_side_hash hd) as [p|] eqn:Hp; [|done].
    destruct Hab as (Hpos & Hkp & Hhp).
    assert (p ∉ R) by by (apply (Hup c); [exists hd|]).
    split_and!; [done|by apply Hk|]. simpl. by rewrite Hht, lookup_without, decide_False.
  - simpl. intros c h. rewrite Hht, lookup_without. case_decide; [done|]. intros Hh.
    apply Hk. split; [|done]. by apply (tw_height _ _ wf_side c h).
  - simpl. rewrite Hsu, lookup_without, decide_False.
    2:{ intros Hn. by apply list_elem_of_fmap in Hn as (? & [=] & _). }
    unfold successors_above. destruct (headers ar !! b) as [hd|]; [|apply (tw_first _ _ wf_side)].
    apply lookup_alter_is_Some, (tw_first _ _ wf_side).
  - simpl. intros c [Hc HcR]%Hk. rewrite Hsu, lookup_without, decide_False.
    2:{ intros Hn. by apply list_elem_of_fmap in Hn as (? & [= <-] & ?). }
    unfold successors_above. destruct (headers ar !! b) as [hd|];
      [apply lookup_alter_is_Some|]; by apply (tw_succ _ _ wf_side c).
  - simpl. intros o s c. rewrite Hsu, lookup_without. case_decide as Ho; [done|].
    intros Hs _.
    assert (∀ hd, headers ar !! c = Some hd → prev_side_hash hd = o → c ∈ R → c = b) as Honly.
    { intros hd Hc Hpr Hin. apply HR in Hin. apply rtc_inv in Hin as [|(p & (hd' & Hc' & Hp') & Hpb)];
        [done|]. simpl in Hc', Hp'. destruct Ho. apply list_elem_of_fmap. exists p.
      split; [congruence|by apply HR]. }
    assert (b ∈ R) as Hb by by apply HR. rewrite Hhd, lookup_without.
    unfold successors_above in Hs. destruct (headers ar !! b) as [hdb|] eqn:Hbh.
    + apply lookup_alter_Some in Hs as [(<- & s0 & Hs0 & ->)|[Hne Hs]].
      * rewrite elem_of_difference, elem_of_singleton, (tw_children _ _ wf_side _ _ c Hs0)
          by by intros ?. simpl. case_decide as HcR; naive_solver.
      * rewrite (tw_children _ _ wf_side _ _ c Hs) by by intros ?. simpl.
        case_decide as HcR; [|done]. split; [|naive_solver]. intros (hd & Hc & Hpr).
        pose proof (Honly hd Hc Hpr HcR) as ->. congruence.
    + rewrite (tw_children _ _ wf_side _ _ c Hs) by by intros ?. simpl.
      case_decide as HcR; [|done]. split; [|naive_solver]. intros (hd & Hc & Hpr).
      pose proof (Honly hd Hc Hpr HcR) as ->. congruence.
Qed.

Lemma invalidate_block_removed :
  ∃ R ar', invalidate_block b ar = Some ar' ∧ removed R ar' ∧ (∀ c, c ∈ R ↔ below c).
Proof.
  destruct invalidate_first as [Hrm Hpg].
  assert (∃ R ar', invalidate_block b ar = Some ar' ∧ removed R ar' ∧ progress R [])
    as (R & ar' & Har' & Hrm' & Hpg').
  { unfold invalidate_block. cbn [invalidate_loop]. cbv zeta in Hrm, Hpg.
    destruct (successors (invalidate_one b ar) !! Some b) as [s|];
      rewrite ?app_nil_r; by apply (invalidate_loop_ok (size (headers ar)) [b]);
        [| |simpl; lia]. }
  exists R, ar'. split_and!; [done|done|]. intros c. by apply progress_done.
Qed.
End Invalidate.

(** C35: Invalidating a block terminates; it removes the header, the body, the height,
    the links and the accumulator of exactly the block and its descendants, marks
    exactly those as invalid, and leaves a well-formed archive. *)
Theorem invalidate_block_spec `{ExtFuns} `{ExtWork} `{HashIterLaws} b ar :
  archive_wf ar →
  ∃ ar', invalidate_block b ar = Some ar' ∧ archive_wf ar' ∧
    (∀ c, (rtc (side_parent ar) c b →
            headers ar' !! c = None ∧ bodies ar' !! c = None ∧
            block_hash_to_height ar' !! c = None ∧ exponential_ancestors ar' !! c = None ∧
            accumulators ar' !! c = None) ∧
          (¬ rtc (side_parent ar) c b →
            headers ar' !! c = headers ar !! c ∧ bodies ar' !! c = bodies ar !! c ∧
            block_hash_to_height ar' !! c = block_hash_to_height ar !! c ∧
            exponential_ancestors ar' !! c = exponential_ancestors ar !! c ∧
            accumulators ar' !! c = accumulators ar !! c) ∧
          (c ∈ invalid_blocks ar' ↔ rtc (side_parent ar) c b ∨ c ∈ invalid_blocks ar)).
Proof.
  intros Hwf. destruct (invalidate_block_removed b ar Hwf) as (R & ar' & Har' & Hrm' & HR).
  exists ar'. split_and!; [done|by eapply removed_wf|]. intros c.
  destruct Hrm' as [-> -> -> -> -> -> _ _ _]. rewrite !lookup_without, <-!HR.
  split_and!; [intros Hc; by rewrite !decide_True|intros Hc; by rewrite !decide_False|].
  by rewrite elem_of_union, elem_of_list_to_set.
Qed.
