(* ===== verification/Bmm.v ===== *)
(** Blind merged mining: a block that the archive counts as verified is committed
    to, with all its ancestors, in one line of mainchain blocks.  The invariant is
    proved for every sequence of operations of the archive (lib/archive/mod.rs). *)
From S2P Require Import Prelude Bytes SwapTypes TxTypes Externals Accumulator.
From S2P Require Import BlockTypes Bundle StateDb Peg Ancestry BlockTree SideTips.
From S2P Require Import Archive ArchiveWrites ArchiveProps Invalidate.

Lemma anyM_true {E A} (f : A → res E bool) l :
  anyM f l = Ok true → ∃ x, x ∈ l ∧ f x = Ok true.
Proof.
  induction l as [|x l IH]; simpl; [done|]. intros H.
  apply bind_Ok_inv in H as ([] & Hx & H); [exists x; split; [by left|done]|].
  destruct (IH H) as (y & Hy & ?). exists y. split; [by right|done].
Qed.

Section Bmm.
Context {T : ExtTypes} {X : ExtFuns} {W : ExtWork} {I : HashIter} {IL : HashIterLaws I}.
Implicit Types (ar : Archive) (hd header : Header) (m : BtcBlockHash) (b p : BlockHash).

(** The mainchain block [m] requests [b] on the right mainchain parent. *)
Definition commits_to ar m hd : Prop :=
  ∃ info mi, main_block_infos ar !! m = Some info ∧
    bmm_commitment info = Some (header_hash hd) ∧
    main_header_infos ar !! m = Some mi ∧ prev_main_hash hd = info_prev_block_hash mi.

(** [m] commits to [b], and [m] or ancestors of it to the ancestors of [b]. *)
Inductive committed ar : BtcBlockHash → BlockHash → Prop :=
| committed_first m b hd :
    headers ar !! b = Some hd → commits_to ar m hd → prev_side_hash hd = None →
    committed ar m b
| committed_child m b hd p m' :
    headers ar !! b = Some hd → commits_to ar m hd → prev_side_hash hd = Some p →
    committed ar m' p → rtc (main_parent ar) m m' → committed ar m b.

(** What the archive counts as verified is committed to; stored blocks are not
    invalid. *)
Record bmm_sound ar : Prop := {
  bs_valid b : is_Some (headers ar !! b) → b ∉ invalid_blocks ar;
  bs_verified b m : b ∉ invalid_blocks ar → get_bmm_results ar b !! m = Some Verified →
    committed ar m b;
}.

(** The new archive knows whatever the old one knew. *)
Record extends ar ar' : Prop := {
  ex_headers b hd : headers ar !! b = Some hd → headers ar' !! b = Some hd;
  ex_infos m info : main_block_infos ar !! m = Some info → main_block_infos ar' !! m = Some info;
  ex_main m mi : main_header_infos ar !! m = Some mi → main_header_infos ar' !! m = Some mi;
}.

Lemma main_parent_extends ar ar' m m' :
  extends ar ar' → rtc (main_parent ar) m m' → rtc (main_parent ar') m m'.
Proof.
  intros Hex. apply rtc_congruence with (f := λ x, x). intros c p (mi & Hc & Hp).
  exists mi. split; [by apply (ex_main _ _ Hex)|done].
Qed.

Lemma commits_to_extends ar ar' m hd : extends ar ar' → commits_to ar m hd → commits_to ar' m hd.
Proof.
  intros Hex (info & mi & Hi & Hc & Hm & Hp). exists info, mi.
  split_and!; [by apply (ex_infos _ _ Hex)|done|by apply (ex_main _ _ Hex)|done].
Qed.

Lemma committed_extends ar ar' m b : extends ar ar' → committed ar m b → committed ar' m b.
Proof.
  intros Hex. induction 1 as [m b hd Hb Hc Hp|m b hd p m' Hb Hc Hp _ IH Hm].
  - eapply committed_first; [by eapply (ex_headers _ _ Hex)|by eapply commits_to_extends|done].
  - eapply committed_child; [by eapply (ex_headers _ _ Hex)|by eapply commits_to_extends|done..|].
    by eapply main_parent_extends.
Qed.

(** A positive answer to the question for descent is right. *)
Lemma is_main_descendant_true ar a b :
  archive_wf ar → is_main_descendant ar a b = Ok true → rtc (main_parent ar) b a.
Proof.
  intros Hwf H. destruct (decide (a = b)) as [->|Hne]; [done|].
  assert (is_Some (main_header_infos ar !! a) ∧ is_Some (main_header_infos ar !! b)) as [Ha Hb].
  { unfold is_main_descendant, descends in H. rewrite decide_False in H by done.
    apply bind_Ok_inv in H as (ha & Ha%ok_or_Ok & H).
    apply bind_Ok_inv in H as (hb & Hb%ok_or_Ok & _).
    split; [by apply (tw_height _ _ (aw_main _ Hwf) a ha)|
            by apply (tw_height _ _ (aw_main _ Hwf) b hb)]. }
  destruct (is_main_descendant_ok ar a b Hwf Ha Hb) as (r & Hr & Hiff).
  apply Hiff. congruence.
Qed.

Lemma parent_committed_true ar p m :
  archive_wf ar → parent_committed ar (get_bmm_results ar p) m = Ok true →
  ∃ m', get_bmm_results ar p !! m' = Some Verified ∧ rtc (main_parent ar) m m'.
Proof.
  intros Hwf H. apply anyM_true in H as ([m' r] & Hin & Hr). simpl in Hr.
  rewrite map_iter_perm in Hin. apply elem_of_map_to_list in Hin.
  case_decide as Hv; [subst|done]. exists m'. split; [done|].
  by apply is_main_descendant_true.
Qed.

(** A block whose header is about to be stored, or is, is committed to if its
    request is on the right parent and its parent is verified in the line. *)
Lemma committed_verified ar m hd :
  archive_wf ar → bmm_sound ar → headers ar !! header_hash hd = Some hd →
  commits_to ar m hd →
  (∀ p, prev_side_hash hd = Some p →
    parent_committed ar (get_bmm_results ar p) m = Ok true) →
  committed ar m (header_hash hd).
Proof.
  intros Hwf [Hval Hver] Hhd Hc Hp. destruct (prev_side_hash hd) as [p|] eqn:Hpr.
  - destruct (parent_committed_true ar p m Hwf (Hp p eq_refl)) as (m' & Hm' & Hr).
    eapply committed_child; [done|done|done| |done]. apply Hver; [|done]. apply Hval.
    destruct (tw_header _ _ (aw_side _ Hwf) _ hd Hhd) as (_ & _ & h & _ & Hab).
    simpl in Hab. rewrite Hpr in Hab. by destruct Hab as (_ & Hk & _).
  - by eapply committed_first.
Qed.

(** ** Each operation keeps the results justified *)

(** The invariant only reads some of the databases. *)
Lemma bmm_sound_extends ar ar' :
  extends ar ar' → bmm_results ar' = bmm_results ar →
  invalid_blocks ar' = invalid_blocks ar →
  (∀ b, is_Some (headers ar' !! b) → b ∉ invalid_blocks ar) →
  bmm_sound ar → bmm_sound ar'.
Proof.
  intros Hex Hres Hinv Hval [_ Hver]. split.
  - intros b Hb. rewrite Hinv. by apply Hval.
  - intros b m. unfold get_bmm_results. rewrite Hres, Hinv. intros Hb Hm.
    eapply committed_extends; [done|]. by apply Hver.
Qed.

(** The state of [put_header] before the last step. *)
Lemma put_header_split header ar ar' :
  put_header header ar = Ok ar' →
  ∃ ar1, store_bmm_results (header_hash header) header ar1 = Ok ar' ∧
    side_tree ar1 = side_tree ar' ∧ main_tree ar1 = main_tree ar ∧
    total_work ar1 = total_work ar ∧ main_block_infos ar1 = main_block_infos ar ∧
    bmm_results ar1 = bmm_results ar ∧ invalid_blocks ar1 = invalid_blocks ar.
Proof.
  unfold put_header. intros H. apply bind_Ok_inv in H as (h & _ & H).
  apply bind_Ok_inv in H as (ar1 & H1 & H). apply bind_Ok_inv in H as (ar2 & H2 & H).
  unfold add_successor in H1. apply bind_Ok_inv in H1 as (s & _ & [= <-]).
  unfold store_row in H2. apply bind_Ok_inv in H2 as (row & _ & [= <-]).
  eexists. split; [exact H|]. unfold store_bmm_results in H.
  apply bind_Ok_inv in H as (main & _ & H). by apply bind_Ok_inv in H as (results & _ & [= <-]).
Qed.

Lemma bmm_result_at_verified header ar m :
  archive_wf ar → bmm_sound ar → headers ar !! header_hash header = Some header →
  bmm_result_at ar header (get_bmm_results ar <$> prev_side_hash header) m = Ok Verified →
  committed ar m (header_hash header).
Proof.
  intros Hwf Hs Hhd H. unfold bmm_result_at in H.
  apply bind_Ok_inv in H as (info & Hinfo%ok_or_Ok & H).
  destruct (bmm_commitment info) as [c|] eqn:Hc; [|done].
  case_decide as Heq; [subst c|done].
  apply bind_Ok_inv in H as (mi & Hmi%ok_or_Ok & H). case_decide as Hp; [|done].
  apply committed_verified; [done..|by exists info, mi|].
  intros p Hpr. rewrite Hpr in H. simpl in H. by apply bind_Ok_inv in H as ([] & ? & [=]).
Qed.

Lemma store_bmm_results_sound header ar ar' :
  archive_wf ar → bmm_sound ar → headers ar !! header_hash header = Some header →
  store_bmm_results (header_hash header) header ar = Ok ar' → bmm_sound ar'.
Proof.
  intros Hwf Hs Hhd H. unfold store_bmm_results in H.
  apply bind_Ok_inv in H as (main & _ & H). apply bind_Ok_inv in H as (results & Hr & [= <-]).
  pose proof (bs_valid _ Hs _ (ex_intro _ header Hhd)) as Hk. destruct Hs as [Hval Hver].
  assert (∀ m, results !! m = Some Verified → committed ar m (header_hash header)) as Hres.
  { refine (foldM_inv (λ rs, ∀ m, rs !! m = Some Verified →
      committed ar m (header_hash header)) _ _ _ _ _ _ Hr); [by intros m; apply Hver|].
    intros rs x rs' _ IH Hx m. apply bind_Ok_inv in Hx as (r & Hat & [= <-]).
    intros [[<- ->]|[_ Hm]]%lookup_insert_Some; [|by apply IH].
    by apply bmm_result_at_verified. }
  split; [done|]. intros b m Hb. unfold get_bmm_results. simpl.
  assert (extends ar {| ar with
    bmm_results := <[header_hash header := results]> (bmm_results ar) |}) as Hex by done.
  destruct (decide (b = header_hash header)) as [->|Hne].
  - rewrite lookup_insert_eq. simpl. intros Hm. eapply committed_extends; [done|]. by apply Hres.
  - rewrite lookup_insert_ne by done. intros Hm.
    eapply committed_extends; [done|]. by apply Hver.
Qed.

(** A header may be stored if its block was not invalidated, its hash is not that
    of another header, and the height fits. *)
Record header_fits header ar : Prop := {
  hf_valid : header_hash header ∉ invalid_blocks ar;
  hf_fresh hd : headers ar !! header_hash header = Some hd → hd = header;
  hf_height p h : prev_side_hash header = Some p → block_hash_to_height ar !! p = Some h →
    h < u32_MAX;
}.

Lemma put_header_bmm header ar ar' :
  archive_wf ar → bmm_sound ar → header_fits header ar →
  put_header header ar = Ok ar' → archive_wf ar' ∧ bmm_sound ar'.
Proof.
  intros Hwf Hs [Hval Hfresh Hheight] Hput.
  destruct (put_header_wf header ar ar' Hwf Hfresh Hheight Hput) as (Hwf' & Hhd & Hsame).
  split; [done|].
  destruct (put_header_split header ar ar' Hput)
    as (ar1 & Hst & Hside & Hmain & Hwork & Hinfos & Hres & Hinv).
  pose proof (f_equal t_headers Hside) as Hhd1. simpl in Hhd1.
  pose proof (f_equal t_headers Hmain) as Hmi1. simpl in Hmi1.
  assert (archive_wf ar1) as Hwf1.
  { split; [rewrite Hside|rewrite Hmain|unfold work_wf; rewrite Hmi1, Hwork];
      [apply Hwf'|apply Hwf|apply Hwf]. }
  eapply store_bmm_results_sound; [done| | |done].
  - eapply bmm_sound_extends; [|done|done| |done].
    + split; [|by rewrite Hinfos|by rewrite Hmi1]. intros b hd Hb. rewrite Hhd1, Hhd.
      destruct (decide (b = header_hash header)) as [->|];
        [rewrite lookup_insert_eq; by rewrite (Hfresh hd Hb)|by rewrite lookup_insert_ne].
    + intros b. rewrite Hhd1, Hhd.
      intros [<-|[_ Hb]]%lookup_insert_is_Some; [done|by apply (bs_valid _ Hs)].
  - by rewrite Hhd1, Hhd, lookup_insert_eq.
Qed.

(** The same for a mainchain header; the zero hash is not one's. *)
Record main_header_fits info ar : Prop := {
  mf_nonzero : info_block_hash info ≠ zero_hash;
  mf_fresh i : main_header_infos ar !! info_block_hash info = Some i → i = info;
  mf_height h : main_block_hash_to_height ar !! info_prev_block_hash info = Some h →
    h < u32_MAX;
}.

Lemma put_main_header_info_frame info ar ar' :
  put_main_header_info info ar = Ok ar' →
  main_block_infos ar' = main_block_infos ar ∧ bmm_results ar' = bmm_results ar ∧
  invalid_blocks ar' = invalid_blocks ar.
Proof.
  unfold put_main_header_info. intros H. apply bind_Ok_inv in H as ([] & _ & H).
  apply bind_Ok_inv in H as ([h w] & Hhw & H). apply bind_Ok_inv in H as (ar1 & H1 & H).
  unfold add_main_successor in H1. apply bind_Ok_inv in H1 as (s & _ & [= <-]).
  unfold store_main_row in H. by apply bind_Ok_inv in H as (row & _ & [= <-]).
Qed.

Lemma put_main_header_info_bmm info ar ar' :
  archive_wf ar → bmm_sound ar → main_header_fits info ar →
  put_main_header_info info ar = Ok ar' → archive_wf ar' ∧ bmm_sound ar'.
Proof.
  intros Hwf Hs [Hnz Hfresh Hheight] Hput.
  destruct (put_main_header_info_wf info ar ar' Hwf Hnz Hfresh Hheight Hput)
    as (Hwf' & Hmi & Hside).
  destruct (put_main_header_info_frame info ar ar' Hput) as (Hinfos & Hres & Hinv).
  pose proof (f_equal t_headers Hside) as Hhd. simpl in Hhd. split; [done|].
  eapply bmm_sound_extends; [|done|done|rewrite Hhd; apply (bs_valid _ Hs)|done].
  split; [by rewrite Hhd|by rewrite Hinfos|]. intros m mi Hm. rewrite Hmi.
  destruct (decide (m = info_block_hash info)) as [->|];
    [rewrite lookup_insert_eq; by rewrite (Hfresh mi Hm)|by rewrite lookup_insert_ne].
Qed.

(** The infos of a mainchain block do not change. *)
Definition block_info_fits m (info : BlockInfo) ar : Prop :=
  ∀ i, main_block_infos ar !! m = Some i → i = info.

Lemma put_main_block_info_bmm m info ar ar' :
  archive_wf ar → bmm_sound ar → block_info_fits m info ar →
  put_main_block_info m info ar = Ok ar' → archive_wf ar' ∧ bmm_sound ar'.
Proof.
  intros Hwf Hs Hfits H. unfold put_main_block_info in H.
  apply bind_Ok_inv in H as (mi & Hmi%ok_or_Ok & H). apply bind_Ok_inv in H as ([] & _ & H).
  set (ar1 := {| ar with main_block_infos := <[m := info]> (main_block_infos ar) |}) in H.
  assert (archive_wf ar1) as Hwf1 by (split; apply Hwf).
  assert (bmm_sound ar1) as Hs1.
  { apply (bmm_sound_extends ar); [|done|done|apply (bs_valid _ Hs)|done]. split; [done| |done].
    intros m' i Hi. simpl. destruct (decide (m' = m)) as [->|];
      [rewrite lookup_insert_eq; by rewrite (Hfits i Hi)|by rewrite lookup_insert_ne]. }
  destruct (bmm_commitment info) as [c|] eqn:Hc; [|by injection H as <-].
  change (headers ar1) with (headers ar) in H.
  destruct (headers ar !! c) as [hd|] eqn:Hhd; [|by injection H as <-].
  apply bind_Ok_inv in H as (r & Hr & [= <-]). split; [by split; apply Hwf1|].
  assert (r = Verified → committed ar1 m c) as Hcom.
  { intros ->. case_decide as Hp; [|done].
    destruct (tw_header _ _ (aw_side _ Hwf) c hd Hhd) as (Hash & _). simpl in Hash. subst c.
    apply committed_verified; [done..| |].
    - exists info, mi. simpl. by rewrite lookup_insert_eq.
    - intros p Hpr. rewrite Hpr in Hr. by apply bind_Ok_inv in Hr as ([] & ? & [=]). }
  split; [apply (bs_valid _ Hs1)|]. intros b m' Hb. unfold get_bmm_results. simpl.
  assert (extends ar1 {| ar1 with
    bmm_results := <[c := <[m := r]> (get_bmm_results ar c)]> (bmm_results ar) |}) as Hex by done.
  destruct (decide (b = c)) as [->|Hne].
  - rewrite lookup_insert_eq. simpl. intros [[<- Hv]|[_ Hm']]%lookup_insert_Some;
      (eapply committed_extends; [done|]); [by apply Hcom|by apply (bs_verified _ Hs1)].
  - rewrite lookup_insert_ne by done. intros Hm.
    eapply committed_extends; [done|]. by apply (bs_verified _ Hs1).
Qed.

(** Bodies and side tips are apart from the trees. *)
Definition same_but_tips ar ar' : Prop :=
  side_tree ar' = side_tree ar ∧ main_tree ar' = main_tree ar ∧
  main_block_infos ar' = main_block_infos ar ∧ total_work ar' = total_work ar ∧
  bmm_results ar' = bmm_results ar ∧ invalid_blocks ar' = invalid_blocks ar.

Lemma same_but_tips_trans ar1 ar2 ar3 :
  same_but_tips ar1 ar2 → same_but_tips ar2 ar3 → same_but_tips ar1 ar3.
Proof. unfold same_but_tips. intuition congruence. Qed.

Lemma same_but_tips_bmm ar ar' :
  same_but_tips ar ar' → archive_wf ar → bmm_sound ar → archive_wf ar' ∧ bmm_sound ar'.
Proof.
  intros (Hside & Hmain & Hinfos & Hwork & Hres & Hinv) Hwf Hs.
  pose proof (f_equal t_headers Hside) as Hhd. pose proof (f_equal t_headers Hmain) as Hmi.
  simpl in *. split.
  - split; [rewrite Hside|rewrite Hmain|unfold work_wf; rewrite Hmi, Hwork]; apply Hwf.
  - eapply bmm_sound_extends; [|done|done|rewrite Hhd; apply (bs_valid _ Hs)|done].
    by split; rewrite ?Hhd, ?Hinfos, ?Hmi.
Qed.

Lemma update_side_tips_same tip h hd ar q ar' q' :
  update_side_tips tip h hd (ar, q) = Ok (ar', q') → same_but_tips ar ar'.
Proof.
  unfold update_side_tips. intros H. apply bind_Ok_inv in H as ([ar1 c] & Hf & H).
  assert (same_but_tips ar ar1) as H1.
  { refine (foldM_inv (λ acc, same_but_tips ar acc.1) _ _ _ (ar1, c) _ _ Hf); [done|].
    intros [ar2 b2] [m r] [ar3 b3] _ H12 Hst. simpl in *.
    eapply same_but_tips_trans; [done|]. destruct r; [|by simplify_eq].
    destruct (match _ with Some _ => _ | None => _ end); [by simplify_eq|].
    apply bind_Ok_inv in Hst as ([] & _ & Hst); [|by simplify_eq].
    apply bind_Ok_inv in Hst as (w & _ & Hst). by apply bind_Ok_inv in Hst as (t & _ & [= <- <-]). }
  destruct c; [apply bind_Ok_inv in H as (s & _ & H)|]; by simplify_eq.
Qed.

Lemma connect_queue_same fuel tip ar q ar' :
  connect_queue fuel tip (ar, q) = Ok ar' → same_but_tips ar ar'.
Proof.
  revert ar q; induction fuel as [|fuel IH]; intros ar [|h q] H; simpl in H; try by simplify_eq.
  destruct (contains_body ar h); [|by eapply IH].
  apply bind_Ok_inv in H as (hd & _ & H). apply bind_Ok_inv in H as ([ar1 q1] & Hu & H).
  eapply same_but_tips_trans; [by eapply update_side_tips_same|by eapply IH].
Qed.

Lemma put_body_same h body ar ar' : put_body h body ar = Ok ar' → same_but_tips ar ar'.
Proof.
  unfold put_body. intros H. apply bind_Ok_inv in H as (hd & _ & H).
  apply bind_Ok_inv in H as ([ar1 q1] & Hu & H).
  apply update_side_tips_same in Hu. apply connect_queue_same in H.
  eapply same_but_tips_trans; [|done]. exact Hu.
Qed.

Lemma disconnect_queue_same fuel q ar ar' :
  disconnect_queue fuel q ar = Ok ar' → same_but_tips ar ar'.
Proof.
  revert ar q; induction fuel as [|fuel IH]; intros ar [|h q] H; simpl in H; try by simplify_eq.
  destruct (sidechain_tips (side_tips ar) !! h); [|by eapply IH].
  apply bind_Ok_inv in H as (succ & _ & H). apply IH in H. exact H.
Qed.

Lemma delete_body_same h ar ar' : delete_body h ar = Ok ar' → same_but_tips ar ar'.
Proof. unfold delete_body. intros H. apply disconnect_queue_same in H. exact H. Qed.

Lemma invalidate_one_frame b ar :
  main_block_infos (invalidate_one b ar) = main_block_infos ar ∧
  main_tree (invalidate_one b ar) = main_tree ar ∧
  bmm_results (invalidate_one b ar) = bmm_results ar.
Proof.
  unfold invalidate_one. simpl. destruct (headers ar !! b) as [hd|]; [|done].
  by destruct (successors ar !! prev_side_hash hd).
Qed.

Lemma invalidate_loop_frame fuel stack ar ar' :
  invalidate_loop fuel stack ar = Some ar' →
  main_block_infos ar' = main_block_infos ar ∧ main_tree ar' = main_tree ar ∧
  bmm_results ar' = bmm_results ar.
Proof.
  revert stack ar; induction fuel as [|fuel IH]; intros [|x stack] ar H;
    cbn [invalidate_loop] in H; try by simplify_eq.
  apply IH in H as (-> & Hm & ->).
  destruct (invalidate_one_frame x ar) as (<- & Hm' & <-). split_and!; [done| |done].
  rewrite Hm. exact Hm'.
Qed.

(** What is above a block that is not removed is not removed either. *)
Lemma committed_removed b R ar ar' m c :
  removed b ar R ar' → (∀ c, c ∈ R ↔ rtc (side_parent ar) c b) →
  main_block_infos ar' = main_block_infos ar → committed ar m c → c ∉ R → committed ar' m c.
Proof.
  intros Hrm HR Hinfos Hc. pose proof (rm_headers _ _ _ _ Hrm) as Hhd.
  pose proof (f_equal t_headers (rm_main _ _ _ _ Hrm)) as Hmi. simpl in Hmi.
  assert (∀ m hd, commits_to ar m hd → commits_to ar' m hd) as Hct.
  { intros m1 hd1 (info & mi & ?). exists info, mi. by rewrite Hinfos, Hmi. }
  induction Hc as [m c hd Hb Hct' Hp|m c hd p m' Hb Hct' Hp _ IH Hr]; intros HcR.
  - eapply committed_first; [|by apply Hct|done].
    by rewrite Hhd, lookup_without, decide_False.
  - eapply committed_child; [|by apply Hct|done|apply IH|].
    + by rewrite Hhd, lookup_without, decide_False.
    + intros HpR. apply HcR, HR. apply HR in HpR. eapply rtc_l; [|done]. by exists hd.
    + unfold main_parent. by rewrite (rm_main _ _ _ _ Hrm).
Qed.

Lemma invalidate_block_bmm b ar ar' :
  archive_wf ar → bmm_sound ar → invalidate_block b ar = Some ar' →
  archive_wf ar' ∧ bmm_sound ar'.
Proof.
  intros Hwf [Hval Hver] H.
  destruct (invalidate_block_removed b ar Hwf) as (R & ar1 & H1 & Hrm & HR).
  assert (ar1 = ar') as -> by congruence. apply invalidate_loop_frame in H as (Hinfos & _ & Hres).
  split; [by eapply removed_wf|]. split.
  - intros c. rewrite (rm_headers _ _ _ _ Hrm), (rm_invalid _ _ _ _ Hrm), lookup_without.
    case_decide as HcR; [by intros []|]. intros Hc.
    rewrite elem_of_union, elem_of_list_to_set. intros [|Hi]; [done|]. by eapply Hval.
  - intros c m. rewrite (rm_invalid _ _ _ _ Hrm), elem_of_union, elem_of_list_to_set.
    unfold get_bmm_results. rewrite Hres. intros Hn Hm.
    eapply committed_removed; [done..| |tauto]. apply Hver; [tauto|done].
Qed.

(** ** All sequences of operations *)
Inductive archive_step ar : Archive → Prop :=
| step_header header ar' :
    header_fits header ar → put_header header ar = Ok ar' → archive_step ar ar'
| step_main_header info ar' :
    main_header_fits info ar → put_main_header_info info ar = Ok ar' → archive_step ar ar'
| step_main_info m info ar' :
    block_info_fits m info ar → put_main_block_info m info ar = Ok ar' → archive_step ar ar'
| step_body b body ar' : put_body b body ar = Ok ar' → archive_step ar ar'
| step_delete_body b ar' : delete_body b ar = Ok ar' → archive_step ar ar'
| step_accumulator b acc : archive_step ar (put_accumulator b acc ar)
(* whatever becomes of the side tips *)
| step_side_tips tips : archive_step ar {| ar with side_tips := tips |}
| step_invalidate b ar' : invalidate_block b ar = Some ar' → archive_step ar ar'.

Lemma archive_step_inv ar ar' :
  archive_step ar ar' → archive_wf ar → bmm_sound ar → archive_wf ar' ∧ bmm_sound ar'.
Proof.
  intros Hst Hwf Hs. destruct Hst.
  - by eapply put_header_bmm.
  - by eapply put_main_header_info_bmm.
  - by eapply put_main_block_info_bmm.
  - by eapply same_but_tips_bmm; [eapply put_body_same|..].
  - by eapply same_but_tips_bmm; [eapply delete_body_same|..].
  - by apply (same_but_tips_bmm ar); [repeat split|..].
  - by apply (same_but_tips_bmm ar); [repeat split|..].
  - by eapply invalidate_block_bmm.
Qed.

Lemma archive_steps_inv ar ar' :
  rtc archive_step ar ar' → archive_wf ar ∧ bmm_sound ar → archive_wf ar' ∧ bmm_sound ar'.
Proof.
  induction 1 as [|ar1 ar2 ar3 Hst _ IH]; [done|]. intros [Hwf Hs].
  by apply IH, (archive_step_inv ar1).
Qed.

Lemma archive_new_sound : bmm_sound archive_new.
Proof. split; [by intros b [? Hb]|by intros b m _ Hm]. Qed.

(** C36: Whatever headers, bodies, mainchain headers and block infos are stored, and
    whatever blocks are invalidated, the archive stays well-formed, and a block that
    it counts as verified by a mainchain block is committed to by it, and every
    ancestor of it by an ancestor of that mainchain block. *)
Theorem archive_reachable ar :
  rtc archive_step archive_new ar → archive_wf ar ∧ bmm_sound ar.
Proof.
  intros H. apply (archive_steps_inv archive_new ar H).
  split; [apply archive_new_wf|apply archive_new_sound].
Qed.
End Bmm.
