(* ===== verification/ArchiveIter.v ===== *)
(** The iterators of the archive (lib/archive/iter.rs) and the queries for missing
    bodies (lib/archive/mod.rs).

    An iterator from a block down to the first block reads one header per item; the
    ones that run upwards from a height fill a buffer of at most 32 headers at a
    time, newest first, and hand it out from its end. *)
From S2P Require Import Prelude Bytes SwapTypes TxTypes Externals Accumulator.
From S2P Require Import BlockTypes Bundle StateDb Peg Ancestry BlockTree SideTips.
From S2P Require Import Archive ArchiveProps.

(** ** Upward iterators, over the reads that the two of them make *)
Record RevReads (K A E : Type) := mkRevReads {
  rr_end_height : K → res E Z;
  rr_nth_ancestor : K → Z → res E K;
  (* the first items of the downward iterator *)
  rr_take : nat → K → res E (list A);
}.
Arguments mkRevReads {K A E} _ _ _.
Arguments rr_end_height {K A E} _ _.
Arguments rr_nth_ancestor {K A E} _ _ _.
Arguments rr_take {K A E} _ _ _.

Definition MAX_BATCH_SIZE : Z := 32.

(** The buffer is kept with its end first: [pop] takes the head. *)
Record AncestorsRevInner (A : Type) := mkRevInner { end_height : Z; buffer : list A }.
Arguments mkRevInner {A} _ _.
Arguments end_height {A} _.
Arguments buffer {A} _.

Record AncestorsRev (K A : Type) := mkRev {
  batch_start_height : option Z;
  end_block_hash : K;
  inner : option (AncestorsRevInner A);
}.
Arguments mkRev {K A} _ _ _.
Arguments batch_start_height {K A} _.
Arguments end_block_hash {K A} _.
Arguments inner {K A} _.

Section Rev.
Context {K A E : Type} (R : RevReads K A E).

Definition ancestors_rev_new (block_hash : K) (start_height : Z) : AncestorsRev K A :=
  mkRev (Some start_height) block_hash None.

Definition ancestors_rev_next (it : AncestorsRev K A) :
    res E (option A * AncestorsRev K A) :=
  inn ← match inner it with
        | Some inn => Ok inn
        | None =>
            end_height ← rr_end_height R (end_block_hash it);
            Ok (mkRevInner end_height [])
        end;
  let it := mkRev (batch_start_height it) (end_block_hash it) (Some inn) in
  match buffer inn with
  | item :: rest =>
      Ok (Some item, mkRev (batch_start_height it) (end_block_hash it)
                       (Some (mkRevInner (end_height inn) rest)))
  | [] =>
      match batch_start_height it with
      | None => Ok (None, it)
      | Some start =>
          if end_height inn <? start then Ok (None, it)
          else
            let height_diff := end_height inn - start in
            let ancestor_offset := height_diff `min` (MAX_BATCH_SIZE - 1) in
            let batch_size := ancestor_offset + 1 in
            ancestor ← rr_nth_ancestor R (end_block_hash it) (height_diff - ancestor_offset);
            items ← rr_take R (Z.to_nat batch_size) ancestor;
            let next_start :=
              match u32_checked_add start batch_size with
              | Some next => if next <=? end_height inn then Some next else None
              | None => None
              end in
            let '(item, rest) :=
              match reverse items with
              | item :: rest => (Some item, rest)
              | [] => (None, [])
              end in
            Ok (item, mkRev next_start (end_block_hash it)
                        (Some (mkRevInner (end_height inn) rest)))
      end
  end.

(** All items, [fuel] a bound on their number. *)
Fixpoint ancestors_rev_collect (fuel : nat) (it : AncestorsRev K A) : res E (list A) :=
  '(item, it) ← ancestors_rev_next it;
  match item with
  | None => Ok []
  | Some item =>
      match fuel with
      | O => Panic
      | S fuel => rest ← ancestors_rev_collect fuel it; Ok (item :: rest)
      end
  end.
End Rev.

Section ArchiveIter.
Context {T : ExtTypes} {X : ExtFuns} {W : ExtWork} {I : HashIter}.
Implicit Types (ar : Archive).

(** ** Downward iterators *)

(** [AncestorHeaders::next]: the state is the next block's hash. *)
Definition ancestor_headers_next ar (block_hash : option BlockHash) :
    res ArchiveError (option ((BlockHash * Header) * option BlockHash)) :=
  match block_hash with
  | None => Ok None
  | Some block_hash =>
      header ← get_header ar block_hash;
      Ok (Some ((block_hash, header), prev_side_hash header))
  end.

(** [main_ancestor_header_infos]; the zero hash ends it. *)
Definition main_ancestors_next ar (block_hash : BtcBlockHash) :
    res ArchiveError (option (BlockHeaderInfo * BtcBlockHash)) :=
  if decide (block_hash = zero_hash) then Ok None
  else
    header_info ← get_main_header_info ar block_hash;
    Ok (Some (header_info, info_prev_block_hash header_info)).

(** [iter.take(n).collect()] *)
Fixpoint iter_take {It A E} (next : It → res E (option (A * It))) (n : nat) (it : It) :
    res E (list A) :=
  match n with
  | O => Ok []
  | S n =>
      o ← next it;
      match o with
      | None => Ok []
      | Some (a, it) => rest ← iter_take next n it; Ok (a :: rest)
      end
  end.

(** A loop over an iterator that may stop early: [step] returns [inl] to go on and
    [inr] to stop.  There is a turn for each item, and one more for the end. *)
Fixpoint iter_loop {It A B E} (next : It → res E (option (A * It)))
    (step : B → A → res E (B + B)) (fuel : nat) (it : It) (acc : B) : res E B :=
  match fuel with
  | O => Panic
  | S fuel =>
      o ← next it;
      match o with
      | None => Ok acc
      | Some (a, it) =>
          r ← step acc a;
          match r with
          | inl acc => iter_loop next step fuel it acc
          | inr acc => Ok acc
          end
      end
  end.

Definition side_fuel ar : nat := S (size (headers ar)).
Definition main_fuel ar : nat := S (size (main_header_infos ar)).

(** [ancestors(block_hash).take_while(..).filter_map(..).collect()] over the
    ancestors of a block up to, not including, [ancestor]. *)
Definition collect_until {A} ar (f : BlockHash → res ArchiveError (option A))
    (block_hash : BlockHash) (ancestor : option BlockHash) : res ArchiveError (list A) :=
  iter_loop (ancestor_headers_next ar) (λ acc p,
      if decide (Some p.1 = ancestor) then Ok (inr acc)
      else
        o ← f p.1;
        Ok (inl (match o with Some a => acc ++ [a] | None => acc end)))
    (side_fuel ar) (Some block_hash) [].

(** [iter.find_map(..)] over the ancestors of a block. *)
Definition find_map_ancestors {A} ar (f : BlockHash → res ArchiveError (option A))
    (block_hash : BlockHash) : res ArchiveError (option A) :=
  iter_loop (ancestor_headers_next ar) (λ _ p,
      o ← f p.1;
      Ok (match o with Some a => inr (Some a) | None => inl None end))
    (side_fuel ar) (Some block_hash) None.

(** The same over the mainchain, stopping at the block [stop]. *)
Definition collect_main_until {A} ar (f : BtcBlockHash → res ArchiveError (option A))
    (block_hash : BtcBlockHash) (stop : option BtcBlockHash) : res ArchiveError (list A) :=
  iter_loop (main_ancestors_next ar) (λ acc info,
      if decide (Some (info_block_hash info) = stop) then Ok (inr acc)
      else
        o ← f (info_block_hash info);
        Ok (inl (match o with Some a => acc ++ [a] | None => acc end)))
    (main_fuel ar) block_hash [].

Definition get_missing_bodies ar (block_hash : BlockHash) (ancestor : option BlockHash) :
    res ArchiveError (list BlockHash) :=
  l ← collect_until ar (λ h, Ok (if contains_body ar h then None else Some h))
        block_hash ancestor;
  Ok (reverse l).

Definition main_parent_header_info ar (header_info : BlockHeaderInfo) :
    res ArchiveError (option BlockHeaderInfo) :=
  if decide (info_prev_block_hash header_info = zero_hash) then Ok None
  else
    info ← get_main_header_info ar (info_prev_block_hash header_info);
    Ok (Some info).

(** ** The upward ones *)
Definition side_rev ar : RevReads BlockHash (BlockHash * Header) ArchiveError := {|
  rr_end_height := archive_height ar;
  rr_nth_ancestor := get_nth_ancestor ar;
  rr_take := λ n h, iter_take (ancestor_headers_next ar) n (Some h);
|}.

(** The mainchain's takes the height from the header's info. *)
Definition main_rev ar : RevReads BtcBlockHash BlockHeaderInfo ArchiveError := {|
  rr_end_height := λ h, info ← get_main_header_info ar h; Ok (info_height info);
  rr_nth_ancestor := get_nth_main_ancestor ar;
  rr_take := iter_take (main_ancestors_next ar);
|}.

Definition main_ancestor_header_infos_rev ar (end_block_hash : BtcBlockHash)
    (start_height : Z) : res ArchiveError (list BlockHeaderInfo) :=
  ancestors_rev_collect (main_rev ar) (main_fuel ar)
    (ancestors_rev_new end_block_hash start_height).

Definition iter_missing_bodies ar (block_hash : BlockHash) (start_height : Z) :
    res ArchiveError (list BlockHash) :=
  l ← ancestors_rev_collect (side_rev ar) (side_fuel ar)
        (ancestors_rev_new block_hash start_height);
  Ok (omap (λ p : BlockHash * Header,
        if contains_body ar p.1 then None else Some p.1) (l : list (BlockHash * Header))).
End ArchiveIter.

(** ** What the upward iterators return *)
Section RevSpec.
Context {K V S E A : Type} `{Countable K, Countable S} (O : TreeOps K V S E) `{!TreeLaws O}.
Context (t : Tree K V S) (Hwf : tree_wf O t).
Context (R : RevReads K A E) (f : K * V → A) (b : K) (h : Z).
Context (Hh : t_heights t !! b = Some h) (Hend : rr_end_height R b = Ok h).
Context (Hnth : ∀ k n, rr_nth_ancestor R k n = nth_ancestor (tree_lineage O t) k n).

(** The items are the blocks [n] to [m] parents before [k], in this order. *)
Definition run (k : K) (l : list (K * V)) (depth : nat → nat) : Prop :=
  ∀ i p, l !! i = Some p →
    nsteps (parent_of O t) (depth i) k p.1 ∧ t_headers t !! p.1 = Some p.2.

Context (Htake : ∀ n k hk, t_heights t !! k = Some hk → Z.of_nat n ≤ hk + 1 →
  ∃ l, rr_take R n k = Ok (f <$> l) ∧ length l = n ∧ run k l (λ i, i)).

(** The blocks of [b]'s line from the height [s] up to [b]. *)
Definition line (s : Z) (l : list (K * V)) : Prop :=
  length l = Z.to_nat (h - s + 1) ∧ run b l (λ i, Z.to_nat (h - s - Z.of_nat i)).

Abbreviation it o buf := (mkRev o b (Some (mkRevInner h buf))).

(** What is buffered comes first. *)
Lemma collect_buffer buf fuel o :
  ancestors_rev_collect R (length buf + fuel) (it o buf)
  = (rest ← ancestors_rev_collect R fuel (it o []); Ok (buf ++ rest)).
Proof.
  induction buf as [|x buf IH]; simpl.
  - by destruct (ancestors_rev_collect R fuel (it o [])).
  - change (ancestors_rev_next R (it o (x :: buf))) with (@Ok E _ (Some x, it o buf)). simpl.
    rewrite IH. by destruct (ancestors_rev_collect R fuel (it o [])).
Qed.

Lemma collect_end fuel : ancestors_rev_collect R fuel (it None []) = Ok [].
Proof. by destruct fuel. Qed.

Lemma collect_above fuel s : h < s → ancestors_rev_collect R fuel (it (Some s) []) = Ok [].
Proof.
  intros Hs. assert (ancestors_rev_next R (it (Some s) []) = Ok (None, it (Some s) [])) as Hn.
  { unfold ancestors_rev_next. simpl. by destruct (Z.ltb_spec h s); [|lia]. }
  destruct fuel; simpl; by rewrite Hn.
Qed.

(** A batch that is not empty is handed out before the rest. *)
Lemma collect_batch fuel s a items o :
  s ≤ h →
  let off := (h - s) `min` (MAX_BATCH_SIZE - 1) in
  nth_ancestor (tree_lineage O t) b (h - s - off) = Ok a →
  rr_take R (Z.to_nat (off + 1)) a = Ok items → items ≠ [] →
  o = match u32_checked_add s (off + 1) with
      | Some next => if next <=? h then Some next else None
      | None => None
      end →
  ancestors_rev_collect R (length items + fuel) (it (Some s) [])
  = (rest ← ancestors_rev_collect R fuel (it o []); Ok (reverse items ++ rest)).
Proof.
  intros Hs off Ha Hitems Hne ->. rewrite <-collect_buffer, length_reverse.
  assert (∃ x rest, reverse items = x :: rest) as (x & rest & Hrev).
  { destruct (reverse items) as [|x rest] eqn:Hr; [|by exists x, rest].
    apply (f_equal reverse) in Hr. rewrite reverse_involutive in Hr. done. }
  set (o := match u32_checked_add s (off + 1) with Some _ => _ | None => _ end).
  assert (ancestors_rev_next R (it (Some s) []) = Ok (Some x, it o rest)) as Hn.
  { unfold ancestors_rev_next. simpl. destruct (Z.ltb_spec h s); [lia|].
    rewrite Hnth. fold off. rewrite Ha. simpl. rewrite Hitems. simpl. by rewrite Hrev. }
  rewrite Hrev. destruct (length items + fuel)%nat as [|n] eqn:Hlen.
  - destruct items; [done|]. simpl in Hlen. lia.
  - cbn [ancestors_rev_collect]. rewrite Hn.
    change (ancestors_rev_next R (it o (x :: rest))) with (@Ok E _ (Some x, it o rest)). done.
Qed.

Lemma collect_line (n : nat) s fuel : 0 ≤ s → h - s + 1 ≤ Z.of_nat n →
  h - s + 1 ≤ Z.of_nat fuel →
  ∃ l, ancestors_rev_collect R fuel (it (Some s) []) = Ok (f <$> l) ∧ line s l.
Proof.
  revert s fuel; induction n as [n IH] using lt_wf_ind; intros s fuel Hs Hn Hf.
  destruct (known_height O t Hwf b (tw_height _ _ Hwf b h Hh)) as (h' & Hh' & [Hh0 Hmax]).
  simplify_eq. destruct (Z.lt_ge_cases h s) as [Hlt|Hle].
  { exists []. split; [by apply collect_above|]. split; [simpl; lia|]. by intros i p. }
  set (off := (h - s) `min` (MAX_BATCH_SIZE - 1)).
  assert (0 ≤ off ≤ h - s) as Hoff by (unfold off, MAX_BATCH_SIZE; lia).
  destruct (tree_nth_ancestor O t Hwf b h (h - s - off) Hh) as [Hok _]; [lia|].
  destruct Hok as (a & Ha & Hba); [lia|].
  assert (t_heights t !! a = Some (s + off)) as Hha.
  { destruct (ancestor_at_height (tree_lineage O t) _ (tw_linked _ _ Hwf) (h - s - off) b a h)
      as (_ & _ & Hx); [by apply (tw_height _ _ Hwf b h)|by apply lin_height_of| |].
    - split; [lia|]. by apply nsteps_parent_of.
    - apply lin_height_of in Hx. rewrite Hx. f_equal. lia. }
  destruct (Htake (Z.to_nat (off + 1)) a (s + off) Hha) as (l1 & Hl1 & Hlen1 & Hrun1); [lia|].
  set (o := match u32_checked_add s (off + 1) with
            | Some next => if next <=? h then Some next else None
            | None => None
            end).
  assert (∃ l2, ancestors_rev_collect R (fuel - length l1) (it o []) = Ok (f <$> l2) ∧
    line (s + (off + 1)) l2) as (l2 & Hl2 & [Hlen2 Hrun2]).
  { unfold o, u32_checked_add. destruct (Z.le_gt_cases (s + (off + 1)) h) as [Hnext|Hlast].
    - destruct (Z.leb_spec (s + (off + 1)) u32_MAX); [|lia].
      destruct (Z.leb_spec (s + (off + 1)) h); [|lia].
      apply (IH (Z.to_nat (h - (s + (off + 1)) + 1))); lia.
    - exists []. split.
      + destruct (_ <=? u32_MAX); [|apply collect_end].
        destruct (Z.leb_spec (s + (off + 1)) h); [lia|apply collect_end].
      + split; [simpl; lia|]. by intros i p. }
  exists (reverse l1 ++ l2). split.
  - replace fuel with (length (f <$> l1) + (fuel - length l1))%nat
      by (rewrite length_fmap; lia).
    rewrite (collect_batch _ s a (f <$> l1) o); [|lia|done|done| |done].
    + rewrite Hl2. simpl. by rewrite fmap_app, fmap_reverse.
    + destruct l1; [simpl in Hlen1; lia|done].
  - split.
    + rewrite length_app, length_reverse. lia.
    + intros i p Hi. destruct (decide (i < length l1)%nat) as [Hlt|Hge].
      * rewrite lookup_app_l in Hi by by rewrite length_reverse.
        apply reverse_lookup_Some in Hi as [Hi _]. destruct (Hrun1 _ _ Hi) as [Hst Hhd].
        split; [|done].
        replace (Z.to_nat (h - s - Z.of_nat i))
          with (Z.to_nat (h - s - off) + (length l1 - (i + 1)))%nat by lia.
        eapply nsteps_trans; [exact Hba|]. rewrite Nat.add_1_r. exact Hst.
      * rewrite lookup_app_r in Hi by (rewrite length_reverse; lia).
        rewrite length_reverse in Hi. destruct (Hrun2 _ _ Hi) as [Hst Hhd].
        split; [|done]. replace (Z.to_nat (h - s - Z.of_nat i))
          with (Z.to_nat (h - (s + (off + 1)) - Z.of_nat (i - length l1))) by lia. done.
Qed.

Lemma rev_collect_line s fuel : 0 ≤ s → h - s + 1 ≤ Z.of_nat fuel →
  ∃ l, ancestors_rev_collect R fuel (ancestors_rev_new b s) = Ok (f <$> l) ∧ line s l.
Proof.
  intros Hs Hf. destruct (collect_line fuel s fuel Hs Hf Hf) as (l & Hl & Hline).
  exists l. split; [|done]. rewrite <-Hl.
  assert (ancestors_rev_next R (ancestors_rev_new b s) = ancestors_rev_next R (it (Some s) []))
    as Hn by (unfold ancestors_rev_next; simpl; by rewrite Hend).
  destruct fuel; cbn [ancestors_rev_collect]; by rewrite Hn.
Qed.
End RevSpec.
