(* ===== verification/ArchiveIterProps.v ===== *)
(** The iterators of the archive return the lines of blocks that they promise
    (lib/archive/iter.rs), and the two queries for missing bodies agree. *)
From S2P Require Import Prelude Bytes SwapTypes TxTypes Externals Accumulator.
From S2P Require Import BlockTypes Bundle StateDb Peg Ancestry BlockTree SideTips.
From S2P Require Import Archive ArchiveProps ArchiveIter.

(** ** Trees have enough blocks *)
Section Size.
Context {K V S E : Type} `{Countable K, Countable S} (O : TreeOps K V S E) `{!TreeLaws O}.
Context (t : Tree K V S) (Hwf : tree_wf O t).

Lemma height_blocks (m : nat) b : t_heights t !! b = Some (Z.of_nat m) →
  ∃ l : list K, length l = (m + 1)%nat ∧ NoDup l ∧
    ∀ c, c ∈ l → known t c ∧ ∃ h, t_heights t !! c = Some h ∧ h ≤ Z.of_nat m.
Proof.
  revert b; induction m as [|m IH]; intros b Hb;
    pose proof (tw_height _ _ Hwf b _ Hb) as [v Hv];
    destruct (tw_header _ _ Hwf b v Hv) as (_ & _ & h & Hh & Hab); simplify_eq.
  - exists [b]. split_and!; [done|apply NoDup_singleton|]. intros c ->%list_elem_of_singleton.
    split; [by exists v|]. by exists 0.
  - destruct (t_prev O v) as [p|]; simpl in Hab; [|lia]. destruct Hab as (_ & _ & Hp).
    destruct (IH p) as (l & Hlen & Hnd & Hl); [rewrite Hp; f_equal; lia|].
    exists (b :: l). split_and!; [simpl; lia| |].
    + apply NoDup_cons. split; [|done]. intros Hin. destruct (Hl b Hin) as (_ & h & ? & ?).
      simplify_eq. lia.
    + intros c [->|Hc]%elem_of_cons; [split; [by exists v|]; by eexists|].
      destruct (Hl c Hc) as (? & h & ? & ?). split; [done|]. exists h. split; [done|lia].
Qed.

Lemma height_lt_size b h : t_heights t !! b = Some h → h < Z.of_nat (size (t_headers t)).
Proof.
  intros Hh. destruct (known_height O t Hwf b (tw_height _ _ Hwf b h Hh)) as (h' & Hh' & [H0' _]).
  simplify_eq. destruct (height_blocks (Z.to_nat h) b) as (l & Hlen & Hnd & Hl).
  { rewrite Hh. f_equal. lia. }
  assert (l ⊆ (map_to_list (t_headers t)).*1) as Hsub.
  { intros c Hc. destruct (Hl c Hc) as [[v Hv] _]. apply list_elem_of_fmap. exists (c, v).
    split; [done|]. by apply elem_of_map_to_list. }
  apply NoDup_submseteq, submseteq_length in Hsub; [|done].
  rewrite length_fmap, length_map_to_list in Hsub. lia.
Qed.

(** A run downwards, extended by one block at its start. *)
Lemma run_cons k v p l : t_headers t !! k = Some v → (l ≠ [] → t_prev O v = Some p) →
  run O t p l (λ i, i) → run O t k ((k, v) :: l) (λ i, i).
Proof.
  intros Hv Hp Hrun [|i] q Hq; simpl in Hq.
  - injection Hq as <-. split; [constructor|done].
  - destruct (Hrun i q Hq) as [Hst Hhd]. split; [|done].
    econstructor; [|done]. exists v. split; [done|]. apply Hp. by intros ->.
Qed.
End Size.

Section Iter.
Context {T : ExtTypes} {X : ExtFuns} {W : ExtWork} {I : HashIter}.
Context (ar : Archive) (Hwf : archive_wf ar).
Implicit Types (b c : BlockHash) (h s : Z) (n : nat).

(** ** The first items of the downward iterators *)
Lemma side_take n b h : block_hash_to_height ar !! b = Some h → Z.of_nat n ≤ h + 1 →
  ∃ l, iter_take (ancestor_headers_next ar) n (Some b) = Ok l ∧ length l = n ∧
    run side_ops (side_tree ar) b l (λ i, i).
Proof.
  revert b h; induction n as [|n IH]; intros b h Hh Hn; [by exists []|].
  pose proof (tw_height _ _ (aw_side _ Hwf) b h Hh) as [hd Hhd]. simpl in Hhd.
  destruct (tw_header _ _ (aw_side _ Hwf) b hd Hhd) as (_ & _ & h' & Hh' & Hab). simpl in *.
  simplify_eq. unfold get_header. rewrite Hhd. simpl.
  destruct n as [|n].
  - exists [(b, hd)]. split_and!; [done|done|]. by apply (run_cons _ _ b hd b).
  - destruct (prev_side_hash hd) as [p|] eqn:Hp; simpl in Hab; [|lia].
    destruct Hab as (_ & _ & Hhp). destruct (IH p (h - 1) Hhp) as (l & Hl & Hlen & Hrun); [lia|].
    rewrite Hl. simpl. exists ((b, hd) :: l). split_and!; [done|simpl; lia|].
    by eapply run_cons.
Qed.

Lemma main_take n b h : main_block_hash_to_height ar !! b = Some h → Z.of_nat n ≤ h + 1 →
  ∃ l : list (BtcBlockHash * BlockHeaderInfo),
    iter_take (main_ancestors_next ar) n b = Ok (l.*2) ∧ length l = n ∧
    run main_ops (main_tree ar) b l (λ i, i).
Proof.
  revert b h; induction n as [|n IH]; intros b h Hh Hn; [by exists []|].
  pose proof (tw_height _ _ (aw_main _ Hwf) b h Hh) as [info Hinfo]. simpl in Hinfo.
  destruct (tw_header _ _ (aw_main _ Hwf) b info Hinfo) as (_ & Hnz & h' & Hh' & Hab).
  assert (main_ancestors_next ar b = Ok (Some (info, info_prev_block_hash info))) as Hnext.
  { unfold main_ancestors_next. rewrite decide_False by done.
    unfold get_main_header_info. by rewrite Hinfo. }
  simpl in *. simplify_eq. rewrite Hnext. simpl.
  destruct n as [|n].
  - exists [(b, info)]. split_and!; [done|done|]. by apply (run_cons _ _ b info b).
  - unfold main_prev in Hab. case_decide as Hz; simpl in Hab; [lia|].
    destruct Hab as (_ & _ & Hhp).
    destruct (IH (info_prev_block_hash info) (h - 1) Hhp) as (l & Hl & Hlen & Hrun); [lia|].
    rewrite Hl. simpl. exists ((b, info) :: l). split_and!; [done|simpl; lia|].
    eapply run_cons; [done| |done]. intros _. simpl. unfold main_prev. by rewrite decide_False.
Qed.

(** ** The upward iterators *)
Lemma side_rev_line b h s fuel : block_hash_to_height ar !! b = Some h → 0 ≤ s →
  h - s + 1 ≤ Z.of_nat fuel →
  ∃ l, ancestors_rev_collect (side_rev ar) fuel (ancestors_rev_new b s) = Ok l ∧
    line side_ops (side_tree ar) b h s l.
Proof.
  intros Hh Hs Hf.
  destruct (rev_collect_line side_ops (side_tree ar) (aw_side _ Hwf) (side_rev ar) id b h)
    with (s := s) (fuel := fuel) as (l & Hl & Hline); [done| |done| |done|done|].
  - simpl. unfold archive_height. by rewrite Hh.
  - intros n k hk Hk Hn. destruct (side_take n k hk Hk Hn) as (l & Hl & ? & ?).
    exists l. rewrite list_fmap_id. done.
  - exists l. rewrite list_fmap_id in Hl. done.
Qed.

(** ** Missing bodies *)
Definition missing (q : BlockHash * Header) : option BlockHash :=
  if contains_body ar q.1 then None else Some q.1.

(** [a] is where the line down from [b] to the height [s] ends. *)
Definition ends_at b s (a : option BlockHash) : Prop :=
  match a with
  | None => s = 0
  | Some c => block_hash_to_height ar !! c = Some (s - 1) ∧ rtc (side_parent ar) b c
  end.

Lemma next_stored b hd : headers ar !! b = Some hd →
  ancestor_headers_next ar (Some b) = Ok (Some ((b, hd), prev_side_hash hd)).
Proof. intros Hb. unfold ancestor_headers_next, get_header. by rewrite Hb. Qed.

(** The steps of [get_missing_bodies]'s loop: a block of the line, and its end. *)
Definition collect_step (a : option BlockHash) (acc : list BlockHash) (p : BlockHash * Header) :
    res ArchiveError (list BlockHash + list BlockHash) :=
  if decide (Some p.1 = a) then Ok (inr acc)
  else
    o ← Ok (if contains_body ar p.1 then None else Some p.1);
    Ok (inl (match o with Some x => acc ++ [x] | None => acc end)).

Lemma collect_down n b h s a l acc fuel :
  block_hash_to_height ar !! b = Some h → h = s + Z.of_nat n → 0 ≤ s → ends_at b s a →
  length l = (n + 1)%nat → run side_ops (side_tree ar) b l (λ i, i) → (n + 2 ≤ fuel)%nat →
  iter_loop (ancestor_headers_next ar) (collect_step a) fuel (Some b) acc
  = Ok (acc ++ omap missing l).
Proof.
  revert b h l acc fuel; induction n as [|n IH]; intros b h l acc fuel Hh Hn Hs Ha Hlen Hrun Hf;
    (destruct fuel as [|fuel]; [lia|]); cbn [iter_loop].
  all: pose proof (tw_height _ _ (aw_side _ Hwf) b h Hh) as [hd Hhd]; simpl in Hhd;
    destruct (tw_header _ _ (aw_side _ Hwf) b hd Hhd) as (_ & _ & h' & Hh' & Hab);
    simpl in Hh', Hab; simplify_eq; rewrite (next_stored b hd Hhd), bind_Ok.
  all: assert (Some b ≠ a) as Hnb by
    (intros <-; simpl in Ha; destruct Ha as [Hc _]; rewrite Hc in Hh; injection Hh; lia).
  all: assert (∃ l', l = (b, hd) :: l') as [l' ->] by
    (destruct l as [|[b' hd'] l']; [simpl in Hlen; lia|]; exists l';
     destruct (Hrun 0%nat _ eq_refl) as [Hst Hb']; apply nsteps_0_inv in Hst; simpl in *;
     congruence).
  all: assert (collect_step a acc (b, hd)
      = Ok (inl (acc ++ omap missing [(b, hd)]))) as -> by
    (unfold collect_step, missing; simpl; rewrite decide_False by done; simpl;
     destruct (contains_body ar b); simpl; by rewrite ?app_nil_r).
  all: rewrite bind_Ok.
  - destruct l' as [|]; [|simpl in Hlen; lia]. destruct fuel as [|fuel]; [lia|].
    cbn [iter_loop]. rewrite Z.add_0_r in *.
    destruct (prev_side_hash hd) as [p|] eqn:Hp; simpl in Hab.
    + destruct Hab as (Hpos & [hp Hhp] & Hheight). simpl in Hhp.
      rewrite (next_stored p hp Hhp), bind_Ok.
      destruct a as [c|]; simpl in Ha; [|lia]. destruct Ha as [Hc Hbc].
      assert (p = c) as ->.
      { apply rtc_inv in Hbc as [->|(p' & (hd' & Hb' & Hp') & Hpc)]; [done|].
        simpl in Hb', Hp'. assert (p' = p) as -> by congruence.
        apply (rtc_parent_of side_ops (side_tree ar) (aw_side _ Hwf)) in Hpc.
        apply (rtc_ancestor_at _ _ (tw_linked _ _ (aw_side _ Hwf)) p c (s - 1) (s - 1)) in Hpc.
        - rewrite Z.sub_diag in Hpc. by apply ancestor_at_0 in Hpc.
        - by exists hp.
        - by apply lin_height_of.
        - by apply lin_height_of. }
      unfold collect_step. simpl. by rewrite decide_True.
    + done.
  - destruct (prev_side_hash hd) as [p|] eqn:Hp; simpl in Hab; [|lia].
    destruct Hab as (Hpos & Hkp & Hheight).
    assert (run side_ops (side_tree ar) p l' (λ i, i)) as Hrun'.
    { intros i q Hq. destruct (Hrun (S i) q Hq) as [Hst Hhq]. split; [|done].
      apply nsteps_inv_l in Hst as (p' & (hd' & Hb' & Hp') & Hst). simpl in Hb', Hp'.
      assert (p' = p) as -> by congruence. done. }
    rewrite (IH p (s + Z.of_nat n) l') by
      (done || (rewrite Hheight; f_equal; lia) || (simpl in Hlen; lia) || lia ||
       (destruct a as [c|]; simpl in Ha |- *; [|lia]; destruct Ha as [Hc Hbc]; split; [done|];
        apply rtc_inv in Hbc as [->|(p' & (hd' & Hb' & Hp') & Hpc)]; [congruence|];
        simpl in Hb', Hp'; by assert (p' = p) as -> by congruence)).
    rewrite <-app_assoc. f_equal. f_equal. simpl. by destruct (missing (b, hd)).
Qed.

Lemma omap_reverse {A B} (f : A → option B) (l : list A) :
  omap f (reverse l) = reverse (omap f l).
Proof.
  induction l as [|x l IH]; [done|]. rewrite reverse_cons, omap_app, IH. simpl.
  destruct (f x); simpl; [by rewrite reverse_cons|by rewrite app_nil_r].
Qed.

(** A line read from its other end. *)
Lemma line_down b h s l : line side_ops (side_tree ar) b h s l →
  run side_ops (side_tree ar) b (reverse l) (λ i, i).
Proof.
  intros [Hlen Hrun] i q Hq. apply reverse_lookup_Some in Hq as [Hq Hi].
  destruct (Hrun _ _ Hq) as [Hst Hhd]. split; [|done].
  by replace (Z.to_nat (h - s - Z.of_nat (length l - S i))) with i in Hst by lia.
Qed.

Lemma line_height b h s l i q : block_hash_to_height ar !! b = Some h → 0 ≤ s →
  line side_ops (side_tree ar) b h s l → l !! i = Some q →
  block_hash_to_height ar !! q.1 = Some (s + Z.of_nat i).
Proof.
  intros Hh Hs [Hlen Hrun] Hq. destruct (Hrun _ _ Hq) as [Hst _].
  apply lookup_lt_Some in Hq.
  destruct (ancestor_at_height _ _ (tw_linked _ _ (aw_side _ Hwf))
    (h - s - Z.of_nat i) b q.1 h) as (_ & _ & Hx).
  - by apply (tw_height _ _ (aw_side _ Hwf) b h).
  - by apply lin_height_of.
  - split; [lia|]. by apply (nsteps_parent_of side_ops (side_tree ar) (aw_side _ Hwf)).
  - apply lin_height_of in Hx. simpl in Hx. rewrite Hx. f_equal. lia.
Qed.

(** A block of the line, by its height. *)
Lemma line_elem b h s l c : block_hash_to_height ar !! b = Some h → 0 ≤ s →
  line side_ops (side_tree ar) b h s l →
  c ∈ l.*1 ↔ rtc (side_parent ar) b c ∧ ∃ hc, block_hash_to_height ar !! c = Some hc ∧ s ≤ hc.
Proof.
  intros Hh Hs Hline. rewrite list_elem_of_fmap. split.
  - intros (q & -> & [i Hi]%list_elem_of_lookup). destruct (proj2 Hline i q Hi) as [Hst _].
    split; [by eapply rtc_nsteps_2|]. eexists. split; [by eapply line_height|lia].
  - intros (Hbc & hc & Hhc & Hle).
    apply (rtc_parent_of side_ops (side_tree ar) (aw_side _ Hwf)) in Hbc.
    apply (rtc_ancestor_at _ _ (tw_linked _ _ (aw_side _ Hwf)) b c h hc) in Hbc;
      [|by apply (tw_height _ _ (aw_side _ Hwf) b h)|by apply lin_height_of..].
    destruct Hbc as [Hle' Hst].
    destruct (lookup_lt_is_Some_2 l (Z.to_nat (hc - s))) as [q Hq].
    { destruct Hline as [-> _]. lia. }
    exists q. split; [|by eapply list_elem_of_lookup_2].
    destruct (proj2 Hline _ _ Hq) as [Hst' _].
    apply (nsteps_parent_of side_ops (side_tree ar) (aw_side _ Hwf)) in Hst'.
    replace (Z.to_nat (h - s - Z.of_nat (Z.to_nat (hc - s)))) with (Z.to_nat (h - hc)) in Hst'
      by lia.
    by eapply nsteps_det.
Qed.

Lemma line_sorted b h s l : block_hash_to_height ar !! b = Some h → 0 ≤ s →
  line side_ops (side_tree ar) b h s l →
  StronglySorted (λ c d, ∃ hc hd, block_hash_to_height ar !! c = Some hc ∧
    block_hash_to_height ar !! d = Some hd ∧ hc < hd) (omap missing l).
Proof.
  intros Hh Hs Hline.
  assert (∀ i q, l !! i = Some q → block_hash_to_height ar !! q.1 = Some (s + Z.of_nat i)) as Hq
    by (intros; by eapply line_height).
  clear Hline Hh Hs h. revert s Hq. induction l as [|q l IH]; intros s Hq; [constructor|].
  assert (StronglySorted (λ c d, ∃ hc hd, block_hash_to_height ar !! c = Some hc ∧
    block_hash_to_height ar !! d = Some hd ∧ hc < hd) (omap missing l)) as Hl.
  { apply (IH (s + 1)). intros i q' Hi. rewrite (Hq (S i) q' Hi). f_equal. lia. }
  simpl. destruct (missing q) as [c|] eqn:Hm; [|done]. constructor; [done|].
  apply Forall_forall. intros d Hd. apply list_elem_of_omap in Hd as (q' & [i Hi]%list_elem_of_lookup & Hm').
  unfold missing in Hm, Hm'. destruct (contains_body ar q.1), (contains_body ar q'.1); simplify_eq.
  exists (s + 0), (s + Z.of_nat (S i)). split_and!; [by apply (Hq 0%nat)|by apply (Hq (S i))|lia].
Qed.
End Iter.

(** C37: The blocks without a body in the line up to a block, from a height on: the
    batched upward iterator and the downward loop up to the block below that height
    return the same list, oldest first, and it holds exactly those blocks. *)
Theorem missing_bodies_spec `{ExtFuns} `{ExtWork} `{HashIter} ar b h s a :
  archive_wf ar → block_hash_to_height ar !! b = Some h → 0 ≤ s ≤ h → ends_at ar b s a →
  ∃ l, iter_missing_bodies ar b s = Ok l ∧ get_missing_bodies ar b a = Ok l ∧
    (∀ c, c ∈ l ↔ bodies ar !! c = None ∧ rtc (side_parent ar) b c ∧
       ∃ hc, block_hash_to_height ar !! c = Some hc ∧ s ≤ hc) ∧
    StronglySorted (λ c d, ∃ hc hd, block_hash_to_height ar !! c = Some hc ∧
       block_hash_to_height ar !! d = Some hd ∧ hc < hd) l.
Proof.
  intros Hwf Hh Hs Ha.
  pose proof (height_lt_size side_ops (side_tree ar) (aw_side _ Hwf) b h Hh) as Hsize. simpl in Hsize.
  destruct (side_rev_line ar Hwf b h s (side_fuel ar)) as (l & Hl & Hline);
    [done|lia|unfold side_fuel; lia|].
  exists (omap (missing ar) l). split_and!.
  - unfold iter_missing_bodies. by rewrite Hl, bind_Ok.
  - unfold get_missing_bodies, collect_until. fold (collect_step ar a).
    change (λ acc p, _) with (collect_step ar a).
    rewrite (collect_down ar Hwf (Z.to_nat (h - s)) b h s a (reverse l)); [|done|lia|lia|done|..].
    + rewrite bind_Ok. simpl. by rewrite omap_reverse, reverse_involutive.
    + rewrite length_reverse. destruct Hline as [-> _]. lia.
    + by eapply line_down.
    + unfold side_fuel. lia.
  - intros c. rewrite list_elem_of_omap, <-(line_elem ar Hwf b h s l c) by (done || lia).
    unfold missing, contains_body. rewrite list_elem_of_fmap. split.
    + intros (q & Hq & Hm). destruct (bodies ar !! q.1) eqn:Hb; simplify_eq.
      split; [done|]. by exists q.
    + intros (Hn & q & -> & Hq). exists q. by rewrite Hn.
  - apply (line_sorted ar Hwf b h s); [done|lia|done].
Qed.
