(* ===== verification/MainTask.v ===== *)
(** The task that follows the mainchain node (lib/node/mainchain_task.rs): fetching
    the ancestors of a mainchain block into the archive, moving the side tips to the
    mainchain's tip, handling the node's block events.

    What the mainchain node answers is an argument.  A database transaction that is
    dropped leaves the archive as it was; the progress of the synchronisation, which
    other threads read, stays as it was last written. *)
From S2P Require Import Prelude Bytes SwapTypes TxTypes Externals Accumulator.
From S2P Require Import BlockTypes Bundle StateDb Peg Ancestry SideTips Archive Proto.
From S2P Require Import ArchiveWrites ArchiveIter Addresses.

(** ** The progress of a synchronisation (lib/types/mod.rs) *)
Inductive MainchainSyncPhase := Idle | SyncHeaders | SyncWriting | SyncState.

Record MainchainSyncProgress := mkProgress {
  phase : MainchainSyncPhase;
  done_ : Z;
  total_ : Z;
  sync_tip_height : Z;
}.

Definition set_idle : MainchainSyncProgress := mkProgress Idle 0 0 0.
Definition fetched_headers (tip_height : Z) (next_height : option Z) : MainchainSyncProgress :=
  mkProgress SyncHeaders (u32_sub tip_height (default 0 next_height)) tip_height tip_height.
Definition start_writing (tip_height total : Z) : MainchainSyncProgress :=
  mkProgress SyncWriting 0 total tip_height.
Definition start_state (tip_height total : Z) : MainchainSyncProgress :=
  mkProgress SyncState 0 total tip_height.
(** [wrote_headers] and [connected] *)
Definition add_done (n : Z) (p : MainchainSyncProgress) : MainchainSyncProgress :=
  mkProgress (phase p) (u32_add (done_ p) n) (total_ p) (sync_tip_height p).

Inductive MainTaskError :=
| MtArchive (e : ArchiveError)
| MtMainchain (e : ProtoError)
| MtAncestorInfoUnavailable (tip : BtcBlockHash).

Definition from_archive {A} (m : res ArchiveError A) : res MainTaskError A :=
  match m with
  | Ok a => Ok a
  | Err e => Err (MtArchive e)
  | Panic => Panic
  end.

Section MainTask.
Context {T : ExtTypes} {X : ExtFuns} {W : ExtWork} {I : HashIter}.
Implicit Types (ar : Archive) (info : BlockHeaderInfo) (p : MainchainSyncProgress).

Abbreviation Infos := (BlockHeaderInfo * BlockInfo)%type.

(** ** [subscribe_block_events]

    The attempts: the validator at the first two calls, whether an event came before the
    second answer about the tip, and the validator at that call.  Without attempts the
    loop is still running. *)
Fixpoint subscribe_block_events {C : ExtConsensus} {XT : ExtText}
    (attempts : list (Validator * bool * Validator)) :
    option (res ProtoError (BtcBlockHash * list (res ProtoError MainchainEvent))) :=
  match attempts with
  | [] => None
  | (srv, event_first, srv') :: attempts =>
      match (chain_tip ← get_chain_tip srv;
             events ← subscribe_events srv;
             if event_first : bool then Ok None
             else
               new_chain_tip ← get_chain_tip srv';
               Ok (if decide (info_block_hash chain_tip = info_block_hash new_chain_tip)
                   then Some (info_block_hash chain_tip, events) else None)) with
      | Ok (Some r) => Some (Ok r)
      | Ok None => subscribe_block_events attempts
      | Err e => Some (Err e)
      | Panic => Some Panic
      end
  end.

(** ** [request_ancestor_infos] *)
Definition BATCH_REQUEST_SIZE : Z := 20000.

(** The answers of the node, decoded: to the [n]th call, for a block and a number of
    ancestors ([decoded_infos] of Proto.v). *)
Definition MainchainNode : Type := nat → BtcBlockHash → Z → res ProtoError (list Infos).

(** The loop over the batches: the infos from the requested block down, [None] if a
    block was not available.  Without fuel the loop is still running. *)
Fixpoint fetch_infos (fuel : nat) (node : MainchainNode) (n : nat) ar
    (current_block_hash : BtcBlockHash) (block_infos : list Infos) p :
    MainchainSyncProgress * option (res MainTaskError (option (list Infos))) :=
  match fuel with
  | O => (p, None)
  | S fuel =>
      match checked_infos (node n current_block_hash (BATCH_REQUEST_SIZE - 1)) with
      | Err e => (p, Some (Err (MtMainchain e)))
      | Panic => (p, Some Panic)
      | Ok None => (p, Some (Ok None))
      | Ok (Some (head, tail)) =>
          let current_header := (List.last tail head).1 in
          let current_block_hash := info_prev_block_hash current_header in
          let current_height :=
            if decide (info_height current_header = 0) then None
            else Some (info_height current_header - 1) in
          let block_infos := block_infos ++ head :: tail in
          let first_height :=
            match block_infos with i :: _ => info_height i.1 | [] => 0 end in
          let p := fetched_headers first_height current_height in
          if decide (current_block_hash = zero_hash) then (p, Some (Ok (Some block_infos)))
          else
            match main_header_infos ar !! current_block_hash with
            | Some _ => (p, Some (Ok (Some block_infos)))
            | None => fetch_infos fuel node (S n) ar current_block_hash block_infos p
            end
      end
  end.

(** The write transaction: the infos are stored from the earliest on. *)
Fixpoint store_infos (block_infos : list Infos) ar p :
    MainchainSyncProgress * res ArchiveError Archive :=
  match block_infos with
  | [] => (p, Ok ar)
  | (header_info, block_info) :: block_infos =>
      match (ar ← put_main_header_info header_info ar;
             put_main_block_info (info_block_hash header_info) block_info ar) with
      | Ok ar => store_infos block_infos ar (add_done 1 p)
      | Err e => (p, Err e)
      | Panic => (p, Panic)
      end
  end.

Definition request_ancestor_infos (fuel : nat) (node : MainchainNode)
    (block_hash : BtcBlockHash) ar p :
    (Archive * MainchainSyncProgress) * option (res MainTaskError bool) :=
  if decide (block_hash = zero_hash) then ((ar, p), Some (Ok true))
  else
    match main_header_infos ar !! block_hash with
    | Some _ => ((ar, p), Some (Ok true))
    | None =>
        match fetch_infos fuel node 0 ar block_hash [] p with
        | (p, None) => ((ar, p), None)
        | (p, Some (Err e)) => ((ar, p), Some (Err e))
        | (p, Some Panic) => ((ar, p), Some Panic)
        | (p, Some (Ok None)) => ((ar, p), Some (Ok false))
        | (p, Some (Ok (Some block_infos))) =>
            let tip_height := match block_infos with i :: _ => info_height i.1 | [] => 0 end in
            let p := start_writing tip_height (Z.of_nat (length block_infos) `mod` 2 ^ 32) in
            match store_infos (reverse block_infos) ar p with
            | (p, Ok ar) => ((ar, p), Some (Ok true))
            | (p, Err e) => ((ar, p), Some (Err (MtArchive e)))
            | (p, Panic) => ((ar, p), Some Panic)
            end
        end
    end.

(** ** Side tips *)

(** The block ['bmm_commitment]: the commitment of a mainchain block, if its sidechain
    block can be a tip: its body is stored, its parent is a tip and it is verified. *)
Definition connectable_commitment ar (main_hash : BtcBlockHash) (block_info : BlockInfo) :
    res ArchiveError (option BmmCommitment) :=
  match bmm_commitment block_info with
  | None => Ok None
  | Some side_block_hash =>
      if negb (contains_body ar side_block_hash) then Ok None
      else
        side_header ← get_header ar side_block_hash;
        if match prev_side_hash side_header with
           | Some side_parent =>
               bool_decide (sidechain_tips (side_tips ar) !! side_parent = None)
           | None => false
           end
        then Ok None
        else
          r ← get_bmm_result ar side_block_hash main_hash;
          Ok (match r with
              | Verified =>
                  Some (mkBmmCommitment side_block_hash
                    (mkHeaderData (prev_side_hash side_header) (prev_main_hash side_header)))
              | Failed => None
              end)
  end.

Definition connect_main ar info (block_info : BlockInfo) : res ArchiveError Archive :=
  commitment ← connectable_commitment ar (info_block_hash info) block_info;
  tips ← from_side_tips (connect_mainchain_tip info commitment (side_tips ar));
  Ok {| ar with side_tips := tips |}.

Definition disconnect_main ar info : res ArchiveError (Archive * option BlockHeaderInfo) :=
  prev ← main_parent_header_info ar info;
  block_info ← get_main_block_info ar (info_block_hash info);
  tips ← from_side_tips
    (disconnect_mainchain_tip prev (bmm_commitment block_info) (side_tips ar));
  Ok ({| ar with side_tips := tips |}, prev).

(** *** [sync_side_tips_to_tip] *)
Definition extract_tip (tip_info : option BlockHeaderInfo) : BtcBlockHash :=
  match tip_info with Some info => info_block_hash info | None => zero_hash end.

Definition sync_ancestor ar (mainchain_tip0 : BtcBlockHash) : res ArchiveError BtcBlockHash :=
  let h := mainchain_tip_hash (mainchain_tip (side_tips ar)) in
  if decide (h = zero_hash) then Ok zero_hash
  else if decide (mainchain_tip0 = zero_hash) then Ok zero_hash
  else last_common_main_ancestor ar mainchain_tip0 h.

(** Disconnecting: a turn for each block of the line, and one for the end. *)
Fixpoint disconnect_to (fuel : nat) (common_ancestor : BtcBlockHash)
    (tip_info : option BlockHeaderInfo) (evs : list MainchainEvent) ar :
    res ArchiveError (Archive * option BlockHeaderInfo * list MainchainEvent) :=
  match tip_info with
  | None => Ok (ar, None, evs)
  | Some info =>
      if decide (info_block_hash info = common_ancestor) then Ok (ar, Some info, evs)
      else
        match fuel with
        | O => Panic
        | S fuel =>
            '(ar, prev) ← disconnect_main ar info;
            disconnect_to fuel common_ancestor prev
              (evs ++ [DisconnectBlock (info_block_hash info)]) ar
        end
  end.

(** [iter.take(n).collect()] of the upward iterator. *)
Fixpoint rev_take {K A E} (R : RevReads K A E) (n : nat) (it : AncestorsRev K A) :
    res E (list A) :=
  match n with
  | O => Ok []
  | S n =>
      '(item, it) ← ancestors_rev_next R it;
      match item with
      | None => Ok []
      | Some item => rest ← rev_take R n it; Ok (item :: rest)
      end
  end.

Definition SYNC_BATCH_SIZE : nat := 32.

Definition start_height (tip_info : option BlockHeaderInfo) : Z :=
  match tip_info with Some info => u32_add (info_height info) 1 | None => 0 end.

Definition connect_one (acc : Archive * option BlockHeaderInfo * list MainchainEvent) info :
    res ArchiveError (Archive * option BlockHeaderInfo * list MainchainEvent) :=
  let '(ar, _, evs) := acc in
  block_info ← get_main_block_info ar (info_block_hash info);
  ar ← connect_main ar info block_info;
  Ok (ar, Some info, evs ++ [ConnectBlock info block_info]).

(** Connecting, in batches; the progress is written after each. *)
Fixpoint connect_up_to (fuel : nat) (mainchain_tip0 : BtcBlockHash)
    (acc : Archive * option BlockHeaderInfo * list MainchainEvent) p :
    MainchainSyncProgress * res ArchiveError (Archive * list MainchainEvent) :=
  let '(ar, tip_info, evs) := acc in
  if decide (extract_tip tip_info = mainchain_tip0) then (p, Ok (ar, evs))
  else
    match fuel with
    | O => (p, Panic)
    | S fuel =>
        match (batch ← rev_take (main_rev ar) SYNC_BATCH_SIZE
                         (ancestors_rev_new mainchain_tip0 (start_height tip_info));
               acc ← foldM connect_one acc batch;
               Ok (batch, acc)) with
        | Ok (batch, acc) =>
            connect_up_to fuel mainchain_tip0 acc
              (add_done (Z.of_nat (length batch)) p)
        | Err e => (p, Err e)
        | Panic => (p, Panic)
        end
    end.

(** The archive and the events that are sent once it is committed. *)
Definition sync_side_tips_to_tip (mainchain_tip0 : BtcBlockHash) ar p :
    MainchainSyncProgress * res ArchiveError (Archive * list MainchainEvent) :=
  match (common_ancestor ← sync_ancestor ar mainchain_tip0;
         disconnect_to (main_fuel ar) common_ancestor
           (tip_info (mainchain_tip (side_tips ar))) [] ar) with
  | Err e => (p, Err e)
  | Panic => (p, Panic)
  | Ok (ar, tip_info, evs) =>
      let p :=
        match main_header_infos ar !! mainchain_tip0 with
        | Some info =>
            start_state (info_height info)
              (u32_sub (u32_add (info_height info) 1) (start_height tip_info))
        | None => p
        end in
      connect_up_to (main_fuel ar) mainchain_tip0 (ar, tip_info, evs) p
  end.

(** ** [handle_block_event]: the archive and the event that is passed on *)
Definition handle_block_event (event : MainchainEvent) ar :
    res ArchiveError (Archive * MainchainEvent) :=
  match event with
  | ConnectBlock header_info block_info =>
      ar ← put_main_header_info header_info ar;
      ar ← put_main_block_info (info_block_hash header_info) block_info ar;
      ar ← connect_main ar header_info block_info;
      Ok (ar, event)
  | DisconnectBlock block_hash =>
      header_info ← get_main_header_info ar block_hash;
      '(ar, _) ← disconnect_main ar header_info;
      Ok (ar, event)
  end.

(** ** [run_once] up to the loop over the events *)
Definition start_up (fuel : nat) (node : MainchainNode) (best_main_tip : BtcBlockHash) ar p :
    (Archive * MainchainSyncProgress) * option (res MainTaskError (list MainchainEvent)) :=
  match request_ancestor_infos fuel node best_main_tip ar p with
  | ((ar, p), None) => ((ar, p), None)
  | ((ar, p), Some (Err e)) => ((ar, p), Some (Err e))
  | ((ar, p), Some Panic) => ((ar, p), Some Panic)
  | ((ar, p), Some (Ok false)) =>
      ((ar, p), Some (Err (MtAncestorInfoUnavailable best_main_tip)))
  | ((ar, p), Some (Ok true)) =>
      match sync_side_tips_to_tip best_main_tip ar p with
      | (p, Ok (ar, evs)) => ((ar, set_idle), Some (Ok evs))
      | (p, Err e) => ((ar, p), Some (Err (MtArchive e)))
      | (p, Panic) => ((ar, p), Some Panic)
      end
  end.

(** ** [handle_request]: the archive, and the response for whoever asked *)
Definition handle_main_request (fuel : nat) (node : MainchainNode) (main_block_hash : BtcBlockHash)
    ar p : (Archive * MainchainSyncProgress) * option (BtcBlockHash * res MainTaskError bool) :=
  match request_ancestor_infos fuel node main_block_hash ar p with
  | ((ar, p), None) => ((ar, p), None)
  | ((ar, _), Some r) => ((ar, set_idle), Some (main_block_hash, r))
  end.

(** ** The loop over the mailbox

    What the task sends: events of blocks, and responses to requests. *)
Inductive MailboxItem :=
| BlockEventItem (e : res ProtoError MainchainEvent)
| RequestItem (main_block_hash : BtcBlockHash) (fuel : nat) (node : MainchainNode).
Inductive MainTaskEvent :=
| BlockSent (e : MainchainEvent)
| ResponseSent (main_block_hash : BtcBlockHash) (r : res MainTaskError bool).

Definition mailbox_turn (item : MailboxItem) (s : Archive * MainchainSyncProgress) :
    (Archive * MainchainSyncProgress) * option (res MainTaskError (list MainTaskEvent)) :=
  let '(ar, p) := s in
  match item with
  | BlockEventItem (Err e) => (s, Some (Err (MtMainchain e)))
  | BlockEventItem Panic => (s, Some Panic)
  | BlockEventItem (Ok event) =>
      match handle_block_event event ar with
      | Ok (ar, event) => ((ar, p), Some (Ok [BlockSent event]))
      | Err e => (s, Some (Err (MtArchive e)))
      | Panic => (s, Some Panic)
      end
  | RequestItem h fuel node =>
      match handle_main_request fuel node h ar p with
      | (s, None) => (s, None)
      | (s, Some (h, r)) => (s, Some (Ok [ResponseSent h r]))
      end
  end.

(** The first error ends the loop; the end of the stream of events ends it too. *)
Fixpoint mailbox_loop (items : list MailboxItem) (evs : list MainTaskEvent)
    (s : Archive * MainchainSyncProgress) :
    (Archive * MainchainSyncProgress) * list MainTaskEvent * option (res MainTaskError ()) :=
  match items with
  | [] => (s, evs, Some (Ok ()))
  | item :: items =>
      match mailbox_turn item s with
      | (s, None) => (s, evs, None)
      | (s, Some (Ok evs')) => mailbox_loop items (evs ++ evs') s
      | (s, Some (Err e)) => (s, evs, Some (Err e))
      | (s, Some Panic) => (s, evs, Some Panic)
      end
  end.

(** *** [run_once], for a stream of items *)
Definition run_once (fuel : nat) (node : MainchainNode) (best_main_tip : BtcBlockHash)
    (items : list MailboxItem) (s : Archive * MainchainSyncProgress) :
    (Archive * MainchainSyncProgress) * list MainTaskEvent * option (res MainTaskError ()) :=
  match start_up fuel node best_main_tip s.1 s.2 with
  | (s, None) => (s, [], None)
  | (s, Some (Err e)) => (s, [], Some (Err e))
  | (s, Some Panic) => (s, [], Some Panic)
  | (s, Some (Ok evs)) => mailbox_loop items (BlockSent <$> evs) s
  end.
(** A turn of [run]: whatever ended the task, its progress is idle and it starts
    again. *)
Definition run_turn fuel node best_main_tip items s :
    (Archive * MainchainSyncProgress) * list MainTaskEvent :=
  let '((ar, _), evs, _) := run_once fuel node best_main_tip items s in ((ar, set_idle), evs).
End MainTask.
