(* ===== verification/MainTaskProps.v ===== *)
(** The side tips reach the mainchain's tip (lib/node/mainchain_task.rs,
    [sync_side_tips_to_tip]), unless a block that has to be disconnected requests a
    sidechain block that never became a tip. *)
From S2P Require Import Prelude Bytes SwapTypes TxTypes Externals Accumulator.
From S2P Require Import BlockTypes Bundle StateDb Peg Ancestry BlockTree SideTips Archive.
From S2P Require Import ArchiveWrites ArchiveProps ArchiveIter ArchiveIterProps Bmm MainTask.
From S2P Require Import Proto.

(** ** The first items of an upward iterator *)
Lemma rev_take_collect {K A E} (R : RevReads K A E) n fuel it l :
  ancestors_rev_collect R fuel it = Ok l → rev_take R n it = Ok (take n l).
Proof.
  revert fuel it l; induction n as [|n IH]; intros fuel it l H; [done|].
  destruct fuel as [|fuel]; cbn [ancestors_rev_collect rev_take] in *;
    apply bind_Ok_inv in H as ([item it'] & -> & H); rewrite bind_Ok;
    destruct item as [item|]; try done; try by simplify_eq.
  apply bind_Ok_inv in H as (rest & Hr & [= <-]). by rewrite (IH fuel it' rest).
Qed.

(** ** Lines of a tree *)
Section Lines.
Context {K V S E : Type} `{Countable K, Countable S} (O : TreeOps K V S E) `{!TreeLaws O}.
Context (t : Tree K V S) (Hwf : tree_wf O t) (b : K) (h : Z).

Lemma line_drop s l k : line O t b h s l → (k ≤ length l)%nat → 0 ≤ s →
  line O t b h (s + Z.of_nat k) (drop k l).
Proof.
  intros [Hlen Hrun] Hk Hs. split; [rewrite length_drop; lia|].
  intros i p Hp. rewrite lookup_drop in Hp. destruct (Hrun _ _ Hp) as [Hst Hhd].
  split; [|done]. by replace (Z.to_nat (h - (s + Z.of_nat k) - Z.of_nat i))
    with (Z.to_nat (h - s - Z.of_nat (k + i))) by lia.
Qed.

Lemma line_unique s l l' : line O t b h s l → line O t b h s l' → l = l'.
Proof.
  intros [Hlen Hrun] [Hlen' Hrun']. apply list_eq_same_length with (length l); [lia|done|].
  intros i [k v] [k' v'] _ Hi Hi'. destruct (Hrun _ _ Hi) as [Hst Hv].
  destruct (Hrun' _ _ Hi') as [Hst' Hv']. simpl in *.
  apply (nsteps_parent_of O t Hwf) in Hst, Hst'.
  assert (k = k') as <- by by eapply nsteps_det. congruence.
Qed.
End Lines.

Section MainTaskProps.
Context {T : ExtTypes} {X : ExtFuns} {W : ExtWork} {I : HashIter}.
Context (ar : Archive) (Hwf : archive_wf ar).
Implicit Types (info : BlockHeaderInfo) (b c : BtcBlockHash) (tips : SideTips) (h s : Z).

(** The same archive with other side tips. *)
Abbreviation with_tips tips := {| ar with side_tips := tips |}.

(** The heights that the mainchain node states are those the archive counts. *)
Definition heights_agree : Prop := ∀ b info,
  main_header_infos ar !! b = Some info →
  main_block_hash_to_height ar !! b = Some (info_height info).

Definition stored info : Prop := main_header_infos ar !! info_block_hash info = Some info.

(** Up from [o], each info on top of the one before. *)
Fixpoint upward (o : option BlockHeaderInfo) (l : list BlockHeaderInfo) : Prop :=
  match l with
  | [] => True
  | info :: l =>
      stored info ∧ info_prev_block_hash info = extract_tip o ∧
      (∀ t, o = Some t → info_height info = u32_add (info_height t) 1) ∧
      upward (Some info) l
  end.

(** Down from [o] to [c], which is left out. *)
Fixpoint downward (o : option BlockHeaderInfo) (c : BtcBlockHash) (l : list BlockHeaderInfo) : Prop :=
  match l with
  | [] => extract_tip o = c ∧ ∀ t, o = Some t → stored t
  | info :: l =>
      o = Some info ∧ info_block_hash info ≠ c ∧ stored info ∧
      ∃ prev, main_parent_header_info ar info = Ok prev ∧
        (∀ p, prev = Some p → u32_add (info_height p) 1 = info_height info) ∧
        downward prev c l
  end.

(** ** Disconnecting *)

(** The request of a block names a block that is no tip, or one that was taken out of
    the order already: [disconnect_mainchain_tip] fails. *)
Definition blocked tips info c : Prop :=
  ∃ block_info, main_block_infos ar !! info_block_hash info = Some block_info ∧
    bmm_commitment block_info = Some c ∧
    (sidechain_tips tips !! c = None ∨
     ∃ i, sidechain_tips tips !! c = Some i ∧
       tip_main_block_hash i = info_block_hash info ∧ ordered_sidechain_tips tips !! i = None).

(** What one disconnected block leaves behind. *)
Definition tips_before tips tips' info (prev : option BlockHeaderInfo) : Prop :=
  tip_info (mainchain_tip tips') = prev ∧ sidechain_tips tips' = sidechain_tips tips ∧
  ∀ i, tip_main_block_hash i ≠ info_block_hash info →
    ordered_sidechain_tips tips' !! i = ordered_sidechain_tips tips !! i.

Lemma previous_tip_ok info prev :
  main_parent_header_info ar info = Ok prev →
  (∀ b i, main_header_infos ar !! b = Some i → info_block_hash i = b) →
  (∀ p, prev = Some p → u32_add (info_height p) 1 = info_height info) →
  previous_tip info prev = Ok prev.
Proof.
  unfold main_parent_header_info, previous_tip. intros H Hh Hp. case_decide as Hz.
  - by injection H as <-.
  - apply bind_Ok_inv in H as (i & Hi%ok_or_Ok & [= <-]).
    rewrite (Hh _ _ Hi), (Hp i eq_refl). by rewrite !bool_decide_eq_true_2.
Qed.

Lemma stored_hash b info : main_header_infos ar !! b = Some info → info_block_hash info = b.
Proof. intros Hb. by destruct (tw_header _ _ (aw_main _ Hwf) b info Hb) as (? & _). Qed.

Lemma disconnect_one tips info prev :
  tip_info (mainchain_tip tips) = Some info →
  main_parent_header_info ar info = Ok prev →
  (∀ p, prev = Some p → u32_add (info_height p) 1 = info_height info) →
  is_Some (main_block_infos ar !! info_block_hash info) →
  (∃ c, blocked tips info c ∧
    disconnect_main (with_tips tips) info = Err (SideTipsErr (MissingSidechainTip c))) ∨
  ((∀ c, ¬ blocked tips info c) ∧ ∃ tips',
    disconnect_main (with_tips tips) info = Ok (with_tips tips', prev) ∧
    tips_before tips tips' info prev).
Proof.
  intros Htip Hprev Hh [bi Hbi].
  unfold disconnect_main, main_parent_header_info, get_main_header_info. simpl.
  fold (get_main_header_info ar (info_prev_block_hash info)).
  fold (main_parent_header_info ar info). rewrite Hprev, bind_Ok.
  unfold get_main_block_info. simpl. rewrite Hbi. simpl.
  unfold disconnect_mainchain_tip. destruct (mainchain_tip tips) as [w o]. simpl in Htip. subst o.
  simpl. rewrite (previous_tip_ok info prev Hprev stored_hash Hh), bind_Ok.
  destruct (bmm_commitment bi) as [c|] eqn:Hc.
  - destruct (sidechain_tips tips !! c) as [i|] eqn:Hi; simpl.
    + case_decide as Hm.
      * destruct (ordered_sidechain_tips tips !! i) as [s|] eqn:Ho; simpl.
        -- right. split.
           ++ intros c' (bi' & Hbi' & Hc' & [Hn|(i' & Hi' & _ & Ho')]); simplify_eq.
           ++ eexists. split; [done|]. split_and!; [done|done|].
              intros i' Hi'. simpl. apply lookup_delete_ne. congruence.
        -- left. exists c. split; [|done]. exists bi. split_and!; [done|done|]. right. by exists i.
      * right. split.
        -- intros c' (bi' & Hbi' & Hc' & [Hn|(i' & Hi' & ? & Ho')]); simplify_eq.
        -- eexists. by split; [done|].
    + left. exists c. split; [|done]. exists bi. split_and!; [done|done|by left].
  - right. split.
    + intros c' (bi' & Hbi' & Hc' & _). simplify_eq.
    + eexists. by split; [done|].
Qed.

Lemma disconnect_line tips o c l evs fuel :
  tip_info (mainchain_tip tips) = o → downward o c l →
  NoDup (info_block_hash <$> l) →
  Forall (λ info, is_Some (main_block_infos ar !! info_block_hash info)) l →
  (length l ≤ fuel)%nat →
  (Forall (λ info, ∀ d, ¬ blocked tips info d) l ∧ ∃ tips' o',
    disconnect_to fuel c o evs (with_tips tips)
    = Ok (with_tips tips', o', evs ++ (DisconnectBlock ∘ info_block_hash <$> l)) ∧
    tip_info (mainchain_tip tips') = o' ∧ extract_tip o' = c ∧ ∀ t, o' = Some t → stored t) ∨
  (∃ info d, info ∈ l ∧ blocked tips info d ∧
    disconnect_to fuel c o evs (with_tips tips) = Err (SideTipsErr (MissingSidechainTip d))).
Proof.
  revert tips o evs fuel; induction l as [|info l IH];
    intros tips o evs fuel Htip Hdown Hnd Hbi Hf; simpl in Hdown.
  - left. split; [constructor|]. exists tips, o. csimpl. rewrite app_nil_r.
    destruct Hdown as [<- Hst]. split; [|done].
    destruct fuel as [|fuel], o as [info|]; simpl in *; try done; by rewrite decide_True.
  - destruct Hdown as (-> & Hc & Hst & prev & Hprev & Hh & Hdown).
    rewrite fmap_cons in Hnd. apply NoDup_cons in Hnd as [Hni Hnd]. inversion_clear Hbi as [|?? Hbi1 Hbi'].
    destruct fuel as [|fuel]; [simpl in Hf; lia|]. simpl. rewrite decide_False by done.
    destruct (disconnect_one tips info prev Htip Hprev Hh Hbi1)
      as [(d & Hd & ->)|(Hnb & tips1 & -> & Htip1 & Hside1 & Hord1)].
    { right. exists info, d. split; [by left|done]. }
    simpl.
    assert (∀ info' d, info' ∈ l → blocked tips1 info' d ↔ blocked tips info' d) as Hiff.
    { intros info' d Hin. unfold blocked. rewrite Hside1.
      apply exist_proper; intros ?. do 2 apply and_iff_compat_l.
      apply or_iff_compat_l, exist_proper. intros i. apply and_iff_compat_l.
      split; intros [Hm Ho]; (split; [done|]); revert Ho; rewrite Hord1; try done;
        rewrite Hm; intros Heq; apply Hni; rewrite <-Heq; by apply list_elem_of_fmap_2. }
    destruct (IH tips1 prev (evs ++ [DisconnectBlock (info_block_hash info)]) fuel)
      as [(Hall & tips' & o' & -> & Hres)|(info' & d & Hin & Hb & ->)];
      [done|done|done|done|simpl in Hf; lia| |].
    + left. split.
      * constructor; [done|]. rewrite Forall_forall in Hall |- *.
        intros info' Hin d Hd. by apply (Hall info' Hin d), Hiff.
      * exists tips', o'. by split; [rewrite <-app_assoc|].
    + right. exists info', d. split_and!; [by right|by apply Hiff|done].
Qed.

(** ** Connecting *)

(** A request for a sidechain block whose body is stored has been judged. *)
Definition requests_judged : Prop := ∀ m block_info c,
  main_block_infos ar !! m = Some block_info → bmm_commitment block_info = Some c →
  is_Some (bodies ar !! c) →
  is_Some (headers ar !! c) ∧ is_Some (try_get_bmm_result ar c m).
Definition infos_stored : Prop := ∀ b,
  is_Some (main_header_infos ar !! b) → is_Some (main_block_infos ar !! b).

Lemma connectable_commitment_ok tips m block_info :
  requests_judged → main_block_infos ar !! m = Some block_info →
  ∃ o, connectable_commitment (with_tips tips) m block_info = Ok o ∧
    ∀ cm p, o = Some cm → data_prev_side_hash (sidechain_header_data cm) = Some p →
      is_Some (sidechain_tips tips !! p).
Proof.
  intros Hj Hbi. unfold connectable_commitment.
  destruct (bmm_commitment block_info) as [c|] eqn:Hc; [|by exists None].
  unfold contains_body, get_header, get_bmm_result, try_get_bmm_result, get_bmm_results. simpl.
  destruct (bodies ar !! c) as [body|] eqn:Hb; [|by exists None]. simpl.
  destruct (Hj m block_info c Hbi Hc (ex_intro _ body Hb)) as [[hd Hhd] [r Hr]].
  unfold try_get_bmm_result, get_bmm_results in Hr. rewrite Hhd, Hr. simpl.
  destruct (prev_side_hash hd) as [p|] eqn:Hp.
  - case_bool_decide as Ht; [by exists None|]. eexists. split; [done|].
    intros cm p' Hcm Hp'. destruct r; simplify_eq/=. by apply not_eq_None_Some.
  - eexists. split; [done|]. intros cm p' Hcm Hp'. destruct r; by simplify_eq/=.
Qed.

Lemma connect_mainchain_tip_ok info o tips :
  info_prev_block_hash info = extract_tip (tip_info (mainchain_tip tips)) →
  (∀ t, tip_info (mainchain_tip tips) = Some t → info_height info = u32_add (info_height t) 1) →
  (∀ cm p, o = Some cm → data_prev_side_hash (sidechain_header_data cm) = Some p →
    is_Some (sidechain_tips tips !! p)) →
  ∃ tips', connect_mainchain_tip info o tips = Ok tips' ∧
    tip_info (mainchain_tip tips') = Some info.
Proof.
  intros Hp Hh Ho. unfold connect_mainchain_tip.
  rewrite bool_decide_eq_true_2 by exact Hp. simpl.
  assert (∀ w, ∃ tips', match o with
      | Some c => connect_sidechain_tip (info_block_hash info) w
                    (sidechain_block_hash c) (sidechain_header_data c) tips
      | None => Ok tips
      end = Ok tips') as Hside.
  { intros w. destruct o as [cm|]; [|by eexists]. unfold connect_sidechain_tip.
    destruct (data_prev_side_hash (sidechain_header_data cm)) as [p|] eqn:Hpr.
    - destruct (Ho cm p eq_refl Hpr) as [i ->]. simpl.
      destruct (sidechain_tips tips !! _); by eexists.
    - simpl. destruct (sidechain_tips tips !! _); by eexists. }
  destruct (Hside (work_add (cumulative_work (mainchain_tip tips)) (info_work info)))
    as [tips' Htips'].
  destruct (tip_info (mainchain_tip tips)) as [t|].
  - rewrite bool_decide_eq_true_2 by by apply Hh. simpl. rewrite Htips'. by eexists.
  - simpl. rewrite Htips'. by eexists.
Qed.

Definition connect_event info : option MainchainEvent :=
  ConnectBlock info <$> main_block_infos ar !! info_block_hash info.

Lemma connect_line tips o l evs :
  requests_judged → infos_stored → tip_info (mainchain_tip tips) = o → upward o l →
  ∃ tips', foldM connect_one (with_tips tips, o, evs) l
    = Ok (with_tips tips', default o (Some <$> last l), evs ++ omap connect_event l) ∧
    tip_info (mainchain_tip tips') = default o (Some <$> last l).
Proof.
  intros Hj Hs. revert tips o evs; induction l as [|info l IH]; intros tips o evs Htip Hup.
  - exists tips. simpl. by rewrite app_nil_r.
  - destruct Hup as (Hst & Hp & Hh & Hup).
    destruct (Hs (info_block_hash info)) as [bi Hbi]; [by eexists|].
    destruct (connectable_commitment_ok tips (info_block_hash info) bi Hj Hbi) as (cm & Hcm & Hcm').
    destruct (connect_mainchain_tip_ok info cm tips) as (tips1 & Ht1 & Htip1);
      [by rewrite Htip|by rewrite Htip|done|].
    destruct (IH tips1 (Some info) (evs ++ [ConnectBlock info bi]) Htip1 Hup) as (tips' & H' & Htip').
    exists tips'. cbn [foldM].
    assert (connect_one (with_tips tips, o, evs) info
      = Ok (with_tips tips1, Some info, evs ++ [ConnectBlock info bi])) as ->.
    { unfold connect_one, get_main_block_info, connect_main. simpl. rewrite Hbi. simpl.
      rewrite Hcm. simpl. by rewrite Ht1. }
    rewrite bind_Ok, H'. rewrite last_cons. split; [|by rewrite Htip'; destruct (last l)].
    assert (connect_event info = Some (ConnectBlock info bi)) as He
      by (unfold connect_event; by rewrite Hbi).
    simpl. rewrite He, <-app_assoc. by destruct (last l).
Qed.

(** ** The line up to the mainchain's tip *)
Context (Hheights : heights_agree).

Lemma main_lineage_tips tips : main_lineage (with_tips tips) = main_lineage ar.
Proof. reflexivity. Qed.

Lemma main_rev_tips tips : main_rev (with_tips tips) = main_rev ar.
Proof.
  unfold main_rev, get_nth_main_ancestor. rewrite main_lineage_tips.
  unfold get_main_header_info, main_ancestors_next. f_equal.
Qed.

Lemma main_rev_line b h s fuel : main_block_hash_to_height ar !! b = Some h → 0 ≤ s →
  h - s + 1 ≤ Z.of_nat fuel →
  ∃ l : list (BtcBlockHash * BlockHeaderInfo),
    ancestors_rev_collect (main_rev ar) fuel (ancestors_rev_new b s) = Ok (l.*2) ∧
    line main_ops (main_tree ar) b h s l.
Proof.
  intros Hh Hs Hf. pose proof (tw_height _ _ (aw_main _ Hwf) b h Hh) as [info Hinfo]. simpl in Hinfo.
  apply (rev_collect_line main_ops (main_tree ar) (aw_main _ Hwf) (main_rev ar) snd b h); try done.
  - simpl. unfold get_main_header_info. rewrite Hinfo. simpl. f_equal.
    pose proof (Hheights b info Hinfo). congruence.
  - intros n k hk Hk Hn. by apply main_take with hk.
Qed.

(** [o] is where the line up to [b] starts from height [s] on. *)
Definition starts_at b h s (o : option BlockHeaderInfo) : Prop :=
  match o with
  | None => s = 0
  | Some t => s = info_height t + 1 ∧ s ≤ h + 1 ∧ stored t ∧
      nsteps (main_parent ar) (Z.to_nat (h + 1 - s)) b (info_block_hash t)
  end.

Section Line.
Context (b : BtcBlockHash) (h : Z) (Hh : main_block_hash_to_height ar !! b = Some h).

(** A block of the line is stored at the height that its position says, and the rest
    of the line starts at it. *)
Lemma line_at s l i k v :
  0 ≤ s → line main_ops (main_tree ar) b h s l → l !! i = Some (k, v) →
  info_block_hash v = k ∧ stored v ∧ info_height v = s + Z.of_nat i ∧
  s + Z.of_nat i ≤ h ≤ u32_MAX ∧ starts_at b h (s + Z.of_nat i + 1) (Some v).
Proof.
  intros Hs [Hlen Hrun] Hi. destruct (Hrun i (k, v) Hi) as [Hst Hv]. simpl in Hst, Hv.
  apply lookup_lt_Some in Hi. pose proof (stored_hash k v Hv) as Hk.
  assert (stored v) as Hsv by (unfold stored; by rewrite Hk).
  assert (main_block_hash_to_height ar !! k = Some (s + Z.of_nat i)) as Hks.
  { destruct (ancestor_at_height _ _ (tw_linked _ _ (aw_main _ Hwf))
      (h - s - Z.of_nat i) b k h) as (_ & _ & Hx).
    - by apply (tw_height _ _ (aw_main _ Hwf) b h).
    - by apply lin_height_of.
    - split; [lia|]. by apply (nsteps_parent_of main_ops (main_tree ar) (aw_main _ Hwf)).
    - apply lin_height_of in Hx. simpl in Hx. rewrite Hx. f_equal. lia. }
  assert (info_height v = s + Z.of_nat i) as Hiv
    by (pose proof (Hheights k v Hv); congruence).
  destruct (known_height main_ops _ (aw_main _ Hwf) b) as (h2 & Hh2 & [_ ?]);
    [by apply (tw_height _ _ (aw_main _ Hwf) b h)|].
  simpl in Hh2. assert (h2 = h) as -> by congruence.
  split_and!; [done|done|done|lia|done|]. simpl. split_and!; [lia|lia|done|].
  rewrite Hk. by replace (Z.to_nat (h + 1 - (s + Z.of_nat i + 1)))
    with (Z.to_nat (h - s - Z.of_nat i)) by lia.
Qed.

(** The first block of a line is on top of where the line starts. *)
Lemma line_first s o k v l :
  0 ≤ s → starts_at b h s o → line main_ops (main_tree ar) b h s ((k, v) :: l) →
  info_prev_block_hash v = extract_tip o.
Proof.
  intros Hs Ho Hline. destruct (line_at s _ 0 k v Hs Hline eq_refl) as (Hk & Hst & Hhv & Hle & _).
  destruct (tw_header _ _ (aw_main _ Hwf) _ v Hst) as (_ & _ & h' & Hh' & Hab).
  pose proof (Hheights _ v Hst) as Hhk. simpl in Hh', Hab.
  assert (h' = s) as -> by (rewrite Hhk in Hh'; injection Hh'; lia).
  destruct o as [t|]; simpl in Ho |- *.
  - destruct Ho as (-> & _ & Hstt & Hnt). pose proof (Hheights _ _ Hstt) as Hht.
    destruct (known_height main_ops _ (aw_main _ Hwf) (info_block_hash t)) as (h2 & Hh2 & [? _]);
      [by eexists|]. simpl in Hh2. assert (h2 = info_height t) as -> by congruence.
    destruct (proj2 Hline 0%nat (k, v) eq_refl) as [Hsk Hv]. simpl in Hsk, Hv.
    replace (Z.to_nat (h + 1 - (info_height t + 1)))
      with (Z.to_nat (h - (info_height t + 1) - 0) + 1)%nat in Hnt by lia.
    apply nsteps_add_inv in Hnt as (k' & Hk' & (v' & Hv' & Hp')%nsteps_once_inv). simpl in Hv', Hp'.
    apply (nsteps_parent_of main_ops (main_tree ar) (aw_main _ Hwf)) in Hk', Hsk.
    assert (k' = k) as -> by by eapply nsteps_det. assert (v' = v) as -> by congruence.
    unfold main_prev in Hp'. by case_decide; simplify_eq.
  - subst s. unfold main_prev in Hab. case_decide as Hz; [done|]. simpl in Hab. lia.
Qed.

Lemma line_upward s o l :
  0 ≤ s → starts_at b h s o → line main_ops (main_tree ar) b h s l → upward o (l.*2).
Proof.
  revert s o; induction l as [|[k v] l IH]; intros s o Hs Ho Hline; [done|].
  destruct (line_at s _ 0 k v Hs Hline eq_refl) as (Hk & Hst & Hhv & Hle & Hnext).
  rewrite fmap_cons. simpl. split_and!; [done|by eapply line_first| |].
  - intros t ->. destruct Ho as (Hot & _ & Hstt & _). pose proof (Hheights _ _ Hstt) as Hht.
    destruct (known_height main_ops _ (aw_main _ Hwf) (info_block_hash t)) as (h2 & Hh2 & [? _]);
      [by eexists|]. simpl in Hh2. assert (h2 = info_height t) as -> by congruence.
    rewrite u32_add_small; lia.
  - apply (IH (s + 1)); [lia| |].
    + by replace (s + 1) with (s + Z.of_nat 0 + 1) by lia.
    + apply (line_drop main_ops (main_tree ar) b h s ((k, v) :: l) 1 Hline); simpl; lia.
Qed.

Lemma upward_take o l n : upward o l → upward o (take n l).
Proof.
  revert o n; induction l as [|info l IH]; intros o [|n]; simpl; [done..|].
  intros (? & ? & ? & ?). eauto.
Qed.

(** Where the rest of a line starts is not its end, and its height is counted. *)
Lemma starts_before s o : 0 ≤ s ≤ h → starts_at b h s o →
  extract_tip o ≠ b ∧ start_height o = s.
Proof.
  intros Hs Ho. destruct (tw_height _ _ (aw_main _ Hwf) b h Hh) as [vb Hvb]. simpl in Hvb.
  destruct (tw_header _ _ (aw_main _ Hwf) b vb Hvb) as (_ & Hnz & _).
  destruct o as [t|]; simpl in Ho |- *; [|by split; [intros <-|]].
  destruct Ho as (-> & _ & Hst & _). pose proof (Hheights _ _ Hst) as Hht. split.
  - intros <-. rewrite Hht in Hh. injection Hh. lia.
  - destruct (known_height main_ops _ (aw_main _ Hwf) b) as (h2 & Hh2 & [_ ?]); [by eexists|].
    simpl in Hh2. assert (h2 = h) as -> by congruence. rewrite u32_add_small; lia.
Qed.

Lemma starts_end s o : s = h + 1 → 0 ≤ h → starts_at b h s o → extract_tip o = b.
Proof.
  intros -> H0 Ho. destruct o as [t|]; simpl in Ho; [|lia]. destruct Ho as (_ & _ & _ & Hn).
  rewrite Z.sub_diag in Hn. by apply nsteps_0_inv in Hn.
Qed.

Lemma line_end s o l : 0 ≤ s ≤ h + 1 → 0 ≤ h → starts_at b h s o →
  line main_ops (main_tree ar) b h s l → extract_tip (default o (Some <$> last l.*2)) = b.
Proof.
  intros Hs H0 Ho Hline. pose proof (proj1 Hline) as Hlen.
  destruct (decide (s = h + 1)) as [Heq|Hne].
  { assert (l = []) as -> by (apply length_zero_iff_nil; lia). by apply (starts_end s). }
  destruct (lookup_lt_is_Some_2 l (length l - 1)) as [[k v] Hkv]; [lia|].
  destruct (line_at s l _ k v (proj1 Hs) Hline Hkv) as (_ & _ & _ & _ & Hat).
  assert (last l.*2 = Some v) as ->.
  { rewrite last_lookup, list_lookup_fmap, length_fmap.
    by replace (pred (length l)) with (length l - 1)%nat by lia; rewrite Hkv. }
  apply (starts_end _ (Some v)) in Hat; [done|lia|done].
Qed.

Lemma start_height_eq s o : 0 ≤ s ≤ u32_MAX → starts_at b h s o → start_height o = s.
Proof.
  intros Hs Ho. destruct o as [t|]; simpl in *; [|done]. destruct Ho as (-> & _).
  by rewrite u32_add_small.
Qed.

(** The loop over the batches connects the rest of a line, and counts it. *)
Lemma connect_up s l tips o evs fuel p :
  requests_judged → infos_stored → 0 ≤ s → 0 ≤ h →
  tip_info (mainchain_tip tips) = o → starts_at b h s o →
  line main_ops (main_tree ar) b h s l → s ≤ h + 1 → (length l ≤ fuel)%nat →
  0 ≤ done_ p → done_ p + Z.of_nat (length l) ≤ u32_MAX →
  ∃ tips', connect_up_to fuel b (with_tips tips, o, evs) p
    = (mkProgress (phase p) (done_ p + Z.of_nat (length l)) (total_ p) (sync_tip_height p),
       Ok (with_tips tips', evs ++ omap connect_event l.*2)) ∧
    mainchain_tip_hash (mainchain_tip tips') = b.
Proof.
  intros Hj Hi. revert s l tips o evs p. induction fuel as [|fuel IH];
    intros s l tips o evs p Hs H0 Htip Ho Hline Hle Hf Hd Hdl;
    pose proof (proj1 Hline) as Hlen.
  all: destruct (decide (s = h + 1)) as [Heq|Hne].
  1, 3: assert (l = []) as -> by (apply length_zero_iff_nil; lia); exists tips;
    pose proof (starts_end s o Heq H0 Ho) as Hend; simpl; rewrite decide_True by done;
    rewrite app_nil_r, Z.add_0_r; split; [by destruct p|];
    unfold mainchain_tip_hash; by rewrite Htip.
  1: lia.
  destruct (starts_before s o ltac:(lia) Ho) as [Hnb Hsh].
  cbn [connect_up_to]. rewrite decide_False by done. rewrite Hsh.
  rewrite main_rev_tips.
  destruct (main_rev_line b h s (S (length l)) Hh Hs) as (l' & Hl' & Hline'); [lia|].
  rewrite (line_unique main_ops _ (aw_main _ Hwf) b h s l' l Hline' Hline) in Hl'.
  rewrite (rev_take_collect _ SYNC_BATCH_SIZE _ _ _ Hl'), bind_Ok.
  set (n := SYNC_BATCH_SIZE).
  pose proof (upward_take _ _ n (line_upward s o l Hs Ho Hline)) as Hup.
  destruct (connect_line tips o (take n l.*2) evs Hj Hi Htip Hup) as (tips1 & -> & Htip1).
  rewrite bind_Ok. set (o1 := default o (Some <$> last (take n l.*2))).
  set (m := length (take n l.*2)).
  assert (m = n `min` length l)%nat as Hm
    by (unfold m; by rewrite length_take, length_fmap).
  assert (0 < m ≤ length l)%nat as Hm' by (unfold n, SYNC_BATCH_SIZE in Hm; lia).
  assert (starts_at b h (s + Z.of_nat m) o1) as Ho1.
  { unfold o1. destruct (lookup_lt_is_Some_2 l (m - 1)) as [[k v] Hkv]; [lia|].
    assert (last (take n l.*2) = Some v) as ->.
    { rewrite last_lookup. fold m. replace (pred m) with (m - 1)%nat by lia.
      rewrite lookup_take_Some. split; [|lia]. rewrite list_lookup_fmap, Hkv. done. }
    destruct (line_at s l (m - 1) k v Hs Hline Hkv) as (_ & _ & _ & _ & Hat). simpl default.
    by replace (s + Z.of_nat m) with (s + Z.of_nat (m - 1) + 1) by lia. }
  assert (drop n l.*2 = (drop m l).*2) as Hdrop.
  { rewrite <-fmap_drop. destruct (Nat.le_gt_cases n (length l)).
    - by replace m with n by lia.
    - rewrite !drop_ge; [done|lia|lia]. }
  destruct (IH (s + Z.of_nat m) (drop m l) tips1 o1 (evs ++ omap connect_event (take n l.*2))
    (add_done (Z.of_nat m) p)) as (tips' & Hres & Hend).
  1-4: first [done|lia].
  - by apply line_drop; [|lia|lia].
  - lia.
  - rewrite length_drop. lia.
  - simpl. rewrite u32_add_small by lia. lia.
  - simpl. rewrite u32_add_small, length_drop by lia. lia.
  - exists tips'. split; [|done]. rewrite Hres. simpl.
    rewrite u32_add_small, length_drop by lia. f_equal.
    + f_equal. lia.
    + rewrite <-app_assoc, <-omap_app, <-Hdrop. by rewrite take_drop.
Qed.
End Line.

(** ** The line down from the tip *)
Lemma downward_to c info :
  stored info → c = zero_hash ∨ rtc (main_parent ar) (info_block_hash info) c →
  ∃ l, downward (Some info) c l ∧ NoDup (info_block_hash <$> l) ∧
    (∀ x, x ∈ l → stored x ∧ info_height x ≤ info_height info) ∧
    Z.of_nat (length l) ≤ info_height info + 1.
Proof.
  remember (Z.to_nat (info_height info)) as n eqn:Hn. revert info Hn.
  induction n as [n IH] using lt_wf_ind; intros info Hn Hst Hc.
  pose proof (Hheights _ _ Hst) as Hh.
  destruct (known_height main_ops _ (aw_main _ Hwf) (info_block_hash info)) as (h2 & Hh2 & [H0 Hmax]);
    [by eexists|]. simpl in Hh2. assert (h2 = info_height info) as -> by congruence.
  destruct (decide (info_block_hash info = c)) as [Heq|Hne].
  { exists []. split_and!; [|apply NoDup_nil_2|by intros x ?%elem_of_nil|simpl; lia].
    split; [done|]. by intros t [= <-]. }
  destruct (tw_header _ _ (aw_main _ Hwf) _ info Hst) as (_ & _ & h' & Hh' & Hab). simpl in Hh', Hab.
  assert (h' = info_height info) as -> by congruence. unfold main_prev in Hab.
  destruct (decide (info_prev_block_hash info = zero_hash)) as [Hz|Hnz].
  - exists [info]. split_and!; [|apply NoDup_singleton| |simpl; lia].
    + split_and!; [done..|]. exists None. unfold main_parent_header_info.
      rewrite decide_True by done. split_and!; [done..|]. split; [|done]. simpl.
      destruct Hc as [->|Hr]; [done|]. apply rtc_inv in Hr as [|(p & (v & Hv & Hp) & _)]; [done|].
      simpl in Hv, Hp. assert (v = info) as -> by (unfold stored in Hst; congruence).
      unfold main_prev in Hp. by rewrite decide_True in Hp.
    + intros x ->%list_elem_of_singleton. by split; [|lia].
  - simpl in Hab. destruct Hab as (Hpos & [ip Hip] & Hhp). simpl in Hip.
    pose proof (stored_hash _ ip Hip) as Hipk. pose proof (Hheights _ ip Hip) as Hhip.
    assert (info_height ip = info_height info - 1) as Hhe by (simpl in Hhp; congruence).
    destruct (IH (Z.to_nat (info_height ip)) ltac:(lia) ip eq_refl) as (l & Hl & Hnd & Hall & Hlen).
    { unfold stored. by rewrite Hipk. }
    { rewrite Hipk. destruct Hc as [->|Hr]; [by left|right].
      apply rtc_inv in Hr as [|(p & (v & Hv & Hp) & Hr)]; [done|].
      simpl in Hv, Hp. assert (v = info) as -> by (unfold stored in Hst; congruence).
      unfold main_prev in Hp. rewrite decide_False in Hp by done. by simplify_eq. }
    exists (info :: l). split_and!.
    + split_and!; [done..|]. exists (Some ip). unfold main_parent_header_info, get_main_header_info.
      rewrite decide_False, Hip by done. split_and!; [done| |done].
      intros p [= <-]. rewrite u32_add_small; lia.
    + rewrite fmap_cons. apply NoDup_cons. split; [|done].
      intros (x & Hx & Hin)%list_elem_of_fmap. destruct (Hall x Hin) as [Hsx Hle].
      pose proof (Hheights _ x Hsx) as Hhx. rewrite <-Hx in Hhx.
      assert (info_height x = info_height info) by congruence. lia.
    + intros x [->|Hin]%elem_of_cons; [by split; [|lia]|].
      destruct (Hall x Hin). split; [done|lia].
    + simpl. lia.
Qed.

(** Where disconnecting stops is where the line up to [b] starts. *)
Lemma stopped_at b h c o :
  main_block_hash_to_height ar !! b = Some h →
  c = zero_hash ∨ rtc (main_parent ar) b c →
  extract_tip o = c → (∀ t, o = Some t → stored t) →
  ∃ s, 0 ≤ s ≤ h + 1 ∧ starts_at b h s o.
Proof.
  intros Hh Hc <- Ho. destruct (known_height main_ops _ (aw_main _ Hwf) b) as (h2 & Hh2 & [? _]);
    [by apply (tw_height _ _ (aw_main _ Hwf) b h)|].
  simpl in Hh2. assert (h2 = h) as -> by congruence.
  destruct o as [t|]; [|exists 0; split; [lia|done]]. simpl in Hc.
  pose proof (Ho t eq_refl) as Hst. pose proof (Hheights _ _ Hst) as Hht.
  destruct (known_height main_ops _ (aw_main _ Hwf) (info_block_hash t)) as (h2 & Hh2' & [? _]);
    [by eexists|]. simpl in Hh2'. assert (h2 = info_height t) as -> by congruence.
  destruct (tw_header _ _ (aw_main _ Hwf) _ t Hst) as (_ & Hnz & _).
  destruct Hc as [Hz|Hr]; [by simpl in Hnz|].
  apply (rtc_parent_of main_ops (main_tree ar) (aw_main _ Hwf)) in Hr.
  apply (rtc_ancestor_at _ _ (tw_linked _ _ (aw_main _ Hwf)) b _ h (info_height t)) in Hr;
    [|by apply (tw_height _ _ (aw_main _ Hwf) b h)|by apply lin_height_of..].
  destruct Hr as [Hle Hst']. exists (info_height t + 1). split; [lia|]. simpl.
  split_and!; [done|lia|done|].
  apply (nsteps_parent_of main_ops (main_tree ar) (aw_main _ Hwf)) in Hst'.
  by replace (Z.to_nat (h + 1 - (info_height t + 1))) with (Z.to_nat (h - info_height t)) by lia.
Qed.
End MainTaskProps.

(** ** The synchronisation *)
Section Sync.
Context {T : ExtTypes} {X : ExtFuns} {W : ExtWork} {I : HashIter}.
Implicit Types (ar : Archive).

(** What the archive of a synchronised node holds: block infos next to all mainchain
    headers, the heights that the node stated, judged requests. *)
Record mainchain_complete ar : Prop := {
  mc_heights : heights_agree ar;
  mc_infos : infos_stored ar;
  mc_judged : requests_judged ar;
}.

(** Where the two branches meet: the last common ancestor of the tip [o] and the block
    [b], or the start of the mainchain if there is no tip. *)
Definition fork_point ar (o : option BlockHeaderInfo) (b c : BtcBlockHash) : Prop :=
  match o with
  | Some t => last_common main_ops (main_tree ar) b (info_block_hash t) c
  | None => c = zero_hash
  end.

(** The path from the tip [o] to the block [b]: down along [ds] to where the branches
    meet and no further, up along [cs]. *)
Definition sync_path ar (o : option BlockHeaderInfo) (b : BtcBlockHash)
    (ds cs : list BlockHeaderInfo) : Prop :=
  ∃ o', fork_point ar o b (extract_tip o') ∧
    downward ar o (extract_tip o') ds ∧ upward ar o' cs ∧
    extract_tip (default o' (Some <$> last cs)) = b.

Lemma sync_ancestor_ok ar b target :
  archive_wf ar → mainchain_complete ar →
  main_header_infos ar !! b = Some target → 2 * info_height target ≤ u32_MAX →
  (∀ t, tip_info (mainchain_tip (side_tips ar)) = Some t → stored ar t ∧
    ∃ a, rtc (main_parent ar) b a ∧ rtc (main_parent ar) (info_block_hash t) a) →
  ∃ c, sync_ancestor ar b = Ok c ∧
    fork_point ar (tip_info (mainchain_tip (side_tips ar))) b c.
Proof.
  intros Hwf Hmc Hb Hmax Htip. unfold sync_ancestor, mainchain_tip_hash.
  destruct (tip_info (mainchain_tip (side_tips ar))) as [t|] eqn:Ht.
  - destruct (Htip t eq_refl) as (Hst & a & Hba & Hta).
    destruct (tw_header _ _ (aw_main _ Hwf) _ t Hst) as (_ & Hnz & _).
    destruct (tw_header _ _ (aw_main _ Hwf) _ target Hb) as (_ & Hbz & _).
    rewrite (decide_False (P := info_block_hash t = zero_hash)) by done.
    rewrite decide_False by done.
    destruct (last_common_main_ancestor_ok ar b (info_block_hash t)
      (info_height target) (info_height t) a) as (c & Hc & Hlast);
      [done|by apply (mc_heights _ Hmc)|by apply (mc_heights _ Hmc)|lia|done|done|].
    by exists c.
  - rewrite decide_True by done. by exists zero_hash.
Qed.

(** The fork is on both branches, and it is stored. *)
Lemma fork_point_on ar o b c : fork_point ar o b c →
  (c = zero_hash ∨ rtc (main_parent ar) b c) ∧
  ∀ t, o = Some t → c = zero_hash ∨ rtc (main_parent ar) (info_block_hash t) c.
Proof.
  destruct o as [t|]; [intros (Hb & Ht & _)|intros ->; by split; [left|]].
  split; [by right|]. intros t' [= <-]. by right.
Qed.

Lemma fork_stored ar o b c : archive_wf ar → is_Some (main_header_infos ar !! b) →
  fork_point ar o b c → ∃ o', extract_tip o' = c ∧ ∀ t, o' = Some t → stored ar t.
Proof.
  intros Hwf Hb Hf. destruct o as [t|]; [|rewrite Hf; by exists None].
  destruct Hf as (Hr & _). assert (is_Some (main_header_infos ar !! c)) as [v Hv].
  { clear -Hwf Hb Hr. induction Hr as [|x y z (v & Hv & Hp) _ IH]; [done|]. apply IH.
    destruct (tw_header _ _ (aw_main _ Hwf) _ v Hv) as (_ & _ & h & _ & Hab).
    rewrite Hp in Hab. by destruct Hab as (_ & ? & _). }
  pose proof (stored_hash ar Hwf c v Hv) as Hc. exists (Some v). split; [done|].
  intros t' [= <-]. unfold stored. by rewrite Hc.
Qed.

(** The line from where disconnecting stops up to the block, as the path's end. *)
Lemma sync_line ar b target o c ds o' :
  archive_wf ar → mainchain_complete ar →
  main_header_infos ar !! b = Some target → 2 * info_height target ≤ u32_MAX →
  fork_point ar o b c → downward ar o c ds →
  extract_tip o' = c → (∀ t, o' = Some t → stored ar t) →
  ∃ s l, 0 ≤ s ≤ info_height target + 1 ∧ starts_at ar b (info_height target) s o' ∧
    line main_ops (main_tree ar) b (info_height target) s l ∧ sync_path ar o b ds l.*2.
Proof.
  intros Hwf Hmc Hb Hmax Hfork Hds Hext Hst. pose proof (mc_heights _ Hmc) as Hag.
  pose proof (Hag _ _ Hb) as Hh. set (h := info_height target) in *.
  destruct (known_height main_ops _ (aw_main _ Hwf) b) as (h2 & Hh2 & [H0 _]); [by eexists|].
  simpl in Hh2. assert (h2 = h) as -> by congruence. clear Hh2.
  destruct (fork_point_on ar _ b c Hfork) as [Hbc _].
  destruct (stopped_at ar Hwf Hag b h c o') as (s & Hs & Hstart); [done..|].
  destruct (main_rev_line ar Hwf Hag b h s (S (Z.to_nat h))) as (l & _ & Hline); [done|lia|lia|].
  exists s, l. split; [done|]. split; [done|]. split; [done|]. exists o'. rewrite Hext.
  split_and!; [done|done| |].
  - apply (line_upward ar Hwf Hag b h Hh s); [lia|done..].
  - by apply (line_end ar Hwf Hag b h Hh s).
Qed.

(** C10: Moving the side tips to a mainchain block that the archive holds ends.  It
    disconnects the blocks down to the last common ancestor, and no further, and connects
    those up to the block, in this order, and sends exactly these events; nothing else of the
    archive changes, and the progress ends at its total.  The exception: if a block that has
    to be disconnected requests a sidechain block that never became a tip, it fails,
    with nothing changed and nothing sent. *)
Theorem sync_side_tips_spec ar b target p :
  archive_wf ar → mainchain_complete ar →
  main_header_infos ar !! b = Some target → 2 * info_height target ≤ u32_MAX →
  (∀ t, tip_info (mainchain_tip (side_tips ar)) = Some t → stored ar t ∧
    ∃ a, rtc (main_parent ar) b a ∧ rtc (main_parent ar) (info_block_hash t) a) →
  ∃ ds cs, sync_path ar (tip_info (mainchain_tip (side_tips ar))) b ds cs ∧
    (((∀ info d, info ∈ ds → ¬ blocked ar (side_tips ar) info d) ∧
      ∃ tips', sync_side_tips_to_tip b ar p
        = (mkProgress SyncState (Z.of_nat (length cs)) (Z.of_nat (length cs))
             (info_height target),
           Ok ({| ar with side_tips := tips' |},
               (DisconnectBlock ∘ info_block_hash <$> ds) ++ omap (connect_event ar) cs)) ∧
        mainchain_tip_hash (mainchain_tip tips') = b) ∨
     (∃ info d, info ∈ ds ∧ blocked ar (side_tips ar) info d ∧
      sync_side_tips_to_tip b ar p = (p, Err (SideTipsErr (MissingSidechainTip d))))).
Proof.
  intros Hwf Hmc Hb Hmax Htip. pose proof (mc_heights _ Hmc) as Hag.
  destruct (sync_ancestor_ok ar b target) as (c & Hc & Hfork); [done..|].
  destruct (fork_point_on ar _ b c Hfork) as [_ Htc].
  assert (∃ ds, downward ar (tip_info (mainchain_tip (side_tips ar))) c ds ∧
    NoDup (info_block_hash <$> ds) ∧ (∀ x, x ∈ ds → stored ar x) ∧
    (length ds ≤ main_fuel ar)%nat) as (ds & Hds & Hnd & Hstored & Hlen).
  { destruct (tip_info (mainchain_tip (side_tips ar))) as [t|] eqn:Ht.
    - destruct (Htip t eq_refl) as (Hst & _).
      destruct (downward_to ar Hwf Hag c t Hst (Htc t eq_refl)) as (l & Hl & ? & Hall & Hlen).
      exists l. split_and!; [done|done|by intros x Hx; apply Hall|].
      pose proof (height_lt_size main_ops _ (aw_main _ Hwf) _ _ (Hag _ _ Hst)). simpl in *.
      unfold main_fuel. lia.
    - exists []. split_and!; [by rewrite Hfork|apply NoDup_nil_2|by intros x ?%elem_of_nil|simpl; lia]. }
  destruct (disconnect_line ar Hwf (side_tips ar) _ c ds [] (main_fuel ar) eq_refl Hds Hnd)
    as [(Hnb & tips1 & o' & Hd & Htip1 & Hext & Hst1)|(info & d & Hin & Hbl & Hd)];
    [|done| |].
  { apply Forall_forall. intros x Hx. apply (mc_infos _ Hmc). eexists. by apply Hstored. }
  all: assert ({| ar with side_tips := side_tips ar |} = ar) as Hid by (by destruct ar);
    rewrite Hid in Hd.
  2: { destruct (fork_stored ar _ b c Hwf ltac:(by eexists) Hfork) as (o' & Hext & Hst).
    destruct (sync_line ar b target (tip_info (mainchain_tip (side_tips ar))) c ds o') as (s & l & _ & _ & _ & Hpath); [done..|].
    exists ds, l.*2. split; [done|]. right. exists info, d. split_and!; [done|done|].
    unfold sync_side_tips_to_tip. by rewrite Hc, bind_Ok, Hd. }
  destruct (sync_line ar b target (tip_info (mainchain_tip (side_tips ar))) c ds o') as (s & l & Hs & Hstart & Hline & Hpath); [done..|].
  pose proof (proj1 Hline) as Hll. rewrite Forall_forall in Hnb.
  pose proof (Hag _ _ Hb) as Hh. set (h := info_height target) in *.
  pose proof (height_lt_size main_ops _ (aw_main _ Hwf) _ _ Hh) as Hsize. simpl in Hsize.
  destruct (known_height main_ops _ (aw_main _ Hwf) b) as (h2 & Hh2 & [H0 _]); [by eexists|].
  simpl in Hh2. assert (h2 = h) as -> by congruence. clear Hh2.
  exists ds, l.*2. split; [done|]. left. split; [by intros; apply Hnb|].
  assert (h + 1 ≤ u32_MAX) as Hh1 by (unfold u32_MAX in *; lia).
  destruct (connect_up ar Hwf Hag b h Hh s l tips1 o' (DisconnectBlock ∘ info_block_hash <$> ds)
    (main_fuel ar) (start_state h (Z.of_nat (length l)))) as (tips' & Hup & Hend);
    try done; try apply Hmc; try (cbn [done_ start_state]; lia); try (unfold main_fuel; lia).
  exists tips'. split; [|done]. unfold sync_side_tips_to_tip. rewrite Hc, bind_Ok, Hd.
  unfold main_fuel in Hup |- *. cbn [main_header_infos app]. rewrite Hb. fold h.
  assert (u32_sub (u32_add h 1) (start_height o') = Z.of_nat (length l)) as ->.
  { rewrite (start_height_eq ar b h s) by (done || lia).
    rewrite u32_add_small, u32_sub_small by lia. lia. }
  rewrite Hup. cbn [phase done_ total_ sync_tip_height start_state]. by rewrite length_fmap.
Qed.
End Sync.
