(* ===== verification/MainFetch.v ===== *)
(** Fetching mainchain blocks: against an honest mainchain node the mainchain task gets
    all ancestors of a block, and stores them soundly (lib/node/mainchain_task.rs,
    [request_ancestor_infos]; lib/types/proto.rs). *)
From S2P Require Import Prelude Bytes SwapTypes TxTypes Externals Hex Addresses.
From S2P Require Import Accumulator BlockTypes Bundle StateDb Peg Ancestry BlockTree SideTips.
From S2P Require Import Archive ArchiveWrites ArchiveProps ArchiveIter ArchiveIterProps Bmm Proto ProtoProps.
From S2P Require Import MainTask MainTaskProps.

Lemma anyM_total {E A} (f : A → res E bool) l :
  (∀ x, x ∈ l → ∃ b, f x = Ok b) → ∃ b, anyM f l = Ok b.
Proof.
  induction l as [|x l IH]; intros Hf; simpl; [by eexists|].
  destruct (Hf x) as [[] ->]; [by left|by eexists|]. simpl. apply IH. intros y Hy. apply Hf. by right.
Qed.

Section MainFetch.
Context {T : ExtTypes} {X : ExtFuns} {W : ExtWork} {I : HashIter} {IL : HashIterLaws I}.
Implicit Types (ar : Archive) (info : BlockHeaderInfo) (m : BtcBlockHash).

Lemma parent_committed_total ar p m : archive_wf ar → bmm_sound ar →
  is_Some (headers ar !! p) → is_Some (main_header_infos ar !! m) →
  ∃ b, parent_committed ar (get_bmm_results ar p) m = Ok b.
Proof.
  intros Hwf Hs Hp Hm. apply anyM_total. intros [m' r] Hin. cbn [fst snd].
  rewrite map_iter_perm in Hin. apply elem_of_map_to_list in Hin.
  case_decide as Hv; [subst r|by eexists].
  assert (is_Some (main_header_infos ar !! m')) as Hm'.
  { assert (committed ar m' p) as Hc.
    { apply (bs_verified _ Hs); [|done]. by apply (bs_valid _ Hs). }
    destruct Hc as [? ? ? _ (? & mi' & _ & _ & ? & _) _|? ? ? ? ? _ (? & mi' & _ & _ & ? & _) _ _ _];
      by exists mi'. }
  destruct (is_main_descendant_ok ar m' m Hwf Hm' Hm) as (b & Hb & _). by exists b.
Qed.

(** ** Storing one block *)

(** What storing mainchain blocks leaves alone. *)
Record same_side ar ar' : Prop := {
  ss_side : side_tree ar' = side_tree ar;
  ss_bodies : bodies ar' = bodies ar;
  ss_tips : side_tips ar' = side_tips ar;
  ss_invalid : invalid_blocks ar' = invalid_blocks ar;
}.
Lemma same_side_refl ar : same_side ar ar.
Proof. done. Qed.
Lemma same_side_trans ar1 ar2 ar3 : same_side ar1 ar2 → same_side ar2 ar3 → same_side ar1 ar3.
Proof. intros [] []. split; congruence. Qed.

Lemma put_main_header_info_total info ar : archive_wf ar →
  info_block_hash info ≠ zero_hash →
  (∀ i, main_header_infos ar !! info_block_hash info = Some i → i = info) →
  (info_prev_block_hash info ≠ zero_hash →
    is_Some (main_header_infos ar !! info_prev_block_hash info)) →
  Z.of_nat (size (main_header_infos ar)) ≤ u32_MAX →
  ∃ ar', put_main_header_info info ar = Ok ar' ∧ same_side ar ar' ∧
    main_block_infos ar' = main_block_infos ar ∧ bmm_results ar' = bmm_results ar ∧
    (∃ h, main_block_hash_to_height ar' !! info_block_hash info = Some h ∧
      if decide (info_prev_block_hash info = zero_hash) then h = 0
      else ∃ hp, main_block_hash_to_height ar !! info_prev_block_hash info = Some hp ∧
        h = hp + 1) ∧
    ∀ m, m ≠ info_block_hash info →
      main_block_hash_to_height ar' !! m = main_block_hash_to_height ar !! m.
Proof.
  intros Hwf Hnz Hcol Hpar Hsize. pose proof (aw_main _ Hwf) as Hmain.
  set (prev := info_prev_block_hash info) in *.
  assert (∀ p hp, main_block_hash_to_height ar !! p = Some hp → 0 ≤ hp < u32_MAX) as Hmax.
  { intros p hp Hhp. pose proof (height_lt_size main_ops _ Hmain p hp Hhp). simpl in *.
    destruct (known_height main_ops _ Hmain p (tw_height _ _ Hmain p hp Hhp)) as (h' & Hh' & [? _]).
    simpl in Hh'. simplify_eq. lia. }
  assert (∀ p, is_Some (main_header_infos ar !! p) →
    ∃ hp, main_block_hash_to_height ar !! p = Some hp) as Hhgt.
  { intros p Hp. destruct (known_height main_ops _ Hmain p Hp) as (hp & Hhp & _). by exists hp. }
  assert (∃ h w, main_height_and_work info ar = Ok (h, w) ∧ is_u32 h ∧
    (if decide (prev = zero_hash) then h = 0
     else ∃ hp, main_block_hash_to_height ar !! prev = Some hp ∧ h = hp + 1))
    as (h & w & Hhw & Hu & Hh).
  { unfold main_height_and_work. fold prev. case_decide as Hz.
    { eexists _, _. split; [done|]. split; [split; [done|unfold u32_MAX; lia]|done]. }
    destruct (Hpar Hz) as [pi Hpi]. destruct (Hhgt prev) as [hp Hhp]; [by exists pi|].
    destruct (aw_work _ Hwf prev pi Hpi) as (w & Hw & _).
    unfold get_main_height, get_total_work. rewrite Hhp, Hw. simpl. pose proof (Hmax _ _ Hhp).
    eexists _, _. split; [done|]. rewrite u32_add_small by lia.
    split; [split; lia|by exists hp]. }
  unfold put_main_header_info. fold prev.
  assert (match main_header_infos ar !! prev with
          | Some _ => true | None => bool_decide (prev = zero_hash) end = true) as ->.
  { destruct (decide (prev = zero_hash)) as [Hz|Hz]; [case_match; [done|by rewrite bool_decide_eq_true]|].
    by destruct (Hpar Hz) as [? ->]. }
  cbn [ensure mbind res_bind]. rewrite Hhw. cbn [mbind res_bind].
  unfold add_main_successor, get_main_successors.
  assert (∃ s, main_successors ar !! prev = Some s) as [s Hs].
  { destruct (decide (prev = zero_hash)) as [->|Hz];
      [apply (tw_first _ _ Hmain)|by apply (tw_succ _ _ Hmain), Hpar]. }
  change (main_successors (store_main_header info h w ar)) with (main_successors ar).
  rewrite Hs. cbn [ok_or mbind res_bind].
  match goal with |- context [store_main_row _ _ _ ?a] => set (ar1 := a) end. unfold store_main_row.
  assert (∀ b v, main_header_infos ar !! b = Some v → b = info_block_hash info →
    v = info ∧ main_block_hash_to_height ar !! b = Some h) as Hsame.
  { intros b v Hv ->. assert (v = info) as -> by (by apply Hcol). split; [done|].
    destruct (tw_header _ _ Hmain _ _ Hv) as (_ & _ & h2 & Hh2 & Hab). simpl in Hh2, Hab.
    rewrite Hh2. f_equal. unfold main_prev in Hab. fold prev in Hab.
    case_decide; [by subst|]. destruct Hh as (hp & Hhp & ->), Hab as (_ & _ & Hhp2).
    simpl in Hhp2. simplify_eq. lia. }
  destruct (linked_insert (main_lineage ar) (main_lineage ar1) (main_lineage ar1)
    (known (main_tree ar)) (info_block_hash info) (Some prev) h) as (row & Hrow & _).
  - apply (tw_linked _ _ Hmain).
  - intros b [v Hv]. simpl in Hv. unfold same_links. simpl.
    unfold get_main_height, get_main_header_info. simpl.
    destruct (decide (b = info_block_hash info)) as [Hb|Hne];
      [|by rewrite !lookup_insert_ne by done].
    destruct (Hsame b v Hv Hb) as [-> Hht]. rewrite <-Hb, Hv, Hht, !lookup_insert_eq. done.
  - done.
  - done.
  - simpl. unfold get_main_height. simpl. by rewrite lookup_insert_eq.
  - done.
  - intros Hpos. case_decide as Hz; [lia|]. destruct Hh as (hp & Hhp & ->). exists prev.
    split_and!; [done| |by apply Hpar|].
    + simpl. unfold get_main_header_info. simpl. by rewrite lookup_insert_eq.
    + simpl. unfold get_main_height. rewrite Hhp. simpl. f_equal. lia.
  - rewrite Hrow. cbn [mbind res_bind]. eexists. split; [done|].
    split_and!; [done|done|done| |].
    + exists h. split; [|done]. simpl. by rewrite lookup_insert_eq.
    + intros m Hm. simpl. by rewrite lookup_insert_ne.
Qed.

(** ** The invariant of a synchronised archive *)
Record synchronised ar : Prop := {
  sy_wf : archive_wf ar;
  sy_bmm : bmm_sound ar;
  sy_complete : mainchain_complete ar;
  sy_bodies c : is_Some (bodies ar !! c) → is_Some (headers ar !! c);
}.

#[local] Abbreviation block_of x := (info_block_hash (fst x)).

(** The infos of a line of mainchain blocks from a block down to the first one. *)
Fixpoint honest_line (l : list (BlockHeaderInfo * BlockInfo)) : Prop :=
  match l with
  | [] => True
  | x :: below =>
      block_of x ≠ zero_hash ∧ info_height x.1 = Z.of_nat (length below) ∧
      info_prev_block_hash x.1 =
        match below with [] => zero_hash | y :: _ => block_of y end ∧
      honest_line below
  end.
(** What is stored of a line is what the line says. *)
Definition agrees ar (l : list (BlockHeaderInfo * BlockInfo)) : Prop := ∀ x, x ∈ l →
  (∀ i, main_header_infos ar !! block_of x = Some i → i = x.1) ∧
  (∀ b, main_block_infos ar !! block_of x = Some b → b = x.2).
(** The block to build on is stored. *)
Definition ready ar (below : list (BlockHeaderInfo * BlockInfo)) : Prop :=
  match below with [] => True | y :: _ => is_Some (main_header_infos ar !! block_of y) end.

Lemma put_main_block_info_total x below ar :
  archive_wf ar → bmm_sound ar → honest_line (x :: below) →
  main_header_infos ar !! block_of x = Some x.1 →
  (∀ y, is_Some (main_header_infos ar !! y) → y ≠ block_of x → is_Some (main_block_infos ar !! y)) →
  ready ar below →
  ∃ ar', put_main_block_info (block_of x) x.2 ar = Ok ar' ∧ same_side ar ar' ∧
    main_tree ar' = main_tree ar ∧ total_work ar' = total_work ar ∧
    main_block_infos ar' = <[block_of x := x.2]> (main_block_infos ar) ∧
    (∀ c m, is_Some (try_get_bmm_result ar c m) → is_Some (try_get_bmm_result ar' c m)) ∧
    (∀ c, bmm_commitment x.2 = Some c → is_Some (headers ar !! c) →
      is_Some (try_get_bmm_result ar' c (block_of x))).
Proof.
  intros Hwf Hs (Hnz & _ & Hprev & _) Hx Hinf Hready.
  unfold put_main_block_info, get_main_header_info, get_main_block_info. rewrite Hx. simpl.
  assert ((if decide (info_prev_block_hash x.1 = zero_hash) then Ok ()
           else _ ← ok_or (main_block_infos ar !! info_prev_block_hash x.1)
                      (NoMainBlockInfo (info_prev_block_hash x.1)); Ok ()) = Ok () :> res ArchiveError ())
    as ->.
  { case_decide as Hz; [done|]. destruct below as [|y below]; [done|]. rewrite Hprev in Hz |- *.
    destruct (Hinf (block_of y)) as [b Hb]; [done| |by rewrite Hb].
    intros Heq. destruct (tw_header _ _ (aw_main _ Hwf) _ _ Hx) as (_ & _ & h & Hh & Hab).
    simpl in Hh, Hab. unfold main_prev in Hab. rewrite Hprev, decide_False in Hab by done.
    rewrite Heq in Hab. destruct Hab as (_ & _ & Hh'). simpl in Hh'. rewrite Hh in Hh'.
    injection Hh'. lia. }
  cbn [mbind res_bind]. set (ar1 := {| ar with main_block_infos := _ |}).
  destruct (bmm_commitment x.2) as [c|] eqn:Hc.
  2:{ exists ar1. by split_and!. }
  change (headers ar1) with (headers ar).
  destruct (headers ar !! c) as [hd|] eqn:Hhd.
  2:{ exists ar1. split_and!; try done. intros c' [= <-] [? Hc']. congruence. }
  assert (∃ r, (if decide (prev_main_hash hd = info_prev_block_hash x.1) then
      match prev_side_hash hd with
      | Some parent =>
          b ← parent_committed ar1 (get_bmm_results ar1 parent) (block_of x);
          Ok (if b : bool then Verified else Failed)
      | None => Ok Verified
      end else Ok Failed) = Ok r :> res ArchiveError BmmResult) as [r Hr].
  { case_decide; [|by eexists]. destruct (prev_side_hash hd) as [q|] eqn:Hq; [|by eexists].
    destruct (parent_committed_total ar q (block_of x) Hwf Hs) as [b Hb]; [|by exists x.1|].
    - destruct (tw_header _ _ (aw_side _ Hwf) c hd Hhd) as (_ & _ & h & _ & Hab).
      simpl in Hab. rewrite Hq in Hab. by destruct Hab as (_ & Hk & _).
    - change (parent_committed ar1 (get_bmm_results ar1 q) (block_of x))
        with (parent_committed ar (get_bmm_results ar q) (block_of x)).
      rewrite Hb. by eexists. }
  rewrite Hr. cbn [mbind res_bind]. eexists. split; [done|]. split_and!; try done.
  - intros c' m. unfold try_get_bmm_result, get_bmm_results. simpl.
    destruct (decide (c' = c)) as [->|Hne]; [|by rewrite lookup_insert_ne].
    rewrite lookup_insert_eq. simpl. intros Hm. apply lookup_insert_is_Some'. by right.
  - intros c' [= <-] _. unfold try_get_bmm_result, get_bmm_results. simpl.
    rewrite lookup_insert_eq. simpl. rewrite lookup_insert_eq. by eexists.
Qed.

(** ** Storing a part of the line *)

(** What [ar'] adds to [ar]: the blocks [l]. *)
Record stored_line ar ar' (l : list (BlockHeaderInfo * BlockInfo)) : Prop := {
  sl_sync : synchronised ar';
  sl_side : same_side ar ar';
  sl_headers m i : main_header_infos ar !! m = Some i → main_header_infos ar' !! m = Some i;
  sl_infos m i : main_block_infos ar !! m = Some i → main_block_infos ar' !! m = Some i;
  sl_new m i : main_header_infos ar' !! m = Some i →
    main_header_infos ar !! m = Some i ∨ ∃ x, x ∈ l ∧ m = block_of x ∧ i = x.1;
  sl_new_info m i : main_block_infos ar' !! m = Some i →
    main_block_infos ar !! m = Some i ∨ ∃ x, x ∈ l ∧ m = block_of x ∧ i = x.2;
  sl_line x : x ∈ l → main_header_infos ar' !! block_of x = Some x.1 ∧
    main_block_infos ar' !! block_of x = Some x.2;
  sl_size : (size (main_header_infos ar') ≤ size (main_header_infos ar) + length l)%nat;
}.

Lemma store_one x below ar :
  synchronised ar → honest_line (x :: below) → agrees ar (x :: below) → ready ar below →
  Z.of_nat (size (main_header_infos ar)) ≤ u32_MAX →
  ∃ ar', (ar ← put_main_header_info x.1 ar; put_main_block_info (block_of x) x.2 ar) = Ok ar' ∧
    stored_line ar ar' [x].
Proof.
  intros [Hwf Hs [Hhts Hinf Hj] Hbod] Hl Hag Hready Hsize.
  destruct (Hag x) as [Hcol Hcol2]; [by left|].
  pose proof Hl as (Hnz & Hht & Hprev & _).
  assert (info_prev_block_hash x.1 ≠ zero_hash →
    is_Some (main_header_infos ar !! info_prev_block_hash x.1)) as Hpar.
  { rewrite Hprev. by destruct below. }
  destruct (put_main_header_info_total x.1 ar) as
    (ar1 & Hput & Hss & Hbi & Hres & (h & Hh & Hhp) & Hhs); [done..|].
  rewrite Hput. cbn [mbind res_bind].
  assert (∀ hp, main_block_hash_to_height ar !! info_prev_block_hash x.1 = Some hp → hp < u32_MAX)
    as Hmax.
  { intros hp Hp. pose proof (height_lt_size main_ops _ (aw_main _ Hwf) _ hp Hp). simpl in *. lia. }
  destruct (put_main_header_info_bmm x.1 ar ar1) as [Hwf1 Hs1]; [done|done|by split|done|].
  destruct (put_main_header_info_wf x.1 ar ar1) as (_ & Hmi & _); [done..|].
  assert (h = info_height x.1) as ->.
  { rewrite Hht. rewrite Hprev in Hhp. destruct below as [|y below].
    - by rewrite decide_True in Hhp.
    - destruct Hl as (_ & _ & _ & Hyz & Hyh & _). rewrite decide_False in Hhp by done.
      destruct Hhp as (hp & Hhp & ->). destruct Hready as [i Hi].
      pose proof (Hhts _ _ Hi) as Hih. destruct (Hag y) as [Hy _]; [right; by left|].
      rewrite (Hy i Hi), Hyh in Hih. simplify_eq. simpl. lia. }
  destruct (put_main_block_info_total x below ar1) as
    (ar2 & Hput2 & Hss2 & Htree & Hwork & Hbi2 & Hkept & Hnew); [done|done|done|..].
  { by rewrite Hmi, lookup_insert_eq. }
  { intros y Hy Hne. rewrite Hmi, lookup_insert_ne in Hy by done. rewrite Hbi. by apply Hinf. }
  { destruct below as [|y below]; [done|]. simpl in *. rewrite Hmi.
    apply lookup_insert_is_Some'. by right. }
  rewrite Hput2. exists ar2. split; [done|].
  pose proof (f_equal t_headers Htree) as Hmi2. simpl in Hmi2. rewrite Hmi in Hmi2.
  pose proof (f_equal t_heights Htree) as Hhts2. simpl in Hhts2.
  destruct (put_main_block_info_bmm (block_of x) x.2 ar1 ar2) as [Hwf2 Hs2]; [done|done| |done|].
  { intros i. rewrite Hbi. apply Hcol2. }
  pose proof (same_side_trans _ _ _ Hss Hss2) as Hside.
  pose proof (f_equal t_headers (ss_side _ _ Hside)) as Hhd. simpl in Hhd. split.
  - split; [done|done| |].
    + split.
      * intros b i. rewrite Hmi2, Hhts2. intros [[<- <-]|[Hne Hi]]%lookup_insert_Some; [done|].
        rewrite Hhs by done. by apply Hhts.
      * intros b. rewrite Hmi2, Hbi2, Hbi, !lookup_insert_is_Some'. intros [?|?]; [by left|].
        right. by apply Hinf.
      * intros m i c. rewrite Hbi2, Hbi, (ss_bodies _ _ Hside), Hhd.
        intros [[<- <-]|[Hne Hi]]%lookup_insert_Some Hc Hb.
        -- split; [by apply Hbod|]. apply Hnew; [done|].
           pose proof (f_equal t_headers (ss_side _ _ Hss)) as Hhd1. simpl in Hhd1.
           rewrite Hhd1. by apply Hbod.
        -- destruct (Hj m i c Hi Hc Hb) as [? Hr]. split; [done|]. apply Hkept.
           unfold try_get_bmm_result, get_bmm_results in *. by rewrite Hres.
    + intros c. rewrite (ss_bodies _ _ Hside), Hhd. apply Hbod.
  - done.
  - intros m i Hi. rewrite Hmi2. apply lookup_insert_Some.
    destruct (decide (block_of x = m)) as [<-|]; [left; split; [done|symmetry; by apply Hcol]|by right].
  - intros m i Hi. rewrite Hbi2, Hbi. apply lookup_insert_Some.
    destruct (decide (block_of x = m)) as [<-|]; [left; split; [done|symmetry; by apply Hcol2]|by right].
  - intros m i. rewrite Hmi2. intros [[<- <-]|[? ?]]%lookup_insert_Some; [|by left].
    right. exists x. split; [by left|done].
  - intros m i. rewrite Hbi2, Hbi. intros [[<- <-]|[? ?]]%lookup_insert_Some; [|by left].
    right. exists x. split; [by left|done].
  - intros y ->%list_elem_of_singleton. by rewrite Hmi2, Hbi2, !lookup_insert_eq.
  - rewrite Hmi2. pose proof (map_size_insert (block_of x) x.1 (main_header_infos ar)) as ->.
    simpl. destruct (main_header_infos ar !! block_of x); simpl; lia.
Qed.

Lemma stored_line_refl ar : synchronised ar → stored_line ar ar [].
Proof. intros Hs. split; [done|done|done|done|by left|by left|by intros x ?%elem_of_nil|simpl; lia]. Qed.

Lemma stored_line_app ar1 ar2 ar3 l1 l2 :
  stored_line ar1 ar2 l1 → stored_line ar2 ar3 l2 → stored_line ar1 ar3 (l2 ++ l1).
Proof.
  intros [_ Hs1 Hh1 Hi1 Hn1 Hm1 Hl1 Hz1] [Hy Hs2 Hh2 Hi2 Hn2 Hm2 Hl2 Hz2]. split.
  - done.
  - by eapply same_side_trans.
  - auto.
  - auto.
  - intros m i [[Hm|(x & Hx & ?)]%Hn1|(x & Hx & ?)]%Hn2; [by left|right; exists x; set_solver..].
  - intros m i [[Hm|(x & Hx & ?)]%Hm1|(x & Hx & ?)]%Hm2; [by left|right; exists x; set_solver..].
  - intros x [Hx|Hx]%elem_of_app; [by apply Hl2|]. destruct (Hl1 x Hx) as [? ?].
    split; [by apply Hh2|by apply Hi2].
  - rewrite length_app. lia.
Qed.

(** A block of the line is known by its hash. *)
Definition distinct (l : list (BlockHeaderInfo * BlockInfo)) : Prop :=
  ∀ x y, x ∈ l → y ∈ l → block_of x = block_of y → x = y.

Lemma agrees_stored ar ar' seg l :
  agrees ar l → distinct l → (∀ x, x ∈ seg → x ∈ l) → stored_line ar ar' seg → agrees ar' l.
Proof.
  intros Hag Hd Hsub Hst x Hx. destruct (Hag x Hx) as [Hh Hb]. split.
  - intros i [Hi|(y & Hy & Heq & ->)]%(sl_new _ _ _ Hst); [by apply Hh|].
    by rewrite (Hd x y Hx (Hsub y Hy) Heq).
  - intros i [Hi|(y & Hy & Heq & ->)]%(sl_new_info _ _ _ Hst); [by apply Hb|].
    by rewrite (Hd x y Hx (Hsub y Hy) Heq).
Qed.

Lemma honest_suffix l1 l2 : honest_line (l1 ++ l2) → honest_line l2.
Proof. induction l1 as [|x l1 IH]; [done|]. intros (_ & _ & _ & H). by apply IH. Qed.

Lemma store_all seg below ar p :
  synchronised ar → honest_line (seg ++ below) → agrees ar (seg ++ below) →
  distinct (seg ++ below) → ready ar below →
  Z.of_nat (size (main_header_infos ar) + length seg) ≤ u32_MAX →
  ∃ ar' p', store_infos (reverse seg) ar p = (p', Ok ar') ∧ stored_line ar ar' seg.
Proof.
  revert below ar p. induction seg as [|x seg IH] using rev_ind;
    intros below ar p Hs Hl Hag Hd Hready Hsize.
  { exists ar, p. split; [done|by apply stored_line_refl]. }
  rewrite reverse_snoc. cbn [store_infos]. rewrite <-app_assoc in *. simpl in Hl, Hag, Hd.
  rewrite length_app in Hsize. simpl in Hsize. destruct x as [hi bi].
  destruct (store_one (hi, bi) below ar) as (ar1 & Hput & Hst);
    [done|by eapply honest_suffix|intros y Hy; apply Hag; set_solver|done|lia|].
  simpl in Hput. rewrite Hput. pose proof (sl_size _ _ _ Hst) as Hsz. simpl in Hsz.
  destruct (IH ((hi, bi) :: below) ar1 (add_done 1 p)) as (ar' & p' & Hall & Hst').
  - apply Hst.
  - done.
  - eapply agrees_stored; [done..| |done]. set_solver.
  - done.
  - destruct (sl_line _ _ _ Hst (hi, bi)) as [Hx _]; [by left|]. simpl. by eexists.
  - lia.
  - exists ar', p'. split; [done|]. by eapply stored_line_app.
Qed.

(** What is under a stored block of the line is stored. *)
Lemma ready_stored ar below : synchronised ar → honest_line below → agrees ar below →
  ready ar below → ∀ x, x ∈ below → main_header_infos ar !! block_of x = Some x.1 ∧
    main_block_infos ar !! block_of x = Some x.2.
Proof.
  intros Hs. induction below as [|y below IH]; intros Hl Hag Hready x Hx;
    [by apply elem_of_nil in Hx|].
  destruct Hready as [i Hi]. destruct (Hag y) as [Hh Hb]; [by left|].
  pose proof (Hh i Hi) as ->. destruct (mc_infos _ (sy_complete _ Hs) (block_of y)) as [b Hbi];
    [by eexists|]. pose proof (Hb b Hbi) as ->.
  apply elem_of_cons in Hx as [->|Hx]; [done|].
  destruct Hl as (_ & _ & Hprev & Hl). apply IH; [done|intros z Hz; apply Hag; by right| |done].
  destruct below as [|z below]; [done|]. simpl.
  destruct (tw_header _ _ (aw_main _ (sy_wf _ Hs)) _ _ Hi) as (_ & _ & h & _ & Hab).
  simpl in Hab. unfold main_prev in Hab. destruct Hl as (Hz & _).
  rewrite Hprev, decide_False in Hab by done. by destruct Hab as (_ & Hk & _).
Qed.

(** ** Fetching *)

(** The last block of a batch is on top of what follows it. *)
Lemma batch_end hd tl rest : honest_line (hd :: tl ++ rest) →
  info_prev_block_hash (List.last tl hd).1
  = match rest with [] => zero_hash | y :: _ => block_of y end.
Proof.
  revert hd; induction tl as [|x tl IH]; intros hd Hl.
  { destruct Hl as (_ & _ & Hp & _). done. }
  destruct Hl as (_ & _ & _ & Hl). rewrite <-(IH x Hl). simpl.
  destruct tl as [|y tl]; [done|]. f_equal. f_equal.
  clear. revert x y. induction tl as [|z tl IH]; intros x y; [done|]. apply (IH x z).
Qed.

Lemma batch_sequential hd tl rest : honest_line (hd :: tl ++ rest) →
  sequential (info_prev_block_hash hd.1) tl = true.
Proof.
  revert hd; induction tl as [|[h b] tl IH]; intros hd Hl; [done|].
  destruct Hl as (_ & _ & Hp & Hl). simpl. rewrite Hp. simpl.
  rewrite bool_decide_eq_true_2 by done. simpl. by apply (IH (h, b)).
Qed.

(** The node serves the line: from each of its blocks as many as were asked for. *)
Definition serves (node : MainchainNode) (l : list (BlockHeaderInfo * BlockInfo)) : Prop :=
  ∀ n i x, l !! i = Some x → node n (block_of x) (BATCH_REQUEST_SIZE - 1)
    = Ok (take (Z.to_nat BATCH_REQUEST_SIZE) (drop i l)).

Lemma fetch_line ar node l : honest_line l → serves node l →
  ∀ fuel n i acc p x, l !! i = Some x → (length l ≤ fuel + i)%nat →
  ∃ k p', fetch_infos fuel node n ar (block_of x) acc p
      = (p', Some (Ok (Some (acc ++ take k (drop i l))))) ∧ ready ar (drop (i + k) l).
Proof.
  intros Hl Hserve. assert (0 < Z.to_nat BATCH_REQUEST_SIZE)%nat as HN
    by (unfold BATCH_REQUEST_SIZE; lia).
  induction fuel as [|fuel IH]; intros n i acc p x Hx Hlen;
    [apply lookup_lt_Some in Hx; lia|].
  set (N := Z.to_nat BATCH_REQUEST_SIZE) in *. pose proof (Hserve n i x Hx) as Hn. fold N in Hn.
  assert (drop i l = x :: drop (S i) l) as Hdrop by (by apply drop_S).
  assert (∃ tl, take N (drop i l) = x :: tl) as [tl Htl].
  { rewrite Hdrop. destruct N; [lia|]. by eexists. }
  rewrite Htl in Hn. cbn [fetch_infos]. rewrite Hn.
  pose proof (take_drop N (drop i l)) as Hparts. rewrite Htl, drop_drop in Hparts.
  assert (honest_line (x :: tl ++ drop (i + N) l)) as Hpart.
  { change (x :: tl ++ drop (i + N) l) with ((x :: tl) ++ drop (i + N) l). rewrite Hparts.
    rewrite <-(take_drop i l) in Hl. by apply honest_suffix in Hl. }
  unfold checked_infos. cbn [mbind res_bind].
  rewrite (batch_sequential x tl (drop (i + N) l) Hpart). cbn [ensure mbind res_bind].
  rewrite (batch_end x tl (drop (i + N) l) Hpart).
  match goal with |- context [fetched_headers ?a ?b] => generalize (fetched_headers a b) end.
  intros p1. destruct (drop (i + N) l) as [|y rest] eqn:Hrest.
  { rewrite decide_True by done. exists N, p1. by rewrite Htl, Hrest. }
  assert (block_of y ≠ zero_hash) as Hy.
  { change (x :: tl ++ y :: rest) with ((x :: tl) ++ y :: rest) in Hpart.
    apply honest_suffix in Hpart. by destruct Hpart. }
  rewrite decide_False by done.
  destruct (main_header_infos ar !! block_of y) as [hi|] eqn:Har.
  { exists N, p1. rewrite Htl, Hrest. split; [done|]. by exists hi. }
  assert (l !! (i + N)%nat = Some y) as Hly.
  { rewrite <-(Nat.add_0_r (i + N)), <-lookup_drop, Hrest. done. }
  destruct (IH (S n) (i + N)%nat (acc ++ x :: tl) p1 y Hly) as (k & p' & -> & Hready); [lia|].
  exists (N + k)%nat, p'. rewrite Nat.add_assoc. split; [|done].
  do 4 f_equal. rewrite <-app_assoc. f_equal. rewrite <-Htl, <-drop_drop.
  apply take_take_drop.
Qed.

(** The line that a node serves has a block per hash. *)
Lemma serves_distinct node l : serves node l → distinct l.
Proof.
  intros Hserve x y [i Hx]%list_elem_of_lookup [j Hy]%list_elem_of_lookup Heq.
  pose proof (Hserve 0%nat i x Hx) as H1. pose proof (Hserve 0%nat j y Hy) as H2.
  rewrite Heq in H1. rewrite H1 in H2. injection H2.
  rewrite (drop_S l x i Hx), (drop_S l y j Hy).
  assert (∃ N, Z.to_nat BATCH_REQUEST_SIZE = S N) as [N ->];
    [|intros [= -> _]; done].
  exists (Z.to_nat (BATCH_REQUEST_SIZE - 1)). unfold BATCH_REQUEST_SIZE. lia.
Qed.

(** All ancestors of a block are fetched and stored, over any number of batches. *)
Lemma request_line ar node l x fuel p :
  synchronised ar → honest_line l → serves node l → agrees ar l → head l = Some x →
  Z.of_nat (size (main_header_infos ar) + length l) ≤ u32_MAX → (length l ≤ fuel)%nat →
  ∃ ar' p', request_ancestor_infos fuel node (block_of x) ar p = ((ar', p'), Some (Ok true)) ∧
    synchronised ar' ∧ same_side ar ar' ∧
    (∀ y, y ∈ l → main_header_infos ar' !! block_of y = Some y.1 ∧
      main_block_infos ar' !! block_of y = Some y.2) ∧
    (∀ m i, main_header_infos ar' !! m = Some i →
      main_header_infos ar !! m = Some i ∨ ∃ y, y ∈ l ∧ m = block_of y ∧ i = y.1) ∧
    (∀ m i, main_header_infos ar !! m = Some i → main_header_infos ar' !! m = Some i).
Proof.
  intros Hs Hl Hserve Hag Hx Hsize Hfuel. unfold request_ancestor_infos.
  assert (l !! 0%nat = Some x) as Hx0 by (by destruct l).
  rewrite decide_False by (destruct l; [done|]; simplify_eq/=; by destruct Hl).
  destruct (main_header_infos ar !! block_of x) as [hi|] eqn:Hhi.
  { exists ar, p. split_and!; try done; [|by left]. apply ready_stored; [done..|].
    destruct l; [done|]; simplify_eq/=. by eexists. }
  destruct (fetch_line ar node l Hl Hserve fuel 0 0 [] p x Hx0) as (k & p' & -> & Hready); [lia|].
  simpl in Hready |- *. rewrite drop_0.
  match goal with |- context [start_writing ?a ?b] => generalize (start_writing a b) end.
  intros p1. pose proof (take_drop k l) as Hparts.
  destruct (store_all (take k l) (drop k l) ar p1) as (ar' & p2 & -> & Hst).
  - done.
  - by rewrite Hparts.
  - by rewrite Hparts.
  - rewrite Hparts. by eapply serves_distinct.
  - done.
  - rewrite length_take. lia.
  - exists ar', p2. split; [done|].
    assert (∀ y, y ∈ take k l → y ∈ l) as Hsub
      by (intros y Hy; rewrite <-Hparts; apply elem_of_app; by left).
    split_and!; [apply Hst..| | |apply Hst].
    + assert (agrees ar' l) as Hag' by (by eapply agrees_stored, Hst; [|eapply serves_distinct|]).
      intros y Hy. rewrite <-Hparts in Hy. apply elem_of_app in Hy as [Hy|Hy];
        [by apply (sl_line _ _ _ Hst)|].
      apply (ready_stored ar' (drop k l)); [apply Hst| | | |done].
      * rewrite <-Hparts in Hl. by apply honest_suffix in Hl.
      * intros z Hz. apply Hag'. rewrite <-Hparts. apply elem_of_app. by right.
      * destruct (drop k l); [done|]. destruct Hready as [i Hi]. exists i.
        by apply (sl_headers _ _ _ Hst).
    + intros m i [?|(y & Hy & ?)]%(sl_new _ _ _ Hst); [by left|right; exists y].
      split; [by apply Hsub|done].
Qed.
End MainFetch.

(** ** Against the validator's messages *)
Section FromValidator.
Context {T : ExtTypes} {X : ExtFuns} {W : ExtWork} {I : HashIter} {IL : HashIterLaws I}.
Context {C : ExtConsensus} {CL : ConsensusLaws C} {XT : ExtText} {XL : TextLaws XT}.
Implicit Types (ar : Archive).

(** An honest validator: to each call it answers with the messages of the line. *)
Definition honest_validator (r : bool) (srv : nat → Validator)
    (l : list (BlockHeaderInfo * BlockInfo)) : Prop :=
  ∀ n i x, l !! i = Some x →
    srv_block_info (srv n) (reverse_hex_encode (info_block_hash x.1)) THIS_SIDECHAIN
        (BATCH_REQUEST_SIZE - 1)
    = Some (info_message r <$> take (Z.to_nat BATCH_REQUEST_SIZE) (drop i l)).
Definition validator_node (srv : nat → Validator) : MainchainNode := λ n, decoded_infos (srv n).

Lemma honest_serves r srv l :
  honest_validator r srv l → Forall sendable l → serves (validator_node srv) l.
Proof.
  intros Hsrv Hsend n i x Hx. unfold validator_node, decoded_infos.
  rewrite (Hsrv n i x Hx). cbn [answered ok_or mbind res_bind]. apply mapM_res_inverse.
  apply Forall_take, Forall_drop. eapply Forall_impl; [exact Hsend|].
  intros y Hy. exact (info_roundtrip r y Hy).
Qed.

(** C9: Asked for a block of a line of mainchain blocks that the validator serves honestly,
    the task fetches all of its ancestors that are missing, in as many batches as it
    takes, and stores them and nothing else: afterwards every block of the line is in
    the archive with its info, no other header is new, the sidechain's part is as it
    was, and the archive is well-formed again. *)
Theorem ancestors_fetched ar r srv l x fuel p :
  synchronised ar → honest_line l → Forall sendable l → honest_validator r srv l →
  agrees ar l → head l = Some x → (length l ≤ fuel)%nat →
  Z.of_nat (size (main_header_infos ar) + length l) ≤ u32_MAX →
  ∃ ar' p',
    request_ancestor_infos fuel (validator_node srv) (info_block_hash x.1) ar p
      = ((ar', p'), Some (Ok true)) ∧
    synchronised ar' ∧ same_side ar ar' ∧
    (∀ y, y ∈ l → main_header_infos ar' !! info_block_hash y.1 = Some y.1 ∧
      main_block_infos ar' !! info_block_hash y.1 = Some y.2) ∧
    (∀ m i, main_header_infos ar' !! m = Some i ↔
      main_header_infos ar !! m = Some i ∨
      ∃ y, y ∈ l ∧ m = info_block_hash y.1 ∧ i = y.1).
Proof.
  intros Hs Hl Hsend Hsrv Hag Hx Hfuel Hsize.
  destruct (request_line ar (validator_node srv) l x fuel p) as
    (ar' & p' & Heq & Hs' & Hside & Hline & Hnew & Hold);
    [done|done|by eapply honest_serves|done..|].
  exists ar', p'. split_and!; [done..|]. intros m i. split; [apply Hnew|].
  intros [?|(y & Hy & -> & ->)]; [by apply Hold|by apply Hline].
Qed.
End FromValidator.
