(* ===== verification/PeerMsg.v ===== *)
(** What peers send each other (lib/net/peer/message.rs, lib/net/peer/mod.rs), with
    the limits on what is read, and the queue that drops duplicate requests
    (lib/net/peer/request_queue.rs). *)
From S2P Require Import Prelude Bytes SwapTypes TxTypes Externals Accumulator.
From S2P Require Import BlockTypes Bundle StateDb Peg Ancestry SideTips Archive.

(** ** The network (lib/types/mod.rs) and its magic bytes *)
Inductive Network := Betanet | RegtestNet | SignetNet.

Definition network_identifier (network : Network) : byte :=
  match network with
  | RegtestNet => x00
  | SignetNet => x01
  | Betanet => x04
  end.
Definition magic_prefix : list byte := [x2d; x0c; xd8; x00].
(** [*res.last_mut().unwrap() |= network_identifier(network)] *)
Definition magic_bytes (network : Network) : list byte :=
  take 3 magic_prefix
  ++ [byte_of_Z (Z.lor (Z_of_byte (default x00 (last magic_prefix)))
                   (Z_of_byte (network_identifier network)))].

Record Version := mkVersion { major : Z; minor : Z; patch : Z }.

Section PeerMsg.
Context {T : ExtTypes} {X : ExtFuns}.

Record TipInfo := mkPeerTip { block_height : Z; info_tip : Tip; info_total_work : Z }.
Record PeerState := mkPeerState { peer_tip_info : option TipInfo; version : Version }.

(** ** Requests: the fields that serialization skips come last *)
Record GetBlockRequest := mkGetBlock {
  gb_block_hash : BlockHash;
  gb_descendant_tip : option Tip;
  gb_ancestor : option BlockHash;
  gb_peer_state_id : option Hash;
}.
Record GetHeadersRequest := mkGetHeaders {
  gh_start : gset BlockHash;
  gh_end : BlockHash;
  gh_height : option Z;
  gh_peer_state_id : option Hash;
}.

Inductive Request :=
| GetBlock (r : GetBlockRequest)
| GetHeaders (r : GetHeadersRequest)
| PushTransaction (tx : Authorized Transaction).

Inductive RequestMessage :=
| Heartbeat (state : PeerState)
| RequestMsg (r : Request).

Inductive ResponseMessage :=
| BlockResponse (header : Header) (body : Body)
| HeadersResponse (l : list Header)
| NoBlock (h : BlockHash)
| NoHeaderResponse (h : BlockHash)
| TransactionAccepted (tid : Txid)
| TransactionRejected (tid : Txid).

(** ** Limits, in bytes; [None] is a panic *)
Definition read_header_limit : Z := 2048.
Definition usize_MAX : Z := 2 ^ 64 - 1.

Definition get_headers_limit (r : GetHeadersRequest) : option Z :=
  height ← gh_height r;
  let expected_headers := height + 1 in
  if expected_headers * read_header_limit <=? usize_MAX
  then Some (expected_headers * read_header_limit) else None.

Definition read_response_limit (r : Request) : option Z :=
  match r with
  | GetBlock _ => Some (10 * 1024 * 1024)
  | GetHeaders r => get_headers_limit r
  | PushTransaction _ => Some 256
  end.

(** [None] inside: no response is expected. *)
Definition message_response_limit (m : RequestMessage) : option (option Z) :=
  match m with
  | Heartbeat _ => Some None
  | RequestMsg r => Some <$> read_response_limit r
  end.

Definition READ_REQUEST_LIMIT : Z := 100 * 1024.
Definition HEARTBEAT_SEND_INTERVAL : Z := 1.
Definition HEARTBEAT_TIMEOUT_INTERVAL : Z := 5.
Definition MIN_READ_RESPONSE_TIMEOUT : Z := 5.
Definition MIN_READ_RESPONSE_THROUGHPUT : Z := 64 * 1024.

(** In whole seconds, which [Duration] holds in 64 bits. *)
Definition response_read_timeout (limit : Z) : Z :=
  (MIN_READ_RESPONSE_TIMEOUT + limit / MIN_READ_RESPONSE_THROUGHPUT) `min` u64_MAX.

(** The cost of a request to the rate limiter. *)
Definition request_cost (r : Request) : Z :=
  match r with
  | GetBlock _ => 1000
  | GetHeaders _ => 10000
  | PushTransaction _ => 10
  end.
Definition REQUEST_QUOTA : Z := 50000.

(** ** Hashes of what is sent (borsh; skipped fields are not encoded) *)
Inductive EncodedRequest :=
| EncodedGetBlock (block_hash : BlockHash)
| EncodedGetHeaders (start : gset BlockHash) (end_ : BlockHash)
| EncodedPushTransaction (tx : Authorized Transaction).
Definition encoded (r : Request) : EncodedRequest :=
  match r with
  | GetBlock r => EncodedGetBlock (gb_block_hash r)
  | GetHeaders r => EncodedGetHeaders (gh_start r) (gh_end r)
  | PushTransaction tx => EncodedPushTransaction tx
  end.

Class ExtPeer := {
  borsh_request : EncodedRequest → list byte;
  borsh_peer_state : PeerState → list byte;
}.
Context {P : ExtPeer}.

Definition request_hash (r : Request) : Hash := blake3 (borsh_request (encoded r)).
(** [PeerStateId::from] *)
Definition peer_state_id (s : PeerState) : Hash := blake3 (borsh_peer_state s).

(** ** The request queue *)
Record Sender := mkSender { request_hashes : gset Hash; request_tx : list Request }.

(** The sender and whether the request was sent; a request that was sent before on
    this connection is ignored. *)
Definition send_request (r : Request) (q : Sender) : Sender * bool :=
  if decide (request_hash r ∈ request_hashes q) then (q, false)
  else (mkSender ({[ request_hash r ]} ∪ request_hashes q) (request_tx q ++ [r]), true).

(** ** Properties *)

(** A peer may not make the node wait for longer than for the slowest transfer of what
    the node asked for, and every answer it may send has five seconds at least. *)
Theorem response_read_timeout_bounds r limit :
  read_response_limit r = Some limit → (∀ g, r = GetHeaders g → default 0 (gh_height g) ≤ u32_MAX) →
  (∀ g, r = GetHeaders g → 0 ≤ default 0 (gh_height g)) →
  0 < limit ≤ u32_MAX * 4096 ∧
  5 ≤ response_read_timeout limit ≤ 5 + limit / MIN_READ_RESPONSE_THROUGHPUT.
Proof.
  intros Hl Hmax Hpos.
  assert (0 < limit ≤ u32_MAX * 4096) as Hlim.
  { destruct r as [g|g|tx]; simpl in Hl; [injection Hl as <-; unfold u32_MAX; lia| |
      injection Hl as <-; unfold u32_MAX; lia].
    unfold get_headers_limit in Hl. apply bind_Some in Hl as (h & Hh & Hl).
    specialize (Hmax g eq_refl). specialize (Hpos g eq_refl). rewrite Hh in Hmax, Hpos.
    simpl in *. unfold read_header_limit, u32_MAX in *.
    destruct (_ <=? _); [injection Hl as <-; lia|done]. }
  split; [done|]. unfold response_read_timeout, MIN_READ_RESPONSE_TIMEOUT.
  assert (0 ≤ limit / MIN_READ_RESPONSE_THROUGHPUT) by (apply Z.div_pos; unfold MIN_READ_RESPONSE_THROUGHPUT; lia).
  unfold u64_MAX. lia.
Qed.

(** What was sent once is never sent again on the connection, and the queue holds
    requests with different hashes only. *)
Definition queue_wf (q : Sender) : Prop :=
  NoDup (request_hash <$> request_tx q) ∧
  ∀ r, r ∈ request_tx q → request_hash r ∈ request_hashes q.

Lemma send_request_wf r q : queue_wf q → queue_wf (send_request r q).1.
Proof.
  intros [Hnd Hin]. unfold send_request. case_decide as H; [done|].
  split; cbn [fst request_tx request_hashes].
  - rewrite fmap_app. apply NoDup_app. split_and!; [done| |apply NoDup_singleton].
    intros h (r' & -> & Hr')%list_elem_of_fmap. intros Hs%list_elem_of_singleton.
    apply H. rewrite <-Hs. by apply Hin.
  - intros r' [Hr'|Hr']%elem_of_app.
    + apply elem_of_union. right. by apply Hin.
    + apply list_elem_of_singleton in Hr' as ->. set_solver.
Qed.

(** A request for a block is lost if the block was asked for before on the connection,
    whatever tip it was for. *)
Lemma get_block_once h tip tip' anc anc' id id' q :
  (send_request (GetBlock (mkGetBlock h tip' anc' id'))
    (send_request (GetBlock (mkGetBlock h tip anc id)) q).1).2 = false.
Proof.
  unfold send_request at 1. rewrite decide_True; [done|].
  unfold send_request. case_decide as H; [done|]. simpl. set_solver.
Qed.
End PeerMsg.
