(* ===== verification/Net.v ===== *)
(** The peers of a node (lib/types/net.rs, lib/net/mod.rs): seed addresses, the peers
    it knows, the connections it holds.

    The database of known peers is a set, the table of connections a map; dialing,
    name resolution and the parsing of hosts are calls into crates. *)
From S2P Require Import Prelude Bytes SwapTypes TxTypes Externals Accumulator.
From S2P Require Import BlockTypes Bundle StateDb Peg Ancestry SideTips Archive PeerMsg Addresses.

(** ** Addresses *)
Inductive IpAddr := V4 (ip : array 4) | V6 (ip : array 16).
Record SocketAddr := mkSocketAddr { sa_ip : IpAddr; sa_port : Z }.

#[export] Instance IpAddr_eq_dec : EqDecision IpAddr.
Proof. solve_decision. Defined.
#[export] Instance SocketAddr_eq_dec : EqDecision SocketAddr.
Proof. solve_decision. Defined.
#[export] Instance IpAddr_countable : Countable IpAddr.
Proof.
  refine (inj_countable' (λ a, match a with V4 i => inl i | V6 i => inr i end)
    (λ s, match s with inl i => V4 i | inr i => V6 i end) _). by intros [].
Defined.
#[export] Instance SocketAddr_countable : Countable SocketAddr.
Proof.
  refine (inj_countable' (λ a, (sa_ip a, sa_port a)) (λ p, mkSocketAddr p.1 p.2) _).
  by intros [].
Defined.

(** [url::Host] *)
Inductive Host := Domain (domain : list byte) | Ipv4 (ip : array 4) | Ipv6 (ip : array 16).
Record SeedAddress := mkSeedAddress { seed_host : Host; seed_port : Z }.

Definition DEFAULT_PORT : Z := 4000 + THIS_SIDECHAIN.

(** [SeedAddress::socket_addr] *)
Definition seed_socket_addr (s : SeedAddress) : option SocketAddr :=
  match seed_host s with
  | Domain _ => None
  | Ipv4 ip => Some (mkSocketAddr (V4 ip) (seed_port s))
  | Ipv6 ip => Some (mkSocketAddr (V6 ip) (seed_port s))
  end.

(** [NonEmpty]: a head and a tail, the last element the tail's if it has one. *)
Definition ne_last {A} (head : A) (tail : list A) : A := List.last tail head.

(** The addresses of a domain are in reverse order. *)
Inductive ResolvedSeedAddress :=
| ResolvedDomain (domain : list byte) (port : Z) (head : IpAddr) (tail : list IpAddr)
| Static (addr : SocketAddr).

Definition resolved_host (r : ResolvedSeedAddress) : Host :=
  match r with
  | ResolvedDomain domain _ _ _ => Domain domain
  | Static (mkSocketAddr (V4 ip) _) => Ipv4 ip
  | Static (mkSocketAddr (V6 ip) _) => Ipv6 ip
  end.
Definition resolved_port (r : ResolvedSeedAddress) : Z :=
  match r with ResolvedDomain _ port _ _ => port | Static addr => sa_port addr end.
Definition as_seed_address (r : ResolvedSeedAddress) : SeedAddress :=
  mkSeedAddress (resolved_host r) (resolved_port r).
Definition first_ip_addr (r : ResolvedSeedAddress) : IpAddr :=
  match r with
  | ResolvedDomain _ _ head tail => ne_last head tail
  | Static addr => sa_ip addr
  end.
Definition pop_first_ip_addr (r : ResolvedSeedAddress) : IpAddr * option ResolvedSeedAddress :=
  match r with
  | ResolvedDomain domain port head tail =>
      match last tail with
      | Some addr => (addr, Some (ResolvedDomain domain port head (removelast tail)))
      | None => (head, None)
      end
  | Static addr => (sa_ip addr, None)
  end.
Definition ip_addrs (r : ResolvedSeedAddress) : list IpAddr :=
  match r with
  | ResolvedDomain _ _ head tail => reverse (head :: tail)
  | Static addr => [sa_ip addr]
  end.

(** Popping goes through the addresses in the order in which they were resolved. *)
Lemma pop_ip_addrs r :
  ip_addrs r = first_ip_addr r :: from_option ip_addrs [] (pop_first_ip_addr r).2 ∧
  first_ip_addr r = (pop_first_ip_addr r).1.
Proof.
  destruct r as [domain port head tail|addr]; [|done]. simpl. unfold ne_last.
  destruct tail as [|x tail _] using rev_ind; [done|].
  rewrite last_snoc, List.last_last, removelast_last, app_comm_cons, reverse_app. done.
Qed.

(** ** [FromStr for SeedAddress] *)
Fixpoint digits (acc : Z) (l : list byte) : option Z :=
  match l with
  | [] => Some acc
  | b :: l =>
      if (48 <=? Z_of_byte b) && (Z_of_byte b <=? 57)
      then digits (10 * acc + (Z_of_byte b - 48)) l else None
  end.
(** [str::parse::<u16>]: a plus sign may come first. *)
Definition parse_u16 (l : list byte) : option Z :=
  let l := match l with x2b :: l => l | _ => l end in
  match l with
  | [] => None
  | _ => n ← digits 0 l; (if n <=? 65535 then Some n else None)
  end.

(** ** The network component *)
Inductive PeerConnectionStatus := Connecting | Connected.

Inductive DialError := InvalidRemoteAddress | DialOther.
Class ExtNet := {
  (* url: [Host::parse] *)
  host_parse : list byte → option Host;
  (* quinn: starting a connection under a server name *)
  quinn_connect : SocketAddr → list byte → option DialError;
  (* std: [IpAddr::is_unspecified] *)
  is_unspecified : IpAddr → bool;
}.

Inductive NetError :=
| AlreadyConnected (addr : SocketAddr)
| UnspecifiedPeerIp (ip : IpAddr)
| ConnectError (e : DialError)
| ParseSeedAddress
| ResolveError
| NoIpAddrs.

(** Messages to a connection's task. *)
Inductive InternalMessage {T : ExtTypes} :=
| BmmVerification (found : bool) (id : Hash)
| BmmVerificationError
| ForwardRequest (r : Request)
| MainchainAncestors (id : Hash)
| MainchainAncestorsError
| HeadersAvailable (id : Hash)
| BodiesAvailable (id : Hash).

Section Net.
Context {T : ExtTypes} {X : ExtFuns} {N : ExtNet}.

Definition seed_from_str (s : list byte) : res NetError SeedAddress :=
  '(host_str, port) ←
    match rsplit_once x3a s with
    | Some (host_str, port) => port ← ok_or (parse_u16 port) ParseSeedAddress; Ok (host_str, port)
    | None => Ok (s, DEFAULT_PORT)
    end;
  host ← ok_or (host_parse host_str) ParseSeedAddress;
  Ok (mkSeedAddress host port).

(** [ConnectionHandle]: what it holds of the task, and the messages on their way. *)
Record ConnectionHandle := mkHandle {
  received_msg_successfully : bool;
  connection_status : PeerConnectionStatus;
  (* the task still receives *)
  mailbox_open : bool;
  internal_messages : list InternalMessage;
}.
Definition new_handle (status : PeerConnectionStatus) : ConnectionHandle :=
  mkHandle false status true [].
(** [internal_message_tx.unbounded_send] *)
Definition send_internal (m : InternalMessage) (h : ConnectionHandle) : option ConnectionHandle :=
  if mailbox_open h
  then Some (mkHandle (received_msg_successfully h) (connection_status h) true
               (internal_messages h ++ [m]))
  else None.
Record Net := mkNet {
  active_peers : gmap SocketAddr ConnectionHandle;
  known_peers : gset SocketAddr;
}.
Implicit Types (net : Net) (addr : SocketAddr).

Definition with_known f net : Net := mkNet (active_peers net) (f (known_peers net)).

Definition add_active_peer addr (h : ConnectionHandle) net : res NetError Net :=
  match active_peers net !! addr with
  | Some _ => Err (AlreadyConnected addr)
  | None => Ok (mkNet (<[addr := h]> (active_peers net)) (known_peers net))
  end.
Definition remove_active_peer addr net : Net :=
  mkNet (delete addr (active_peers net)) (known_peers net).
Definition try_with_active_peer_connection {A} addr (f : ConnectionHandle → A) net : option A :=
  f <$> active_peers net !! addr.
Definition is_active_peer addr net : bool := bool_decide (is_Some (active_peers net !! addr)).
(** The peer was known. *)
Definition forget_peer addr net : Net * bool :=
  (with_known (λ k, k ∖ {[ addr ]}) net, bool_decide (addr ∈ known_peers net)).
Definition add_seed_peers (seeds : list SeedAddress) net : Net :=
  with_known (λ k, list_to_set (omap seed_socket_addr seeds) ∪ k) net.

Definition push_internal_message (m : InternalMessage) addr net : Net * bool :=
  match active_peers net !! addr with
  | None => (net, false)
  | Some h =>
      match send_internal m h with
      | None => (net, false)
      | Some h => (mkNet (<[addr := h]> (active_peers net)) (known_peers net), true)
      end
  end.

(** To every connected peer that is not excluded. *)
Definition push_tx (exclude : gset SocketAddr) (tx : Authorized Transaction) net : Net :=
  mkNet (map_imap (λ addr h,
      Some (if decide (addr ∈ exclude) then h
            else match connection_status h with
                 | Connecting => h
                 | Connected => default h (send_internal (ForwardRequest (PushTransaction tx)) h)
                 end)) (active_peers net)) (known_peers net).

(** The first of the addresses that is connected. *)
Definition connected_already (r : ResolvedSeedAddress) net : option SocketAddr :=
  snd <$> list_find (λ addr, is_Some (active_peers net !! addr))
            ((λ ip, mkSocketAddr ip (resolved_port r)) <$> ip_addrs r).

Definition localhost : list byte := str_bytes "localhost".

(** The loop of [connect_peer] that dials the addresses one after the other; a turn
    for each of them. *)
Fixpoint dial (fuel : nat) (r : ResolvedSeedAddress) : res NetError (SocketAddr * ResolvedSeedAddress) :=
  match fuel with
  | O => Panic
  | S fuel =>
      let addr := mkSocketAddr (first_ip_addr r) (resolved_port r) in
      if is_unspecified (sa_ip addr) then Err (UnspecifiedPeerIp (sa_ip addr))
      else
        let server_name := match resolved_host r with Domain d => d | _ => localhost end in
        match quinn_connect addr server_name with
        | None => Ok (addr, r)
        | Some InvalidRemoteAddress =>
            match (pop_first_ip_addr r).2 with
            | Some next => dial fuel next
            | None => Err (ConnectError InvalidRemoteAddress)
            end
        | Some e => Err (ConnectError e)
        end
  end.

(** The network next to the result: the address is known before the connection is
    entered. *)
Definition connect_peer (r : ResolvedSeedAddress) net : Net * res NetError () :=
  match connected_already r net with
  | Some addr => (net, Err (AlreadyConnected addr))
  | None =>
      match dial (length (ip_addrs r)) r with
      | Err e => (net, Err e)
      | Panic => (net, Panic)
      | Ok (addr, r) =>
          let net :=
            match r with
            | Static static_addr => with_known (λ k, {[ static_addr ]} ∪ k) net
            | ResolvedDomain _ _ _ _ => net
            end in
          match add_active_peer addr (new_handle Connecting) net with
          | Ok net => (net, Ok ())
          | Err e => (net, Err e)
          | Panic => (net, Panic)
          end
      end
  end.

(** [accept_incoming] once the connection is there, closed by the other side or not:
    the peer that was added. *)
Definition accept_incoming addr (closed : bool) net : Net * res NetError (option SocketAddr) :=
  if is_active_peer addr net || closed then (net, Ok None)
  else
    let net := with_known (λ k, {[ addr ]} ∪ k) net in
    match add_active_peer addr (new_handle Connected) net with
    | Ok net => (net, Ok (Some addr))
    | Err e => (net, Err e)
    | Panic => (net, Panic)
    end.

Definition dial_known_peer addr net : Net * res NetError bool :=
  if is_active_peer addr net then (net, Ok false)
  else
    match connect_peer (Static addr) net with
    | (net, Ok _) => (net, Ok true)
    | (net, Err e) => (net, Err e)
    | (net, Panic) => (net, Panic)
    end.

(** The number of connections that started; errors are logged. *)
Definition dial_known_peers net : Net * Z :=
  fold_left (λ acc addr,
      let '(net, dialed) := acc in
      match dial_known_peer addr net with
      | (net, Ok true) => (net, dialed + 1)
      | (net, _) => (net, dialed)
      end) (elements (known_peers net)) (net, 0).

(** A turn of [redial_known_peers], after its delay: the delay in seconds, and whether
    no peer was there at the last check. *)
Definition redial_turn (min_delay max_delay : Z) (s : Z * bool) net : Net * (Z * bool) :=
  let '(delay, no_peers_at_last_check) := s in
  if decide (active_peers net = ∅) then
    if no_peers_at_last_check then
      ((dial_known_peers net).1, ((2 * delay) `min` max_delay, true))
    else (net, (delay, true))
  else (net, (min_delay, false)).

(** ** Seeds and start-up *)
Definition ipv4 (a b c d : byte) : array 4 := exist _ [a; b; c; d] eq_refl.
Definition SIGNET_SEED_NODE_ADDRS : list SeedAddress :=
  [mkSeedAddress (Ipv4 (ipv4 xac x69 x94 x87)) DEFAULT_PORT;
   mkSeedAddress (Ipv4 (ipv4 x5f xd9 xf3 x0c)) DEFAULT_PORT].
Definition BETANET_SEED_NODE_ADDRS : list SeedAddress :=
  [mkSeedAddress (Domain (str_bytes "seed.beta.ecash.eu.com")) DEFAULT_PORT].
Definition seed_node_addrs (network : Network) : list SeedAddress :=
  match network with
  | Betanet => BETANET_SEED_NODE_ADDRS
  | RegtestNet => []
  | SignetNet => SIGNET_SEED_NODE_ADDRS
  end.

(** The resolver's answer is an argument, [None] if it failed. *)
Definition resolve_seed_address (lookup_ip : list byte → option (list IpAddr)) (s : SeedAddress) :
    res NetError ResolvedSeedAddress :=
  match seed_host s with
  | Ipv4 ip => Ok (Static (mkSocketAddr (V4 ip) (seed_port s)))
  | Ipv6 ip => Ok (Static (mkSocketAddr (V6 ip) (seed_port s)))
  | Domain domain =>
      addrs ← ok_or (lookup_ip domain) ResolveError;
      let addrs := base.filter (λ a, is_unspecified a = false) addrs in
      match last addrs with
      | None => Err NoIpAddrs
      | Some last_addr =>
          Ok (ResolvedDomain domain (seed_port s) last_addr (reverse (removelast addrs)))
      end
  end.

Definition dial_seed lookup_ip (s : SeedAddress) net : Net * res NetError () :=
  match resolve_seed_address lookup_ip s with
  | Ok r => connect_peer r net
  | Err e => (net, Err e)
  | Panic => (net, Panic)
  end.

(** The loop of [Net::new] over the known peers: one with an invalid address is
    forgotten, other errors are only logged. *)
Definition start_known_peer net addr : Net :=
  match connect_peer (Static addr) net with
  | (net, Err (ConnectError InvalidRemoteAddress)) => with_known (λ k, k ∖ {[ addr ]}) net
  | (net, _) => net
  end.
Definition net_new (network : Network) (add_peers : list SeedAddress) (known : gset SocketAddr) : Net :=
  let net := add_seed_peers (seed_node_addrs network) (mkNet ∅ known) in
  let net := add_seed_peers add_peers net in
  fold_left start_known_peer (elements (known_peers net)) net.
(** The host names that are dialed in the background. *)
Definition seed_names (network : Network) (add_peers : list SeedAddress) : list SeedAddress :=
  base.filter (λ s, seed_socket_addr s = None) (seed_node_addrs network ++ add_peers).

(** ** Properties *)

(** Each turn of the loop tries one address, so that the fuel is enough. *)
Lemma dial_total fuel r : length (ip_addrs r) = fuel → dial fuel r ≠ Panic.
Proof.
  revert r; induction fuel as [|fuel IH]; intros r Hr;
    destruct (pop_ip_addrs r) as [Hip _]; rewrite Hip in Hr; [done|]. simpl in Hr |- *.
  destruct (is_unspecified _); [done|].
  destruct (quinn_connect _ _) as [[]|]; [|done..].
  destruct (pop_first_ip_addr r).2 as [next|]; [|done]. apply IH. simpl in Hr. lia.
Qed.

(** A connection is only entered under an address that has none, and it keeps every
    other connection. *)
Lemma connect_peer_keeps r net net' x addr h :
  connect_peer r net = (net', x) → active_peers net !! addr = Some h →
  active_peers net' !! addr = Some h.
Proof.
  unfold connect_peer. destruct (connected_already r net); [by intros [= <- _]|].
  destruct (dial _ r) as [[a r']|e|]; [|by intros [= <- _]..].
  set (net1 := match r' with Static _ => _ | _ => _ end).
  assert (active_peers net1 = active_peers net) as Hact by (by unfold net1; destruct r').
  unfold add_active_peer. rewrite Hact. destruct (active_peers net !! a) eqn:Ha; intros [= <- _].
  - by rewrite Hact.
  - simpl. intros Hh. rewrite lookup_insert_ne; [done|congruence].
Qed.

(** The addresses of a resolved name come in the order of the resolver's answer. *)
Lemma resolve_in_order lookup_ip domain port r :
  resolve_seed_address lookup_ip (mkSeedAddress (Domain domain) port) = Ok r →
  ∃ addrs, lookup_ip domain = Some addrs ∧
    ip_addrs r = base.filter (λ a, is_unspecified a = false) addrs.
Proof.
  unfold resolve_seed_address. simpl. destruct (lookup_ip domain) as [addrs|]; [|done]. simpl.
  intros H. exists addrs. split; [done|].
  induction (base.filter _ addrs) as [|x l _] using rev_ind; [done|].
  rewrite last_snoc, removelast_last in H. injection H as <-. simpl.
  by rewrite reverse_cons, reverse_involutive.
Qed.

(** The delay stays between its bounds. *)
Lemma redial_delay_bounds min_delay max_delay s net :
  0 ≤ min_delay ≤ max_delay → min_delay ≤ s.1 ≤ max_delay →
  min_delay ≤ (redial_turn min_delay max_delay s net).2.1 ≤ max_delay.
Proof.
  destruct s as [d b]. simpl. intros Hm Hd. unfold redial_turn.
  case_decide; [destruct b|]; simpl; lia.
Qed.
End Net.
