(* ===== verification/BetterTip.v ===== *)
(** The choice between two tips ([better_tip] of lib/archive/mod.rs). *)
From S2P Require Import Prelude Bytes SwapTypes TxTypes Externals Accumulator.
From S2P Require Import BlockTypes Bundle StateDb Peg Ancestry BlockTree SideTips.
From S2P Require Import Archive ArchiveProps ArchiveIter.

(** [Option<T>::cmp] of numbers: [None] first. *)
Definition option_cmp (o o' : option Z) : comparison :=
  match o, o' with
  | None, None => Eq
  | None, Some _ => Lt
  | Some _, None => Gt
  | Some x, Some y => x ?= y
  end.

Lemma option_cmp_antisym o o' : option_cmp o' o = CompOpp (option_cmp o o').
Proof. destruct o, o'; simpl; try done. by rewrite Z.compare_antisym. Qed.

Section BetterTip.
Context {T : ExtTypes} {X : ExtFuns} {W : ExtWork} {I : HashIter}.
Implicit Types (ar : Archive) (tip : Tip).

(** Whether a sidechain block was built before the common mainchain ancestor. *)
Definition before_ancestor ar (main_ancestor : BtcBlockHash) (header : Header) :
    res ArchiveError bool :=
  d ← is_main_descendant ar (prev_main_hash header) main_ancestor;
  Ok ((d : bool) && negb (bool_decide (prev_main_hash header = main_ancestor))).

(** The height of the last ancestor of a tip before the common mainchain ancestor. *)
Definition height_before ar (main_ancestor : BtcBlockHash) (b : BlockHash) :
    res ArchiveError (option Z) :=
  find_map_ancestors ar (λ a,
      header ← get_header ar a;
      before ← before_ancestor ar main_ancestor header;
      if before : bool then h ← archive_height ar a; Ok (Some h) else Ok None) b.

(** Its height, and the total work of the mainchain block that committed to it. *)
Definition height_and_work_before ar (main_ancestor : BtcBlockHash)
    (main_ancestor_height : Z) (b : BlockHash) : res ArchiveError (option (Z * Z)) :=
  find_map_ancestors ar (λ a,
      header ← get_header ar a;
      before ← before_ancestor ar main_ancestor header;
      if before : bool then
        height ← archive_height ar a;
        prev_height ← get_main_height ar (prev_main_hash header);
        main_block ← get_nth_main_ancestor ar main_ancestor
                       (u32_sub main_ancestor_height (u32_add prev_height 1));
        work ← get_total_work ar main_block;
        Ok (Some (height, work))
      else Ok None) b.

Definition better_tip ar tip0 tip1 : res ArchiveError (option Tip) :=
  if decide (tip0 = tip1) then Ok None
  else
    let block_hash0 := block_hash tip0 in
    let block_hash1 := block_hash tip1 in
    height0 ← archive_height ar block_hash0;
    height1 ← archive_height ar block_hash1;
    if (height0 =? 0) && (height1 =? 0) then Ok None
    else if height0 =? 0 then Ok (Some tip1)
    else if height1 =? 0 then Ok (Some tip0)
    else
      work0 ← get_total_work ar (main_block_hash tip0);
      work1 ← get_total_work ar (main_block_hash tip1);
      match work0 ?= work1, height0 ?= height1 with
      | Lt, Lt | Eq, Lt => Ok (Some tip1)
      | Eq, Gt | Gt, Gt => Ok (Some tip0)
      | Lt, Eq =>
          shared ← shared_mainchain_lineage ar (main_block_hash tip0) (main_block_hash tip1);
          Ok (Some (if shared : bool then tip0 else tip1))
      | Gt, Eq =>
          shared ← shared_mainchain_lineage ar (main_block_hash tip0) (main_block_hash tip1);
          Ok (Some (if negb shared then tip0 else tip1))
      | Lt, Gt =>
          main_ancestor ←
            last_common_main_ancestor ar (main_block_hash tip0) (main_block_hash tip1);
          tip0_ancestor_height ← height_before ar main_ancestor block_hash0;
          Ok (Some (match option_cmp tip0_ancestor_height (Some height1) with
                    | Lt => tip1
                    | _ => tip0
                    end))
      | Gt, Lt =>
          main_ancestor ←
            last_common_main_ancestor ar (main_block_hash tip0) (main_block_hash tip1);
          tip1_ancestor_height ← height_before ar main_ancestor block_hash1;
          Ok (Some (match option_cmp tip1_ancestor_height (Some height0) with
                    | Lt => tip0
                    | _ => tip1
                    end))
      | Eq, Eq =>
          if decide (block_hash0 = block_hash1) then Ok (Some tip0)
          else
            main_ancestor ←
              last_common_main_ancestor ar (main_block_hash tip0) (main_block_hash tip1);
            main_ancestor_height ← get_main_height ar main_ancestor;
            before0 ← height_and_work_before ar main_ancestor main_ancestor_height block_hash0;
            before1 ← height_and_work_before ar main_ancestor main_ancestor_height block_hash1;
            Ok (Some (match option_cmp (snd <$> before0) (snd <$> before1),
                            option_cmp (fst <$> before0) (fst <$> before1) with
                      | Lt, Eq | Eq, Eq => tip0
                      | _, Gt => tip0
                      | Gt, Eq => tip1
                      | _, Lt => tip1
                      end))
      end.

(** ** Symmetry *)

Lemma last_common_unique ar b0 b1 c c' : archive_wf ar →
  main_block_hash_to_height ar !! b0 <> None →
  last_common main_ops (main_tree ar) b0 b1 c → last_common main_ops (main_tree ar) b1 b0 c' →
  c = c'.
Proof.
  intros Hwf Hb (H0 & H1 & Hmax) (H0' & H1' & Hmax').
  pose proof (tw_linked _ _ (aw_main _ Hwf)) as Hlink.
  destruct (main_block_hash_to_height ar !! b0) as [h|] eqn:Hh; [clear Hb|done].
  pose proof (tw_height _ _ (aw_main _ Hwf) b0 h Hh) as Hk.
  specialize (Hmax c' H1' H0'). specialize (Hmax' c H1 H0).
  apply (rtc_parent_of main_ops (main_tree ar) (aw_main _ Hwf)) in Hmax, Hmax', H0.
  apply ancestor_at_rtc in H0 as (n & Hn), Hmax as (m & Hm), Hmax' as (m' & Hm').
  apply (lin_height_of main_ops (main_tree ar)) in Hh.
  destruct (ancestor_at_height _ _ Hlink n b0 c h Hk Hh Hn) as (_ & Hkc & Hhc).
  destruct (ancestor_at_height _ _ Hlink m c c' (h - n) Hkc Hhc Hm) as (_ & Hkc' & Hhc').
  destruct (ancestor_at_height _ _ Hlink m' c' c _ Hkc' Hhc' Hm') as (_ & _ & Hhc2).
  assert (m = 0) as ->.
  { assert (h - n = h - n - m - m') by congruence. destruct Hm, Hm'. lia. }
  by apply ancestor_at_0 in Hm.
Qed.

Lemma last_common_main_swap ar b0 b1 h0 h1 c : archive_wf ar →
  (∀ b h, main_block_hash_to_height ar !! b = Some h → 2 * h ≤ u32_MAX) →
  main_block_hash_to_height ar !! b0 = Some h0 →
  main_block_hash_to_height ar !! b1 = Some h1 →
  rtc (main_parent ar) b0 c → rtc (main_parent ar) b1 c →
  last_common_main_ancestor ar b0 b1 = last_common_main_ancestor ar b1 b0.
Proof.
  intros Hwf Hsmall H0 H1 Hc0 Hc1.
  pose proof (Hsmall b0 h0 H0) as Hs0. pose proof (Hsmall b1 h1 H1) as Hs1.
  destruct (last_common_main_ancestor_ok ar b0 b1 h0 h1 c) as (a & -> & Ha); [done..|lia|done|done|].
  destruct (last_common_main_ancestor_ok ar b1 b0 h1 h0 c) as (a' & -> & Ha'); [done..|lia|done|done|].
  f_equal. by eapply last_common_unique; [| |exact Ha|exact Ha']; [done|by rewrite H0].
Qed.

Lemma shared_swap ar b0 b1 h0 h1 : archive_wf ar →
  main_block_hash_to_height ar !! b0 = Some h0 →
  main_block_hash_to_height ar !! b1 = Some h1 →
  shared_mainchain_lineage ar b0 b1 = shared_mainchain_lineage ar b1 b0.
Proof.
  intros Hwf H0 H1.
  destruct (shared_mainchain_lineage_ok ar b0 b1 h0 h1) as (r & -> & Hr); [done..|].
  destruct (shared_mainchain_lineage_ok ar b1 b0 h1 h0) as (r' & -> & Hr'); [done..|].
  f_equal. destruct r, r'; naive_solver.
Qed.

(** The better one of two tips does not depend on the order in which they are
    compared, unless their heights and works are both equal: then, at worst, neither
    replaces the other.  The tips' mainchain blocks are known and have a common
    ancestor. *)
Theorem better_tip_swap ar tip0 tip1 h0 h1 c r :
  archive_wf ar →
  (∀ b h, main_block_hash_to_height ar !! b = Some h → 2 * h ≤ u32_MAX) →
  main_block_hash_to_height ar !! main_block_hash tip0 = Some h0 →
  main_block_hash_to_height ar !! main_block_hash tip1 = Some h1 →
  rtc (main_parent ar) (main_block_hash tip0) c →
  rtc (main_parent ar) (main_block_hash tip1) c →
  better_tip ar tip0 tip1 = Ok r →
  better_tip ar tip1 tip0 = Ok r ∨
  (block_hash_to_height ar !! block_hash tip0 = block_hash_to_height ar !! block_hash tip1 ∧
   total_work ar !! main_block_hash tip0 = total_work ar !! main_block_hash tip1).
Proof.
  intros Hwf Hsmall Hm0 Hm1 Hc0 Hc1 H. unfold better_tip in H |- *.
  destruct (decide (tip0 = tip1)) as [->|Hne]; [by rewrite decide_True by done; left|].
  rewrite (decide_False (P := tip1 = tip0)) by done.
  apply bind_Ok_inv in H as (height0 & Hh0 & H). apply bind_Ok_inv in H as (height1 & Hh1 & H).
  rewrite Hh0, Hh1, !bind_Ok, andb_comm.
  destruct (Z.eqb_spec height0 0) as [Hz0|Hz0], (Z.eqb_spec height1 0) as [Hz1|Hz1];
    simpl in H |- *; try by left.
  apply bind_Ok_inv in H as (work0 & Hw0 & H). apply bind_Ok_inv in H as (work1 & Hw1 & H).
  rewrite Hw0, Hw1, !bind_Ok, (Z.compare_antisym work0), (Z.compare_antisym height0).
  rewrite <-(shared_swap ar _ _ h0 h1), <-(last_common_main_swap ar _ _ h0 h1 c) by done.
  destruct (Z.compare_spec work0 work1) as [->|Hw|Hw],
    (Z.compare_spec height0 height1) as [->|Hh|Hh]; simpl; try by left.
  - right. apply ok_or_Ok in Hh0, Hh1, Hw0, Hw1. by rewrite Hh0, Hh1, Hw0, Hw1.
  - left. apply bind_Ok_inv in H as (sh & -> & H). simpl. by destruct sh.
  - left. apply bind_Ok_inv in H as (sh & -> & H). simpl. by destruct sh.
Qed.
End BetterTip.
