(* ===== verification/PegProps.v ===== *)
(** Withdrawal bundles: disconnecting an event undoes connecting it
    (lib/state/two_way_peg_data.rs). *)
From S2P Require Import Prelude Bytes SwapTypes TxTypes Externals.
From S2P Require Import Accumulator BlockTypes Rollback Bundle StateDb SwapRules.
From S2P Require Import BlockConnect Block BlockSpec BlockProps Ledger Peg Monitor.

Section PegProps.
Context {T : ExtTypes} {X : ExtFuns}.
Implicit Types (st s t : State) (d : AccumulatorDiff.t).

(** The part of the state that bundle events change. *)
Definition peg_view st :=
  (utxos st, stxos st, pending_withdrawal_bundle st,
   latest_failed_withdrawal_bundle st, withdrawal_bundles st).

(** The outputs [l] are unspent, or were spent by bundle [m6id]. *)
Definition all_unspent (l : list (OutPoint * Output)) st : Prop :=
  NoDup l.*1 ∧
  ∀ o out, (o, out) ∈ l → utxos st !! o = Some out ∧ stxos st !! o = None.
Definition all_spent (m6id : M6id) (l : list (OutPoint * Output)) st : Prop :=
  NoDup l.*1 ∧
  ∀ o out, (o, out) ∈ l →
    utxos st !! o = None ∧ stxos st !! o = Some (mkSpentOutput out (InWithdrawal m6id)).

Lemma elem_of_fst {A B} (l : list (A * B)) a b : (a, b) ∈ l → a ∈ l.*1.
Proof. intros H. apply list_elem_of_fmap. by exists (a, b). Qed.

Lemma all_unspent_cons m6id o out l s d :
  all_unspent ((o, out) :: l) s → all_unspent l (bundle_spend m6id (s, d) (o, out)).1.
Proof.
  intros [Hnd Hu]. csimpl in Hnd. apply NoDup_cons in Hnd as [Hni Hnd].
  split; [done|]. intros o' out' Hin. simpl.
  assert (o ≠ o') by (intros ->; by apply elem_of_fst in Hin).
  rewrite lookup_delete_ne, lookup_insert_ne by done. apply Hu. by right.
Qed.

Lemma all_spent_cons m6id o out l s d :
  all_spent m6id ((o, out) :: l) s →
  all_spent m6id l (bundle_unspend (s, d) (o, out)).1.
Proof.
  intros [Hnd Hu]. csimpl in Hnd. apply NoDup_cons in Hnd as [Hni Hnd].
  split; [done|]. intros o' out' Hin. simpl.
  assert (o ≠ o') by (intros ->; by apply elem_of_fst in Hin).
  rewrite lookup_delete_ne, lookup_insert_ne by done. apply Hu. by right.
Qed.

(** Only [utxos] and [stxos] change. *)
Definition same_ledger_as (t0 s : State) (td : State * AccumulatorDiff.t) : Prop :=
  td.1 = {| t0 with utxos := utxos s; stxos := stxos s |}.

Lemma bundle_spend_undo m6id l s d s1 d1 t d2 :
  all_unspent l s → fold_left (bundle_spend m6id) l (s, d) = (s1, d1) →
  utxos t = utxos s1 → stxos t = stxos s1 →
  ∃ d', foldM unspend_bundle_input (t, d2) (reverse l)
        = Ok ({| t with utxos := utxos s; stxos := stxos s |}, d').
Proof.
  intros Hall Hf Hu Hs.
  destruct (foldM_undo (λ (sd : State * AccumulatorDiff.t) l, all_unspent l sd.1)
    (λ sd td, same_ledger_as t sd.1 td)
    (λ sd p, @Ok Error _ (bundle_spend m6id sd p)) unspend_bundle_input id (s, d) l
    (s1, d1) (t, d2)) as ([t' d'] & Hf' & Heq); simpl in *.
  - intros [s' ds] [o out] k [s2 ds2] [t1 dt1] [_ Hfr] [= <- <-] Ht1.
    unfold same_ledger_as in *. simpl in *. subst t1.
    destruct (Hfr o out) as [Ho1 Ho2]; [by left|].
    unfold unspend_bundle_input. simpl. rewrite lookup_insert_eq. simpl.
    eexists. split; [done|]. simpl.
    by rewrite delete_insert_id, insert_delete_id.
  - intros [s' ds] [o out] k [s2 ds2] Ha [= <- <-]. by apply (all_unspent_cons m6id o out k s' ds) in Ha.
  - done.
  - by rewrite (foldM_pure (bundle_spend m6id)), Hf.
  - unfold same_ledger_as. simpl. rewrite <-Hu, <-Hs. by destruct t.
  - rewrite list_fmap_id in Hf'. exists d'. rewrite Hf'.
    unfold same_ledger_as in Heq. simpl in Heq. by rewrite Heq.
Qed.

Lemma bundle_unspend_undo m6id l s d s1 d1 t d2 :
  all_spent m6id l s → fold_left bundle_unspend l (s, d) = (s1, d1) →
  utxos t = utxos s1 → stxos t = stxos s1 →
  ∃ d', foldM (respend_bundle_input m6id) (t, d2) (reverse l)
        = Ok ({| t with utxos := utxos s; stxos := stxos s |}, d').
Proof.
  intros Hall Hf Hu Hs.
  destruct (foldM_undo (λ (sd : State * AccumulatorDiff.t) l, all_spent m6id l sd.1)
    (λ sd td, same_ledger_as t sd.1 td)
    (λ sd p, @Ok Error _ (bundle_unspend sd p)) (respend_bundle_input m6id) id (s, d) l
    (s1, d1) (t, d2)) as ([t' d'] & Hf' & Heq); simpl in *.
  - intros [s' ds] [o out] k [s2 ds2] [t1 dt1] [_ Hfr] [= <- <-] Ht1.
    unfold same_ledger_as in *. simpl in *. subst t1.
    destruct (Hfr o out) as [Ho1 Ho2]; [by left|].
    unfold respend_bundle_input. simpl. rewrite lookup_insert_eq. simpl.
    eexists. split; [done|]. simpl.
    by rewrite delete_insert_id, insert_delete_id.
  - intros [s' ds] [o out] k [s2 ds2] Ha [= <- <-]. by apply (all_spent_cons m6id o out k s' ds) in Ha.
  - done.
  - by rewrite (foldM_pure bundle_unspend), Hf.
  - unfold same_ledger_as. simpl. rewrite <-Hu, <-Hs. by destruct t.
  - rewrite list_fmap_id in Hf'. exists d'. rewrite Hf'.
    unfold same_ledger_as in Heq. simpl in Heq. by rewrite Heq.
Qed.

Lemma spend_fold_frame m6id l s d s1 d1 :
  fold_left (bundle_spend m6id) l (s, d) = (s1, d1) → sans_ledger s1 = sans_ledger s.
Proof.
  intros Hf. change (sans_ledger (s1, d1).1 = sans_ledger (s, d).1). rewrite <-Hf.
  apply (fold_left_proj (λ sd : State * AccumulatorDiff.t, sans_ledger sd.1)).
  by intros [].
Qed.

Lemma unspend_fold_frame l s d s1 d1 :
  fold_left bundle_unspend l (s, d) = (s1, d1) → sans_ledger s1 = sans_ledger s.
Proof.
  intros Hf. change (sans_ledger (s1, d1).1 = sans_ledger (s, d).1). rewrite <-Hf.
  apply (fold_left_proj (λ sd : State * AccumulatorDiff.t, sans_ledger sd.1)).
  by intros [].
Qed.

Lemma sans_ledger_peg s t :
  sans_ledger s = sans_ledger t →
  pending_withdrawal_bundle s = pending_withdrawal_bundle t ∧
  latest_failed_withdrawal_bundle s = latest_failed_withdrawal_bundle t ∧
  withdrawal_bundles s = withdrawal_bundles t.
Proof.
  intros H. split_and!.
  - exact (f_equal pending_withdrawal_bundle H).
  - exact (f_equal latest_failed_withdrawal_bundle H).
  - exact (f_equal withdrawal_bundles H).
Qed.

(** [t] with the peg's part of [st]. *)
Definition restore_peg st t : State :=
  {| t with
     utxos := utxos st; stxos := stxos st;
     pending_withdrawal_bundle := pending_withdrawal_bundle st;
     latest_failed_withdrawal_bundle := latest_failed_withdrawal_bundle st;
     withdrawal_bundles := withdrawal_bundles st |}.

Lemma restore_peg_same st t : peg_view t = peg_view st → restore_peg st t = t.
Proof.
  intros H. unfold peg_view in H. simplify_eq H. intros Hb Hl Hp Hs Hu.
  unfold restore_peg. rewrite <-Hb, <-Hl, <-Hp, <-Hs, <-Hu. by destruct t.
Qed.

(** ** Submission *)

(** The pending bundle is submitted in the block after the one that proposed
    it; any other bundle is new, or was recorded by an earlier block. *)
Definition submitted_ready (h : Z) (m6id : M6id) st : Prop :=
  match pending_withdrawal_bundle st with
  | Some (b, bh) =>
      if bool_decide (compute_m6id b = m6id)
      then 1 ≤ h ≤ u32_MAX ∧ withdrawal_bundles st !! m6id = None ∧
           all_unspent (spend_list b) st
      else ∀ i r, withdrawal_bundles st !! m6id = Some (i, r) → stamp_height (latest r) < h
  | None =>
      ∀ i r, withdrawal_bundles st !! m6id = Some (i, r) → stamp_height (latest r) < h
  end.

(** A bundle that is not the pending one. *)
Lemma submitted_other_undo h m6id st t d :
  (∀ i r, withdrawal_bundles st !! m6id = Some (i, r) → stamp_height (latest r) < h) →
  match withdrawal_bundles st !! m6id with
  | Some _ => peg_view t = peg_view st
  | None => peg_view t = peg_view (put_bundle m6id Unknown (rb_new BundleSubmitted h) st)
  end →
  ∃ d', disconnect_withdrawal_bundle_submitted h m6id (t, d) = Ok (restore_peg st t, d').
Proof.
  intros Hready. unfold disconnect_withdrawal_bundle_submitted.
  destruct (withdrawal_bundles st !! m6id) as [[i r]|] eqn:Hb; intros Ht.
  - rewrite (restore_peg_same _ _ Ht). injection Ht as _ _ _ _ Ht. rewrite Ht, Hb.
    specialize (Hready _ _ eq_refl).
    rewrite (proj2 (Z.ltb_ge _ _)) by lia.
    rewrite (proj2 (Z.eqb_neq _ _)) by lia. rewrite orb_true_r. by eexists.
  - injection Ht as Hu Hs Hp Hl Ht. simpl in Ht. rewrite Ht, lookup_insert_eq. simpl.
    rewrite (proj2 (Z.ltb_ge _ _)) by lia. rewrite Z.eqb_refl. simpl.
    eexists. repeat f_equal. unfold delete_bundle, restore_peg.
    rewrite Ht, delete_insert_id by done. simpl in *.
    rewrite <-Hu, <-Hs, <-Hp, <-Hl. by destruct t.
Qed.

Lemma submitted_undo h m6id acc acc' t d :
  submitted_ready h m6id (ev_state acc) →
  connect_withdrawal_bundle_submitted h m6id acc = Ok acc' →
  peg_view t = peg_view (ev_state acc') →
  ∃ d', disconnect_withdrawal_bundle_submitted h m6id (t, d)
        = Ok (restore_peg (ev_state acc) t, d').
Proof.
  unfold submitted_ready, connect_withdrawal_bundle_submitted. intros Hready Hc.
  destruct (pending_withdrawal_bundle (ev_state acc)) as [[b bh]|] eqn:Hp;
    [case_bool_decide as Hid|].
  - destruct Hready as (Hh & Hnone & Hall). res_inv.
    destruct (fold_left _ _ _) as [s1 d1] eqn:Hf. res_inv. intros Ht.
    pose proof (sans_ledger_peg _ _ (spend_fold_frame _ _ _ _ _ _ Hf)) as (_ & Hl1 & Hb1).
    injection Ht as Hu Hs Hpn Hl Hb.
    unfold disconnect_withdrawal_bundle_submitted. rewrite Hb, lookup_insert_eq. simpl.
    rewrite (proj2 (Z.ltb_ge _ _)) by lia. rewrite Z.eqb_refl. simpl.
    destruct (bundle_spend_undo _ _ _ _ _ _ t d Hall Hf Hu Hs) as [d' ->]. simpl.
    exists d'. repeat f_equal. unfold delete_bundle, restore_peg. simpl.
    match goal with H : (bh =? _) = true |- _ => apply Z.eqb_eq in H as -> end.
    rewrite Hb, Hb1, delete_insert_id by done.
    by rewrite Hp, Hl, Hl1.
  - intros Ht. apply submitted_other_undo; [done|].
    revert Ht Hc. destruct (withdrawal_bundles (ev_state acc) !! m6id) as [[i r]|];
      intros Ht Hc; revert Ht; by res_inv.
  - intros Ht. apply submitted_other_undo; [done|].
    revert Ht Hc. destruct (withdrawal_bundles (ev_state acc) !! m6id) as [[i r]|];
      intros Ht Hc; revert Ht; by res_inv.
Qed.

(** ** Confirmation *)
Definition confirmed_ready (m6id : M6id) st : Prop :=
  ∃ i r, withdrawal_bundles st !! m6id = Some (i, r) ∧
    value (latest r) = BundleSubmitted ∧
    match i with
    | Known _ => True
    | Unknown => ∀ o, is_Some (utxos st !! o) → stxos st !! o = None
    | UnknownConfirmed _ => False
    end.

Lemma pop_status_push v h r r' :
  push v h r = Some r' → value (latest r) = BundleSubmitted →
  pop_status v h r' = Ok r ∧ value (pop r').2 = v.
Proof.
  intros Hp Hl. unfold pop_status. rewrite (pop_push _ _ _ _ Hp). simpl.
  rewrite (bool_decide_true (v = v)), Z.eqb_refl by done. simpl.
  by rewrite bool_decide_true.
Qed.

(** Marking all outputs spent, then clearing, and its reverse. *)
Lemma mark_spent_fold m6id l s d :
  let s' := (fold_left (mark_spent m6id) l (s, d)).1 in
  utxos s' = utxos s ∧ sans_ledger s' = sans_ledger s ∧
  (∀ o, o ∉ l.*1 → stxos s' !! o = stxos s !! o) ∧
  (∀ o, o ∈ l.*1 → is_Some (stxos s' !! o)).
Proof.
  revert s d; induction l as [|[o out] l IH]; intros s d; simpl.
  { split_and!; [done..|]. set_solver. }
  match goal with |- context [fold_left _ _ (?s1, ?d1)] => destruct (IH s1 d1) as (H1 & H2 & H3 & H4) end.
  split_and!; [done|done| |].
  - intros o' Ho'. csimpl in Ho'. rewrite H3 by set_solver. simpl.
    by rewrite lookup_insert_ne by set_solver.
  - intros o' Ho'. csimpl in Ho'. destruct (decide (o' ∈ l.*1)); [by apply H4|].
    rewrite H3 by done. simpl. assert (o' = o) as -> by set_solver.
    rewrite lookup_insert_eq. by eexists.
Qed.

Lemma unspend_forward l t d :
  NoDup l.*1 → (∀ o, o ∈ l.*1 → is_Some (stxos t !! o)) →
  ∃ t' d', foldM unspend_bundle_input (t, d) l = Ok (t', d') ∧
    sans_ledger t' = sans_ledger t ∧
    (∀ o, o ∉ l.*1 → stxos t' !! o = stxos t !! o ∧ utxos t' !! o = utxos t !! o) ∧
    (∀ o out, (o, out) ∈ l → stxos t' !! o = None ∧ utxos t' !! o = Some out).
Proof.
  revert t d; induction l as [|[o out] l IH]; intros t d Hnd Hs; simpl.
  { eexists _, _. split_and!; [done..|]. set_solver. }
  csimpl in *. apply NoDup_cons in Hnd as [Hni Hnd].
  destruct (Hs o) as [sp Hsp]; [set_solver|].
  assert (unspend_bundle_input (t, d) (o, out) = Ok (bundle_unspend (t, d) (o, out)))
    as -> by (unfold unspend_bundle_input; simpl; by rewrite Hsp).
  simpl.
  match goal with |- context [foldM _ (?s1, ?d1) _] =>
    destruct (IH s1 d1 Hnd) as (t' & d' & Hf & H1 & H2 & H3) end.
  { intros o' Ho'. simpl. rewrite lookup_delete_ne by set_solver. apply Hs. set_solver. }
  exists t', d'. rewrite Hf. split_and!; [done|done| |].
  - intros o' Ho'. destruct (H2 o') as [-> ->]; [set_solver|]. simpl.
    rewrite lookup_delete_ne, lookup_insert_ne by set_solver. done.
  - intros o' out' [Heq|Hin]%elem_of_cons; [|by apply H3].
    simplify_eq. destruct (H2 o) as [-> ->]; [done|]. simpl.
    by rewrite lookup_delete_eq, lookup_insert_eq.
Qed.

(** Clearing the ledger and unspending the recorded outputs. *)
Lemma clear_undo m6id st s1 d0 d1 t d :
  (∀ o, is_Some (utxos st !! o) → stxos st !! o = None) →
  fold_left (mark_spent m6id) (utxo_list st) (st, d0) = (s1, d1) →
  utxos t = ∅ → stxos t = stxos s1 →
  ∃ d', foldM unspend_bundle_input (t, d) (entries_by outpoint_ord_key (utxos st))
        = Ok ({| t with utxos := utxos st; stxos := stxos st |}, d').
Proof.
  intros Hdisj Hf Hu Hs.
  pose proof (mark_spent_fold m6id (utxo_list st) st d0) as (_ & _ & Hm1 & Hm2).
  rewrite Hf in Hm1, Hm2. simpl in Hm1, Hm2.
  assert (∀ o, o ∈ (utxo_list st).*1 ↔ is_Some (utxos st !! o)) as Hin.
  { intros o. rewrite list_elem_of_fmap. split.
    - intros ([o' out] & -> & H). apply elem_of_entries_by in H. by eexists.
    - intros [out H]. exists (o, out). split; [done|]. by apply elem_of_entries_by. }
  destruct (unspend_forward (utxo_list st) t d) as (t' & d' & Hf' & H1 & H2 & H3).
  { apply NoDup_entries_by. }
  { intros o Ho. rewrite Hs. by apply Hm2. }
  exists d'. unfold utxo_list in Hf'. rewrite Hf'. repeat f_equal.
  assert (utxos t' = utxos st ∧ stxos t' = stxos st) as [Hu' Hs'].
  { split; apply map_eq; intros o.
    - destruct (utxos st !! o) as [out|] eqn:Ho.
      + apply H3. by apply elem_of_entries_by.
      + rewrite (proj2 (H2 o ltac:(rewrite Hin, Ho; by intros [? ?]))).
        by rewrite Hu, lookup_empty.
    - destruct (utxos st !! o) as [out|] eqn:Ho.
      + rewrite (proj1 (H3 o out ltac:(by apply elem_of_entries_by))).
        symmetry. apply Hdisj. by eexists.
      + assert (o ∉ (utxo_list st).*1) as Hno by (rewrite Hin, Ho; by intros [? ?]).
        rewrite (proj1 (H2 o Hno)), Hs. by apply Hm1. }
  rewrite <-Hu', <-Hs'. clear -H1. destruct t', t. by simplify_eq/=.
Qed.

Lemma confirmed_undo h m6id acc acc' t d :
  confirmed_ready m6id (ev_state acc) →
  connect_withdrawal_bundle_confirmed h m6id acc = Ok acc' →
  peg_view t = peg_view (ev_state acc') →
  ∃ d', disconnect_withdrawal_bundle_confirmed h m6id (t, d)
        = Ok (restore_peg (ev_state acc) t, d').
Proof.
  intros (i & r & Hb & Hl & Hi). unfold connect_withdrawal_bundle_confirmed.
  rewrite Hb. simpl. rewrite Hl. simpl. intros Hc.
  destruct i as [b| |us]; [| |done]; simpl in Hc.
  - res_inv. intros Ht. injection Ht as Hu Hs Hp Hlf Hbs. simpl in *.
    destruct (pop_status_push _ _ _ _ Ha Hl) as [Hpop Hv].
    unfold disconnect_withdrawal_bundle_confirmed.
    rewrite Hbs, lookup_insert_eq. simpl. rewrite Hv. simpl. rewrite Hpop. simpl.
    eexists. repeat f_equal. unfold put_bundle, restore_peg.
    rewrite Hbs, insert_insert_eq, insert_id by done.
    rewrite <-Hu, <-Hs, <-Hp, <-Hlf. by destruct t.
  - destruct (h =? 0) eqn:Hh; [|done]. res_inv.
    destruct (fold_left _ _ _) as [s1 d1] eqn:Hf. res_inv.
    intros Ht. injection Ht as Hu Hs Hp Hlf Hbs. simpl in *.
    match goal with H : push _ _ _ = Some ?r' |- _ =>
      destruct (pop_status_push _ _ _ _ H Hl) as [Hpop Hv] end.
    pose proof (mark_spent_fold m6id (utxo_list (ev_state acc)) (ev_state acc)
      (ev_diff acc)) as (_ & Hsans & _). rewrite Hf in Hsans. simpl in Hsans.
    apply sans_ledger_peg in Hsans as (Hp1 & Hl1 & Hb1).
    unfold disconnect_withdrawal_bundle_confirmed.
    rewrite Hbs, lookup_insert_eq. simpl. rewrite Hv. simpl. rewrite Hpop. simpl.
    destruct (clear_undo _ _ _ _ _ t d Hi Hf Hu Hs) as [d' ->]. simpl.
    exists d'. repeat f_equal. unfold put_bundle, restore_peg. simpl.
    rewrite Hbs, Hb1, insert_insert_eq, insert_id by done.
    by rewrite Hp, Hp1, Hlf, Hl1.
Qed.

(** An event that repeats the latest one is ignored when its block is connected, but
    disconnecting a later block than the one that recorded it panics. *)
Lemma pop_latest {A} (r : RollBack A) : (pop r).2 = latest r.
Proof. unfold pop, latest. by destruct (last (rb_tail r)). Qed.

Lemma pop_status_later v h (r : RollBack WithdrawalBundleStatus) :
  value (latest r) = v → stamp_height (latest r) ≠ h → pop_status v h r = Panic.
Proof.
  intros Hv Hh. unfold pop_status. rewrite <-pop_latest in Hv, Hh.
  destruct (pop r) as [prev l]. simpl in *. unfold assert_.
  rewrite bool_decide_true by done. simpl. by rewrite (proj2 (Z.eqb_neq _ _)).
Qed.

Lemma confirmed_again_panics h m6id acc i r d :
  withdrawal_bundles (ev_state acc) !! m6id = Some (i, r) →
  value (latest r) = BundleConfirmed → stamp_height (latest r) ≠ h →
  connect_withdrawal_bundle_confirmed h m6id acc = Ok acc ∧
  disconnect_withdrawal_bundle_confirmed h m6id (ev_state acc, d) = Panic.
Proof.
  intros Hb Hv Hh. unfold connect_withdrawal_bundle_confirmed,
    disconnect_withdrawal_bundle_confirmed. rewrite Hb. simpl. rewrite pop_latest, Hv.
  split; [done|]. simpl. by rewrite (pop_status_later _ _ _ Hv Hh).
Qed.

Lemma failed_again_panics h m6id acc i r d :
  withdrawal_bundles (ev_state acc) !! m6id = Some (i, r) →
  value (latest r) = BundleFailed → stamp_height (latest r) ≠ h →
  connect_withdrawal_bundle_failed h m6id acc = Ok acc ∧
  disconnect_withdrawal_bundle_failed h m6id (ev_state acc, d) = Panic.
Proof.
  intros Hb Hv Hh. unfold connect_withdrawal_bundle_failed,
    disconnect_withdrawal_bundle_failed. rewrite Hb. simpl. rewrite pop_latest, Hv.
  split; [done|]. simpl. by rewrite (pop_status_later _ _ _ Hv Hh).
Qed.

(** ** Failure *)
Definition failed_ready (m6id : M6id) st : Prop :=
  ∃ i r, withdrawal_bundles st !! m6id = Some (i, r) ∧
    value (latest r) = BundleSubmitted ∧
    match i with
    | Known b => all_spent m6id (spend_list b) st
    | _ => True
    end.

Lemma pop_push_failed m6id h st st' t :
  push_failed m6id h st = Ok st' →
  latest_failed_withdrawal_bundle t = latest_failed_withdrawal_bundle st' →
  pop_failed m6id h t
  = Ok {| t with latest_failed_withdrawal_bundle := latest_failed_withdrawal_bundle st |}.
Proof.
  unfold push_failed, pop_failed. intros Hc Ht. res_inv. rewrite Ht. simpl.
  destruct (latest_failed_withdrawal_bundle st) as [rb|]; res_inv.
  - rewrite (pop_push _ _ _ _ Ha). simpl.
    by rewrite bool_decide_true, Z.eqb_refl by done.
  - simpl. by rewrite bool_decide_true, Z.eqb_refl by done.
Qed.

Lemma failed_undo h m6id acc acc' t d :
  failed_ready m6id (ev_state acc) →
  connect_withdrawal_bundle_failed h m6id acc = Ok acc' →
  peg_view t = peg_view (ev_state acc') →
  ∃ d', disconnect_withdrawal_bundle_failed h m6id (t, d)
        = Ok (restore_peg (ev_state acc) t, d').
Proof.
  intros (i & r & Hb & Hl & Hi). unfold connect_withdrawal_bundle_failed.
  rewrite Hb. simpl. rewrite Hl. simpl. intros Hc.
  apply bind_Ok_inv in Hc as (r' & Hpush & Hc). apply expect_Ok in Hpush.
  destruct (pop_status_push _ _ _ _ Hpush Hl) as [Hpop Hv].
  destruct i as [b| |us]; simpl in Hc.
  - destruct (fold_left _ _ _) as [s1 d1] eqn:Hf.
    apply bind_Ok_inv in Hc as ([s2 d2] & Hpf & Hc).
    apply bind_Ok_inv in Hpf as (s3 & Hpf & Heq). res_inv.
    intros Ht. injection Ht as Hu Hs Hp Hlf Hbs. simpl in *.
    pose proof (sans_ledger_peg _ _ (unspend_fold_frame _ _ _ _ _ Hf)) as (Hp1 & Hl1 & Hb1).
    unfold disconnect_withdrawal_bundle_failed.
    rewrite Hbs, lookup_insert_eq. simpl. rewrite Hv. simpl. rewrite Hpop. simpl.
    pose proof Hpf as Hpf'. unfold push_failed in Hpf'. res_inv. simpl in *.
    destruct (bundle_unspend_undo _ _ _ _ _ _ t d Hi Hf Hu Hs) as [d' ->]. simpl.
    rewrite (pop_push_failed _ _ _ _ _ Hpf) by done. simpl.
    exists d'. repeat f_equal. unfold put_bundle, restore_peg. simpl.
    rewrite Hbs, Hb1, insert_insert_eq, insert_id by done.
    by rewrite Hp, Hp1, Hl1.
  - res_inv. intros Ht. injection Ht as Hu Hs Hp Hlf Hbs. simpl in *.
    unfold disconnect_withdrawal_bundle_failed.
    rewrite Hbs, lookup_insert_eq. simpl. rewrite Hv. simpl. rewrite Hpop. simpl.
    eexists. repeat f_equal. unfold put_bundle, restore_peg.
    rewrite Hbs, insert_insert_eq, insert_id by done.
    rewrite <-Hu, <-Hs, <-Hp, <-Hlf. by destruct t.
  - res_inv. intros Ht. injection Ht as Hu Hs Hp Hlf Hbs. simpl in *.
    unfold disconnect_withdrawal_bundle_failed.
    rewrite Hbs, lookup_insert_eq. simpl. rewrite Hv. simpl. rewrite Hpop. simpl.
    eexists. repeat f_equal. unfold put_bundle, restore_peg.
    rewrite Hbs, insert_insert_eq, insert_id by done.
    rewrite <-Hu, <-Hs, <-Hp, <-Hlf. by destruct t.
Qed.

(** ** Blocks of events *)

(** An event may be applied: a deposit is new, a bundle is in the state that
    the event continues. *)
Definition event_ready (h : Z) (e : BlockEvent) st : Prop :=
  match e with
  | DepositEvent o _ => utxos st !! o = None
  | BundleEvent m6id BundleSubmitted => submitted_ready h m6id st
  | BundleEvent m6id BundleConfirmed => confirmed_ready m6id st
  | BundleEvent m6id BundleFailed => failed_ready m6id st
  end.

Fixpoint events_ready (h : Z) (acc : PegAcc) (l : list (BtcBlockHash * BlockEvent)) :
    Prop :=
  match l with
  | [] => True
  | e :: l =>
      event_ready h e.2 (ev_state (peg_event acc)) ∧
      ∀ acc', connect_event h acc e = Ok acc' → events_ready h acc' l
  end.

Definition acc_state (acc : PegAcc) : State := ev_state (peg_event acc).

Lemma event_undo h acc e acc' un :
  event_ready h e.2 (acc_state acc) → connect_event h acc e = Ok acc' →
  peg_view (un_state un).1 = peg_view (acc_state acc') →
  ∃ un', disconnect_event h un e = Ok un' ∧
    (un_state un').1 = restore_peg (acc_state acc) (un_state un).1.
Proof.
  destruct e as [bh [o out|m6id s]]; simpl; intros Hready Hc Ht;
    destruct un as [[t d] dep bun]; simpl in *.
  - injection Hc as <-. injection Ht as Hu Hs Hp Hl Hb. simpl in *.
    rewrite Hu, lookup_insert_eq. simpl. eexists. split; [done|]. simpl.
    unfold restore_peg, acc_state.
    rewrite delete_insert_id, <-Hs, <-Hp, <-Hl, <-Hb by done. by destruct t.
  - apply bind_Ok_inv in Hc as (ev & Hev & [= <-]). unfold acc_state in *. simpl in *.
    assert (∃ d', disconnect_withdrawal_bundle_event h m6id s (t, d)
      = Ok (restore_peg (ev_state (peg_event acc)) t, d')) as [d' ->].
    { destruct s; simpl in *.
      - by eapply confirmed_undo.
      - by eapply failed_undo.
      - by eapply submitted_undo. }
    simpl. by eexists.
Qed.

(** C24: If every event of a block continues the status of its bundle, and every
    deposit is new, disconnecting the peg's events in reverse undoes connecting
    them: the outputs, the pending bundle, the record of failures and the
    status of every bundle are as before, and disconnecting cannot fail.  Events that
    connecting ignores because they repeat an earlier block's are not covered:
    disconnecting them panics ([confirmed_again_panics], [failed_again_panics]). *)
Theorem peg_events_undo h acc l acc' t d dep bun :
  events_ready h acc l → foldM (connect_event h) acc l = Ok acc' →
  peg_view t = peg_view (acc_state acc') →
  ∃ un, foldM (disconnect_event h) (mkUnpegAcc (t, d) dep bun) (reverse l) = Ok un ∧
    (un_state un).1 = restore_peg (acc_state acc) t.
Proof.
  intros Hready Hf Ht.
  destruct (foldM_undo (events_ready h)
    (λ acc un, (un_state un).1 = restore_peg (acc_state acc) t)
    (connect_event h) (disconnect_event h) id acc l acc' (mkUnpegAcc (t, d) dep bun))
    as (un & Hun & HR).
  - intros acc0 e k acc1 un1 [He _] Hc HR.
    destruct (event_undo h acc0 e acc1 un1) as (un' & Hd & Heq); [done|done| |].
    + by rewrite HR.
    + exists un'. split; [done|]. by rewrite Heq, HR.
  - intros acc0 e k acc1 [_ Hk] Hc. by apply Hk.
  - done.
  - done.
  - simpl. by rewrite restore_peg_same.
  - exists un. by rewrite list_fmap_id in Hun.
Qed.

(** ** The premises are decidable *)
Lemma all_unspent_iff l st :
  all_unspent l st ↔
  NoDup l.*1 ∧ Forall (λ p, utxos st !! p.1 = Some p.2 ∧ stxos st !! p.1 = None) l.
Proof.
  unfold all_unspent. rewrite Forall_forall. split; intros [Hnd H]; split; try done.
  - intros [o out]. apply H.
  - intros o out. apply (H (o, out)).
Qed.
#[export] Instance all_unspent_dec l st : Decision (all_unspent l st).
Proof.
  destruct (decide (NoDup l.*1 ∧
    Forall (λ p, utxos st !! p.1 = Some p.2 ∧ stxos st !! p.1 = None) l));
    [left|right]; abstract (by rewrite all_unspent_iff).
Defined.

Lemma all_spent_iff m6id l st :
  all_spent m6id l st ↔
  NoDup l.*1 ∧ Forall (λ p, utxos st !! p.1 = None ∧
    stxos st !! p.1 = Some (mkSpentOutput p.2 (InWithdrawal m6id))) l.
Proof.
  unfold all_spent. rewrite Forall_forall. split; intros [Hnd H]; split; try done.
  - intros [o out]. apply H.
  - intros o out. apply (H (o, out)).
Qed.
#[export] Instance all_spent_dec m6id l st : Decision (all_spent m6id l st).
Proof.
  destruct (decide (NoDup l.*1 ∧ Forall (λ p, utxos st !! p.1 = None ∧
    stxos st !! p.1 = Some (mkSpentOutput p.2 (InWithdrawal m6id))) l));
    [left|right]; abstract (by rewrite all_spent_iff).
Defined.

#[export] Instance submitted_ready_dec h m6id st : Decision (submitted_ready h m6id st).
Proof.
  assert (Decision (∀ i r, withdrawal_bundles st !! m6id = Some (i, r) →
    stamp_height (latest r) < h)) as Hd.
  { destruct (withdrawal_bundles st !! m6id) as [[i r]|]; [|by left].
    destruct (decide (stamp_height (latest r) < h)); [left|right]; (abstract naive_solver). }
  unfold submitted_ready. destruct (pending_withdrawal_bundle st) as [[b bh]|]; [|done].
  destruct (bool_decide (compute_m6id b = m6id)); [|done].
  assert (Decision (withdrawal_bundles st !! m6id = None)) as Hn.
  { destruct (withdrawal_bundles st !! m6id); [by right|by left]. }
  apply _.
Defined.

#[export] Instance failed_ready_dec m6id st : Decision (failed_ready m6id st).
Proof.
  unfold failed_ready.
  destruct (withdrawal_bundles st !! m6id) as [[i r]|]; [|right; (abstract naive_solver)].
  destruct (decide (value (latest r) = BundleSubmitted)); [|right; (abstract naive_solver)].
  destruct i as [b| |].
  - destruct (decide (all_spent m6id (spend_list b) st)); [left|right]; (abstract naive_solver).
  - left. (abstract naive_solver).
  - left. (abstract naive_solver).
Defined.

#[export] Instance confirmed_ready_dec m6id st : Decision (confirmed_ready m6id st).
Proof.
  unfold confirmed_ready.
  destruct (withdrawal_bundles st !! m6id) as [[i r]|]; [|right; (abstract naive_solver)].
  destruct (decide (value (latest r) = BundleSubmitted)); [|right; (abstract naive_solver)].
  destruct i as [b| |]; [left; (abstract naive_solver)| |right; (abstract naive_solver)].
  destruct (decide (map_Forall (λ o _, stxos st !! o = None) (utxos st))) as [Hd|Hd].
  - left. abstract (eexists _, _; split_and!; [done|done|]; intros o [out Ho];
      by apply (Hd o out)).
  - right. abstract (intros (i & r' & [= <- <-] & _ & H); apply Hd; intros o out Ho;
      apply H; by eexists).
Defined.

#[export] Instance event_ready_dec h e st : Decision (event_ready h e st).
Proof. destruct e as [o out|m6id []]; simpl; apply _. Defined.

#[export] Instance events_ready_dec h acc l : Decision (events_ready h acc l).
Proof.
  revert acc; induction l as [|e l IH]; intros acc; simpl; [left; abstract done|].
  destruct (decide (event_ready h e.2 (ev_state (peg_event acc)))); [|right; abstract tauto].
  destruct (connect_event h acc e) as [acc'| |] eqn:He; [|left; (abstract naive_solver)..].
  destruct (IH acc'); [left|right]; (abstract naive_solver).
Defined.
End PegProps.
