(* ===== verification/Expiry.v ===== *)
(** Expiry of swaps at a block height, and its reversal when the block is
    disconnected (lib/state/two_way_peg_data.rs,
    [process_coinshift_transactions] and [disconnect]). *)
From S2P Require Import Prelude Bytes SwapTypes TxTypes Externals Hex.
From S2P Require Import Accumulator BlockTypes Rollback Bundle StateDb SwapRules.
From S2P Require Import Auth Block BlockSpec BlockProps BlockConnect Ledger Peg.
From S2P Require Import Monitor.

Section Expiry.
Context {T : ExtTypes} {X : ExtFuns}.
Implicit Types (st : State) (s : Swap).

(** Every swap record decodes, and is stored under its identifier. *)
Definition swaps_sound st : Prop :=
  ∀ id e, swaps st !! id = Some e → ∃ s, e = Decodes s ∧ swap_id s = id.

(** ** Loading all swaps *)
Definition decoded (p : SwapId * SwapEntry) : option Swap :=
  match p.2 with
  | Decodes s => Some s
  | Corrupted => None
  end.

Lemma load_pass_sound l n c :
  (∀ p, p ∈ l → is_Some (decoded p)) → load_pass l n c = (omap decoded l, c).
Proof.
  revert n; induction l as [|[id [s|]] l IH]; intros n Hl; simpl; [done| |].
  - rewrite IH; [done|]. intros p Hp. apply Hl. by right.
  - destruct (Hl (id, Corrupted)) as [? [=]]. by left.
Qed.

Lemma load_all_swaps_sound st :
  swaps_sound st → load_all_swaps st = omap decoded (swap_entries st).
Proof.
  intros Hs. unfold load_all_swaps. rewrite load_pass_sound; [done|].
  intros [id e] Hp. apply elem_of_entries_by in Hp.
  destruct (Hs id e Hp) as (s & -> & _). by eexists.
Qed.

Lemma load_all_swaps_elem st s :
  swaps_sound st → s ∈ load_all_swaps st ↔ get_swap st (swap_id s) = Some s.
Proof.
  intros Hs. rewrite load_all_swaps_sound by done.
  rewrite list_elem_of_omap. unfold get_swap. split.
  - intros ([id e] & Hin & Hd). apply elem_of_entries_by in Hin.
    destruct (Hs id e Hin) as (s' & -> & Hid). unfold decoded in Hd. simplify_eq/=. by rewrite Hin.
  - intros Hg. destruct (swaps st !! swap_id s) as [[s'|]|] eqn:He; simplify_eq.
    exists (swap_id s, Decodes s). split; [|done]. by apply elem_of_entries_by.
Qed.

Lemma load_all_swaps_NoDup st :
  swaps_sound st → NoDup (swap_id <$> load_all_swaps st).
Proof.
  intros Hs. rewrite load_all_swaps_sound by done.
  assert (∀ l, (∀ p, p ∈ l → swaps st !! p.1 = Some p.2) →
    swap_id <$> omap decoded l = l.*1) as H.
  { induction l as [|[id e] l IH]; intros Hl; [done|]. csimpl.
    destruct (Hs id e) as (s & -> & Hid); [apply (Hl (id, e)); by left|].
    csimpl. rewrite Hid, IH; [done|]. intros p Hp. apply Hl. by right. }
  unfold swap_entries. rewrite H; [apply NoDup_entries_by|].
  intros [id e] Hp. by apply elem_of_entries_by in Hp.
Qed.

(** ** The loop *)

(** The swaps of [l] that the loop expires at height [h]. *)
Definition expiring (h : Z) (l : list Swap) : list Swap :=
  filter (λ s, is_open_state (state s) && expired_at s h = true) l.

Lemma query_swap_id st m s bh h s' :
  query_and_update_swap st m s bh h = Some s' → swap_id s' = swap_id s.
Proof.
  unfold query_and_update_swap. intros H.
  repeat (case_match || (apply bind_Some in H as (? & ? & H))); by simplify_eq/=.
Qed.

Lemma locks_unlock_all os st o :
  locked_swap_outputs (unlock_all os st) !! o
  = if bool_decide (o ∈ os) then None else locked_swap_outputs st !! o.
Proof.
  revert st; induction os as [|o' os IH]; intros st; [done|].
  change (unlock_all (o' :: os) st) with (unlock_all os (unlock_output_from_swap o' st)).
  rewrite IH. simpl. destruct (decide (o ∈ os)).
  { by rewrite !bool_decide_true by set_solver. }
  rewrite bool_decide_false by done. destruct (decide (o = o')) as [->|].
  - by rewrite bool_decide_true, lookup_delete_eq by set_solver.
  - by rewrite bool_decide_false, lookup_delete_ne by set_solver.
Qed.

Lemma locks_lock_all id os st o :
  locked_swap_outputs (lock_all id os st) !! o
  = if bool_decide (o ∈ os) then Some id else locked_swap_outputs st !! o.
Proof.
  revert st; induction os as [|o' os IH]; intros st; [done|].
  change (lock_all id (o' :: os) st) with (lock_all id os (lock_output_to_swap o' id st)).
  rewrite IH. simpl. destruct (decide (o ∈ os)).
  { by rewrite !bool_decide_true by set_solver. }
  rewrite bool_decide_false by done. destruct (decide (o = o')) as [->|].
  - by rewrite bool_decide_true, lookup_insert_eq by set_solver.
  - by rewrite bool_decide_false, lookup_insert_ne by set_solver.
Qed.

Lemma outputs_locked_to_elem st id o :
  o ∈ outputs_locked_to st id ↔ is_output_locked_to_swap st o = Some id.
Proof.
  unfold outputs_locked_to, locked_outputs, is_output_locked_to_swap.
  rewrite list_elem_of_fmap. split.
  - intros ([o' id'] & -> & [Hid Hin]%list_elem_of_filter).
    apply elem_of_entries_by in Hin. simpl in *. by subst.
  - intros Hl. exists (o, id). split; [done|]. apply list_elem_of_filter.
    split; [done|]. by apply elem_of_entries_by.
Qed.

Lemma save_swap_locks swap st st' :
  save_swap swap st = Ok st' → locked_swap_outputs st' = locked_swap_outputs st.
Proof. unfold save_swap. intros H. by res_inv. Qed.

Lemma save_swap_expired swap st st' :
  save_swap swap st = Ok st' → expired_swaps st' = expired_swaps st.
Proof. unfold save_swap. intros H. by res_inv. Qed.

(** The reversal recorded for a swap. *)
Definition reversal_of st0 s (r : ExpiredSwapReversal) : Prop :=
  r.1.1 = swap_id s ∧ r.1.2 = state s ∧
  ∀ o, o ∈ r.2 ↔ is_output_locked_to_swap st0 o = Some (swap_id s).

(** What holds after the loop has run over [done] from [st0]. *)
Record loop_inv (h : Z) st0 (done : list Swap) (acc : State * list ExpiredSwapReversal) :
    Prop := {
  li_locks : ∀ o,
    is_output_locked_to_swap acc.1 o
    = match is_output_locked_to_swap st0 o with
      | Some id =>
          if bool_decide (id ∈ swap_id <$> expiring h done) then None else Some id
      | None => None
      end;
  li_rev : Forall2 (reversal_of st0) (expiring h done) acc.2;
  li_swaps : ∀ s, s ∈ expiring h done →
    get_swap acc.1 (swap_id s) = Some (with_state Cancelled s);
  li_expired : expired_swaps acc.1 = expired_swaps st0;
}.

Lemma expiring_snoc h l s :
  expiring h (l ++ [s])
  = expiring h l ++ (if is_open_state (state s) && expired_at s h then [s] else []).
Proof.
  unfold expiring. rewrite filter_app. f_equal. rewrite filter_cons, filter_nil.
  by destruct (_ && _).
Qed.

Lemma expiring_ids h l id : id ∈ swap_id <$> expiring h l → id ∈ swap_id <$> l.
Proof.
  intros (s & -> & Hs)%list_elem_of_fmap. apply list_elem_of_fmap_2.
  by apply list_elem_of_filter in Hs as [_ ?].
Qed.

Lemma process_swap_inv l1 h bh st0 done acc s acc' :
  loop_inv h st0 done acc → swap_id s ∉ swap_id <$> done →
  process_swap l1 h bh acc s = Ok acc' → loop_inv h st0 (done ++ [s]) acc'.
Proof.
  intros [Hl Hr Hs He] Hni Hp. unfold process_swap in Hp.
  assert (∀ s', s' ∈ expiring h done → swap_id s' ≠ swap_id s) as Hne.
  { intros s' Hs' Heq. apply Hni. rewrite <-Heq. apply (expiring_ids h).
    by apply list_elem_of_fmap_2. }
  destruct (is_open_state (state s)) eqn:Hopen; simpl in Hp.
  2:{ simplify_eq. split; rewrite ?expiring_snoc, ?Hopen; simpl; rewrite ?app_nil_r; done. }
  destruct acc as [st rev]. simpl in *. destruct (expired_at s h) eqn:Hex.
  - unfold expire_swap in Hp. res_inv.
    pose proof (save_swap_locks _ _ _ Ha) as Hlk.
    split; rewrite ?expiring_snoc, ?Hopen, ?Hex; simpl.
    + intros o. unfold is_output_locked_to_swap at 1. rewrite Hlk, locks_unlock_all.
      rewrite fmap_app. simpl.
      change (locked_swap_outputs st !! o) with (is_output_locked_to_swap st o).
      rewrite Hl.
      destruct (decide (o ∈ outputs_locked_to st (swap_id s))) as [Hin|Hin].
      * rewrite bool_decide_true by done.
        apply outputs_locked_to_elem in Hin. rewrite Hl in Hin.
        destruct (is_output_locked_to_swap st0 o) as [id|]; [|done].
        case_bool_decide; simplify_eq. by rewrite bool_decide_true by set_solver.
      * rewrite bool_decide_false by done. rewrite outputs_locked_to_elem, Hl in Hin.
        destruct (is_output_locked_to_swap st0 o) as [id|]; [|done].
        repeat case_bool_decide; try done; set_solver.
    + apply Forall2_app; [done|]. constructor; [|constructor].
      split_and!; [done..|]. intros o. simpl. rewrite outputs_locked_to_elem, Hl.
      destruct (is_output_locked_to_swap st0 o) as [id|]; [|done].
      case_bool_decide as Hid; [|done]. split; [done|]. intros [= ->].
      exfalso. apply Hni. by apply (expiring_ids h).
    + intros s' Hs'. rewrite (get_swap_save _ _ _ _ Ha). simpl.
      apply elem_of_app in Hs' as [Hs'|Hs'].
      * rewrite bool_decide_false by (by apply Hne).
        rewrite (get_swap_ext st) by apply swaps_unlock_all. by apply Hs.
      * apply list_elem_of_singleton in Hs' as ->. by rewrite bool_decide_true.
    + rewrite (save_swap_expired _ _ _ Ha), <-He.
      by apply (fold_left_proj expired_swaps).
  - assert (∀ st', (st' = st ∨ ∃ s', save_swap s' st = Ok st' ∧ swap_id s' = swap_id s) →
      loop_inv h st0 (done ++ [s]) (st', rev)) as Hkey.
    { intros st' Hst'.
      split; rewrite ?expiring_snoc, ?Hopen, ?Hex; simpl; rewrite ?app_nil_r.
      + intros o. rewrite <-Hl. unfold is_output_locked_to_swap.
        destruct Hst' as [->|(s' & Hsv & _)]; [done|].
        by rewrite (save_swap_locks _ _ _ Hsv).
      + done.
      + intros s' Hs'. rewrite <-Hs by done.
        destruct Hst' as [->|(s2 & Hsv & Hid)]; [done|].
        rewrite (get_swap_save _ _ _ _ Hsv), Hid, bool_decide_false by (by apply Hne).
        done.
      + rewrite <-He. destruct Hst' as [->|(s' & Hsv & _)]; [done|].
        apply (save_swap_expired _ _ _ Hsv). }
    destruct (l1 s) as [m|]; [|simplify_eq; apply Hkey; by left].
    destruct (query_and_update_swap st m s bh h) as [s'|] eqn:Hq;
      [|simplify_eq; apply Hkey; by left].
    res_inv. apply Hkey. right. exists s'. split; [done|].
    by eapply query_swap_id.
Qed.

Lemma process_loop_inv l1 h bh st0 l acc :
  NoDup (swap_id <$> l) →
  foldM (process_swap l1 h bh) (st0, []) l = Ok acc → loop_inv h st0 l acc.
Proof.
  revert acc; induction l as [|s l IH] using rev_ind; intros acc Hnd Hf.
  - simpl in Hf. simplify_eq. split; simpl; [|constructor|set_solver|done].
    intros o. by destruct (is_output_locked_to_swap st0 o).
  - rewrite foldM_app in Hf. apply bind_Ok_inv in Hf as (acc1 & H1 & Hf).
    simpl in Hf. apply bind_Ok_inv in Hf as (acc2 & H2 & Hf). simplify_eq.
    rewrite fmap_app in Hnd. apply NoDup_app in Hnd as (Hnd & Hni & _).
    eapply process_swap_inv; [by apply IH| |done].
    intros Hin. apply (Hni _ Hin). set_solver.
Qed.

(** ** The reversal *)
Lemma with_state_back s : with_state (state s) (with_state Cancelled s) = s.
Proof. by destruct s. Qed.

Lemma restore_loop st0 es rev t :
  (∀ swap, bincode_swap_ok swap = true) →
  Forall2 (reversal_of st0) es rev → NoDup (swap_id <$> es) →
  (∀ s, s ∈ es → get_swap t (swap_id s) = Some (with_state Cancelled s)) →
  ∃ t', foldM restore_expired t rev = Ok t' ∧
    (∀ o, is_output_locked_to_swap t' o
          = match is_output_locked_to_swap st0 o with
            | Some id => if bool_decide (id ∈ swap_id <$> es) then Some id
                         else is_output_locked_to_swap t o
            | None => is_output_locked_to_swap t o
            end) ∧
    (∀ s, s ∈ es → get_swap t' (swap_id s) = Some s) ∧
    (∀ id, id ∉ swap_id <$> es → get_swap t' id = get_swap t id) ∧
    expired_swaps t' = expired_swaps t.
Proof.
  intros Hbin Hrev. revert t.
  induction Hrev as [|s [[id p] os] es rev (Hid & Hst & Hos) _ IH]; intros t Hnd Hc.
  { exists t. split_and!; try done; [|set_solver].
    intros o. by destruct (is_output_locked_to_swap st0 o). }
  simpl in Hid, Hst, Hos. subst id p. csimpl in Hnd.
  apply NoDup_cons in Hnd as [Hni Hnd].
  destruct (save_swap_total s t) as [t1 Ht1]; [done|].
  assert (restore_expired t (swap_id s, state s, os) = Ok (lock_all (swap_id s) os t1))
    as Hr.
  { unfold restore_expired. rewrite (Hc s) by set_solver.
    rewrite with_state_back, Ht1. done. }
  assert (∀ id, get_swap (lock_all (swap_id s) os t1) id = get_swap t1 id) as Hg.
  { intros id. apply get_swap_ext, swaps_lock_all. }
  destruct (IH (lock_all (swap_id s) os t1)) as (t' & Hf & H1 & H2 & H3 & H4); [done| |].
  { intros s' Hs'. rewrite Hg, (get_swap_save _ _ _ _ Ht1), bool_decide_false.
    - apply Hc. set_solver.
    - intros Heq. apply Hni. rewrite <-Heq. by apply list_elem_of_fmap_2. }
  exists t'. split_and!.
  - cbn [foldM]. rewrite Hr. exact Hf.
  - intros o. rewrite H1.
    assert (is_output_locked_to_swap (lock_all (swap_id s) os t1) o
      = if bool_decide (o ∈ os) then Some (swap_id s) else is_output_locked_to_swap t o)
      as ->.
    { unfold is_output_locked_to_swap.
      by rewrite locks_lock_all, (save_swap_locks _ _ _ Ht1). }
    specialize (Hos o).
    destruct (is_output_locked_to_swap st0 o) as [id|];
      [|by rewrite (bool_decide_false (o ∈ os)) by (rewrite Hos; congruence)].
    destruct (decide (id = swap_id s)) as [->|Hne].
    + rewrite (bool_decide_true (o ∈ os)) by (by apply Hos).
      rewrite (bool_decide_true (swap_id s ∈ swap_id <$> s :: es)) by (csimpl; set_solver).
      by destruct (bool_decide _).
    + rewrite (bool_decide_false (o ∈ os)) by (rewrite Hos; congruence).
      rewrite (bool_decide_ext (id ∈ swap_id <$> s :: es) (id ∈ swap_id <$> es));
        [done|csimpl; set_solver].
  - intros s' [->|Hs']%elem_of_cons; [|by apply H2].
    rewrite H3, Hg, (get_swap_save _ _ _ _ Ht1) by done. by rewrite bool_decide_true.
  - intros id Hin. csimpl in Hin. rewrite H3, Hg, (get_swap_save _ _ _ _ Ht1) by set_solver.
    rewrite bool_decide_false by set_solver. done.
  - rewrite H4. trans (expired_swaps t1).
    + by apply (fold_left_proj expired_swaps).
    + by eapply save_swap_expired.
Qed.

(** A swap that expires at height [h]. *)
Definition expires_now st (h : Z) s : Prop :=
  get_swap st (swap_id s) = Some s ∧ is_open_state (state s) && expired_at s h = true.

Lemma expiring_elem st h s :
  swaps_sound st → s ∈ expiring h (load_all_swaps st) ↔ expires_now st h s.
Proof.
  intros Hs. unfold expiring, expires_now.
  rewrite list_elem_of_filter, load_all_swaps_elem by done. tauto.
Qed.

Lemma expiring_NoDup st h :
  swaps_sound st → NoDup (swap_id <$> expiring h (load_all_swaps st)).
Proof.
  intros Hs. pose proof (load_all_swaps_NoDup st Hs) as Hnd. unfold expiring.
  induction (load_all_swaps st) as [|s l IH]; [constructor|].
  csimpl in Hnd. apply NoDup_cons in Hnd as [Hni Hnd]. rewrite filter_cons.
  case_decide; [|by apply IH]. csimpl. apply NoDup_cons. split; [|by apply IH].
  intros Hin. apply Hni. by apply (expiring_ids h).
Qed.

(** C23: Connecting a block cancels every open swap whose expiry height it
    reaches and unlocks all of its outputs, whatever the L1 nodes answer;
    disconnecting the block restores every expired swap as it was, and exactly
    the output locks there were before. *)
Theorem expiry_restored st l1 h bh st' :
  (∀ swap, bincode_swap_ok swap = true) → swaps_sound st →
  expired_swaps st !! h = None →
  process_coinshift_transactions l1 h bh st = Ok st' →
  (∀ s, expires_now st h s →
     get_swap st' (swap_id s) = Some (with_state Cancelled s) ∧
     ∀ o, is_output_locked_to_swap st' o ≠ Some (swap_id s)) ∧
  ∃ st'', restore_expiries h st' = Ok st'' ∧
    locked_swap_outputs st'' = locked_swap_outputs st ∧
    expired_swaps st'' = expired_swaps st ∧
    (∀ s, expires_now st h s → get_swap st'' (swap_id s) = Some s) ∧
    (∀ id, (∀ s, expires_now st h s → swap_id s ≠ id) →
       get_swap st'' id = get_swap st' id).
Proof.
  intros Hbin Hsound Hfree Hp. unfold process_coinshift_transactions in Hp.
  apply bind_Ok_inv in Hp as ([st1 rev] & Hf & Hp).
  apply process_loop_inv in Hf as [Hl Hr Hs He]; [|by apply load_all_swaps_NoDup].
  simpl in *. set (es := expiring h (load_all_swaps st)) in *.
  assert (NoDup (swap_id <$> es)) as Hnd by (by apply expiring_NoDup).
  assert (∀ s, s ∈ es ↔ expires_now st h s) as Hes by (intros; by apply expiring_elem).
  assert (swaps st' = swaps st1 ∧ locked_swap_outputs st' = locked_swap_outputs st1 ∧
    expired_swaps st' = if bool_decide (rev = []) then expired_swaps st
                        else <[h := rev]> (expired_swaps st)) as (Hsw & Hlk & Hexp).
  { rewrite <-He. destruct (bool_decide (rev = [])); by simplify_eq. }
  split.
  - intros s Hnow%Hes. split.
    + rewrite (get_swap_ext st1) by done. by apply Hs.
    + intros o. unfold is_output_locked_to_swap. rewrite Hlk.
      change (is_output_locked_to_swap st1 o ≠ Some (swap_id s)). rewrite Hl.
      destruct (is_output_locked_to_swap st o) as [id|]; [|done].
      destruct (decide (id ∈ swap_id <$> es)) as [Hid|Hid].
      { by rewrite bool_decide_true. }
      rewrite bool_decide_false by done. intros [= ->]. apply Hid.
      by apply list_elem_of_fmap_2.
  - unfold restore_expiries. rewrite Hexp. destruct (decide (rev = [])) as [->|Hne].
    + rewrite bool_decide_true by done. rewrite Hfree. apply Forall2_nil_inv_r in Hr.
      exists st'. split; [done|]. rewrite Hr in *. split_and!.
      * apply map_eq. intros o. rewrite Hlk. specialize (Hl o).
        unfold is_output_locked_to_swap in Hl. rewrite Hl.
        by destruct (locked_swap_outputs st !! o).
      * by rewrite Hexp, bool_decide_true.
      * intros s Hnow%Hes. set_solver.
      * done.
    + rewrite bool_decide_false by done. rewrite lookup_insert_eq.
      destruct (restore_loop st es rev st') as (t' & -> & H1 & H2 & H3 & H4); [done..| |].
      { intros s Hin. rewrite (get_swap_ext st1) by done. by apply Hs. }
      simpl. eexists. split; [done|]. simpl. split_and!.
      * apply map_eq. intros o. specialize (H1 o). specialize (Hl o).
        unfold is_output_locked_to_swap in H1, Hl. rewrite H1, Hlk, Hl.
        destruct (locked_swap_outputs st !! o) as [id|]; [|done]. by case_bool_decide.
      * rewrite H4, Hexp, bool_decide_false by done. by rewrite delete_insert_id.
      * intros s Hnow%Hes. by apply H2.
      * intros id Hid. apply H3. intros (s & -> & Hin)%list_elem_of_fmap.
        by apply (Hid s); [apply Hes|].
Qed.
End Expiry.
