(* ===== verification/SwapMachine.v ===== *)
(** The life of a swap outside of blocks: what L1 monitoring, the user interface
    and expiry may do to the swaps of a state (lib/state/mod.rs,
    lib/state/two_way_peg_data.rs). *)
From S2P Require Import Prelude Bytes SwapTypes TxTypes Externals Hex.
From S2P Require Import Accumulator BlockTypes Rollback Bundle StateDb SwapRules.
From S2P Require Import Auth Block BlockSpec BlockProps BlockConnect Ledger Peg.
From S2P Require Import F64 ParentRpc Monitor Expiry.

(** The terms of a swap, fixed when it is created. *)
Definition terms (s : Swap) :=
  (swap_id s, direction s, parent_chain s, required_confirmations s, l2_recipient s,
   l2_amount s, l1_recipient_address s, l1_amount s,
   (created_at_height s, expires_at_height s, l2_creator_address s)).

(** A waiting swap has some, but not enough, confirmations. *)
Definition swap_wf (s : Swap) : Prop :=
  match state s with
  | WaitingConfirmations c r => 0 < c < r ∧ r = required_confirmations s
  | _ => True
  end.

(** The moves of the state of a swap with [r] required confirmations. *)
Inductive moves (r : Z) : SwapState → SwapState → Prop :=
| mv_detected c : 0 < c < r → moves r Pending (WaitingConfirmations c r)
| mv_confirming c c' : c < c' < r →
    moves r (WaitingConfirmations c r) (WaitingConfirmations c' r)
| mv_ready s c : is_open_state s = true → r ≤ c → moves r s ReadyToClaim
| mv_cancelled s : is_open_state s = true → moves r s Cancelled.

Lemma moves_open r p p' : moves r p p' → is_open_state p = true.
Proof. by destruct 1. Qed.

(** A swap that waits under the all-zero transaction identifier, which monitoring takes
    for none, starts to wait anew. *)
Definition restarts (s s' : Swap) : Prop :=
  l1_txid_unset (l1_txid s) = true ∧ ∃ c c', 0 < c' < required_confirmations s ∧
    state s = WaitingConfirmations c (required_confirmations s) ∧
    state s' = WaitingConfirmations c' (required_confirmations s).

Definition transition (s s' : Swap) : Prop :=
  terms s' = terms s ∧
  (moves (required_confirmations s) (state s) (state s') ∨ restarts s s').

Lemma transition_open s s' : transition s s' → is_open_state (state s) = true.
Proof. intros [_ [Hm|(_ & c & c' & _ & -> & _)]]; [by eapply moves_open|done]. Qed.

Section SwapMachine.
Context {T : ExtTypes} {X : ExtFuns}.
Implicit Types (st : State) (s : Swap).

(** The numbers of confirmations that the L1 nodes report are natural ([u32]). *)
Definition l1_counts (l1 : Swap → L1Answer) : Prop :=
  ∀ s m p, l1 s = Some (Some m) → p ∈ m → 0 ≤ ti_confirmations p.2.

(** What changes swaps outside of blocks; a number of confirmations is a [u32]. *)
Inductive node_step : State → State → Prop :=
| ns_l1_txid st st' id t c l1c l2c bh h :
    0 ≤ c → StateDb.update_swap_l1_txid id t c l1c l2c bh h st = Ok st' → node_step st st'
| ns_confirmations st st' id c bh h :
    update_swap_confirmations id c bh h st = Ok st' → node_step st st'
| ns_cancel st st' id who :
    cancel_swap id who st = Ok st' → node_step st st'
| ns_process st st' l1 h bh :
    l1_counts l1 →
    process_coinshift_transactions l1 h bh st = Ok st' → node_step st st'.

(** Every swap is well-formed and under its own identifier. *)
Definition swaps_wf st : Prop :=
  swaps_sound st ∧ ∀ id s, get_swap st id = Some s → swap_wf s.

Definition evolves st st' : Prop :=
  ∀ id, match get_swap st id, get_swap st' id with
        | Some s, Some s' => s' = s ∨ transition s s'
        | None, None => True
        | _, _ => False
        end.

Lemma evolves_same st st' : (∀ id, get_swap st' id = get_swap st id) → evolves st st'.
Proof. intros H id. rewrite H. destruct (get_swap st id); auto. Qed.

Lemma sound_get st id s : swaps_sound st → get_swap st id = Some s → swap_id s = id.
Proof.
  intros Hs Hg. unfold get_swap in Hg.
  destruct (swaps st !! id) as [e|] eqn:He; [|done].
  destruct (Hs id e He) as (s' & -> & Hid). by simplify_eq.
Qed.

Lemma transition_id s s' : transition s s' → swap_id s' = swap_id s.
Proof. intros [Ht _]. unfold terms in Ht. congruence. Qed.

(** Saving one transition of one swap. *)
Lemma save_transition st st1 st' s s' :
  swaps_wf st → swaps st1 = swaps st → get_swap st (swap_id s) = Some s →
  transition s s' → swap_wf s' → save_swap s' st1 = Ok st' →
  swaps_wf st' ∧ evolves st st' ∧
  (∀ id, id ≠ swap_id s → get_swap st' id = get_swap st id).
Proof.
  intros [Hsound Hwf] Heq Hg Htr Hwf' Hsv.
  pose proof (transition_id _ _ Htr) as Hid.
  assert (∀ id, get_swap st' id
    = if bool_decide (id = swap_id s) then Some s' else get_swap st id) as Hget.
  { intros id. rewrite (get_swap_save _ _ _ _ Hsv), Hid.
    by rewrite (get_swap_ext _ _ id Heq). }
  split_and!.
  - split.
    + intros id e He. unfold save_swap in Hsv. res_inv. simpl in He.
      destruct (decide (id = swap_id s')) as [->|Hne].
      * rewrite lookup_insert_eq in He. simplify_eq. by eexists.
      * rewrite lookup_insert_ne, lookup_delete_ne, Heq in He by done. by apply Hsound.
    + intros id x Hx. rewrite Hget in Hx. case_bool_decide; [by simplify_eq|].
      by eapply Hwf.
  - intros id. rewrite Hget. case_bool_decide as Hc.
    + subst. rewrite Hg. by right.
    + destruct (get_swap st id); auto.
  - intros id Hne. by rewrite Hget, bool_decide_false.
Qed.

(** The new state of a swap whose transaction has [c] confirmations. *)
Lemma confirmed_moves s c (t : SwapTxId) :
  swap_wf s → is_open_state (state s) = true → 0 < c →
  (∀ c0 r, state s = WaitingConfirmations c0 r → c0 < c) →
  moves (required_confirmations s) (state s)
    (confirmed_state c (required_confirmations s)) ∧
  match confirmed_state c (required_confirmations s) with
  | WaitingConfirmations c r => 0 < c < r ∧ r = required_confirmations s
  | _ => True
  end.
Proof.
  intros Hwf Hopen Hc Hlt. unfold confirmed_state, swap_wf in *.
  destruct (Z.leb_spec (required_confirmations s) c); [by split; [eapply mv_ready|]|].
  split; [|lia].
  destruct (state s) as [|c0 r| | |] eqn:Hst; try done.
  - constructor. lia.
  - destruct Hwf as (? & ->). constructor. specialize (Hlt c0 _ eq_refl). lia.
Qed.

(** ** Each operation *)
Lemma l1_txid_step st st' id t c l1c l2c bh h :
  swaps_wf st → 0 ≤ c →
  StateDb.update_swap_l1_txid id t c l1c l2c bh h st = Ok st' →
  swaps_wf st' ∧ evolves st st'.
Proof.
  intros Hwf Hc Hop. unfold StateDb.update_swap_l1_txid in Hop.
  apply bind_Ok_inv in Hop as (s & Hg & Hop). apply ok_or_Ok in Hg.
  apply bind_Ok_inv in Hop as ([] & Hst & Hop).
  apply ensure_Ok, bool_decide_eq_true_1 in Hst.
  apply bind_Ok_inv in Hop as ([] & Hnz & Hop).
  apply ensure_Ok, negb_true_iff, Z.eqb_neq in Hnz.
  apply bind_Ok_inv in Hop as ([] & _ & Hop).
  apply bind_Ok_inv in Hop as ([] & _ & Hop).
  pose proof (sound_get _ _ _ (proj1 Hwf) Hg) as <-.
  destruct (confirmed_moves s c t) as [Hm Hw]; [by eapply Hwf|by rewrite Hst|lia| |].
  { rewrite Hst. done. }
  match type of Hop with save_swap ?s' ?st1 = _ =>
    destruct (save_transition st st1 st' s s') as (H1 & H2 & _) end; try done.
  - split; [by destruct l1c, l2c|left]. by destruct l1c, l2c.
  - unfold swap_wf. by destruct l1c, l2c.
Qed.

Lemma confirmations_step st st' id c bh h :
  swaps_wf st → update_swap_confirmations id c bh h st = Ok st' →
  swaps_wf st' ∧ evolves st st'.
Proof.
  intros Hwf Hop. unfold update_swap_confirmations in Hop.
  apply bind_Ok_inv in Hop as (s & Hg & Hop). apply ok_or_Ok in Hg.
  destruct (state s) as [|c0 r| | |] eqn:Hst; try done.
  destruct (Z.leb_spec c c0); simplify_eq; [by split; [|apply evolves_same]|].
  pose proof (sound_get _ _ _ (proj1 Hwf) Hg) as <-.
  pose proof (proj2 Hwf _ _ Hg) as Hs.
  pose proof Hs as Hs'. unfold swap_wf in Hs'. rewrite Hst in Hs'.
  destruct Hs' as (? & ->).
  destruct (confirmed_moves s c (l1_txid s)) as [Hm Hw]; [done|by rewrite Hst|lia| |].
  { rewrite Hst. intros ? ? [= <- _]. done. }
  match type of Hop with save_swap ?s' ?st1 = _ =>
    destruct (save_transition st st1 st' s s') as (H1 & H2 & _) end; try done.
  split; [done|by left].
Qed.

Lemma cancel_step st st' id who :
  swaps_wf st → cancel_swap id who st = Ok st' → swaps_wf st' ∧ evolves st st'.
Proof.
  intros Hwf Hop. unfold cancel_swap in Hop.
  apply bind_Ok_inv in Hop as (s & Hg & Hop). apply ok_or_Ok in Hg.
  apply bind_Ok_inv in Hop as ([] & _ & Hop).
  apply bind_Ok_inv in Hop as ([] & Hst & Hop).
  apply ensure_Ok, bool_decide_eq_true_1 in Hst.
  pose proof (sound_get _ _ _ (proj1 Hwf) Hg) as <-.
  destruct (save_transition st (unlock_all_outputs_for_swap (swap_id s) st) st' s
    (with_state Cancelled s)) as (H1 & H2 & _); try done.
  - apply swaps_unlock_all.
  - split; [done|left]. constructor. by rewrite Hst.
Qed.

(** The same from a waiting swap without an identifier. *)
Lemma confirmed_restarts s c :
  swap_wf s → is_open_state (state s) = true → 0 < c → l1_txid_unset (l1_txid s) = true →
  ∀ s', state s' = confirmed_state c (required_confirmations s) →
  moves (required_confirmations s) (state s) (state s') ∨ restarts s s'.
Proof.
  intros Hwf Hopen Hc Hun s' Hs'. unfold confirmed_state, restarts, swap_wf in *. rewrite Hs'.
  destruct (Z.leb_spec (required_confirmations s) c); [left; by eapply mv_ready|].
  destruct (state s) as [|c0 r| | |] eqn:Hst; try done; [left; by constructor|].
  destruct Hwf as [_ ->]. right. split; [done|]. exists c0, c. by split_and!.
Qed.

Lemma query_transition st m s bh h s' l1 :
  l1_counts l1 → l1 s = Some m → swap_wf s → is_open_state (state s) = true →
  query_and_update_swap st m s bh h = Some s' → transition s s' ∧ swap_wf s'.
Proof.
  intros Hl1 Hm Hwf Hopen Hq. unfold query_and_update_swap in Hq.
  destruct m as [m|]; [|done]. simpl in Hq.
  apply bind_Some in Hq as ([snd info] & Hhd & Hq).
  apply bind_Some in Hq as (t & Ht & Hq).
  apply head_Some_elem_of, list_elem_of_filter in Hhd as [Hacc Hin].
  pose proof (Hl1 s m _ Hm Hin) as Hc. simpl in Hc.
  unfold acceptable_match in Hacc. simpl in Hacc.
  apply andb_true_iff in Hacc as [Hacc _]. apply andb_true_iff in Hacc as [Hnz _].
  apply negb_true_iff, Z.eqb_neq in Hnz.
  assert (match confirmed_state (ti_confirmations info) (required_confirmations s) with
    | WaitingConfirmations c r => 0 < c < r ∧ r = required_confirmations s
    | _ => True end) as Hw.
  { unfold confirmed_state.
    destruct (Z.leb_spec (required_confirmations s) (ti_confirmations info)); [done|].
    split; [lia|done]. }
  destruct (l1_txid_unset (l1_txid s)) eqn:Hunset.
  - match type of Hq with (if ?used then _ else _) = _ => destruct used end; simplify_eq.
    split; [split; [done|]|].
    + apply (confirmed_restarts s (ti_confirmations info)); try done. lia.
    + exact Hw.
  - destruct (Z.ltb_spec (match state s with WaitingConfirmations c _ => c | _ => 0 end)
      (ti_confirmations info)) as [Hlt|]; simplify_eq.
    destruct (confirmed_moves s (ti_confirmations info) t) as [Hm' Hw'];
      [done|done|lia| |].
    { intros c0 r Hst. by rewrite Hst in Hlt. }
    split; [split; [done|by left]|]. exact Hw'.
Qed.

(** One swap of the loop. *)
Lemma process_swap_step l1 h bh st rev s acc' :
  l1_counts l1 → swaps_wf st → get_swap st (swap_id s) = Some s →
  process_swap l1 h bh (st, rev) s = Ok acc' →
  swaps_wf acc'.1 ∧ evolves st acc'.1 ∧
  (∀ id, id ≠ swap_id s → get_swap acc'.1 id = get_swap st id).
Proof.
  intros Hl1 Hwf Hg Hp. unfold process_swap in Hp.
  assert (swaps_wf st ∧ evolves st st ∧
    (∀ id, id ≠ swap_id s → get_swap st id = get_swap st id)) as Hrefl.
  { split_and!; [done|by apply evolves_same|done]. }
  destruct (is_open_state (state s)) eqn:Hopen; simpl in Hp; [|by simplify_eq].
  destruct (expired_at s h).
  - unfold expire_swap in Hp. res_inv.
    eapply (save_transition st (unlock_all (outputs_locked_to st (swap_id s)) st) _ s
      (with_state Cancelled s)); try done.
    + apply swaps_unlock_all.
    + split; [done|left]. by constructor.
  - destruct (l1 s) as [m|] eqn:Hm; [|by simplify_eq].
    destruct (query_and_update_swap st m s bh h) as [s'|] eqn:Hq; [|by simplify_eq].
    res_inv.
    destruct (query_transition _ _ _ _ _ _ _ Hl1 Hm (proj2 Hwf _ _ Hg) Hopen Hq).
    by eapply (save_transition st st _ s s').
Qed.

Lemma process_loop_step l1 h bh st0 l st rev acc' :
  l1_counts l1 → NoDup (swap_id <$> l) →
  (∀ s, s ∈ l → get_swap st (swap_id s) = Some s) →
  (∀ s, s ∈ l → get_swap st0 (swap_id s) = Some s) →
  swaps_wf st → evolves st0 st →
  foldM (process_swap l1 h bh) (st, rev) l = Ok acc' →
  swaps_wf acc'.1 ∧ evolves st0 acc'.1.
Proof.
  intros Hl1. revert st rev. induction l as [|s l IH]; intros st rev Hnd Hg Hg0 Hwf Hev Hf.
  { simpl in Hf. by simplify_eq. }
  apply bind_Ok_inv in Hf as ([st1 rev1] & H1 & Hf).
  csimpl in Hnd. apply NoDup_cons in Hnd as [Hni Hnd].
  destruct (process_swap_step _ _ _ _ _ _ _ Hl1 Hwf (Hg s ltac:(by left)) H1)
    as (Hwf1 & Hev1 & Hsame1). simpl in *.
  eapply (IH st1 rev1); [done| | |done| |done].
  - intros s' Hs'. rewrite Hsame1; [apply Hg; by right|].
    intros Heq. apply Hni. rewrite <-Heq. by apply list_elem_of_fmap_2.
  - intros s' Hs'. apply Hg0. by right.
  - intros id. destruct (decide (id = swap_id s)) as [->|Hne].
    + specialize (Hev1 (swap_id s)).
      rewrite Hg in Hev1 by (by left). by rewrite (Hg0 s) by (by left).
    + rewrite Hsame1 by done. apply Hev.
Qed.

Lemma process_step st st' l1 h bh :
  l1_counts l1 → swaps_wf st →
  process_coinshift_transactions l1 h bh st = Ok st' → swaps_wf st' ∧ evolves st st'.
Proof.
  intros Hl1 Hwf Hop. unfold process_coinshift_transactions in Hop.
  apply bind_Ok_inv in Hop as ([st1 rev] & Hf & Hop).
  eapply (process_loop_step _ _ _ st) in Hf as [Hwf1 Hev1]; [|done| | | |done|].
  - simpl in *. destruct (bool_decide (rev = [])); by simplify_eq.
  - apply load_all_swaps_NoDup, Hwf.
  - intros s Hs. by apply load_all_swaps_elem in Hs; [|apply Hwf].
  - intros s Hs. by apply load_all_swaps_elem in Hs; [|apply Hwf].
  - by apply evolves_same.
Qed.

Lemma node_step_inv st st' :
  swaps_wf st → node_step st st' → swaps_wf st' ∧ evolves st st'.
Proof.
  intros Hwf Hstep.
  destruct Hstep as [st st' id t c l1c l2c bh h Hc Hop|st st' id c bh h Hop
    |st st' id who Hop|st st' l1 h bh Hl1 Hop].
  - by eapply l1_txid_step.
  - by eapply confirmations_step.
  - by eapply cancel_step.
  - by eapply process_step.
Qed.

(** C25: Outside of blocks, a swap only moves from pending to waiting, from
    waiting to waiting with more confirmations, and from either to ready or
    cancelled; swaps that are ready, completed or cancelled do not move, none
    appears or disappears, and the terms of a swap never change.  One exception: a swap
    that waits under the all-zero L1 transaction, which the call that records a
    transaction accepts, may be set back to fewer confirmations. *)
Theorem node_step_swaps st st' :
  swaps_wf st → node_step st st' → swaps_wf st' ∧ evolves st st'.
Proof. apply node_step_inv. Qed.

(** Along any number of such operations, the terms of a swap stay what they
    were, every swap stays well-formed, and a swap that is ready, completed or
    cancelled stays exactly as it is. *)
Theorem node_steps_swaps st st' id s :
  swaps_wf st → rtc node_step st st' → get_swap st id = Some s →
  swaps_wf st' ∧
  ∃ s', get_swap st' id = Some s' ∧ terms s' = terms s ∧ swap_wf s' ∧
        (is_open_state (state s) = false → s' = s).
Proof.
  intros Hwf Hsteps. revert s Hwf.
  induction Hsteps as [st|st st1 st' Hstep _ IH]; intros s Hwf Hg.
  { split; [done|]. exists s. split_and!; try done. by eapply (proj2 Hwf). }
  destruct (node_step_inv _ _ Hwf Hstep) as [Hwf1 Hev]. specialize (Hev id).
  rewrite Hg in Hev. destruct (get_swap st1 id) as [s1|] eqn:Hg1; [|done].
  destruct (IH s1 Hwf1 eq_refl) as (Hwf' & s' & Hg' & Ht & Hw & Hfin).
  split; [done|]. exists s'. split; [done|]. destruct Hev as [->|Htr]; [done|].
  split_and!; [by rewrite Ht, (proj1 Htr)|done|]. intros Hclosed.
  exfalso. apply transition_open in Htr. congruence.
Qed.
End SwapMachine.
