(* ===== verification/L1Props.v ===== *)
(** What the L1 nodes' answers may do to swaps: a swap moves only on a payment that its
    chain's node reports. *)
From S2P Require Import Prelude Bytes SwapTypes TxTypes Externals Hex F64 ParentRpc.
From S2P Require Import Accumulator BlockTypes Rollback Bundle StateDb SwapRules.
From S2P Require Import Auth Block BlockSpec BlockProps BlockConnect Ledger Peg.
From S2P Require Import Monitor Expiry SwapMachine.

Section L1Props.
Context {T : ExtTypes} {X : ExtFuns}.
Implicit Types (st : State) (s : Swap).

(** ** A payment for a swap, as the node of its chain reports it *)
Section evidence.
Context {R : ExtRpc} {RL : ExtRpcLaws R}.
Context (rpc_node : RpcConfig → RpcNode) (get_rpc_config : ParentChainType → option RpcConfig).

Record payment (node : RpcNode) s (tx : TransactionInfo) : Prop := {
  pm_listed : ∃ txid l, listunspent node (l1_recipient_address s) = Response (Some l) None ∧
    Some txid ∈ l ∧ getrawtransaction node txid = Response (Some tx) None;
  pm_output : ∃ vout, vout ∈ ti_vout tx ∧
    btc_rpc_value_to_sats (vout_value vout) = Some (l1_amount s) ∧
    (spk_address (script_pub_key vout) = Some (l1_recipient_address s) ∨
     ∃ l, spk_addresses (script_pub_key vout) = Some l ∧ l1_recipient_address s ∈ l);
  pm_confirmed : ti_confirmations tx ≠ 0 ∧ is_Some (ti_blockheight tx) ∧
    ti_confirmations tx ≤ max_l1_tx_age_blocks (parent_chain s);
}.

Lemma pays_inv address amount vout : pays address amount vout = true →
  btc_rpc_value_to_sats (vout_value vout) = Some amount ∧
  (spk_address (script_pub_key vout) = Some address ∨
   ∃ l, spk_addresses (script_pub_key vout) = Some l ∧ address ∈ l).
Proof.
  unfold pays. destruct (btc_rpc_value_to_sats _) as [sats|]; [|done].
  intros [Ha ->%Z.eqb_eq]%andb_true_iff. split; [done|]. unfold matches_address in Ha.
  apply orb_true_iff in Ha as [Ha%bool_decide_eq_true|Ha]; [by left|right].
  destruct (spk_addresses _) as [l|]; [|done]. exists l. by apply bool_decide_eq_true in Ha.
Qed.

Lemma found_listed node address amount l sender tx :
  find_transactions_by_address_and_amount node address amount = Ok l → (sender, tx) ∈ l →
  (∃ txid us, listunspent node address = Response (Some us) None ∧ Some txid ∈ us ∧
     getrawtransaction node txid = Response (Some tx) None) ∧
  existsb (pays address amount) (ti_vout tx) = true.
Proof.
  unfold find_transactions_by_address_and_amount, list_transactions. intros H Hin. res_inv.
  apply list_elem_of_omap in Hin as (txid & Htid & Hm). unfold match_transaction in Hm.
  destruct (get_transaction node txid) as [tx'|e|] eqn:Htx; [|done..].
  destruct (existsb _ (ti_vout tx')) eqn:Hp; [|done]. injection Hm as _ <-. split; [|done].
  rewrite strings_iter_perm in Htid. apply elem_of_elements, elem_of_list_to_set in Htid.
  apply list_elem_of_omap in Htid as (o & Ho & Heq). unfold id in Heq. subst o.
  repeat match goal with Hc : call _ = Ok _ |- _ => apply call_Ok in Hc end.
  unfold get_transaction in Htx. apply call_Ok in Htx. by repeat eexists.
Qed.

(** How a swap looks after the loop has found a payment for it. *)
Definition advanced s s' (tx : TransactionInfo) : Prop :=
  terms s' = terms s ∧
  state s' = confirmed_state (ti_confirmations tx) (required_confirmations s) ∧
  if l1_txid_unset (l1_txid s) then from_hex_rpc (ti_txid tx) = Some (l1_txid s')
  else l1_txid s' = l1_txid s.

Lemma query_payment st s bh h m s' :
  l1_query rpc_node get_rpc_config s = Some m → query_and_update_swap st m s bh h = Some s' →
  ∃ config tx, get_rpc_config (parent_chain s) = Some config ∧
    payment (rpc_node config) s tx ∧ advanced s s' tx.
Proof.
  unfold l1_query. intros (config & Hc & Hm)%bind_Some Hq. injection Hm as <-.
  unfold query_and_update_swap in Hq.
  destruct (find_transactions_by_address_and_amount _ _ _) as [l|e|] eqn:Hf; [|done..].
  simpl in Hq. apply bind_Some in Hq as ([sender tx] & Hhd & Hq).
  apply bind_Some in Hq as (t & Ht & Hq). apply head_Some_elem_of, list_elem_of_filter in Hhd as [Hacc Hin].
  destruct (found_listed _ _ _ _ _ _ Hf Hin) as [Hlisted Hpays].
  unfold acceptable_match in Hacc. simpl in Hacc.
  apply andb_true_iff in Hacc as [[Hnz Hblk]%andb_true_iff Hage].
  apply negb_true_iff, Z.eqb_neq in Hnz. apply negb_true_iff, Z.ltb_ge in Hage.
  apply negb_true_iff, bool_decide_eq_false in Hblk.
  exists config, tx. split_and!; [done| |].
  - split; [done| |].
    + apply existsb_exists in Hpays as (vout & Hv & Hp). exists vout.
      split; [by apply list_elem_of_In|by apply pays_inv].
    + split_and!; [done|by apply not_eq_None_Some|done].
  - unfold advanced. destruct (l1_txid_unset (l1_txid s)).
    + by destruct (match get_swap_by_l1_txid _ _ _ with Some _ => _ | None => _ end);
        [|injection Hq as <-].
    + by destruct (_ <? _); [injection Hq as <-|].
Qed.

(** *** The loop over the swaps *)
Definition outcome (h : Z) s s' : Prop :=
  s' = s ∨
  (is_open_state (state s) = true ∧
   (expired_at s h = true ∧ s' = with_state Cancelled s ∨
    ∃ config tx, get_rpc_config (parent_chain s) = Some config ∧
      payment (rpc_node config) s tx ∧ advanced s s' tx)).

Lemma process_swap_outcome h bh acc s acc' :
  get_swap acc.1 (swap_id s) = Some s →
  process_swap (l1_query rpc_node get_rpc_config) h bh acc s = Ok acc' →
  (∃ s', get_swap acc'.1 (swap_id s) = Some s' ∧ outcome h s s') ∧
  ∀ id, id ≠ swap_id s → get_swap acc'.1 id = get_swap acc.1 id.
Proof.
  destruct acc as [st rev]. simpl. intros Hg Hp. unfold process_swap in Hp.
  assert ((∃ s', get_swap st (swap_id s) = Some s' ∧ outcome h s s') ∧
    ∀ id, id ≠ swap_id s → get_swap st id = get_swap st id) as Hsame.
  { split; [|done]. exists s. split; [done|by left]. }
  assert (∀ st1 st' s', swaps st1 = swaps st → save_swap s' st1 = Ok st' →
    swap_id s' = swap_id s → outcome h s s' →
    (∃ s', get_swap st' (swap_id s) = Some s' ∧ outcome h s s') ∧
    ∀ id, id ≠ swap_id s → get_swap st' id = get_swap st id) as Hsave.
  { intros st1 st' s' Heq Hsv Hid Ho. split.
    - exists s'. by rewrite (get_swap_save _ _ _ _ Hsv), Hid, bool_decide_true.
    - intros id Hne. rewrite (get_swap_save _ _ _ _ Hsv), Hid, bool_decide_false by done.
      by apply get_swap_ext. }
  destruct (is_open_state (state s)) eqn:Hopen; simpl in Hp; [|by simplify_eq].
  destruct (expired_at s h) eqn:Hexp.
  { unfold expire_swap in Hp. res_inv. eapply Hsave; [|done|done|].
    - apply swaps_unlock_all.
    - right. split; [done|by left]. }
  destruct (l1_query _ _ s) as [m|] eqn:Hm; [|by simplify_eq].
  destruct (query_and_update_swap st m s bh h) as [s'|] eqn:Hq; [|by simplify_eq].
  res_inv. destruct (query_payment _ _ _ _ _ _ Hm Hq) as (config & tx & ? & ? & Hadv).
  eapply Hsave; [done|done| |].
  - destruct Hadv as [Ht _]. unfold terms in Ht. congruence.
  - right. split; [done|]. right. by exists config, tx.
Qed.

Lemma process_loop_outcome h bh l acc acc' :
  NoDup (swap_id <$> l) → (∀ s, s ∈ l → get_swap acc.1 (swap_id s) = Some s) →
  foldM (process_swap (l1_query rpc_node get_rpc_config) h bh) acc l = Ok acc' →
  (∀ s, s ∈ l → ∃ s', get_swap acc'.1 (swap_id s) = Some s' ∧ outcome h s s') ∧
  ∀ id, id ∉ swap_id <$> l → get_swap acc'.1 id = get_swap acc.1 id.
Proof.
  revert acc. induction l as [|s l IH]; intros acc Hnd Hg Hf.
  { simpl in Hf. simplify_eq. split; [by intros s ?%elem_of_nil|done]. }
  apply bind_Ok_inv in Hf as (acc1 & H1 & Hf). csimpl in Hnd.
  apply NoDup_cons in Hnd as [Hni Hnd].
  destruct (process_swap_outcome _ _ _ _ _ (Hg s ltac:(by left)) H1) as [Hown Hother].
  destruct (IH acc1 Hnd) as [Hall Hrest]; [|done|].
  { intros s2 Hs2. rewrite Hother; [apply Hg; by right|].
    intros Heq. apply Hni. rewrite <-Heq. by apply list_elem_of_fmap_2. }
  csimpl. split.
  - intros s2 [->|Hs2]%elem_of_cons; [|by apply Hall]. by rewrite Hrest.
  - intros id Hid. rewrite Hrest, Hother by set_solver. done.
Qed.

(** C3: In the step that checks the swaps against the parent chains, once a block's own
    swap transactions are through, a swap changes only if it was open, and then it has
    expired and is cancelled, or the node that is configured for its chain lists a
    transaction with an output of exactly the swap's amount to the swap's address, in a
    block, confirmed and not too old: its terms are kept, its state is the one for the
    transaction's confirmations, and it gets the transaction's identifier if it had
    none. *)
Theorem swap_moves_on_payment h bh st st' id s :
  swaps_sound st →
  process_coinshift_transactions (l1_query rpc_node get_rpc_config) h bh st = Ok st' →
  get_swap st id = Some s →
  ∃ s', get_swap st' id = Some s' ∧ outcome h s s'.
Proof.
  intros Hs Hp Hg. unfold process_coinshift_transactions in Hp.
  apply bind_Ok_inv in Hp as ([st1 rev] & Hf & Hp).
  apply process_loop_outcome in Hf as [Hall _].
  - pose proof (sound_get _ _ _ Hs Hg) as <-.
    destruct (Hall s) as (s' & Hs' & Ho); [by apply load_all_swaps_elem|].
    exists s'. split; [|done]. rewrite <-Hs'. apply get_swap_ext.
    by destruct (bool_decide (rev = [])); simplify_eq.
  - by apply load_all_swaps_NoDup.
  - intros s2 Hs2. by apply load_all_swaps_elem in Hs2.
Qed.
End evidence.
End L1Props.
