(* ===== verification/L1Unique.v ===== *)
(** No transaction of a parent chain pays for two swaps, as long as swaps are created
    without a transaction: the index of swaps by their L1 transaction finds every swap
    that has one, through L1 monitoring, the user's updates, blocks and their undoing
    (lib/state/mod.rs, lib/state/two_way_peg_data.rs, lib/state/block.rs). *)
From S2P Require Import Prelude Bytes SwapTypes TxTypes Externals Hex F64 ParentRpc.
From S2P Require Import Accumulator BlockTypes Rollback Bundle StateDb SwapRules.
From S2P Require Import Auth Block BlockSpec BlockProps BlockConnect Ledger Peg.
From S2P Require Import Monitor Expiry SwapMachine.

Section L1Unique.
Context {T : ExtTypes} {X : ExtFuns}.
Implicit Types (st : State) (s : Swap).

(** ** The index *)

(** The index finds every swap with a transaction under it. *)
Definition txids_indexed st : Prop := ∀ id s, get_swap st id = Some s →
  l1_txid_unset (l1_txid s) = false →
  swaps_by_l1_txid st !! (parent_chain s, l1_txid s) = Some id.
Definition txids_inv st : Prop := swaps_sound st ∧ txids_indexed st.

Definition swap_view st := (swaps st, swaps_by_l1_txid st).
Lemma txids_inv_ext st st' : swap_view st' = swap_view st → txids_inv st → txids_inv st'.
Proof.
  intros [= Hs Hi] [Hsound Hidx]. split.
  - unfold swaps_sound. by rewrite Hs.
  - intros id s Hg. rewrite Hi. apply Hidx. by rewrite <-(get_swap_ext _ _ id Hs).
Qed.

Lemma txids_distinct st id1 id2 s1 s2 : txids_inv st →
  get_swap st id1 = Some s1 → get_swap st id2 = Some s2 →
  l1_txid_unset (l1_txid s1) = false →
  parent_chain s1 = parent_chain s2 → l1_txid s1 = l1_txid s2 → id1 = id2.
Proof.
  intros [_ Hidx] H1 H2 Hset Hc Ht.
  pose proof (Hidx _ _ H1 Hset) as Hi1. rewrite Ht in Hset. pose proof (Hidx _ _ H2 Hset) as Hi2.
  congruence.
Qed.

(** No other swap is known for the swap's transaction. *)
Definition txid_free st s : Prop := l1_txid_unset (l1_txid s) = true ∨
  ∀ s2, get_swap_by_l1_txid st (parent_chain s) (l1_txid s) = Some s2 → swap_id s2 = swap_id s.

Lemma free_stored st s s' : txids_inv st → get_swap st (swap_id s) = Some s →
  swap_id s' = swap_id s → parent_chain s' = parent_chain s → l1_txid s' = l1_txid s →
  txid_free st s'.
Proof.
  intros [_ Hidx] Hg Hid Hc Ht. unfold txid_free. rewrite Hc, Ht, Hid.
  destruct (l1_txid_unset (l1_txid s)) eqn:Hset; [by left|right]. intros s2.
  unfold get_swap_by_l1_txid. rewrite (Hidx _ _ Hg Hset). simpl. rewrite Hg. by intros [= <-].
Qed.

Lemma save_txids st st1 st' s' :
  txids_inv st → swaps st1 = swaps st → txid_free st s' →
  (∀ id2 s2, id2 ≠ swap_id s' → get_swap st id2 = Some s2 → l1_txid_unset (l1_txid s2) = false →
     swaps_by_l1_txid st1 !! (parent_chain s2, l1_txid s2) = Some id2) →
  save_swap s' st1 = Ok st' → txids_inv st'.
Proof.
  intros [Hsound Hidx] Heq Hfree Hkeep Hsv.
  assert (∀ id, get_swap st' id = if bool_decide (id = swap_id s') then Some s' else get_swap st id)
    as Hget.
  { intros id. rewrite (get_swap_save _ _ _ _ Hsv). by rewrite (get_swap_ext _ _ id Heq). }
  unfold save_swap in Hsv. res_inv. split.
  - intros id e He. simpl in He. destruct (decide (id = swap_id s')) as [->|Hne].
    + rewrite lookup_insert_eq in He. simplify_eq. by eexists.
    + rewrite lookup_insert_ne, lookup_delete_ne, Heq in He by done. by apply Hsound.
  - intros id2 s2 H2 Hset. rewrite Hget in H2. simpl. case_bool_decide as Hid.
    { injection H2 as <-. by rewrite Hid, lookup_insert_eq. }
    rewrite lookup_insert_ne; [by apply Hkeep|]. intros [= Hc Ht].
    destruct Hfree as [Hf|Hf]; [congruence|]. apply Hid.
    rewrite <-(Hf s2); [by symmetry; apply (sound_get st)|].
    unfold get_swap_by_l1_txid. rewrite Hc, Ht, (Hidx _ _ H2 Hset). exact H2.
Qed.

(** Saving on top of changes that do not touch the swaps. *)
Lemma save_txids_view st st1 st' s' :
  txids_inv st → swap_view st1 = swap_view st → txid_free st s' →
  save_swap s' st1 = Ok st' → txids_inv st'.
Proof.
  intros Hinv [= Hs Hi] Hfree. eapply save_txids; [done|done|done|].
  intros id2 s2 _ H2 Hset. rewrite Hi. by apply Hinv.
Qed.
Lemma save_stored st st1 st' s s' :
  txids_inv st → swap_view st1 = swap_view st → get_swap st (swap_id s) = Some s →
  swap_id s' = swap_id s → parent_chain s' = parent_chain s → l1_txid s' = l1_txid s →
  save_swap s' st1 = Ok st' → txids_inv st'.
Proof. intros Hinv Hv Hg Hid Hc Ht. eapply save_txids_view; [done|done|by eapply free_stored]. Qed.

(** *** Views *)
Lemma view_lock_all id os st : swap_view (lock_all id os st) = swap_view st.
Proof. by apply fold_left_proj. Qed.
Lemma view_unlock_all os st : swap_view (unlock_all os st) = swap_view st.
Proof. by apply fold_left_proj. Qed.
Lemma view_unlock_inputs id ins st : swap_view (unlock_inputs id ins st) = swap_view st.
Proof. apply fold_left_proj. intros. by case_bool_decide. Qed.
Lemma view_relock_inputs id ins st : swap_view (relock_inputs id ins st) = swap_view st.
Proof. apply fold_left_proj. intros. by case_bool_decide. Qed.
Lemma view_unlock_created id outs st : swap_view (unlock_created id outs st) = swap_view st.
Proof. apply fold_left_proj. intros. by destruct (_ && _). Qed.
Lemma view_put_utxos l st : swap_view (put_utxos l st) = swap_view st.
Proof. by apply fold_left_proj. Qed.

(** ** L1 monitoring *)
Lemma query_txids st st' m s bh h s' :
  txids_inv st → get_swap st (swap_id s) = Some s →
  query_and_update_swap st m s bh h = Some s' → save_swap s' st = Ok st' → txids_inv st'.
Proof.
  intros Hinv Hg Hq. unfold query_and_update_swap in Hq.
  destruct m as [m|]; [|done]. simpl in Hq.
  apply bind_Some in Hq as ([sender tx] & _ & Hq). apply bind_Some in Hq as (t & _ & Hq).
  destruct (l1_txid_unset (l1_txid s)).
  - destruct (get_swap_by_l1_txid st (parent_chain s) t) as [s2|] eqn:Hg2.
    + destruct (negb (bool_decide (swap_id s2 = swap_id s))) eqn:Hu; [done|].
      apply negb_false_iff, bool_decide_eq_true in Hu. injection Hq as <-.
      apply (save_txids_view st); [done|done|]. right. simpl. intros s3. rewrite Hg2. by intros [= <-].
    + injection Hq as <-. apply (save_txids_view st); [done|done|]. right. simpl. intros s3. by rewrite Hg2.
  - destruct (_ <? _); [injection Hq as <-|done]. by apply (save_stored st st _ s).
Qed.

Lemma process_swap_txids l1 h bh acc s acc' :
  txids_inv acc.1 → get_swap acc.1 (swap_id s) = Some s →
  process_swap l1 h bh acc s = Ok acc' →
  txids_inv acc'.1 ∧ ∀ id, id ≠ swap_id s → get_swap acc'.1 id = get_swap acc.1 id.
Proof.
  destruct acc as [st rev]. simpl. intros Hinv Hg Hp. unfold process_swap in Hp.
  assert (∀ st1 st' s', swaps st1 = swaps st → save_swap s' st1 = Ok st' →
    swap_id s' = swap_id s → ∀ id, id ≠ swap_id s → get_swap st' id = get_swap st id) as Hother.
  { intros st1 st' s' Heq Hsv Hid id Hne.
    rewrite (get_swap_save _ _ _ _ Hsv), Hid, bool_decide_false by done. by apply get_swap_ext. }
  destruct (negb (is_open_state (state s))); [by simplify_eq|].
  destruct (expired_at s h).
  { unfold expire_swap in Hp. res_inv. split.
    - by eapply (save_stored st _ _ s (with_state Cancelled s)); [|apply view_unlock_all|..].
    - by eapply Hother; [apply swaps_unlock_all|..]. }
  destruct (l1 s) as [m|]; [|by simplify_eq].
  destruct (query_and_update_swap st m s bh h) as [s'|] eqn:Hq; [|by simplify_eq].
  res_inv. split; [by eapply query_txids|]. eapply Hother; [done|done|]. by eapply query_swap_id.
Qed.

Lemma process_loop_txids l1 h bh l acc acc' :
  NoDup (swap_id <$> l) → (∀ s, s ∈ l → get_swap acc.1 (swap_id s) = Some s) →
  txids_inv acc.1 → foldM (process_swap l1 h bh) acc l = Ok acc' → txids_inv acc'.1.
Proof.
  revert acc. induction l as [|s l IH]; intros acc Hnd Hg Hinv Hf; [by simplify_eq/=|].
  apply bind_Ok_inv in Hf as (acc1 & H1 & Hf). csimpl in Hnd.
  apply NoDup_cons in Hnd as [Hni Hnd].
  destruct (process_swap_txids _ _ _ _ _ _ Hinv (Hg s ltac:(by left)) H1) as [Hinv1 Hother].
  apply (IH acc1 Hnd); [|done|done]. intros s2 Hs2. rewrite Hother; [apply Hg; by right|].
  intros Heq. apply Hni. rewrite <-Heq. by apply list_elem_of_fmap_2.
Qed.

Lemma process_txids l1 h bh st st' :
  txids_inv st → process_coinshift_transactions l1 h bh st = Ok st' → txids_inv st'.
Proof.
  intros Hinv Hp. unfold process_coinshift_transactions in Hp.
  apply bind_Ok_inv in Hp as ([st1 rev] & Hf & Hp).
  apply process_loop_txids in Hf.
  - by destruct (bool_decide (rev = [])); simplify_eq/=.
  - by apply load_all_swaps_NoDup, Hinv.
  - intros s Hs. by apply load_all_swaps_elem in Hs; [|apply Hinv].
  - done.
Qed.

(** ** The user's updates *)
Lemma l1_txid_txids id t c l1c l2c bh h st st' :
  txids_inv st → StateDb.update_swap_l1_txid id t c l1c l2c bh h st = Ok st' → txids_inv st'.
Proof.
  intros Hinv Hop. unfold StateDb.update_swap_l1_txid in Hop.
  apply bind_Ok_inv in Hop as (s & Hg & Hop). apply ok_or_Ok in Hg.
  apply bind_Ok_inv in Hop as ([] & _ & Hop). apply bind_Ok_inv in Hop as ([] & _ & Hop).
  apply bind_Ok_inv in Hop as ([] & _ & Hop). apply bind_Ok_inv in Hop as ([] & Hfree & Hop).
  pose proof (sound_get _ _ _ (proj1 Hinv) Hg) as Hid.
  assert (∀ s2, get_swap_by_l1_txid st (parent_chain s) t = Some s2 → swap_id s2 = id) as Hfree'.
  { intros s2 H2. rewrite H2 in Hfree. by apply ensure_Ok, bool_decide_eq_true in Hfree. }
  clear Hfree. match type of Hop with save_swap ?s' ?st1 = _ =>
    assert (swap_id s' = id ∧ parent_chain s' = parent_chain s ∧ l1_txid s' = t) as (Hid' & Hc & Ht)
      by (by destruct l1c, l2c);
    eapply (save_txids st st1 _ s'); [done|done| | |done] end.
  - right. by rewrite Hid', Hc, Ht.
  - intros id2 s2 Hne H2 Hset. rewrite Hid' in Hne. destruct Hinv as [Hsound Hidx].
    pose proof (Hidx _ _ H2 Hset) as Hi2.
    cbn [swaps_by_l1_txid].
    rewrite lookup_insert_ne, lookup_delete_ne; [done| |].
    + intros [= Hc2 Ht2].
      assert (parent_chain s = parent_chain s2) by (by destruct l1c, l2c).
      apply Hne. symmetry. eapply (txids_distinct st id id2 s s2); [done..| | |]; congruence.
    + intros [= Hc2 Ht2]. apply Hne.
      rewrite <-(sound_get _ _ _ Hsound H2). apply Hfree'. unfold get_swap_by_l1_txid.
      assert (parent_chain s = parent_chain s2) as -> by (by destruct l1c, l2c).
      by rewrite Ht2, Hi2.
Qed.

(** ** Blocks *)
Definition created_unset (ftx : FilledTransaction) : Prop :=
  match data (transaction ftx) with
  | SwapCreate _ _ l1_txid_bytes _ _ _ _ _ => l1_txid_unset (from_bytes l1_txid_bytes) = true
  | _ => True
  end.

Lemma claim_txids ftx id claimer st st' :
  txids_inv st → connect_swap_claim ftx id claimer st = Ok st' → txids_inv st'.
Proof.
  intros Hinv H. unfold connect_swap_claim in H.
  apply bind_Ok_inv in H as (s & Hg & H). apply ok_or_Ok in Hg.
  pose proof (sound_get _ _ _ (proj1 Hinv) Hg) as <-.
  apply bind_Ok_inv in H as ([s1 st1] & H1 & H). apply bind_Ok_inv in H as ([] & _ & H).
  assert (txids_inv st1 ∧ get_swap st1 (swap_id s1) = Some s1 ∧ swap_id s1 = swap_id s)
    as (Hinv1 & Hg1 & Hid).
  { case_bool_decide; [by injection H1 as <- <-|].
    apply bind_Ok_inv in H1 as (st2 & Hsv & [= <- <-]). split_and!; [| |done].
    - by apply (save_stored st st _ s (with_state ReadyToClaim s)).
    - by rewrite (get_swap_save _ _ _ _ Hsv), bool_decide_true. }
  by eapply (save_stored st1 _ _ s1 (mark_completed s1)); [|apply view_unlock_inputs|..].
Qed.

Lemma connect_swap_txids h ftx st st' :
  created_unset ftx → txids_inv st → connect_swap h ftx st = Ok st' → txids_inv st'.
Proof.
  unfold created_unset, connect_swap.
  destruct (data (transaction ftx)) as [|id chain b r rc a l1 la|id c p|id c]; intros Hu Hinv H.
  - by injection H as <-.
  - unfold connect_swap_create in H.
    eapply save_txids_view in H; [done|exact Hinv|apply view_lock_all|by left].
  - by eapply claim_txids.
  - by injection H as <-.
Qed.

Lemma spend_input_view tid st p st' : spend_input tid st p = Ok st' → swap_view st' = swap_view st.
Proof. destruct p as [vin [o hash]]. unfold spend_input. intros H. by res_inv. Qed.

Lemma connect_tx_txids h st ftx st' :
  created_unset ftx → txids_inv st → connect_tx h st ftx = Ok st' → txids_inv st'.
Proof.
  intros Hu Hinv H. unfold connect_tx in H. apply bind_Ok_inv in H as (st1 & H1 & H).
  eapply connect_swap_txids; [exact Hu| |exact H].
  eapply txids_inv_ext; [apply view_put_utxos|]. revert H1. apply foldM_inv; [done|].
  intros s x s' _ Hs Hx. eapply txids_inv_ext; [by eapply spend_input_view|done].
Qed.

Lemma connect_txids st header body pre r st' :
  Forall created_unset (filled_transactions pre) → txids_inv st →
  connect_prevalidated st header body pre = Ok (st', r) → txids_inv st'.
Proof.
  intros Hu Hinv H. unfold connect_prevalidated in H.
  apply bind_Ok_inv in H as ([] & _ & H). apply bind_Ok_inv in H as ([] & _ & H).
  apply bind_Ok_inv in H as (st1 & H1 & H). apply bind_Ok_inv in H as (acc & _ & [= <- _]).
  eapply (txids_inv_ext st1); [done|]. revert H1. apply foldM_inv.
  - by eapply txids_inv_ext; [apply view_put_utxos|].
  - intros s ftx s' Hin Hs Hx. rewrite Forall_forall in Hu. eapply connect_tx_txids; eauto.
Qed.

(** ** Undoing a block *)
Lemma delete_txids id st : txids_inv st → txids_inv (delete_swap_unchecked id st).
Proof.
  intros Hinv. pose proof Hinv as [Hsound Hidx]. split.
  - intros id2 e He. unfold delete_swap_unchecked in He. simpl in He.
    apply lookup_delete_Some in He as [_ He]. apply Hsound. revert He.
    destruct (get_swap st id); [done|]. unfold unlock_all_outputs_for_swap. by rewrite swaps_unlock_all.
  - intros id2 s2 H2 Hset. assert (id2 ≠ id ∧ get_swap st id2 = Some s2) as [Hne H2'].
    { destruct (decide (id2 = id)) as [->|Hne]; [|by rewrite get_swap_delete_ne in H2].
      unfold get_swap, delete_swap_unchecked in H2. simpl in H2. by rewrite lookup_delete_eq in H2. }
    unfold delete_swap_unchecked. simpl. destruct (get_swap st id) as [s|] eqn:Hg; simpl.
    + rewrite lookup_delete_ne; [by apply Hidx|]. intros [= Hc Ht]. apply Hne.
      eapply (txids_distinct st id2 id s2 s); done.
    + assert (swap_view (unlock_all_outputs_for_swap id st) = swap_view st) as [= _ ->]
        by apply view_unlock_all. by apply Hidx.
Qed.

Lemma disconnect_swap_txids tx st st' :
  txids_inv st → disconnect_swap tx st = Ok st' → txids_inv st'.
Proof.
  unfold disconnect_swap. intros Hinv H.
  destruct (data tx) as [|id chain b r rc a l1 la|id c p|id c].
  - by injection H as <-.
  - injection H as <-. apply delete_txids.
    by eapply txids_inv_ext; [|exact Hinv]; apply view_unlock_created.
  - unfold disconnect_swap_claim in H. apply bind_Ok_inv in H as (s & Hg & H). apply ok_or_Ok in Hg.
    pose proof (sound_get _ _ _ (proj1 Hinv) Hg) as <-. case_bool_decide.
    + by eapply (save_stored st _ _ s (with_state ReadyToClaim s)); [|apply view_relock_inputs|..].
    + injection H as <-. by eapply txids_inv_ext; [apply view_relock_inputs|].
  - by injection H as <-.
Qed.

Lemma remove_output_view acc p acc' :
  remove_output acc p = Ok acc' → swap_view acc'.1 = swap_view acc.1.
Proof. destruct acc as [st d], p as [o out]. unfold remove_output. intros H. by res_inv. Qed.
Lemma unspend_input_view acc i acc' :
  unspend_input acc i = Ok acc' → swap_view acc'.1 = swap_view acc.1.
Proof. destruct acc as [st d], i as [o hash]. unfold unspend_input. intros H. by res_inv. Qed.

Lemma fold_view_txids {A} (f : State * AccumulatorDiff.t → A → res Error (State * AccumulatorDiff.t))
    acc l acc' :
  (∀ acc x acc', f acc x = Ok acc' → swap_view acc'.1 = swap_view acc.1) →
  txids_inv acc.1 → foldM f acc l = Ok acc' → txids_inv acc'.1.
Proof.
  intros Hf Hinv. apply (foldM_inv (λ acc, txids_inv acc.1)); [done|].
  intros s x s' _ Hs Hx. eapply txids_inv_ext; [by eapply Hf|done].
Qed.

Lemma disconnect_tx_txids acc tx acc' :
  txids_inv acc.1 → disconnect_tx acc tx = Ok acc' → txids_inv acc'.1.
Proof.
  destruct acc as [st d]. unfold disconnect_tx. intros Hinv H.
  apply bind_Ok_inv in H as (st1 & H1 & H). apply bind_Ok_inv in H as (acc1 & H2 & H).
  eapply fold_view_txids in H; [done|apply unspend_input_view|].
  eapply fold_view_txids in H2; [done|apply remove_output_view|]. by eapply disconnect_swap_txids.
Qed.

Lemma disconnect_txids st header body st' :
  txids_inv st → disconnect_tip st header body = Ok st' → txids_inv st'.
Proof.
  intros Hinv H. unfold disconnect_tip in H.
  apply bind_Ok_inv in H as (t & _ & H). apply bind_Ok_inv in H as ([] & _ & H).
  apply bind_Ok_inv in H as (acc & H1 & H). apply bind_Ok_inv in H as ([st2 d2] & H2 & H).
  apply bind_Ok_inv in H as (st3 & H3 & H). apply bind_Ok_inv in H as (root & _ & [= <-]).
  assert (txids_inv st2).
  { change st2 with (st2, d2).1. eapply fold_view_txids in H2; [done|apply remove_output_view|].
    revert H1. apply (foldM_inv (λ acc, txids_inv acc.1)); [done|].
    intros a x a' _ Ha Hx. by eapply disconnect_tx_txids. }
  eapply (txids_inv_ext st2); [|done]. unfold disconnect_header in H3.
  apply bind_Ok_inv in H3 as (h & _ & H3). destruct (prev_side_hash header), (h =? 0); try done;
    by injection H3 as <-.
Qed.

Lemma restore_txids h st st' : txids_inv st → restore_expiries h st = Ok st' → txids_inv st'.
Proof.
  intros Hinv H. unfold restore_expiries in H.
  destruct (expired_swaps st !! h) as [l|]; [|by injection H as <-].
  apply bind_Ok_inv in H as (st1 & H1 & [= <-]). eapply (txids_inv_ext st1); [done|].
  revert H1. apply foldM_inv; [done|]. clear st Hinv. intros st [[id p] os] st2 _ Hinv Hx.
  unfold restore_expired in Hx. apply bind_Ok_inv in Hx as (st3 & H3 & [= <-]).
  eapply txids_inv_ext; [apply view_lock_all|]. destruct (get_swap st id) as [s|] eqn:Hg.
  - pose proof (sound_get _ _ _ (proj1 Hinv) Hg) as <-.
    by apply (save_stored st st _ s (with_state p s)).
  - by injection H3 as <-.
Qed.

(** ** What happens to the swaps of a state *)
Inductive swap_event : State → State → Prop :=
| se_node st st' id t c l1c l2c bh h :
    StateDb.update_swap_l1_txid id t c l1c l2c bh h st = Ok st' → swap_event st st'
| se_confirmations st st' id c bh h :
    update_swap_confirmations id c bh h st = Ok st' → swap_event st st'
| se_cancel st st' id who :
    cancel_swap id who st = Ok st' → swap_event st st'
| se_process st st' l1 h bh :
    process_coinshift_transactions l1 h bh st = Ok st' → swap_event st st'
| se_block st st' header body pre r :
    Forall created_unset (filled_transactions pre) →
    connect_prevalidated st header body pre = Ok (st', r) → swap_event st st'
| se_undo_block st st' header body :
    disconnect_tip st header body = Ok st' → swap_event st st'
| se_undo_expiry st st' h :
    restore_expiries h st = Ok st' → swap_event st st'.

Lemma swap_event_txids st st' : txids_inv st → swap_event st st' → txids_inv st'.
Proof.
  intros Hinv Hev. destruct Hev as [st st' id t c l1c l2c bh h H|st st' id c bh h H
    |st st' id who H|st st' l1 h bh H|st st' header body pre r Hu H|st st' header body H|st st' h H].
  - by eapply l1_txid_txids.
  - unfold update_swap_confirmations in H.
    apply bind_Ok_inv in H as (s & Hg & H). apply ok_or_Ok in Hg.
    pose proof (sound_get _ _ _ (proj1 Hinv) Hg) as <-.
    destruct (state s) as [|cur r| | |]; try done. destruct (c <=? cur); [by injection H as <-|].
    by apply (save_stored st st _ s) in H.
  - unfold cancel_swap in H. apply bind_Ok_inv in H as (s & Hg & H). apply ok_or_Ok in Hg.
    pose proof (sound_get _ _ _ (proj1 Hinv) Hg) as <-.
    apply bind_Ok_inv in H as ([] & _ & H). apply bind_Ok_inv in H as ([] & _ & H).
    by eapply (save_stored st _ _ s (with_state Cancelled s)); [|apply view_unlock_all|..].
  - by eapply process_txids.
  - by eapply connect_txids.
  - by eapply disconnect_txids.
  - by eapply restore_txids.
Qed.

(** C4: However L1 monitoring, the user's updates, blocks and their undoing follow one
    another, no transaction of a parent chain is that of two swaps, provided that no
    block creates a swap which names a transaction from the start. *)
Theorem one_swap_per_payment st st' id1 id2 s1 s2 :
  swaps_sound st → txids_indexed st → rtc swap_event st st' →
  get_swap st' id1 = Some s1 → get_swap st' id2 = Some s2 → id1 ≠ id2 →
  l1_txid_unset (l1_txid s1) = false →
  (parent_chain s1, l1_txid s1) ≠ (parent_chain s2, l1_txid s2).
Proof.
  intros Hs Hi Hev H1 H2 Hne Hset [= Hc Ht]. apply Hne. assert (txids_inv st') as Hinv.
  { assert (txids_inv st) as Hinv by done. clear -Hev Hinv.
    induction Hev as [|st st1 st' He _ IH]; [done|]. by eapply IH, swap_event_txids. }
  by eapply (txids_distinct st' id1 id2 s1 s2).
Qed.
End L1Unique.
