(* ===== verification/SwapProps.v ===== *)
(** Swaps as data: identifiers, cancellation, locks and the index of recipients
    (lib/types/swap.rs, lib/state/mod.rs), and the reservation rules of
    lib/state/swap.rs. *)
From S2P Require Import Prelude Bytes SwapTypes TxTypes Externals Hex.
From S2P Require Import Accumulator BlockTypes Rollback Bundle StateDb SwapRules.
From S2P Require Import Auth Block BlockSpec BlockProps BlockConnect Ledger Peg.
From S2P Require Import Monitor Expiry.

(** ** Identifiers *)
(** Two byte strings that end in parts of equal lengths. *)
Lemma app_inj_tail_length {A} (l1 l2 k1 k2 : list A) :
  length k1 = length k2 → l1 ++ k1 = l2 ++ k2 → l1 = l2 ∧ k1 = k2.
Proof. intros Hlen Heq. by apply app_inj_2 in Heq. Qed.

(** The preimage of a swap identifier determines the L1 recipient, the L1
    amount, the creator and the L2 recipient, among open swaps and among swaps
    with a recipient. *)
Theorem swap_preimage_binding l1 a s r l1' a' s' r' :
  is_u64 a → is_u64 a' → (r = None ↔ r' = None) →
  l2_to_l1_preimage l1 a s r = l2_to_l1_preimage l1' a' s' r' →
  l1 = l1' ∧ a = a' ∧ s = s' ∧ r = r'.
Proof.
  intros Ha Ha' Hr Heq. unfold l2_to_l1_preimage in Heq. rewrite !app_assoc in Heq.
  apply app_inj_tail_length in Heq as [Heq Hrec].
  2:{ destruct r, r'; try naive_solver. by rewrite !arr_length. }
  rewrite <-!app_assoc in Heq. rewrite !app_assoc in Heq.
  apply app_inj_tail_length in Heq as [Heq Hs]; [|by rewrite !arr_length].
  apply app_inj_tail_length in Heq as [Hl Hle]; [|by rewrite !length_le_bytes].
  split_and!.
  - by apply str_bytes_inj.
  - apply (f_equal le_value) in Hle. unfold is_u64, u64_MAX in *.
    rewrite !le_value_bytes in Hle; [done| |];
      change (256 ^ Z.of_nat 8) with (2 ^ 64); lia.
  - by apply arr_ext.
  - destruct r as [r|], r' as [r'|]; [|naive_solver..]. f_equal. by apply arr_ext.
Qed.

(** An open swap and a swap with a recipient may share an identifier, since the
    address of the L1 recipient has no length prefix. *)
Definition ambiguous_recipient : Address :=
  default (arr_repeat 20 x00)
    (arr_of_slice 20 (replicate 11 x00 ++ str_bytes "OPEN_SWAP")).
Lemma swap_id_ambiguous `{Blake3} :
  from_l2_to_l1 (String.string_of_list_byte (replicate 11 x00)) 0 (arr_repeat 20 x00) None
  = from_l2_to_l1 "" 0 (arr_repeat 20 x00) (Some ambiguous_recipient).
Proof. unfold from_l2_to_l1. by f_equal. Qed.

Section SwapProps.
Context {T : ExtTypes} {X : ExtFuns}.
Implicit Types (st : State) (tx : Transaction) (ftx : FilledTransaction) (s : Swap).

(** ** Cancelling *)
Lemma unlock_all_for_swap id st o :
  is_output_locked_to_swap (unlock_all_outputs_for_swap id st) o
  = if bool_decide (is_output_locked_to_swap st o = Some id) then None
    else is_output_locked_to_swap st o.
Proof.
  unfold unlock_all_outputs_for_swap, is_output_locked_to_swap at 1.
  rewrite locks_unlock_all.
  by rewrite (bool_decide_ext _ _ (outputs_locked_to_elem st id o)).
Qed.

(** Cancelling succeeds exactly for a pending swap at its creator's request,
    and then cancels that swap alone and frees all its outputs and no other. *)
Theorem cancel_swap_spec id who st :
  (∀ swap, bincode_swap_ok swap = true) → swaps_sound st →
  (is_ok (cancel_swap id who st) = true ↔
   ∃ s, get_swap st id = Some s ∧ state s = Pending ∧
     is_Some who ∧ l2_creator_address s = who) ∧
  ∀ st', cancel_swap id who st = Ok st' →
    (∀ id', get_swap st' id' =
      if bool_decide (id' = id) then with_state Cancelled <$> get_swap st id
      else get_swap st id') ∧
    (∀ o, is_output_locked_to_swap st' o =
      if bool_decide (is_output_locked_to_swap st o = Some id) then None
      else is_output_locked_to_swap st o) ∧
    ledger st' = ledger st.
Proof.
  intros Hbin Hsound. split.
  - rewrite is_ok_true. unfold cancel_swap. split.
    + intros [st' H]. res_inv. exists a. split_and!; [done|done| |].
      * destruct (l2_creator_address a); [|done]. res_inv. subst. by eexists.
      * destruct (l2_creator_address a); [|done]. by res_inv.
    + intros (s & Hg & Hst & [w ->] & Hw). rewrite Hg. simpl. rewrite Hw.
      rewrite bool_decide_true by done. simpl. rewrite bool_decide_true by done. simpl.
      unfold save_swap. rewrite Hbin. by eexists.
  - intros st' H. unfold cancel_swap in H. res_inv.
    assert (swap_id a = id) as Hid.
    { unfold get_swap in Ha. destruct (swaps st !! id) as [[s|]|] eqn:He; simplify_eq.
      destruct (Hsound _ _ He) as (s' & [= <-] & ?). done. }
    split_and!.
    + intros id'. rewrite (get_swap_save _ _ _ _ H). simpl. rewrite Hid, Ha.
      case_bool_decide; [done|]. apply get_swap_ext, swaps_unlock_all.
    + intros o. rewrite <-unlock_all_for_swap. unfold save_swap in H. by res_inv.
    + apply ledger_save_swap in H as ->. apply ledger_unlock_all.
Qed.

(** ** Orphaned locks *)
Definition clean_step (acc : State * Z) (p : OutPoint * SwapId) : State * Z :=
  let '(st, n) := acc in
  match get_swap st p.2 with
  | Some _ => (st, n)
  | None => (unlock_output_from_swap p.1 st, n + 1)
  end.

Lemma clean_loop l st n :
  let orphans := filter (λ p : OutPoint * SwapId, get_swap st p.2 = None) l in
  fold_left clean_step l (st, n)
  = (unlock_all orphans.*1 st, n + Z.of_nat (length orphans)).
Proof.
  revert st n; induction l as [|[o id] l IH]; intros st n; simpl.
  { f_equal. lia. }
  rewrite filter_cons. simpl. destruct (get_swap st id) as [s|] eqn:Hg; simpl.
  - apply IH.
  - rewrite IH. csimpl. f_equal. rewrite Nat2Z.inj_succ. unfold get_swap. simpl. lia.
Qed.

(** Cleaning up removes exactly the locks of swaps that do not exist, reports
    how many, and leaves the swaps and the ledger alone. *)
Theorem cleanup_orphaned_locks_spec st st' n :
  cleanup_orphaned_locks st = (st', n) →
  (∀ o, is_output_locked_to_swap st' o =
    (id ← is_output_locked_to_swap st o;
     if bool_decide (get_swap st id = None) then None else Some id)) ∧
  n = Z.of_nat (length (filter (λ p : OutPoint * SwapId, get_swap st p.2 = None)
                          (map_to_list (locked_swap_outputs st)))) ∧
  swaps st' = swaps st ∧ ledger st' = ledger st.
Proof.
  unfold cleanup_orphaned_locks. intros H.
  assert (fold_left clean_step (locked_outputs st) (st, 0) = (st', n)) as Hf.
  { rewrite <-H. clear. generalize (locked_outputs st), (st, 0).
    intros l. induction l as [|[o id] l IH]; intros [s n]; [done|]. apply IH. }
  rewrite clean_loop in Hf. injection Hf as <- <-.
  assert (∀ o, locked_swap_outputs (unlock_all
    (filter (λ p : OutPoint * SwapId, get_swap st p.2 = None) (locked_outputs st)).*1 st) !! o
    = (id ← is_output_locked_to_swap st o;
       if bool_decide (get_swap st id = None) then None else Some id)) as Hl.
  { intros o. rewrite locks_unlock_all. unfold is_output_locked_to_swap.
    destruct (locked_swap_outputs st !! o) as [id|] eqn:Ho; simpl.
    - case_bool_decide as Hin.
      + apply list_elem_of_fmap in Hin as ([o' id'] & -> & Hin).
        apply list_elem_of_filter in Hin as [Hn Hin]. apply elem_of_entries_by in Hin.
        simpl in *. simplify_eq. by rewrite bool_decide_true.
      + rewrite bool_decide_false; [done|]. intros Hn. apply Hin, list_elem_of_fmap.
        exists (o, id). split; [done|]. apply list_elem_of_filter. split; [done|].
        by apply elem_of_entries_by.
    - by case_bool_decide. }
  split_and!; [exact Hl| |apply swaps_unlock_all|apply ledger_unlock_all].
  unfold locked_outputs. by rewrite entries_by_Permutation.
Qed.

(** ** Reservations of open swaps *)

(** The conditions under which a [SwapAccept] is valid. *)
Record accept_ok st tx ftx (id : SwapId) (c : Address) : Prop := {
  ao_unlocked : ∀ i, i ∈ inputs tx → is_output_locked_to_swap st i.1 = None;
  ao_swap : ∃ s, get_swap st id = Some s ∧ l2_recipient s = None ∧
    (∀ e, expires_at_height s = Some e → next_height st < e) ∧
    (∀ r, get_swap_reservation st id = Some r →
       is_live_at r (parent_chain s) (next_height st) = false);
  ao_owner : ∃ out, out ∈ spent_utxos ftx ∧ address out = c;
}.

Lemma no_locked_outputs_iff st tx :
  is_swap_claim (data tx) = false →
  validate_no_locked_outputs st tx = Ok () ↔
  ∀ i, i ∈ inputs tx → is_output_locked_to_swap st i.1 = None.
Proof.
  intros Hc. split; [by apply no_locked_outputs_Ok|]. intros H.
  assert (validate_no_locked_outputs st tx = foldM (λ _ (i : OutPoint * Hash),
    require (bool_decide (is_output_locked_to_swap st i.1 = None)) CannotSpendLocked)
    () (inputs tx)) as ->.
  { unfold validate_no_locked_outputs. by destruct (data tx). }
  apply foldM_unit. intros i Hi. unfold require. by rewrite bool_decide_true by by apply H.
Qed.

(** C31: A [SwapAccept] is valid exactly if it spends no locked output, the swap is
    open, not expired, under no live reservation, and the claimer it names owns
    one of its inputs. *)
Theorem swap_accept_spec st tx ftx id c :
  data tx = SwapAccept id c →
  validate_block_transaction st tx ftx = Ok () ↔ accept_ok st tx ftx id c.
Proof.
  intros Hd. unfold validate_block_transaction. rewrite Hd.
  unfold validate_swap_accept. rewrite Hd. split.
  - unfold require. intros H. res_inv. split.
    + apply no_locked_outputs_iff; [by rewrite Hd|done].
    + match goal with H : get_swap st id = Some ?s |- _ => exists s end.
      split_and!; [done|done| |].
      * intros e He. match goal with H : match expires_at_height _ with _ => _ end = _ |- _ =>
          rewrite He in H end. res_inv. by apply Z.leb_gt.
      * intros r Hr. match goal with H : match get_swap_reservation _ _ with _ => _ end = _ |- _ =>
          rewrite Hr in H end. by res_inv.
    + apply existsb_exists in H as (out & Hin & Hc).
      exists out. split; [by apply list_elem_of_In|]. by apply bool_decide_eq_true in Hc.
  - intros [Hl (s & Hs & Hopen & Hexp & Hres) (out & Hin & Hc)].
    rewrite (proj2 (no_locked_outputs_iff _ _ ltac:(by rewrite Hd)) Hl). simpl.
    rewrite Hs. simpl. rewrite Hopen. simpl.
    assert (∀ o, (∀ e, o = Some e → next_height st < e) →
      match o with
      | Some expires_at =>
          require (negb (expires_at <=? validating_height st)) SwapExpiredAtHeight
      | None => Ok () end = Ok ()) as Hreq.
    { intros [e|] He; [|done]. unfold require, validating_height.
      by rewrite (proj2 (Z.leb_gt _ _)) by by apply He. }
    rewrite Hreq by done. simpl. clear Hreq.
    assert (existsb (λ utxo, bool_decide (address utxo = c)) (spent_utxos ftx) = true) as Hex.
    { apply existsb_exists. exists out. split; [by apply list_elem_of_In|].
      by apply bool_decide_eq_true. }
    destruct (get_swap_reservation st id) as [r|]; simpl; [|by rewrite Hex].
    unfold require, validating_height. rewrite (Hres r) by done. simpl. by rewrite Hex.
Qed.

(** C30: While a reservation of an open swap is live, no other acceptance of the
    swap is valid, and every valid claim pays the claimer of the reservation. *)
Theorem reservation_exclusive st tx ftx id s r :
  get_swap st id = Some s → swap_id s = id → l2_recipient s = None →
  get_swap_reservation st id = Some r →
  is_live_at r (parent_chain s) (next_height st) = true →
  validate_block_transaction st tx ftx = Ok () →
  match data tx with
  | SwapAccept id' _ => id' ≠ id
  | SwapClaim id' _ _ => id' = id → l2_amount s ≤ paid_to tx (claimer r)
  | _ => True
  end.
Proof.
  intros Hs Hid Hopen Hr Hlive Hv.
  destruct (data tx) as [| |id' c p|id' c] eqn:Hd; [done|done| |].
  - intros ->. unfold validate_block_transaction in Hv. rewrite Hd in Hv.
    destruct (claim_consensus_pays _ _ _ _ _ Hd Hv) as (s' & rec & [Hs' He _ Hp _ _]).
    rewrite Hs in Hs'. injection Hs' as <-. unfold entitled_claimer_at in He.
    rewrite Hopen, Hid, Hr in He. simpl in He. rewrite Hlive in He. by injection He as <-.
  - intros ->. unfold validate_block_transaction, validate_swap_accept in Hv.
    rewrite Hd in Hv. res_inv.
    match goal with H : match get_swap_reservation _ _ with _ => _ end = _ |- _ =>
      rewrite Hr in H; unfold require, validating_height in H end. res_inv. congruence.
Qed.

(** ** The index of recipients *)

(** The list of a recipient names exactly the swaps for it, each once. *)
Record recipients_indexed st : Prop := {
  ri_sound : swaps_sound st;
  ri_lists : ∀ r l, swaps_by_recipient st !! r = Some l → NoDup l ∧ l ≠ [];
  ri_exact : ∀ r id,
    id ∈ default [] (swaps_by_recipient st !! r) ↔
    ∃ s, get_swap st id = Some s ∧ l2_recipient s = Some r;
}.

Lemma save_swap_sound s st st' : swaps_sound st → save_swap s st = Ok st' → swaps_sound st'.
Proof.
  intros Hsound Hsv id e He. unfold save_swap in Hsv. res_inv. simpl in He.
  destruct (decide (id = swap_id s)) as [->|Hne].
  - rewrite lookup_insert_eq in He. simplify_eq. by eexists.
  - rewrite lookup_insert_ne, lookup_delete_ne in He by done. by apply Hsound.
Qed.

Lemma index_recipient_lookup s m r id :
  id ∈ default [] (index_recipient s m !! r) ↔
  id ∈ default [] (m !! r) ∨ (id = swap_id s ∧ l2_recipient s = Some r).
Proof.
  unfold index_recipient. destruct (l2_recipient s) as [rec|]; [|naive_solver].
  case_bool_decide as Hin.
  - split; [by left|]. intros [?|[-> [= ->]]]; done.
  - destruct (decide (r = rec)) as [->|Hne].
    + rewrite lookup_insert_eq. simpl. rewrite elem_of_app, list_elem_of_singleton.
      naive_solver.
    + rewrite lookup_insert_ne by done. split; [by left|]. naive_solver.
Qed.

Lemma index_recipient_lists s m :
  (∀ r l, m !! r = Some l → NoDup l ∧ l ≠ []) →
  ∀ r l, index_recipient s m !! r = Some l → NoDup l ∧ l ≠ [].
Proof.
  intros Hl r l. unfold index_recipient. destruct (l2_recipient s) as [rec|]; [|apply Hl].
  case_bool_decide as Hin; [apply Hl|].
  intros [[<- <-]|[_ Hr]]%lookup_insert_Some; [|by eapply Hl]. split; [|by destruct (default _ _)].
  apply NoDup_app. split_and!; [|set_solver|apply NoDup_singleton].
  destruct (m !! rec) as [l|] eqn:Hm; simpl; [by eapply Hl|constructor].
Qed.

Lemma save_swap_indexed s st st' :
  recipients_indexed st →
  (∀ s0, get_swap st (swap_id s) = Some s0 → l2_recipient s0 = l2_recipient s) →
  save_swap s st = Ok st' → recipients_indexed st'.
Proof.
  intros [Hsound Hlists Hexact] Hsame Hsv. split.
  - by eapply save_swap_sound.
  - unfold save_swap in Hsv. res_inv. simpl. by apply index_recipient_lists.
  - intros r id. rewrite (get_swap_save _ _ _ _ Hsv).
    assert (swaps_by_recipient st' = index_recipient s (swaps_by_recipient st)) as ->.
    { unfold save_swap in Hsv. by res_inv. }
    rewrite index_recipient_lookup, Hexact. case_bool_decide as Hid; [|naive_solver].
    subst. split; [|naive_solver]. intros [(s0 & Hs0 & Hr)|[_ Hr]]; [|by eexists].
    exists s. split; [done|]. by rewrite <-(Hsame s0).
Qed.

Lemma unindex_recipient_lookup s m r id :
  (∀ r l, m !! r = Some l → NoDup l ∧ l ≠ []) →
  id ∈ default [] (unindex_recipient s m !! r) ↔
  id ∈ default [] (m !! r) ∧ ¬ (id = swap_id s ∧ l2_recipient s = Some r).
Proof.
  intros _. unfold unindex_recipient. destruct (l2_recipient s) as [rec|]; [|naive_solver].
  destruct (m !! rec) as [l|] eqn:Hm.
  2:{ split; [|naive_solver]. intros Hin. split; [done|]. intros [_ [= ->]].
      rewrite Hm in Hin. by apply elem_of_nil in Hin. }
  assert (∀ id, id ∈ filter (λ id, id ≠ swap_id s) l ↔ id ∈ l ∧ id ≠ swap_id s) as Hf.
  { intros i. rewrite list_elem_of_filter. tauto. }
  case_bool_decide as Hnil; destruct (decide (r = rec)) as [->|Hne].
  - rewrite lookup_delete_eq, Hm. simpl. specialize (Hf id). rewrite Hnil in Hf.
    rewrite Hf. naive_solver.
  - rewrite lookup_delete_ne by done. naive_solver.
  - rewrite lookup_insert_eq, Hm. simpl. rewrite Hf. naive_solver.
  - rewrite lookup_insert_ne by done. naive_solver.
Qed.

Lemma unindex_recipient_lists s m :
  (∀ r l, m !! r = Some l → NoDup l ∧ l ≠ []) →
  ∀ r l, unindex_recipient s m !! r = Some l → NoDup l ∧ l ≠ [].
Proof.
  intros Hl r l. unfold unindex_recipient. destruct (l2_recipient s) as [rec|]; [|apply Hl].
  destruct (m !! rec) as [l0|] eqn:Hm; [|apply Hl]. case_bool_decide as Hnil.
  - intros [_ Hr]%lookup_delete_Some. by eapply Hl.
  - intros [[<- <-]|[_ Hr]]%lookup_insert_Some; [|by eapply Hl]. split; [|done].
    apply NoDup_filter. by eapply Hl.
Qed.

Lemma get_swap_deleted id id' st :
  get_swap (delete_swap_unchecked id st) id'
  = if bool_decide (id' = id) then None else get_swap st id'.
Proof.
  case_bool_decide as Hid; [subst|by apply get_swap_delete_ne].
  unfold get_swap at 1, delete_swap_unchecked. simpl. by rewrite lookup_delete_eq.
Qed.

Lemma delete_swap_indexed id st :
  recipients_indexed st → recipients_indexed (delete_swap_unchecked id st).
Proof.
  intros [Hsound Hlists Hexact].
  assert (∀ m, swaps_by_recipient (delete_swap_unchecked id st) = m →
    (get_swap st id = None ∧ m = swaps_by_recipient st) ∨
    ∃ s, get_swap st id = Some s ∧ m = unindex_recipient s (swaps_by_recipient st)) as Hm.
  { intros m <-. unfold delete_swap_unchecked.
    destruct (get_swap st id) as [s|]; simpl; [right; by exists s|left; split; [done|]].
    by apply (fold_left_proj swaps_by_recipient). }
  specialize (Hm _ eq_refl).
  split.
  - intros id' e He.
    assert (swaps (delete_swap_unchecked id st) = delete id (swaps st)) as Hsw.
    { unfold delete_swap_unchecked. simpl. destruct (get_swap st id); [done|]. simpl.
      unfold unlock_all_outputs_for_swap. by rewrite swaps_unlock_all. }
    rewrite Hsw in He. apply lookup_delete_Some in He as [_ He]. by apply Hsound.
  - destruct Hm as [[_ ->]|(s & _ & ->)]; [done|]. by apply unindex_recipient_lists.
  - intros r id'. rewrite get_swap_deleted.
    destruct Hm as [[Hn ->]|(s & Hs & ->)].
    + rewrite Hexact. case_bool_decide; [subst|done]. rewrite Hn. naive_solver.
    + rewrite unindex_recipient_lookup, Hexact by done.
      assert (swap_id s = id) as Hid.
      { unfold get_swap in Hs. destruct (swaps st !! id) as [[s1|]|] eqn:He; simplify_eq.
        destruct (Hsound _ _ He) as (s' & [= <-] & ?). done. }
      case_bool_decide as Hc; [subst id'|naive_solver].
      rewrite Hs. split; [|naive_solver]. intros [(s' & [= <-] & Hr) Hnot]. naive_solver.
Qed.

(** The index of recipients stays exact: it starts so, saving a swap keeps it
    so as long as the recipient of a swap never changes, and so does deleting
    one; looking up a recipient then returns exactly the swaps for it. *)
Theorem recipient_index_exact :
  recipients_indexed empty_state ∧
  (∀ s st st', recipients_indexed st →
     (∀ s0, get_swap st (swap_id s) = Some s0 → l2_recipient s0 = l2_recipient s) →
     save_swap s st = Ok st' → recipients_indexed st') ∧
  (∀ id st, recipients_indexed st → recipients_indexed (delete_swap_unchecked id st)) ∧
  (∀ st r s, recipients_indexed st →
     s ∈ get_swaps_by_recipient st r ↔
     get_swap st (swap_id s) = Some s ∧ l2_recipient s = Some r).
Proof.
  split_and!.
  - split; [by intros ??|by intros ??|]. intros r id. split; [by intros ?%elem_of_nil|].
    by intros (? & ? & _).
  - apply save_swap_indexed.
  - apply delete_swap_indexed.
  - intros st r s [Hsound _ Hexact]. unfold get_swaps_by_recipient.
    rewrite list_elem_of_omap. split.
    + intros (id & Hin & Hs). apply Hexact in Hin as (s1 & Hs1 & Hr).
      rewrite Hs in Hs1. injection Hs1 as <-. split; [|done]. unfold get_swap in Hs |- *.
      destruct (swaps st !! id) as [[s1|]|] eqn:He; [injection Hs as ->|done|done].
      destruct (Hsound _ _ He) as (s' & [= <-] & ->). by rewrite He.
    + intros [Hs Hr]. exists (swap_id s). split; [|done]. apply Hexact. by exists s.
Qed.

(** ** Corrupted records *)

(** The scan for corrupted records never finds one, so that the clean-up
    deletes nothing. *)
Lemma no_corrupted_swap_found st :
  find_corrupted_swaps st = [] ∧ cleanup_corrupted_swaps st = (st, 0).
Proof.
  assert (find_corrupted_swaps st = []) as Hn; [|unfold cleanup_corrupted_swaps; by rewrite Hn].
  unfold find_corrupted_swaps.
  assert (∀ p, p ∈ swap_entries st → swaps st !! p.1 = Some p.2) as Hin.
  { intros [id e] Hp. by apply elem_of_entries_by in Hp. }
  induction (swap_entries st) as [|[id e] l IH]; [done|]. csimpl.
  pose proof (Hin (id, e) ltac:(by left)) as He. simpl in He.
  rewrite IH by (intros p Hp; apply Hin; by right).
  destruct e; [|done]. unfold check_swap_corrupted. by rewrite He.
Qed.
End SwapProps.
