(* ===== verification/Mempool.v ===== *)
(** The mempool (lib/mempool.rs): its two databases, insertion, removal with all
    descendants, and the regeneration of proofs; and the admission check of
    lib/state/mod.rs, [State::validate_transaction]. *)
From S2P Require Import Prelude Bytes SwapTypes TxTypes Externals.
From S2P Require Import Accumulator BlockTypes Rollback Bundle StateDb SwapRules.
From S2P Require Import Auth Block BlockConnect.

Inductive MemPoolError := MemPoolDoubleSpent.

Section Mempool.
Context {T : ExtTypes} {X : ExtFuns}.

Definition AuthorizedTransaction : Type := Authorized Transaction.

(** ** Admission *)
Definition check_tx_owners (tx : Transaction) (auths : list Authorization)
    (spent : list Output) : res Error () :=
  foldM (λ _ p,
      if is_swap_claim (data tx) && is_swap_pending (content p.2) then Ok ()
      else ensure (bool_decide (auth_address p.1 = address p.2)) WrongPubKeyForAddress)
    () (zip auths spent).

(** [State::validate_transaction] *)
Definition validate_transaction (st : State) (at_ : AuthorizedTransaction) :
    res Error Z :=
  let tx := authorized_tx at_ in
  ftx ← fill_transaction st tx;
  _ ← match data tx with
      | SwapCreate _ _ _ _ _ _ _ _ => validate_swap_create st tx ftx
      | SwapClaim _ _ _ => validate_swap_claim st tx ftx
      | SwapAccept _ _ => validate_swap_accept st tx ftx
      | RegularTx => validate_no_locked_outputs st tx
      end;
  _ ← check_tx_owners tx (authorizations at_) (spent_utxos ftx);
  _ ← ensure (is_ok (verify_authorized_transaction at_)) AuthorizationErr;
  validate_filled_transaction ftx.

(** ** The databases *)
Record MemPool := mkMemPool {
  mp_transactions : gmap Txid AuthorizedTransaction;
  mp_spent_utxos : gmap OutPoint Txid;
}.
Implicit Type mp : MemPool.

Definition tx_of (at_ : AuthorizedTransaction) : Transaction := authorized_tx at_.

(** [MemPool::put] *)
Definition put_input (tid : Txid) mp (i : OutPoint * Hash) : res MemPoolError MemPool :=
  match mp_spent_utxos mp !! i.1 with
  | Some _ => Err MemPoolDoubleSpent
  | None => Ok {| mp with mp_spent_utxos := <[i.1 := tid]> (mp_spent_utxos mp) |}
  end.
Definition put (at_ : AuthorizedTransaction) mp : res MemPoolError MemPool :=
  let tid := txid (tx_of at_) in
  mp ← foldM (put_input tid) mp (inputs (tx_of at_));
  Ok {| mp with mp_transactions := <[tid := at_]> (mp_transactions mp) |}.

(** Removing one transaction, in [MemPool::delete]: the pool without it, and
    the transactions that spend its outputs. *)
Definition remove_one (tid : Txid) (at_ : AuthorizedTransaction) mp : MemPool :=
  {| mp_transactions := delete tid (mp_transactions mp);
     mp_spent_utxos :=
       fold_left (λ m (i : OutPoint * Hash), delete i.1 m) (inputs (tx_of at_))
         (mp_spent_utxos mp) |}.
Definition children (tid : Txid) (at_ : AuthorizedTransaction) mp : list Txid :=
  omap (λ p : OutPoint * Output, mp_spent_utxos mp !! p.1)
    (regular_outputs tid (outputs (tx_of at_))).

(** The [while] loop over the queue; [None] when the fuel runs out. *)
Fixpoint delete_loop (fuel : nat) (pending_deletes : list Txid) mp : option MemPool :=
  match fuel with
  | O => None
  | S fuel =>
      match pending_deletes with
      | [] => Some mp
      | tid :: pending_deletes =>
          match mp_transactions mp !! tid with
          | Some tx =>
              let mp := remove_one tid tx mp in
              delete_loop fuel (pending_deletes ++ children tid tx mp) mp
          | None => delete_loop fuel pending_deletes mp
          end
      end
  end.

(** The outputs of all transactions of the pool. *)
Definition outputs_total (m : gmap Txid AuthorizedTransaction) : nat :=
  map_fold (λ _ at_ n, (length (outputs (tx_of at_)) + n)%nat) 0%nat m.

(** [MemPool::delete], with fuel for every output. *)
Definition mp_delete (tid : Txid) mp : option MemPool :=
  delete_loop (2 + outputs_total (mp_transactions mp)) [tid] mp.

(** [MemPool::take] and [take_all] *)
Definition take_all mp : list AuthorizedTransaction :=
  (entries_by arr_bytes (mp_transactions mp)).*2.
Definition mp_take (number : nat) mp : list AuthorizedTransaction :=
  take number (take_all mp).

(** [MemPool::regenerate_proofs] *)
Definition with_proof (p : UtreexoProof) (at_ : AuthorizedTransaction) :
    AuthorizedTransaction :=
  mkAuthorized {| (tx_of at_) with proof := p |} (authorizations at_).
Definition regenerate_one (accumulator : MemForest) (mp : option MemPool) (tid : Txid) :
    option MemPool :=
  mp ← mp;
  match mp_transactions mp !! tid with
  | None => Some mp
  | Some tx =>
      match forest_prove accumulator (inputs (tx_of tx)).*2 with
      | Some p =>
          Some {| mp with
                  mp_transactions := <[tid := with_proof p tx]> (mp_transactions mp) |}
      | None => mp_delete tid mp
      end
  end.
Definition regenerate_proofs (accumulator : MemForest) mp : option MemPool :=
  fold_left (regenerate_one accumulator) (entries_by arr_bytes (mp_transactions mp)).*1
    (Some mp).

(** ** Invariant *)

(** The index holds exactly the inputs of the transactions of the pool. *)
Definition mp_wf mp : Prop :=
  ∀ o t, mp_spent_utxos mp !! o = Some t ↔
    ∃ tx, mp_transactions mp !! t = Some tx ∧ o ∈ (inputs (tx_of tx)).*1.

Definition empty_pool : MemPool := mkMemPool ∅ ∅.

Lemma empty_pool_wf : mp_wf empty_pool.
Proof. intros o t. simpl. rewrite lookup_empty. split; [done|]. by intros (? & [=] & _). Qed.

Lemma put_inputs_Ok tid ins mp mp' :
  foldM (put_input tid) mp ins = Ok mp' →
  mp_transactions mp' = mp_transactions mp ∧ NoDup ins.*1 ∧
  (∀ o, o ∈ ins.*1 → mp_spent_utxos mp !! o = None ∧ mp_spent_utxos mp' !! o = Some tid) ∧
  (∀ o, o ∉ ins.*1 → mp_spent_utxos mp' !! o = mp_spent_utxos mp !! o).
Proof.
  revert mp; induction ins as [|[o h] ins IH]; intros mp Hf; simpl in Hf.
  { simplify_eq. split_and!; [done|constructor|set_solver|done]. }
  apply bind_Ok_inv in Hf as (mp1 & H1 & Hf). unfold put_input in H1. simpl in H1.
  destruct (mp_spent_utxos mp !! o) eqn:Ho; [done|]. injection H1 as <-.
  apply IH in Hf as (Ht & Hnd & Hin & Hout). simpl in *. csimpl.
  assert (o ∉ ins.*1) as Hni.
  { intros Hc. apply Hin in Hc as [Hc _]. by rewrite lookup_insert_eq in Hc. }
  split_and!; [done|by constructor| |].
  - intros o' [->|Ho']%elem_of_cons.
    + split; [done|]. by rewrite Hout, lookup_insert_eq.
    + destruct (Hin o' Ho') as [Hn Hs].
      rewrite lookup_insert_ne in Hn by (intros ->; done). done.
  - intros o' Ho'. rewrite Hout by set_solver. by rewrite lookup_insert_ne by set_solver.
Qed.

(** [put] keeps the index exact, unless two transactions share an id. *)
Lemma put_wf at_ mp mp' :
  mp_wf mp →
  (∀ tx, mp_transactions mp !! txid (tx_of at_) = Some tx →
     inputs (tx_of tx) = inputs (tx_of at_)) →
  put at_ mp = Ok mp' → mp_wf mp'.
Proof.
  intros Hwf Hcoll Hp. unfold put in Hp.
  apply bind_Ok_inv in Hp as (mp1 & Hf & [= <-]).
  apply put_inputs_Ok in Hf as (Ht & _ & Hin & Hout).
  intros o t. simpl. rewrite Ht.
  destruct (decide (o ∈ (inputs (tx_of at_)).*1)) as [Ho|Ho].
  - destruct (Hin o Ho) as [Hn Hs]. rewrite Hs. split.
    + intros [= <-]. exists at_. by rewrite lookup_insert_eq.
    + intros (tx & Htx & Hotx). destruct (decide (t = txid (tx_of at_))) as [->|Hne]; [done|].
      rewrite lookup_insert_ne in Htx by done.
      assert (mp_spent_utxos mp !! o = Some t) by (apply Hwf; eauto). congruence.
  - rewrite Hout by done. rewrite (Hwf o t). split; intros (tx & Htx & Hotx).
    + exists tx. split; [|done]. rewrite lookup_insert_ne; [done|].
      intros <-. apply Ho. by rewrite <-(Hcoll tx Htx).
    + destruct (decide (t = txid (tx_of at_))) as [->|Hne].
      * rewrite lookup_insert_eq in Htx. by simplify_eq.
      * rewrite lookup_insert_ne in Htx by done. by exists tx.
Qed.

Lemma delete_inputs_lookup (ins : list (OutPoint * Hash)) (m : gmap OutPoint Txid) o :
  fold_left (λ m (i : OutPoint * Hash), delete i.1 m) ins m !! o
  = if bool_decide (o ∈ ins.*1) then None else m !! o.
Proof.
  revert m; induction ins as [|[o' h] ins IH]; intros m; [done|]. simpl. rewrite IH.
  destruct (decide (o ∈ ins.*1)).
  { by rewrite !bool_decide_true by (csimpl; set_solver). }
  rewrite bool_decide_false by done. destruct (decide (o = o')) as [->|].
  - rewrite bool_decide_true by (csimpl; set_solver). by rewrite lookup_delete_eq.
  - rewrite bool_decide_false by (csimpl; set_solver). by rewrite lookup_delete_ne.
Qed.

Lemma remove_one_wf t tx mp :
  mp_wf mp → mp_transactions mp !! t = Some tx → mp_wf (remove_one t tx mp).
Proof.
  intros Hwf Htx o u. simpl. rewrite delete_inputs_lookup.
  case_bool_decide as Ho.
  - split; [done|]. intros (tx' & Htx' & Ho').
    apply lookup_delete_Some in Htx' as [Hne Htx'].
    assert (mp_spent_utxos mp !! o = Some u) by (apply Hwf; eauto).
    assert (mp_spent_utxos mp !! o = Some t) by (apply Hwf; eauto). congruence.
  - rewrite (Hwf o u). split; intros (tx' & Htx' & Ho').
    + exists tx'. split; [|done]. rewrite lookup_delete_ne; [done|].
      intros <-. congruence.
    + apply lookup_delete_Some in Htx' as [_ Htx']. by exists tx'.
Qed.

(** ** Insertion *)
Lemma put_input_free tid mp i :
  mp_spent_utxos mp !! i.1 = None →
  put_input tid mp i
  = Ok {| mp with mp_spent_utxos := <[i.1 := tid]> (mp_spent_utxos mp) |}.
Proof. unfold put_input. by intros ->. Qed.

Lemma put_inputs_succeeds tid ins mp :
  NoDup ins.*1 → (∀ o, o ∈ ins.*1 → mp_spent_utxos mp !! o = None) →
  ∃ mp', foldM (put_input tid) mp ins = Ok mp'.
Proof.
  revert mp; induction ins as [|[o h] ins IH]; intros mp Hnd Hfree; [by eexists|].
  csimpl in *. apply NoDup_cons in Hnd as [Hni Hnd].
  rewrite put_input_free by (simpl; apply Hfree; set_solver). simpl.
  apply IH; [done|]. simpl.
  intros o' Ho'. rewrite lookup_insert_ne by set_solver. apply Hfree. set_solver.
Qed.

Lemma put_inputs_not_panic tid ins mp :
  foldM (put_input tid) mp ins = Err MemPoolDoubleSpent ∨
  ∃ mp', foldM (put_input tid) mp ins = Ok mp'.
Proof.
  revert mp; induction ins as [|i ins IH]; intros mp; simpl; [by eauto|].
  destruct (put_input tid mp i) as [mp'|[]|] eqn:Hi; simpl; [apply IH|by left|].
  unfold put_input in Hi. by destruct (mp_spent_utxos mp !! i.1).
Qed.

(** [MemPool::put] accepts a transaction exactly when its inputs are
    distinct and no transaction of the pool spends one of them; it then adds
    the transaction alone and keeps the index exact.  Otherwise it reports a
    double spend. *)
Theorem put_spec at_ mp :
  mp_wf mp →
  (∀ tx, mp_transactions mp !! txid (tx_of at_) = Some tx →
     inputs (tx_of tx) = inputs (tx_of at_)) →
  let free := NoDup (inputs (tx_of at_)).*1 ∧
    ∀ t tx, mp_transactions mp !! t = Some tx →
      (inputs (tx_of at_)).*1 ## (inputs (tx_of tx)).*1 in
  (free → ∃ mp', put at_ mp = Ok mp' ∧ mp_wf mp' ∧
     mp_transactions mp' = <[txid (tx_of at_) := at_]> (mp_transactions mp)) ∧
  (¬ free → put at_ mp = Err MemPoolDoubleSpent).
Proof.
  intros Hwf Hcoll free. split.
  - intros [Hnd Hdisj].
    destruct (put_inputs_succeeds (txid (tx_of at_)) (inputs (tx_of at_)) mp)
      as [mp1 Hmp1]; [done| |].
    { intros o Ho. destruct (mp_spent_utxos mp !! o) as [t|] eqn:Ht; [|done].
      apply Hwf in Ht as (tx & Htx & Hotx). by destruct (Hdisj t tx Htx o Ho Hotx). }
    pose proof (put_inputs_Ok _ _ _ _ Hmp1) as (Ht & _).
    eexists. split; [unfold put; rewrite Hmp1; done|]. split.
    + eapply put_wf; [done|done|]. unfold put. by rewrite Hmp1.
    + simpl. by rewrite Ht.
  - intros Hnot. unfold put.
    destruct (put_inputs_not_panic (txid (tx_of at_)) (inputs (tx_of at_)) mp)
      as [->|[mp1 Hmp1]]; [done|]. destruct Hnot.
    apply put_inputs_Ok in Hmp1 as (_ & Hnd & Hin & _). split; [done|].
    intros t tx Htx o Ho Hotx. destruct (Hin o Ho) as [Hn _].
    assert (mp_spent_utxos mp !! o = Some t) by (apply Hwf; eauto). congruence.
Qed.

(** ** Removal *)
Definition in_pool mp (t : Txid) : Prop := is_Some (mp_transactions mp !! t).

(** [c] spends an output of [p], both in the pool. *)
Definition child_of mp (p c : Txid) : Prop :=
  ∃ ptx ctx o, mp_transactions mp !! p = Some ptx ∧ mp_transactions mp !! c = Some ctx ∧
    o ∈ (regular_outputs p (outputs (tx_of ptx))).*1 ∧ o ∈ (inputs (tx_of ctx)).*1.

Lemma outputs_total_delete m t at_ :
  m !! t = Some at_ →
  outputs_total m = (length (outputs (tx_of at_)) + outputs_total (delete t m))%nat.
Proof.
  intros Ht. unfold outputs_total.
  rewrite (map_fold_delete_L (λ _ at_ n, (length (outputs (tx_of at_)) + n)%nat) _ t at_);
    [done| |done].
  intros. lia.
Qed.

Lemma children_length t at_ mp :
  (length (children t at_ mp) ≤ length (outputs (tx_of at_)))%nat.
Proof.
  assert (∀ (f : OutPoint * Output → option Txid) l,
    (length (omap f l) ≤ length l)%nat) as Hle.
  { intros f l. induction l as [|x l IH]; csimpl; [done|]. destruct (f x); simpl; lia. }
  unfold children. etrans; [apply Hle|].
  unfold regular_outputs. by rewrite length_imap.
Qed.

Lemma elem_of_children t at_ mp c :
  c ∈ children t at_ mp ↔
  ∃ o, o ∈ (regular_outputs t (outputs (tx_of at_))).*1 ∧ mp_spent_utxos mp !! o = Some c.
Proof.
  unfold children. rewrite list_elem_of_omap. split.
  - intros ([o out] & Hin & Ho). exists o. split; [|done].
    apply list_elem_of_fmap. by exists (o, out).
  - intros (o & [[o' out] [-> Hin]]%list_elem_of_fmap & Ho). by exists (o', out).
Qed.

Lemma child_of_shrink mp cur p c :
  mp_transactions cur ⊆ mp_transactions mp → child_of cur p c → child_of mp p c.
Proof.
  intros Hsub (ptx & ctx & o & Hp & Hc & Ho). exists ptx, ctx, o.
  split_and!; try apply Ho; by eapply lookup_weaken.
Qed.

(** What the loop maintains: the pool [cur] lacks only descendants of [t], and
    whatever must still go is queued. *)
Record deleting (t : Txid) mp (pending : list Txid) cur : Prop := {
  del_wf : mp_wf cur;
  del_sub : mp_transactions cur ⊆ mp_transactions mp;
  del_queue : ∀ p, p ∈ pending → rtc (child_of mp) t p;
  del_gone : ∀ u, in_pool mp u → ¬ in_pool cur u → rtc (child_of mp) t u;
  del_children : ∀ u c,
    ¬ in_pool cur u → child_of mp u c → in_pool cur c → c ∈ pending;
  del_start : in_pool cur t → t ∈ pending;
}.

Lemma in_pool_remove_one t at_ mp u :
  in_pool (remove_one t at_ mp) u ↔ u ≠ t ∧ in_pool mp u.
Proof. unfold in_pool. simpl. rewrite lookup_delete_is_Some. naive_solver. Qed.

Lemma deleting_skip t mp p pending cur :
  deleting t mp (p :: pending) cur → mp_transactions cur !! p = None →
  deleting t mp pending cur.
Proof.
  intros [H1 H2 H3 H4 H5 H6] Hp. split; [done|done|set_solver|done| |].
  - intros u c Hu Hc Hin. specialize (H5 u c Hu Hc Hin).
    apply elem_of_cons in H5 as [->|]; [|done]. destruct Hin. congruence.
  - intros Ht. specialize (H6 Ht). apply elem_of_cons in H6 as [->|]; [|done].
    destruct Ht. congruence.
Qed.

Lemma deleting_step t mp p at_ pending cur :
  deleting t mp (p :: pending) cur → mp_transactions cur !! p = Some at_ →
  deleting t mp (pending ++ children p at_ (remove_one p at_ cur)) (remove_one p at_ cur).
Proof.
  intros [H1 H2 H3 H4 H5 H6] Hp.
  pose proof (remove_one_wf p at_ cur H1 Hp) as Hwf.
  assert (mp_transactions mp !! p = Some at_) as Hp0 by by eapply lookup_weaken.
  split; [done| | | | |].
  - simpl. etrans; [apply delete_subseteq|done].
  - intros q [Hq|Hq]%elem_of_app; [apply H3; set_solver|].
    apply rtc_r with p; [apply H3; set_solver|].
    apply elem_of_children in Hq as (o & Ho & Hs).
    apply Hwf in Hs as (qtx & Hq & Hoq). simpl in Hq. apply lookup_delete_Some in Hq as [_ Hq].
    exists at_, qtx, o. split_and!; [done| |done|done]. by eapply lookup_weaken.
  - intros u Hu Hnot. rewrite in_pool_remove_one in Hnot.
    destruct (decide (u = p)) as [->|]; [apply H3; set_solver|].
    apply H4; [done|]. naive_solver.
  - intros u c Hu Hc Hin. apply elem_of_app.
    rewrite in_pool_remove_one in Hu, Hin. destruct Hin as [Hcp Hin].
    destruct (decide (u = p)) as [->|].
    + right. apply elem_of_children. destruct Hc as (ptx & ctx & o & Hu0 & Hc0 & Ho & Hoc).
      simplify_eq. exists o. split; [done|]. apply Hwf. exists ctx. split; [|done].
      destruct Hin as [ctx' Hctx']. simpl. rewrite lookup_delete_ne by done.
      rewrite Hctx'. by rewrite (lookup_weaken _ _ _ _ Hctx' H2) in Hc0.
    + left. assert (c ∈ p :: pending); [apply (H5 u c)|set_solver]; naive_solver.
  - rewrite in_pool_remove_one. intros [Htp Ht]. apply elem_of_app. left.
    specialize (H6 Ht). set_solver.
Qed.

Lemma delete_loop_total fuel t mp pending cur :
  deleting t mp pending cur →
  (length pending + outputs_total (mp_transactions cur) < fuel)%nat →
  ∃ mp', delete_loop fuel pending cur = Some mp' ∧ deleting t mp [] mp'.
Proof.
  revert pending cur; induction fuel as [|fuel IH]; intros pending cur Hd Hfuel; [lia|].
  destruct pending as [|p pending]; simpl; [by eauto|]. simpl in Hfuel.
  destruct (mp_transactions cur !! p) as [at_|] eqn:Hp.
  - apply IH; [by apply deleting_step|]. rewrite length_app.
    pose proof (children_length p at_ (remove_one p at_ cur)).
    rewrite (outputs_total_delete _ _ _ Hp) in Hfuel. simpl. lia.
  - apply IH; [by eapply deleting_skip|lia].
Qed.

Lemma deleting_done t mp mp' u :
  deleting t mp [] mp' → in_pool mp u → in_pool mp' u ↔ ¬ rtc (child_of mp) t u.
Proof.
  intros [_ H2 _ H4 H5 H6] Hu. split.
  - intros Hin Hrtc. revert Hin. clear Hu.
    revert u Hrtc. apply (rtc_ind_r (λ u, ¬ in_pool mp' u)).
    + intros Hc. apply H6 in Hc. set_solver.
    + intros u c _ Hc Hu Hin. apply (H5 u c Hu Hc) in Hin. set_solver.
  - intros Hnot. destruct (decide (in_pool mp' u)) as [|Hn]; [done|].
    destruct Hnot. by apply H4.
Qed.

(** [mp_delete] leaves exactly the transactions that do not descend from [t]. *)
Lemma mp_delete_lookup t mp :
  mp_wf mp →
  ∃ mp', mp_delete t mp = Some mp' ∧ mp_wf mp' ∧
    ∀ u tx, mp_transactions mp' !! u = Some tx ↔
      mp_transactions mp !! u = Some tx ∧ ¬ rtc (child_of mp) t u.
Proof.
  intros Hwf.
  destruct (delete_loop_total (2 + outputs_total (mp_transactions mp)) t mp [t] mp)
    as (mp' & Hmp' & Hd); [|simpl; lia|].
  { split; [done|done| |naive_solver| |].
    - intros p ->%list_elem_of_singleton. done.
    - intros u c Hu (ptx & _ & _ & Hp & _). destruct Hu. by exists ptx.
    - intros _. by apply list_elem_of_singleton. }
  exists mp'. split; [done|]. split; [apply Hd|]. intros u tx. split.
  - intros Htx. assert (mp_transactions mp !! u = Some tx) as Hu.
    { eapply lookup_weaken; [done|]. apply Hd. }
    split; [done|]. apply (deleting_done _ _ _ u Hd); by eexists.
  - intros [Hu Hn]. apply (deleting_done _ _ _ u Hd) in Hn as [tx' Htx']; [|by eexists].
    rewrite Htx'. by rewrite (lookup_weaken _ _ _ _ Htx' (del_sub _ _ _ _ Hd)) in Hu.
Qed.

(** C26: [MemPool::delete] terminates on any pool with an exact index; it removes
    the transaction with all that descend from it and nothing else, keeps the
    index exact, and leaves no transaction that spends an output of a removed
    one. *)
Theorem mp_delete_descendants t mp :
  mp_wf mp →
  ∃ mp', mp_delete t mp = Some mp' ∧ mp_wf mp' ∧
    (∀ u tx, mp_transactions mp' !! u = Some tx ↔
      mp_transactions mp !! u = Some tx ∧ ¬ rtc (child_of mp) t u) ∧
    (∀ p c, child_of mp p c → in_pool mp' c → in_pool mp' p ∨ ¬ rtc (child_of mp) t p).
Proof.
  intros Hwf. destruct (mp_delete_lookup t mp Hwf) as (mp' & H1 & H2 & H3).
  exists mp'. split_and!; [done..|].
  intros p c Hpc [ctx Hc]. right. intros Hp.
  apply H3 in Hc as [_ []]. by eapply rtc_r.
Qed.

(** ** Regeneration of the proofs *)
Definition provable (accumulator : MemForest) (at_ : AuthorizedTransaction) : Prop :=
  is_Some (forest_prove accumulator (inputs (tx_of at_)).*2).

(** [u] descends from a transaction among [ks] whose inputs have no proof. *)
Definition doomed accumulator mp (ks : list Txid) (u : Txid) : Prop :=
  ∃ a atx, a ∈ ks ∧ mp_transactions mp !! a = Some atx ∧ ¬ provable accumulator atx ∧
    rtc (child_of mp) a u.

(** The transaction [tx] of [mp] stands in the new pool as [tx']. *)
Definition renewed accumulator (ks : list Txid) (u : Txid)
    (tx tx' : AuthorizedTransaction) : Prop :=
  if decide (u ∈ ks) then
    ∃ p, forest_prove accumulator (inputs (tx_of tx)).*2 = Some p ∧ tx' = with_proof p tx
  else tx' = tx.

(** The pool after the keys [ks]. *)
Record regenerating accumulator mp (ks : list Txid) cur : Prop := {
  reg_wf : mp_wf cur;
  reg_lookup : ∀ u tx', mp_transactions cur !! u = Some tx' ↔
    ∃ tx, mp_transactions mp !! u = Some tx ∧ ¬ doomed accumulator mp ks u ∧
      renewed accumulator ks u tx tx';
}.

Lemma renewed_tx accumulator ks u tx tx' :
  renewed accumulator ks u tx tx' →
  inputs (tx_of tx') = inputs (tx_of tx) ∧ outputs (tx_of tx') = outputs (tx_of tx).
Proof. unfold renewed. case_decide; [by intros (p & _ & ->)|by intros ->]. Qed.

Lemma regenerating_child accumulator mp ks cur p c :
  regenerating accumulator mp ks cur →
  child_of cur p c ↔ child_of mp p c ∧ in_pool cur c.
Proof.
  intros [_ Hl]. split.
  - intros (ptx & ctx & o & Hp & Hc & Ho & Hoc).
    split; [|by eexists]. apply Hl in Hp as (ptx0 & Hp & _ & Hrp), Hc as (ctx0 & Hc & _ & Hrc).
    apply renewed_tx in Hrp as [_ Hrp], Hrc as [Hrc _].
    exists ptx0, ctx0, o. by rewrite <-Hrp, <-Hrc.
  - intros [(ptx & ctx & o & Hp & Hc & Ho & Hoc) [ctx' Hc']].
    pose proof Hc' as (ctx0 & Hc0 & Hnd & Hrc)%Hl. simplify_eq.
    assert (∃ ptx', mp_transactions cur !! p = Some ptx' ∧
              outputs (tx_of ptx') = outputs (tx_of ptx)) as (ptx' & Hp' & Hop).
    { assert (¬ doomed accumulator mp ks p) as Hndp.
      { intros (a & atx & Ha & Hatx & Hpr & Hrtc). apply Hnd. exists a, atx.
        split_and!; [done..|]. eapply rtc_r; [done|]. by exists ptx, ctx, o. }
      destruct (decide (p ∈ ks)) as [Hk|Hk].
      - destruct (forest_prove accumulator (inputs (tx_of ptx)).*2) as [pf|] eqn:Hpf.
        + exists (with_proof pf ptx). split; [|done]. apply Hl. exists ptx.
          split_and!; [done..|]. unfold renewed. rewrite decide_True by done. eauto.
        + destruct Hndp. exists p, ptx. split_and!; [done|done| |done].
          intros [? ?]. congruence.
      - exists ptx. split; [|done]. apply Hl. exists ptx. split_and!; [done..|].
        unfold renewed. by rewrite decide_False. }
    apply renewed_tx in Hrc as [Hrc _].
    exists ptx', ctx', o. by rewrite Hop, Hrc.
Qed.

Lemma regenerating_rtc accumulator mp ks cur a u :
  regenerating accumulator mp ks cur → in_pool cur u →
  rtc (child_of cur) a u ↔ rtc (child_of mp) a u.
Proof.
  intros Hr Hu. split.
  - apply rtc_subrel. intros x y Hxy. by apply (regenerating_child _ _ _ _ _ _ Hr) in Hxy as [].
  - intros Hrtc. revert u Hrtc Hu.
    apply (rtc_ind_r (λ u, in_pool cur u → rtc (child_of cur) a u)); [done|].
    intros y z _ Hyz IH Hz.
    assert (child_of cur y z) as Hc by by apply (regenerating_child _ _ _ _ _ _ Hr).
    apply rtc_r with y; [|done]. apply IH. destruct Hc as (ptx & _ & _ & Hp & _).
    by exists ptx.
Qed.

Lemma doomed_snoc accumulator mp ks k u :
  doomed accumulator mp (ks ++ [k]) u ↔
  doomed accumulator mp ks u ∨
  ∃ atx, mp_transactions mp !! k = Some atx ∧ ¬ provable accumulator atx ∧
    rtc (child_of mp) k u.
Proof.
  split.
  - intros (a & atx & Ha & H).
    apply elem_of_app in Ha as [Ha|Ha%list_elem_of_singleton]; [|subst a].
    + left. by exists a, atx.
    + right. by exists atx.
  - intros [(a & atx & Ha & H)|(atx & H)].
    + exists a, atx. split; [set_solver|done].
    + exists k, atx. split; [set_solver|done].
Qed.

Lemma renewed_snoc accumulator ks k u tx tx' :
  u ≠ k → renewed accumulator (ks ++ [k]) u tx tx' ↔ renewed accumulator ks u tx tx'.
Proof.
  intros Hne. unfold renewed. destruct (decide (u ∈ ks)).
  - by rewrite decide_True by set_solver.
  - by rewrite decide_False by set_solver.
Qed.

Lemma put_proof_wf t p tx mp :
  mp_wf mp → mp_transactions mp !! t = Some tx →
  mp_wf {| mp with mp_transactions := <[t := with_proof p tx]> (mp_transactions mp) |}.
Proof.
  intros Hwf Ht o u. rewrite (Hwf o u). simpl. destruct (decide (u = t)) as [->|].
  - rewrite lookup_insert_eq, Ht. split; [|naive_solver]. intros (? & [= <-] & ?). eauto.
  - by rewrite lookup_insert_ne.
Qed.

(** The three cases of the body of the loop. *)
Lemma regenerating_skip accumulator mp ks k cur :
  regenerating accumulator mp ks cur → k ∉ ks → mp_transactions cur !! k = None →
  regenerating accumulator mp (ks ++ [k]) cur.
Proof.
  intros [Hwf Hl] Hk Hnone.
  assert (∀ ktx, mp_transactions mp !! k = Some ktx → ¬ ¬ doomed accumulator mp ks k) as Hkd.
  { intros ktx Hktx Hnd. assert (mp_transactions cur !! k = Some ktx); [|congruence].
    apply Hl. exists ktx. split_and!; [done..|]. unfold renewed. by rewrite decide_False. }
  split; [done|]. intros u tx'. rewrite Hl.
  destruct (decide (u = k)) as [->|Hne].
  { split; intros (tx & Hu & Hnd & _); destruct (Hkd tx Hu); [done|].
    intros Hd. apply Hnd, doomed_snoc. by left. }
  split; intros (tx & Hu & Hnd & Hr); exists tx; split; try done.
  - split; [|by apply renewed_snoc]. intros [?|(atx & Hatx & Hpr & Hrtc)]%doomed_snoc; [done|].
    apply (Hkd atx Hatx). intros (a & atx' & Ha & Hatx' & Hpr' & Hrtc').
    apply Hnd. exists a, atx'. split_and!; [done..|]. by transitivity k.
  - split; [|by apply renewed_snoc in Hr]. intros Hd. apply Hnd, doomed_snoc. by left.
Qed.

Lemma regenerating_tx accumulator mp ks k cur tx :
  regenerating accumulator mp ks cur → k ∉ ks → mp_transactions cur !! k = Some tx →
  mp_transactions mp !! k = Some tx ∧ ¬ doomed accumulator mp ks k.
Proof.
  intros [_ Hl] Hk (tx0 & H1 & H2 & Hr)%Hl. unfold renewed in Hr.
  rewrite decide_False in Hr by done. by subst.
Qed.

Lemma regenerating_proved accumulator mp ks k cur tx p :
  regenerating accumulator mp ks cur → k ∉ ks → mp_transactions cur !! k = Some tx →
  forest_prove accumulator (inputs (tx_of tx)).*2 = Some p →
  regenerating accumulator mp (ks ++ [k])
    {| cur with mp_transactions := <[k := with_proof p tx]> (mp_transactions cur) |}.
Proof.
  intros Hreg Hk Hcur Hp.
  destruct (regenerating_tx _ _ _ _ _ _ Hreg Hk Hcur) as [Hmp Hndk].
  destruct Hreg as [Hwf Hl]. split; [by apply put_proof_wf|]. intros u tx'. simpl.
  assert (∀ v, doomed accumulator mp (ks ++ [k]) v ↔ doomed accumulator mp ks v) as Hd.
  { intros v. rewrite doomed_snoc. split; [|by left]. intros [?|(atx & ? & [] & _)]; [done|].
    simplify_eq. by eexists. }
  setoid_rewrite Hd. destruct (decide (u = k)) as [->|Hne].
  - rewrite lookup_insert_eq. split.
    + intros [= <-]. exists tx. split_and!; [done..|]. unfold renewed.
      rewrite decide_True by set_solver. eauto.
    + intros (tx0 & Htx0 & _ & Hr). simplify_eq. unfold renewed in Hr.
      rewrite decide_True in Hr by set_solver. naive_solver.
  - rewrite lookup_insert_ne by done. rewrite Hl. by setoid_rewrite renewed_snoc.
Qed.

Lemma regenerating_evict accumulator mp ks k cur tx :
  regenerating accumulator mp ks cur → k ∉ ks → mp_transactions cur !! k = Some tx →
  forest_prove accumulator (inputs (tx_of tx)).*2 = None →
  ∃ cur', mp_delete k cur = Some cur' ∧ regenerating accumulator mp (ks ++ [k]) cur'.
Proof.
  intros Hreg Hk Hcur Hp.
  destruct (regenerating_tx _ _ _ _ _ _ Hreg Hk Hcur) as [Hmp Hndk].
  destruct (mp_delete_lookup k cur) as (cur' & Hdel & Hwf' & Hl'); [apply Hreg|].
  exists cur'. split; [done|]. split; [done|]. intros u tx'. rewrite Hl'.
  assert (¬ provable accumulator tx) as Hnp by (intros [? ?]; congruence).
  split.
  - intros [Hu Hnr]. rewrite (regenerating_rtc _ _ _ _ _ _ Hreg) in Hnr by by eexists.
    assert (u ≠ k) as Hne by (intros ->; by destruct Hnr).
    apply Hreg in Hu as (tx0 & H1 & H2 & H3). exists tx0. split_and!; [done| |].
    + intros [?|(? & _ & _ & ?)]%doomed_snoc; done.
    + by apply renewed_snoc.
  - intros (tx0 & H1 & H2 & H3).
    assert (¬ rtc (child_of mp) k u) as Hnr.
    { intros Hc. apply H2, doomed_snoc. right. by exists tx. }
    assert (u ≠ k) as Hne by (intros ->; by destruct Hnr).
    assert (mp_transactions cur !! u = Some tx') as Hu.
    { apply Hreg. exists tx0. split_and!; [done| |by apply renewed_snoc in H3].
      intros Hd. apply H2, doomed_snoc. by left. }
    split; [done|]. by rewrite (regenerating_rtc _ _ _ _ _ _ Hreg) by by eexists.
Qed.

Lemma regenerate_loop accumulator mp ks ks' cur :
  NoDup (ks ++ ks') → regenerating accumulator mp ks cur →
  ∃ cur', fold_left (regenerate_one accumulator) ks' (Some cur) = Some cur' ∧
    regenerating accumulator mp (ks ++ ks') cur'.
Proof.
  revert ks cur; induction ks' as [|k ks' IH]; intros ks cur Hnd Hreg.
  { exists cur. by rewrite app_nil_r. }
  assert (k ∉ ks) as Hk by (apply NoDup_app in Hnd as (_ & Hd & _); set_solver).
  rewrite cons_middle, (assoc_L (++)) in Hnd |- *. simpl.
  destruct (mp_transactions cur !! k) as [tx|] eqn:Hcur;
    [|by apply IH; [|apply regenerating_skip]].
  destruct (forest_prove accumulator (inputs (tx_of tx)).*2) as [p|] eqn:Hp.
  - apply IH; [done|]. by apply regenerating_proved.
  - destruct (regenerating_evict _ _ _ _ _ _ Hreg Hk Hcur Hp) as (cur' & -> & Hcur').
    by apply IH.
Qed.

(** C27: [MemPool::regenerate_proofs] never fails on a pool with an exact index.
    It evicts a transaction exactly when that transaction, or one that it
    descends from in the pool, has inputs without a proof in the accumulator;
    every other transaction keeps all but its proof, which becomes the
    accumulator's proof of its inputs. *)
Theorem regenerate_proofs_spec accumulator mp :
  mp_wf mp →
  ∃ mp', regenerate_proofs accumulator mp = Some mp' ∧ mp_wf mp' ∧
    ∀ u tx', mp_transactions mp' !! u = Some tx' ↔
      ∃ tx p, mp_transactions mp !! u = Some tx ∧
        forest_prove accumulator (inputs (tx_of tx)).*2 = Some p ∧
        tx' = with_proof p tx ∧
        ∀ a atx, mp_transactions mp !! a = Some atx → ¬ provable accumulator atx →
          ¬ rtc (child_of mp) a u.
Proof.
  intros Hwf. set (ks := (entries_by arr_bytes (mp_transactions mp)).*1).
  destruct (regenerate_loop accumulator mp [] ks mp) as (mp' & Hmp' & Hreg).
  { apply NoDup_entries_by. }
  { split; [done|]. intros u tx'. split.
    - intros Hu. exists tx'. split_and!; [done|by intros (? & ? & []%elem_of_nil & _)|].
      unfold renewed. by rewrite decide_False by apply not_elem_of_nil.
    - intros (tx & Hu & _ & Hr). unfold renewed in Hr.
      rewrite decide_False in Hr by apply not_elem_of_nil. by subst. }
  exists mp'. split; [done|]. split; [apply Hreg|]. intros u tx'.
  rewrite (reg_lookup _ _ _ _ Hreg). simpl.
  assert (∀ t tx, mp_transactions mp !! t = Some tx → t ∈ ks) as Hks.
  { intros t tx Ht. apply list_elem_of_fmap. exists (t, tx).
    by rewrite elem_of_entries_by. }
  split.
  - intros (tx & Hu & Hnd & Hr). unfold renewed in Hr. rewrite decide_True in Hr by eauto.
    destruct Hr as (p & Hp & ->). exists tx, p. split_and!; [done..|].
    intros a atx Ha Hpr Hrtc. apply Hnd. exists a, atx. eauto.
  - intros (tx & p & Hu & Hp & -> & Hnd). exists tx. split_and!; [done| |].
    + intros (a & atx & _ & Ha & Hpr & Hrtc). by apply (Hnd a atx).
    + unfold renewed. rewrite decide_True by eauto. eauto.
Qed.
End Mempool.
