(* ===== verification/Peer.v ===== *)
(** The task of a connection to a peer (lib/net/peer/task.rs, error.rs, mailbox.rs):
    what it does with the peer's state, with the peer's requests and with the messages
    of the node.

    The handlers read one state of the databases each.  Streams, their limits and the
    sending of bytes are the transport's; a channel that is closed ends the node, so
    that sending does not fail here.  What the handlers send is part of their result.

    The last section compares the verdict on a peer's tip with the archive's. *)
From S2P Require Import Prelude Bytes SwapTypes TxTypes Externals Accumulator.
From S2P Require Import BlockTypes Rollback Bundle StateDb SwapRules Auth Block BlockConnect.
From S2P Require Import Mempool Peg Ancestry SideTips Archive ArchiveIter BetterTip PeerMsg.
From S2P Require Import Addresses Net.
From S2P Require Import Monitor BlockTree ArchiveWrites ArchiveProps Invalidate Bmm ArchiveIterProps.

(** ** Errors (lib/net/peer/error.rs) *)

(** [quinn::ConnectionError] *)
Inductive QuinnError :=
| TimedOut
| ApplicationClosed (error_code : Z) (reason : list byte)
| QuinnOther.
(** [connection::Receive] *)
Inductive ReceiveError :=
| BadMagic (magic : list byte)
| Bincode
| ReceiveConnection (e : QuinnError)
(* the connection error inside the read error, if there is one *)
| ReadMagic (e : option QuinnError)
| ReadToEnd (e : option QuinnError)
| ReceiveTimeout.

Section Errors.
Context {T : ExtTypes}.

Inductive BanReason :=
| BmmVerificationFailed (tip : Tip)
| IncorrectTotalWork (tip : Tip) (total_work : Z).
(** [blocking_task::TaskError] *)
Inductive TaskError :=
| TaskArchive (e : ArchiveError)
| TaskPeerBan (r : BanReason).
(** [mailbox::Error]; the transport's errors but for the connection error inside. *)
Inductive MailboxError :=
| BlockingTask (e : TaskError)
| ForwardResponse (e : ArchiveError)
| HeartbeatTimeout
| ReceiveRequest (e : ReceiveError)
| MailboxOther (e : option QuinnError).
Inductive ConnError :=
| CeArchive (e : ArchiveError)
| CeConnection (e : QuinnError)
| CeMailbox (e : MailboxError)
| CeMissingPeerState (id : Hash)
| CeReceiveResponse (e : ReceiveError)
| CeState (e : Error)
| CeSend (e : option QuinnError).

Definition receive_is_bad_magic (e : ReceiveError) : bool :=
  match e with BadMagic _ => true | _ => false end.
Definition mailbox_is_bad_magic (e : MailboxError) : bool :=
  match e with ReceiveRequest e => receive_is_bad_magic e | _ => false end.
Definition is_bad_magic (e : ConnError) : bool :=
  match e with
  | CeMailbox e => mailbox_is_bad_magic e
  | CeReceiveResponse e => receive_is_bad_magic e
  | _ => false
  end.
Definition is_connect_timeout (e : ConnError) : bool :=
  match e with CeConnection TimedOut => true | _ => false end.

(** The connection error among the sources of an error. *)
Definition receive_source (e : ReceiveError) : option QuinnError :=
  match e with
  | ReceiveConnection e => Some e
  | ReadMagic e | ReadToEnd e => e
  | BadMagic _ | Bincode | ReceiveTimeout => None
  end.
Definition quinn_source (e : ConnError) : option QuinnError :=
  match e with
  | CeConnection e => Some e
  | CeMailbox (ReceiveRequest e) | CeReceiveResponse e => receive_source e
  | CeMailbox (MailboxOther e) | CeSend e => e
  | _ => None
  end.
Definition is_duplicate_connection (e : ConnError) : bool :=
  match quinn_source e with
  | Some (ApplicationClosed code reason) =>
      (code =? 1) && bool_decide (reason = str_bytes "already connected")
  | _ => false
  end.

Definition from_task {A} (m : res ArchiveError A) : res TaskError A :=
  match m with
  | Ok a => Ok a
  | Err e => Err (TaskArchive e)
  | Panic => Panic
  end.
End Errors.

Section Peer.
Context {T : ExtTypes} {X : ExtFuns} {W : ExtWork} {I : HashIter} {P : ExtPeer}.
Implicit Types (ar : Archive) (st : State).

(** Info to the node. *)
Inductive Info :=
| InfoError (e : ConnError) (resolved_addr : ResolvedSeedAddress)
| NeedMainchainAncestors (main_hash : BtcBlockHash) (id : Hash)
| NewTipReady (tip : Tip)
| NewTransaction (tx : Authorized Transaction)
| InfoResponse (resp : ResponseMessage) (req : Request).

(** ** The peer's tip *)

(** The answer if the peer's tip is better: [true] if its header is there, or the
    headers are requested, from those of our tip on. *)
Definition request_headers ar (tip_info : option TipInfo) (peer_tip_info : TipInfo)
    (peer_state_id : Hash) (q : Sender) : res ArchiveError (Sender * option bool) :=
  match headers ar !! block_hash (info_tip peer_tip_info) with
  | Some _ => Ok (q, Some true)
  | None =>
      start ← match tip_info with
              | None => Ok ∅
              | Some tip_info =>
                  l ← get_block_locator ar (block_hash (info_tip tip_info));
                  Ok (list_to_set l : gset BlockHash)
              end;
      let request :=
        GetHeaders (mkGetHeaders start (block_hash (info_tip peer_tip_info))
                      (Some (block_height peer_tip_info)) (Some peer_state_id)) in
      Ok ((send_request request q).1, Some false)
  end.

(** Whether the peer's mainchain tip is known and on the line of ours. *)
Definition on_our_mainchain ar (main_hash : BtcBlockHash) : res ArchiveError bool :=
  match main_header_infos ar !! main_hash with
  | None => Ok false
  | Some _ =>
      match tip_info (mainchain_tip (side_tips ar)) with
      | None => Ok false
      | Some info => is_main_descendant ar main_hash (info_block_hash info)
      end
  end.

(** The comparison with a tip of ours.  Only in the last two cases the header has to
    be there before the comparison. *)
Definition compare_peer_tip ar (tip_info peer_tip_info : TipInfo) (peer_state_id : Hash)
    (q : Sender) : res ArchiveError (Sender * option bool) :=
  let tip := info_tip tip_info in
  let peer_tip := info_tip peer_tip_info in
  let request := request_headers ar (Some tip_info) peer_tip_info peer_state_id q in
  match info_total_work tip_info ?= info_total_work peer_tip_info,
        block_height tip_info ?= block_height peer_tip_info with
  | Lt, Lt | Eq, Lt => request
  | Eq, Gt | Gt, Gt => Ok (q, None)
  | Lt, Eq =>
      shared ← shared_mainchain_lineage ar (main_block_hash tip) (main_block_hash peer_tip);
      if shared : bool then Ok (q, None) else request
  | Gt, Eq =>
      shared ← shared_mainchain_lineage ar (main_block_hash tip) (main_block_hash peer_tip);
      if negb shared then Ok (q, None) else request
  | Lt, Gt =>
      main_ancestor ←
        last_common_main_ancestor ar (main_block_hash tip) (main_block_hash peer_tip);
      tip_ancestor_height ← height_before ar main_ancestor (block_hash tip);
      match option_cmp tip_ancestor_height (Some (block_height peer_tip_info)) with
      | Lt => request
      | _ => Ok (q, None)
      end
  | Gt, Lt =>
      '(q, available) ← request;
      if decide (available = Some true) then
        main_ancestor ←
          last_common_main_ancestor ar (main_block_hash tip) (main_block_hash peer_tip);
        peer_ancestor_height ← height_before ar main_ancestor (block_hash peer_tip);
        Ok (q, match option_cmp peer_ancestor_height (Some (block_height tip_info)) with
               | Lt => None
               | _ => Some true
               end)
      else Ok (q, available)
  | Eq, Eq =>
      if decide (block_hash peer_tip = block_hash tip) then Ok (q, None)
      else
        '(q, available) ← request;
        if decide (available = Some true) then
          main_ancestor ←
            last_common_main_ancestor ar (main_block_hash tip) (main_block_hash peer_tip);
          main_ancestor_height ← get_main_height ar main_ancestor;
          before ← height_and_work_before ar main_ancestor main_ancestor_height (block_hash tip);
          peer_before ←
            height_and_work_before ar main_ancestor main_ancestor_height (block_hash peer_tip);
          Ok (q, match option_cmp (snd <$> before) (snd <$> peer_before),
                       option_cmp (fst <$> before) (fst <$> peer_before) with
                 | Lt, Eq | Eq, Eq => None
                 | _, Gt => None
                 | Gt, Eq => Some true
                 | _, Lt => Some true
                 end)
        else Ok (q, available)
  end.

Definition check_peer_tip_and_request_headers ar (tip_info : option TipInfo)
    (peer_tip_info : TipInfo) (peer_state_id : Hash) (q : Sender) :
    res ArchiveError (Sender * option bool) :=
  ours ← on_our_mainchain ar (main_block_hash (info_tip peer_tip_info));
  if negb ours then Ok (q, None)
  else
    match tip_info with
    | None => request_headers ar None peer_tip_info peer_state_id q
    | Some tip_info => compare_peer_tip ar tip_info peer_tip_info peer_state_id q
    end.

(** ** The node's own tip, for the comparison and for heartbeats *)
Definition own_tip_info ar st : res ArchiveError (option TipInfo) :=
  match tip st with
  | None => Ok None
  | Some tip =>
      tip_height ← expect (height st);
      bmm_verification ← get_best_main_verification ar tip;
      total_work ← get_total_work ar bmm_verification;
      Ok (Some (mkPeerTip tip_height (mkTip tip bmm_verification) total_work))
  end.

(** ** The peer's state *)
Definition MAX_BLOCK_REQUESTS : nat := 100.

(** [iter_missing_bodies(..).take(n).collect()]: the items up to the [n]th block whose
    body is missing. *)
Fixpoint take_missing ar (fuel : nat) (n : nat) (it : AncestorsRev BlockHash (BlockHash * Header)) :
    res ArchiveError (list BlockHash) :=
  match n with
  | O => Ok []
  | S n' =>
      '(item, it) ← ancestors_rev_next (side_rev ar) it;
      match item with
      | None => Ok []
      | Some item =>
          match fuel with
          | O => Panic
          | S fuel =>
              if contains_body ar item.1 then take_missing ar fuel n it
              else rest ← take_missing ar fuel n' it; Ok (item.1 :: rest)
          end
      end
  end.
Definition missing_bodies ar (n : nat) (b : BlockHash) (start_height : Z) :
    res ArchiveError (list BlockHash) :=
  take_missing ar (side_fuel ar) n (ancestors_rev_new b start_height).

Definition request_bodies (missing : list BlockHash) (peer_tip : Tip)
    (common_ancestor : option BlockHash) (peer_state_id : Hash) (q : Sender) : Sender :=
  fold_left (λ q b,
      (send_request (GetBlock (mkGetBlock b (Some peer_tip) common_ancestor
                                 (Some peer_state_id))) q).1) missing q.

(** The claims of the peer that can be checked against the mainchain. *)
Definition check_claims ar (peer_tip_info : TipInfo) : res TaskError () :=
  let peer_tip := info_tip peer_tip_info in
  computed_total_work ← from_task (get_total_work ar (main_block_hash peer_tip));
  _ ← ensure (info_total_work peer_tip_info =? computed_total_work)
        (TaskPeerBan (IncorrectTotalWork peer_tip (info_total_work peer_tip_info)));
  block_info ← from_task (get_main_block_info ar (main_block_hash peer_tip));
  ensure (bool_decide (bmm_commitment block_info = Some (block_hash peer_tip)))
    (TaskPeerBan (BmmVerificationFailed peer_tip)).

(** With a better tip whose headers are there: whether its bodies are. *)
Definition advance_to ar (tip_info : option TipInfo) (peer_tip : Tip) (peer_state_id : Hash)
    (q : Sender) : res TaskError (Sender * list Info) :=
  _ ← ensure (bool_decide (try_get_bmm_result ar (block_hash peer_tip)
                             (main_block_hash peer_tip) = Some Verified))
        (TaskPeerBan (BmmVerificationFailed peer_tip));
  common_ancestor ← match tip_info with
                    | Some tip_info =>
                        from_task (last_common_ancestor ar (block_hash (info_tip tip_info))
                                     (block_hash peer_tip))
                    | None => Ok None
                    end;
  start_height ← match common_ancestor with
                 | Some common_ancestor => from_task (archive_height ar common_ancestor)
                 | None => Ok 0
                 end;
  missing ← from_task (missing_bodies ar MAX_BLOCK_REQUESTS (block_hash peer_tip) start_height);
  match missing with
  | [] => Ok (q, [NewTipReady peer_tip])
  | _ => Ok (request_bodies missing peer_tip common_ancestor peer_state_id q, [])
  end.

Definition handle_peer_state ar st (s : PeerState) (q : Sender) :
    res TaskError (Sender * list Info) :=
  match peer_tip_info s with
  | None => Ok (q, [])
  | Some peer_tip_info =>
      let peer_tip := info_tip peer_tip_info in
      tip_info ← from_task (own_tip_info ar st);
      match main_header_infos ar !! main_block_hash peer_tip with
      | None => Ok (q, [NeedMainchainAncestors (main_block_hash peer_tip) (peer_state_id s)])
      | Some _ =>
          _ ← check_claims ar peer_tip_info;
          '(q, better) ← from_task
            (check_peer_tip_and_request_headers ar tip_info peer_tip_info (peer_state_id s) q);
          match better with
          | Some true => advance_to ar tip_info peer_tip (peer_state_id s) q
          | Some false | None => Ok (q, [])
          end
      end
  end.

(** ** Requests of the peer *)
Definition handle_get_block ar (b : BlockHash) : ResponseMessage :=
  match headers ar !! b, bodies ar !! b with
  | Some header, Some body => BlockResponse header body
  | _, _ => NoBlock b
  end.

(** The ancestors' headers, the earliest first, from the one after a block of
    [start]. *)
Definition handle_get_headers ar (start : gset BlockHash) (end_ : BlockHash) :
    res ArchiveError ResponseMessage :=
  match headers ar !! end_ with
  | None => Ok (NoHeaderResponse end_)
  | Some _ =>
      l ← iter_loop (ancestor_headers_next ar) (λ acc p,
              Ok (if decide (p.1 ∈ start) then inr acc else inl (acc ++ [p.2])))
            (side_fuel ar) (Some end_) [];
      Ok (HeadersResponse (reverse l))
  end.

(** ** The task's state and its outputs *)
Record ConnectionTask := mkConnTask {
  (* current peer state, known peer states *)
  current_state : option Hash;
  peer_states : gmap Hash PeerState;
  request_queue : Sender;
  (* calls of handle_peer_state on their way *)
  blocking_tasks : list PeerState;
  (* sent so far *)
  sent_heartbeats : list PeerState;
  sent_responses : list ResponseMessage;
  sent_infos : list Info;
}.
Implicit Type t : ConnectionTask.
Definition conn_new : ConnectionTask := mkConnTask None ∅ (mkSender ∅ []) [] [] [] [].

Definition spawn_peer_state (s : PeerState) t : ConnectionTask :=
  {| t with blocking_tasks := blocking_tasks t ++ [s] |}.
Definition respond (r : ResponseMessage) t : ConnectionTask :=
  {| t with sent_responses := sent_responses t ++ [r] |}.
Definition send_infos (l : list Info) t : ConnectionTask :=
  {| t with sent_infos := sent_infos t ++ l |}.

Definition handle_heartbeat (new_peer_state : PeerState) t : ConnectionTask :=
  let id := peer_state_id new_peer_state in
  let t := {| t with peer_states := <[id := new_peer_state]> (peer_states t) |} in
  if decide (current_state t = Some id) then t
  else let t := spawn_peer_state new_peer_state t in {| t with current_state := Some id |}.

Definition handle_push_tx st (tx : Authorized Transaction) t : ConnectionTask * res ConnError () :=
  match validate_transaction st tx with
  | Err e => (respond (TransactionRejected (txid (authorized_tx tx))) t, Err (CeState e))
  | Panic => (t, Panic)
  | Ok _ =>
      (send_infos [NewTransaction tx] (respond (TransactionAccepted (txid (authorized_tx tx))) t),
       Ok ())
  end.

Definition handle_peer_request ar st (m : RequestMessage) t : ConnectionTask * res ConnError () :=
  match m with
  | Heartbeat s => (handle_heartbeat s t, Ok ())
  | RequestMsg (GetBlock r) => (respond (handle_get_block ar (gb_block_hash r)) t, Ok ())
  | RequestMsg (GetHeaders r) =>
      match handle_get_headers ar (gh_start r) (gh_end r) with
      | Ok resp => (respond resp t, Ok ())
      | Err e => (t, Err (CeMailbox (ForwardResponse e)))
      | Panic => (t, Panic)
      end
  | RequestMsg (PushTransaction tx) => handle_push_tx st tx t
  end.

(** ** Messages of the node *)
Definition with_known_state (id : Hash) t : ConnectionTask * res ConnError () :=
  match peer_states t !! id with
  | None => (t, Err (CeMissingPeerState id))
  | Some s => (spawn_peer_state s t, Ok ())
  end.

Definition handle_internal_message (m : InternalMessage) t : ConnectionTask * res ConnError () :=
  match m with
  | ForwardRequest r => ({| t with request_queue := (send_request r (request_queue t)).1 |}, Ok ())
  | BmmVerification found id => if negb found then (t, Ok ()) else with_known_state id t
  | BmmVerificationError | MainchainAncestorsError => (t, Ok ())
  | MainchainAncestors id | HeadersAvailable id | BodiesAvailable id => with_known_state id t
  end.

(** ** The mailbox *)
Inductive ConnMail :=
| MailError (e : MailboxError)
| MailInternal (m : InternalMessage)
| MailHeartbeat
| MailRequest (m : RequestMessage)
| MailResponse (r : res ReceiveError ResponseMessage) (req : Request)
(* the earliest call of handle_peer_state is done *)
| MailBlockingTask.

Definition heartbeat_state (v : Version) ar st : res ArchiveError PeerState :=
  tip_info ← own_tip_info ar st; Ok (mkPeerState tip_info v).

Definition conn_turn (version : Version) (resolved : ResolvedSeedAddress) ar st
    (item : ConnMail) t : ConnectionTask * res ConnError () :=
  match item with
  | MailError e => (t, Err (CeMailbox e))
  | MailInternal m => handle_internal_message m t
  | MailHeartbeat =>
      match heartbeat_state version ar st with
      | Ok s => ({| t with sent_heartbeats := sent_heartbeats t ++ [s] |}, Ok ())
      | Err e => (t, Err (CeArchive e))
      | Panic => (t, Panic)
      end
  | MailRequest m => handle_peer_request ar st m t
  | MailResponse (Ok resp) req => (send_infos [InfoResponse resp req] t, Ok ())
  | MailResponse (Err e) _ => (send_infos [InfoError (CeReceiveResponse e) resolved] t, Ok ())
  | MailResponse Panic _ => (t, Panic)
  | MailBlockingTask =>
      match blocking_tasks t with
      | [] => (t, Ok ())
      | s :: rest =>
          let t := {| t with blocking_tasks := rest |} in
          match handle_peer_state ar st s (request_queue t) with
          | Ok (q, infos) => (send_infos infos {| t with request_queue := q |}, Ok ())
          | Err e => (t, Err (CeMailbox (BlockingTask e)))
          | Panic => (t, Panic)
          end
      end
  end.

(** The task with the databases as they are at each turn; its error is the last thing
    that it tells the node. *)
Fixpoint conn_run (version : Version) (resolved : ResolvedSeedAddress)
    (items : list (Archive * State * ConnMail)) t : ConnectionTask * bool :=
  match items with
  | [] => (t, true)
  | (ar, st, item) :: items =>
      match conn_turn version resolved ar st item t with
      | (t, Ok _) => conn_run version resolved items t
      | (t, Err e) => (send_infos [InfoError e resolved] t, false)
      | (t, Panic) => (t, false)
      end
  end.
End Peer.

(** ** The connection task's decisions agree with the archive's *)

Section PeerProps.
Context {T : ExtTypes} {X : ExtFuns} {W : ExtWork} {I : HashIter} {P : ExtPeer}.
Implicit Types (ar : Archive) (q : Sender).

Lemma request_headers_known ar ti pt id q hd :
  headers ar !! block_hash (info_tip pt) = Some hd →
  request_headers ar ti pt id q = Ok (q, Some true).
Proof. intros Hhd. unfold request_headers. by rewrite Hhd. Qed.

Lemma own_tip_info_Ok ar st ti : own_tip_info ar st = Ok (Some ti) →
  tip st = Some (block_hash (info_tip ti)) ∧ height st = Some (block_height ti) ∧
  get_best_main_verification ar (block_hash (info_tip ti)) = Ok (main_block_hash (info_tip ti)) ∧
  get_total_work ar (main_block_hash (info_tip ti)) = Ok (info_total_work ti).
Proof.
  unfold own_tip_info. destruct (tip st) as [t|]; [|done]. intros H.
  apply bind_Ok_inv in H as (h & Hh%expect_Ok & H). apply bind_Ok_inv in H as (m & Hm & H).
  by apply bind_Ok_inv in H as (w & Hw & [= <-]).
Qed.

(** The verdict on the peer's tip that the comparison of the archive gives. *)
Definition verdict (best : option Tip) (peer_tip : Tip) : option bool :=
  if decide (best = Some peer_tip) then Some true else None.

Lemma verdict_peer t : verdict (Some t) t = Some true.
Proof. unfold verdict. by rewrite decide_True. Qed.
Lemma verdict_other t t' : t ≠ t' → verdict (Some t) t' = None.
Proof. intros Hne. unfold verdict. rewrite decide_False; [done|congruence]. Qed.

(** At height zero the two differ: of two such tips on one mainchain the comparison finds
    none better, and the task takes the peer's one if it was requested earlier. *)
Lemma height_zero_differs ar ti pt id q hd :
  headers ar !! block_hash (info_tip pt) = Some hd →
  archive_height ar (block_hash (info_tip ti)) = Ok 0 → block_height ti = 0 →
  archive_height ar (block_hash (info_tip pt)) = Ok 0 → block_height pt = 0 →
  on_our_mainchain ar (main_block_hash (info_tip pt)) = Ok true →
  info_total_work pt < info_total_work ti →
  shared_mainchain_lineage ar (main_block_hash (info_tip ti)) (main_block_hash (info_tip pt))
  = Ok true →
  check_peer_tip_and_request_headers ar (Some ti) pt id q = Ok (q, Some true) ∧
  better_tip ar (info_tip ti) (info_tip pt) = Ok None.
Proof.
  intros Hhd Ha0 H0 Ha1 H1 Hours Hlt Hsh. split.
  - unfold check_peer_tip_and_request_headers. rewrite Hours. simpl. unfold compare_peer_tip.
    rewrite (request_headers_known ar (Some ti) pt id q hd Hhd), H0, H1.
    rewrite (proj2 (Z.compare_gt_iff (info_total_work ti) (info_total_work pt)) Hlt).
    simpl. by rewrite Hsh.
  - unfold better_tip. case_decide; [done|]. by rewrite Ha0, Ha1.
Qed.

(** C19: For a peer's tip whose header is stored, whose claims are right, and whose
    mainchain block is on the node's own mainchain, the connection task finds it better
    exactly if the archive's comparison of the two tips does, with the same errors, and
    requests nothing, as long as both tips are above height zero (the comparison treats
    height zero apart and the task does not: [height_zero_differs]). *)
Theorem check_peer_tip_better ar st ti pt id q hd :
  own_tip_info ar st = Ok (Some ti) →
  archive_height ar (block_hash (info_tip ti)) = Ok (block_height ti) →
  headers ar !! block_hash (info_tip pt) = Some hd →
  archive_height ar (block_hash (info_tip pt)) = Ok (block_height pt) →
  get_total_work ar (main_block_hash (info_tip pt)) = Ok (info_total_work pt) →
  on_our_mainchain ar (main_block_hash (info_tip pt)) = Ok true →
  block_height ti ≠ 0 → block_height pt ≠ 0 →
  check_peer_tip_and_request_headers ar (Some ti) pt id q
  = (best ← better_tip ar (info_tip ti) (info_tip pt); Ok (q, verdict best (info_tip pt))).
Proof.
  intros (_ & _ & _ & Hw)%own_tip_info_Ok Hh Hhd Hph Hpw Hours Hnz Hpnz.
  unfold check_peer_tip_and_request_headers. rewrite Hours. simpl. unfold compare_peer_tip.
  rewrite (request_headers_known ar (Some ti) pt id q hd Hhd).
  set (t := info_tip ti) in *. set (p := info_tip pt) in *. unfold better_tip.
  destruct (decide (t = p)) as [Heq|Hne].
  { rewrite <-Heq in *. assert (block_height ti = block_height pt) as -> by congruence.
    assert (info_total_work ti = info_total_work pt) as -> by congruence.
    rewrite !Z.compare_refl. by rewrite decide_True. }
  rewrite Hh, Hph, Hw, Hpw. cbn [mbind res_bind].
  rewrite (proj2 (Z.eqb_neq (block_height ti) 0)), (proj2 (Z.eqb_neq (block_height pt) 0)) by done.
  cbn [andb].
  destruct (info_total_work ti ?= info_total_work pt), (block_height ti ?= block_height pt);
    cbn [mbind res_bind]; rewrite ?verdict_peer, ?(verdict_other t p) by done; try done.
  all: try (destruct (shared_mainchain_lineage _ _ _) as [[]|e|]; cbn [mbind res_bind negb];
    by rewrite ?verdict_peer, ?(verdict_other t p)).
  all: try (destruct (last_common_main_ancestor _ _ _) as [c|e|]; cbn [mbind res_bind]; [|done..];
    destruct (height_before _ _ _) as [h|e|]; cbn [mbind res_bind]; [|done..];
    destruct (option_cmp _ _); by rewrite ?verdict_peer, ?(verdict_other t p)).
  destruct (decide (block_hash p = block_hash t)) as [Heq|Hneq].
  { rewrite decide_True by done. cbn [mbind res_bind]. by rewrite verdict_other. }
  rewrite (decide_False (P := block_hash t = block_hash p)) by congruence.
  rewrite decide_True by done.
  destruct (last_common_main_ancestor _ _ _) as [c|e|]; cbn [mbind res_bind]; [|done..].
  destruct (get_main_height _ _) as [h|e|]; cbn [mbind res_bind]; [|done..].
  destruct (height_and_work_before _ _ _ (block_hash t)) as [b0|e|]; cbn [mbind res_bind]; [|done..].
  destruct (height_and_work_before _ _ _ (block_hash p)) as [b1|e|]; cbn [mbind res_bind]; [|done..].
  destruct (option_cmp (snd <$> b0) (snd <$> b1)), (option_cmp (fst <$> b0) (fst <$> b1));
    by rewrite ?verdict_peer, ?(verdict_other t p).
Qed.
End PeerProps.
