(* ===== verification/Wallet.v ===== *)
(** The wallet (lib/wallet/mod.rs, lib/wallet/bip32.rs): its addresses, its coins,
    the transactions it builds and signs.

    A method opens a transaction of the database for each of its writes and commits
    it, so that what it wrote before an error stays: a method returns the wallet next
    to its result. *)
From S2P Require Import Prelude Bytes SwapTypes TxTypes Externals Accumulator.
From S2P Require Import BlockTypes Auth.

(** ** The parameters *)
Class ExtWallet {T : ExtTypes} := {
  Scalar : Type;
  Xpriv : Type;
  SigningKey : Type;
  Rng : Type;
  (* bitcoin_hashes: HMAC-SHA512 of a message under a key *)
  hmac_sha512 : list byte → list byte → list byte;
  (* curve25519_dalek *)
  scalar_from_bytes_mod_order : list byte → Scalar;
  (* bip32ish: a child index of 31 bits is hardened ([inl]) or not ([inr]) *)
  xpriv_new_master : Scalar → list byte → Xpriv;
  child_index : Z → Z + Z;
  derive_hardened : Xpriv → Z → option Xpriv;
  derive_non_hardened : Xpriv → Z → option Xpriv;
  secret_scalar : Xpriv → Scalar;
  (* frost_ristretto255 *)
  signing_key_from_scalar : Scalar → option SigningKey;
  verifying_key_of : SigningKey → VerifyingKey;
  frost_sign : Rng → SigningKey → list byte → Signature * Rng;
  (* bip39: the seed of a phrase *)
  mnemonic_seed : string → option (list byte);
  (* rayon: [par_sort_unstable_by_key] of coins by their value *)
  sort_by_value : list (OutPoint * Output) → list (OutPoint * Output);
  (* std: the iteration order of a [HashMap] of coins *)
  coin_iter : gmap OutPoint Output → list (OutPoint * Output);
}.

(** Documented behaviour of these: sorting permutes and sorts; iterating a map
    visits each entry once; a signature is valid under the signer's key. *)
Class WalletLaws {T : ExtTypes} {X : ExtFuns} {B : BatchLaws X} (E : ExtWallet) := {
  sort_by_value_perm l : sort_by_value l ≡ₚ l;
  sort_by_value_sorted l :
    StronglySorted (λ p q : OutPoint * Output, get_value p.2 ≤ get_value q.2)
      (sort_by_value l);
  coin_iter_perm m : coin_iter m ≡ₚ map_to_list m;
  signed_valid rng key msg :
    signature_valid (verifying_key_of key) (frost_sign rng key msg).1 msg;
}.

Inductive WalletError :=
| AddressNotRecoverable (a : Address) (max_index : Z)
| WalletAmountOverflow
| WalletAmountUnderflow
| Bip32
| NoSeed
| NotEnoughFunds
| NoTransferDestination
| WalletNoUtxo
| ParseMnemonic
| SeedAlreadyExists
| WalletUtreexo.

(** Big-endian indices, [u32::to_be_bytes] and [BigEndian::read_u32]. *)
Definition be_u32 (i : Z) : array 4 :=
  exist _ (reverse (le_bytes 4 i)) (eq_trans (length_reverse _) (length_le_bytes 4 i)).
Definition read_be_u32 (a : array 4) : Z := le_value (reverse (arr_bytes a)).

Definition MAX_RECOVERY_INDEX : Z := 100000.
Definition GAP_LIMIT : Z := 20.

Section Wallet.
Context {T : ExtTypes} {X : ExtFuns} {E : ExtWallet}.

(** ** State *)
Record Wallet := mkWallet {
  seed : option (list byte);
  address_to_index : gmap Address (array 4);
  index_to_address : gmap (array 4) Address;
  w_utxos : gmap OutPoint Output;
  w_stxos : gmap OutPoint SpentOutput;
}.
Definition wallet_empty : Wallet := mkWallet None ∅ ∅ ∅ ∅.

(** A method that may write and then fail. *)
Definition WM (A : Type) : Type := Wallet → Wallet * res WalletError A.
#[export] Instance WM_ret : MRet WM := λ A a w, (w, Ok a).
#[export] Instance WM_bind : MBind WM := λ A B f m w,
  match m w with
  | (w, Ok a) => f a w
  | (w, Err e) => (w, Err e)
  | (w, Panic) => (w, Panic)
  end.
Definition wread {A} (f : Wallet → res WalletError A) : WM A := λ w, (w, f w).
Definition wlift {A} (m : res WalletError A) : WM A := λ w, (w, m).
Definition wwrite (f : Wallet → Wallet) : WM () := λ w, (f w, Ok ()).

(** [Amount - Amount], which panics below zero, and [checked_add] with its error. *)
Definition amount_sub (a b : Z) : res WalletError Z := expect (u64_checked_sub a b).
Definition amount_add (a b : Z) : res WalletError Z :=
  ok_or (u64_checked_add a b) WalletAmountOverflow.

Implicit Types (w : Wallet).

(** ** Keys *)

(** [bip32::new_master_xpriv] *)
Definition scalar_from_be_bytes (bytes : list byte) : Scalar :=
  scalar_from_bytes_mod_order (reverse bytes).
Definition new_master_xpriv (seed : list byte) : Xpriv :=
  let hmac_result := hmac_sha512 (str_bytes "Bitcoin seed") seed in
  xpriv_new_master (scalar_from_be_bytes (take 32 hmac_result)) (drop 32 hmac_result).

Definition derive_signing_key (seed : list byte) (index : Z) : res WalletError SigningKey :=
  let xpriv := new_master_xpriv seed in
  xpriv ← ok_or (derive_hardened xpriv 43) Bip32;
  xpriv ← ok_or (derive_hardened xpriv 1899) Bip32;
  xpriv ← ok_or (derive_hardened xpriv 0) Bip32;
  xpriv ← ok_or (derive_hardened xpriv THIS_SIDECHAIN) Bip32;
  xpriv ← ok_or (derive_hardened xpriv 0) Bip32;
  xpriv ← ok_or (match child_index index with
                 | inl index => derive_hardened xpriv index
                 | inr index => derive_non_hardened xpriv index
                 end) Bip32;
  expect (signing_key_from_scalar (secret_scalar xpriv)).

(** [get_address(signing_key.into())] *)
Definition key_address (key : SigningKey) : Address := get_address (verifying_key_of key).

Definition derive_address_for_index (seed : list byte) (index : Z) :
    res WalletError Address :=
  key ← derive_signing_key seed index;
  Ok (key_address key).

Definition get_signing_key (index : Z) w : res WalletError SigningKey :=
  s ← ok_or (seed w) NoSeed;
  derive_signing_key s index.

(** ** Addresses *)
Definition index_entries w : list (array 4 * Address) :=
  entries_by arr_bytes (index_to_address w).
Definition last_index w : option (array 4 * Address) := last (index_entries w).

(** The two writes that every new address makes. *)
Definition index_address (index : array 4) (address : Address) w : Wallet :=
  {| w with index_to_address := <[index := address]> (index_to_address w);
            address_to_index := <[address := index]> (address_to_index w) |}.

Definition adopt_index_zero : WM () := λ w,
  match seed w, last_index w with
  | None, _ | _, None => (w, Ok ())
  | Some _, Some _ =>
      let index := be_u32 0 in
      match index_to_address w !! index with
      | Some _ => (w, Ok ())
      | None =>
          match get_signing_key 0 w with
          | Ok key => (index_address index (key_address key) w, Ok ())
          | Err e => (w, Err e)
          | Panic => (w, Panic)
          end
      end
  end.

Definition overwrite_seed (s : list byte) w : Wallet := mkWallet (Some s) ∅ ∅ ∅ ∅.
Definition has_seed w : bool := match seed w with Some _ => true | None => false end.
Definition set_seed (s : list byte) : WM () := λ w,
  match seed w with
  | Some current_seed =>
      if decide (current_seed = s) then (w, Ok ()) else (w, Err SeedAlreadyExists)
  | None => (overwrite_seed s w, Ok ())
  end.
Definition set_seed_from_mnemonic (mnemonic : string) : WM () :=
  s ← wlift (ok_or (mnemonic_seed mnemonic) ParseMnemonic);
  set_seed s.

Definition next_index w : Z :=
  match last_index w with
  | Some (last_index, _) => u32_add (read_be_u32 last_index) 1
  | None => 0
  end.
Definition get_new_address : WM Address := λ w,
  match get_signing_key (next_index w) w with
  | Ok key =>
      let address := key_address key in
      (index_address (be_u32 (next_index w)) address w, Ok address)
  | Err e => (w, Err e)
  | Panic => (w, Panic)
  end.

Definition get_last_address w : option Address := snd <$> last_index w.
Definition get_address_or_new : WM Address := λ w,
  match get_last_address w with
  | Some address => (w, Ok address)
  | None => get_new_address w
  end.

Definition address_received (a : Address) w : bool :=
  existsb (λ p : OutPoint * Output, bool_decide (address p.2 = a))
    (entries_by outpoint_key (w_utxos w)) ||
  existsb (λ p : OutPoint * SpentOutput, bool_decide (address (output p.2) = a))
    (entries_by outpoint_key (w_stxos w)).
Definition get_receive_address : WM Address := λ w,
  match last_index w with
  | Some (_, address) =>
      if address_received address w then get_new_address w else (w, Ok address)
  | None => get_new_address w
  end.

Definition get_num_addresses w : Z := Z.of_nat (size (index_to_address w)) `mod` 2 ^ 32.
Definition get_addresses w : gset Address := list_to_set (index_entries w).*2.
Definition has_address (a : Address) w : bool :=
  match address_to_index w !! a with Some _ => true | None => false end.

(** The first index that derives the address, of [fuel] ones from [index] on; an index
    that does not derive is passed over. *)
Fixpoint find_address_index (fuel : nat) (s : list byte) (a : Address) (index : Z) :
    res WalletError (option Z) :=
  match fuel with
  | O => Ok None
  | S fuel =>
      match derive_address_for_index s index with
      | Ok a' =>
          if decide (a' = a) then Ok (Some index) else find_address_index fuel s a (index + 1)
      | Err _ => find_address_index fuel s a (index + 1)
      | Panic => Panic
      end
  end.

Definition ensure_address_indexed (a : Address) : WM () := λ w,
  match address_to_index w !! a with
  | Some _ => (w, Ok ())
  | None =>
      match seed w with
      | None => (w, Err NoSeed)
      | Some s =>
          match find_address_index (Z.to_nat MAX_RECOVERY_INDEX) s a 0 with
          | Ok (Some index) => (index_address (be_u32 index) a w, Ok ())
          | Ok None => (w, Err (AddressNotRecoverable a MAX_RECOVERY_INDEX))
          | Err e => (w, Err e)
          | Panic => (w, Panic)
          end
      end
  end.

(** The loop of [recover_addresses_from_utxo_set]; [fuel] the indices left below
    [MAX_RECOVERY_INDEX]. *)
Fixpoint recover_loop (fuel : nat) (s : list byte) (utxo_addresses : gset Address)
    (gap recovered index : Z) : WM Z :=
  match fuel with
  | O => mret recovered
  | S fuel =>
      if gap <? GAP_LIMIT then
        address ← wlift (derive_address_for_index s index);
        if decide (address ∈ utxo_addresses) then
          already_indexed ← wread (λ w, Ok (has_address address w));
          if already_indexed : bool then
            recover_loop fuel s utxo_addresses 0 recovered (index + 1)
          else
            _ ← wwrite (index_address (be_u32 index) address);
            recover_loop fuel s utxo_addresses 0 (recovered + 1) (index + 1)
        else recover_loop fuel s utxo_addresses (gap + 1) recovered (index + 1)
      else mret recovered
  end.
Definition recover_addresses_from_utxo_set (utxo_addresses : gset Address) : WM Z := λ w,
  if decide (utxo_addresses = ∅) then (w, Ok 0)
  else
    match seed w with
    | None => (w, Ok 0)
    | Some s => recover_loop (Z.to_nat MAX_RECOVERY_INDEX) s utxo_addresses 0 0 0 w
    end.
End Wallet.
