(* ===== verification/WalletTx.v ===== *)
(** The wallet's coins, and the transactions it builds and signs
    (lib/wallet/mod.rs). *)
From S2P Require Import Prelude Bytes SwapTypes TxTypes Externals Accumulator.
From S2P Require Import BlockTypes Rollback Bundle StateDb SwapRules Auth Block Wallet.

(** [sort_by_key] of coins by value, a stable sort *)
Definition coin_le {T : ExtTypes} : relation (OutPoint * Output) :=
  λ p q, get_value p.2 ≤ get_value q.2.
#[export] Instance coin_le_dec {T : ExtTypes} : RelDecision coin_le.
Proof. intros p q. unfold coin_le. apply _. Defined.

Section WalletTx.
Context {T : ExtTypes} {X : ExtFuns} {E : ExtWallet}.
Implicit Types (w : Wallet) (tx : Transaction) (is_locked : OutPoint → bool).

(** ** Coins *)

(** The loop of [select_coins_with_filter]. *)
Fixpoint select_loop (value : Z) is_locked (utxos : list (OutPoint * Output))
    (total : Z) (selected : gmap OutPoint Output) :
    res WalletError (Z * gmap OutPoint Output) :=
  match utxos with
  | [] => Ok (total, selected)
  | (outpoint, output) :: utxos =>
      if is_withdrawal (content output) then select_loop value is_locked utxos total selected
      else if is_locked outpoint then select_loop value is_locked utxos total selected
      else if value <=? total then Ok (total, selected)
      else
        total ← amount_add total (get_value output);
        select_loop value is_locked utxos total (<[outpoint := output]> selected)
  end.

Definition select_coins_with_filter (value : Z) is_locked w :
    res WalletError (Z * gmap OutPoint Output) :=
  '(total, selected) ←
    select_loop value is_locked (sort_by_value (entries_by outpoint_key (w_utxos w))) 0 ∅;
  if total <? value then Err NotEnoughFunds else Ok (total, selected).
Definition select_coins (value : Z) w : res WalletError (Z * gmap OutPoint Output) :=
  select_coins_with_filter value (λ _, false) w.

Definition delete_utxos (outpoints : list OutPoint) w : Wallet :=
  {| w with w_utxos := fold_left (λ m o, delete o m) outpoints (w_utxos w) |}.

Definition spend_utxo w (p : OutPoint * InPoint) : Wallet :=
  match w_utxos w !! p.1 with
  | Some output =>
      {| w with w_utxos := delete p.1 (w_utxos w);
                w_stxos := <[p.1 := {| output := output; inpoint := p.2 |}]> (w_stxos w) |}
  | None => w
  end.
Definition spend_utxos (spent : list (OutPoint * InPoint)) w : Wallet :=
  fold_left spend_utxo spent w.

Definition put_utxos_w (new : gmap OutPoint Output) w : Wallet :=
  {| w with w_utxos :=
       fold_left (λ m p, <[p.1 := p.2]> m) (coin_iter new) (w_utxos w) |}.

Record Balance := mkBalance { total : Z; available : Z }.
Definition get_balance w : res WalletError Balance :=
  foldM (λ balance p,
      total ← amount_add (total balance) (get_value p.2);
      if is_withdrawal (content p.2) then Ok (mkBalance total (available balance))
      else
        available ← amount_add (available balance) (get_value p.2);
        Ok (mkBalance total available))
    (mkBalance 0 0) (entries_by outpoint_key (w_utxos w)).

(** ** Building transactions *)

(** The inputs of coins, with the hashes of what they spend, and their proof. *)
Definition coin_inputs (coins : list (OutPoint * Output)) : list (OutPoint * Hash) :=
  (λ p, (p.1, hash_pointed p.1 p.2)) <$> coins.
Definition prove_inputs (accumulator : MemForest) (inputs : list (OutPoint * Hash)) :
    res WalletError UtreexoProof :=
  ok_or (forest_prove accumulator inputs.*2) WalletUtreexo.

Definition create_withdrawal (accumulator : MemForest) (main_address : BtcAddress)
    (value main_fee fee : Z) is_locked : WM Transaction :=
  required ← wlift (v ← amount_add value fee; amount_add v main_fee);
  '(total, coins) ← wread (select_coins_with_filter required is_locked);
  change ← wlift (c ← amount_sub total value; c ← amount_sub c fee; amount_sub c main_fee);
  let inputs := coin_inputs (coin_iter coins) in
  proof ← wlift (prove_inputs accumulator inputs);
  address0 ← get_new_address;
  address1 ← get_new_address;
  mret {| inputs := inputs; proof := proof;
          outputs := [mkOutput address0 (Withdrawal value main_fee main_address);
                      mkOutput address1 (Value change)];
          data := RegularTx |}.

Definition create_swap_create_tx (accumulator : MemForest) (parent_chain : ParentChainType)
    (l1_recipient_address : string) (l1_amount : Z) (l2_recipient : option Address)
    (l2_amount : Z) (required_confirmations : option Z) (fee : Z) is_locked :
    WM (Transaction * SwapId) :=
  required_total ← wlift (amount_add l2_amount fee);
  '(total, coins) ← wread (select_coins_with_filter required_total is_locked);
  change ← wlift (c ← amount_sub total l2_amount; amount_sub c fee);
  first ← wlift (expect (head (coin_iter coins)));
  let l2_sender_address := address first.2 in
  let swap_id := from_l2_to_l1 l1_recipient_address l1_amount l2_sender_address l2_recipient in
  let inputs := coin_inputs (coin_iter coins) in
  proof ← wlift (prove_inputs accumulator inputs);
  let swap_output_address := default l2_sender_address l2_recipient in
  address1 ← get_new_address;
  let required_confirmations :=
    default (default_confirmations parent_chain) required_confirmations in
  mret ({| inputs := inputs; proof := proof;
           outputs := [mkOutput swap_output_address (SwapPending l2_amount swap_id);
                       mkOutput address1 (Value change)];
           data := SwapCreate swap_id parent_chain (replicate 32 x00)
                     required_confirmations l2_recipient l2_amount
                     l1_recipient_address l1_amount |}, swap_id).

Definition create_swap_claim_tx (accumulator : MemForest) (swap_id : SwapId)
    (recipient : Address) (locked_outputs : list (OutPoint * Output))
    (l2_claimer_address : option Address) : WM Transaction :=
  let inputs := coin_inputs locked_outputs in
  proof ← wlift (prove_inputs accumulator inputs);
  total_value ← wlift (foldM (λ total p, amount_add total (get_value p.2)) 0 locked_outputs);
  mret {| inputs := inputs; proof := proof;
          outputs := [mkOutput recipient (Value total_value)];
          data := SwapClaim swap_id l2_claimer_address None |}.

(** Whether a coin can pay for an acceptance. *)
Definition accept_coin (l2_claimer_address : option Address) (fee : Z) is_locked
    (p : OutPoint * Output) : bool :=
  negb (is_withdrawal (content p.2)) && negb (is_swap_pending (content p.2)) &&
  negb (is_locked p.1) &&
  match l2_claimer_address with
  | Some a => bool_decide (address p.2 = a)
  | None => true
  end && (fee <=? get_value p.2).

Definition create_swap_accept_tx (accumulator : MemForest) (swap_id : SwapId)
    (l2_claimer_address : option Address) (fee : Z) is_locked : WM Transaction :=
  candidates ← wread (λ w, Ok (merge_sort coin_le
    (filter (λ p, accept_coin l2_claimer_address fee is_locked p = true)
       (coin_iter (w_utxos w)))));
  '(outpoint, output) ← wlift (ok_or (head candidates) NotEnoughFunds);
  let claimer := default (address output) l2_claimer_address in
  change ← wlift (ok_or (u64_checked_sub (get_value output) fee) WalletAmountUnderflow);
  let utxo_hash := hash_pointed outpoint output in
  proof ← wlift (ok_or (forest_prove accumulator [utxo_hash]) WalletUtreexo);
  outputs ← (if 0 <? change then
               a ← get_new_address;
               mret [mkOutput a (Value change)]
             else mret []);
  mret {| inputs := [(outpoint, utxo_hash)]; proof := proof; outputs := outputs;
          data := SwapAccept swap_id claimer |}.

(** [BTreeMap]: in the order of the addresses. *)
Definition create_transaction_many (accumulator : MemForest) (dests : gmap Address Z)
    (fee : Z) is_locked : WM Transaction :=
  _ ← wlift (ensure (negb (bool_decide (dests = ∅))) NoTransferDestination);
  let dests := entries_by arr_bytes dests in
  value ← wlift (foldM (λ total p, amount_add total p.2) 0 dests);
  required ← wlift (amount_add value fee);
  '(total, coins) ← wread (select_coins_with_filter required is_locked);
  change ← wlift (c ← amount_sub total value; amount_sub c fee);
  let inputs := coin_inputs (coin_iter coins) in
  proof ← wlift (prove_inputs accumulator inputs);
  address1 ← get_new_address;
  mret {| inputs := inputs; proof := proof;
          outputs := ((λ p, mkOutput p.1 (Value p.2)) <$> dests) ++
                     [mkOutput address1 (Value change)];
          data := RegularTx |}.
Definition create_transaction (accumulator : MemForest) (a : Address) (value fee : Z)
    is_locked : WM Transaction :=
  create_transaction_many accumulator {[ a := value ]} fee is_locked.

(** ** Signing *)

(** [authorization::sign], and the authorization that is made from it. *)
Definition sign (rng : Rng) (key : SigningKey) tx : Signature * Rng :=
  frost_sign rng key (canonical_encoding tx).
Definition sign_tx (rng : Rng) (key : SigningKey) tx : Authorization * Rng :=
  let '(sig, rng) := sign rng key tx in
  ({| verifying_key := verifying_key_of key; signature := sig |}, rng).

(** [authorization::authorize]: signing with given keys for given addresses. *)
Fixpoint authorize_keys (rng : Rng) (addresses_signing_keys : list (Address * SigningKey)) tx :
    res AuthError (list Authorization) :=
  match addresses_signing_keys with
  | [] => Ok []
  | (a, key) :: rest =>
      _ ← ensure (bool_decide (a = get_address (verifying_key_of key))) WrongKeyForAddress;
      let '(authorization, rng) := sign_tx rng key tx in
      auths ← authorize_keys rng rest tx;
      Ok (authorization :: auths)
  end.
Definition authorize_with (rng : Rng) (addresses_signing_keys : list (Address * SigningKey)) tx :
    res AuthError (Authorized Transaction) :=
  auths ← authorize_keys rng addresses_signing_keys tx;
  Ok (mkAuthorized tx auths).

(** The loop for one input: the second turn finds the address that the first one
    indexed ([authorize_input_fuel]). *)
Fixpoint authorize_input (fuel : nat) tx (outpoint : OutPoint) (rng : Rng) :
    WM (Authorization * Rng) :=
  match fuel with
  | O => wlift Panic
  | S fuel =>
      spent_utxo ← wread (λ w, ok_or (w_utxos w !! outpoint) WalletNoUtxo);
      index ← wread (λ w, Ok (address_to_index w !! address spent_utxo));
      match (index : option (array 4)) with
      | Some idx =>
          key ← wread (get_signing_key (read_be_u32 idx));
          mret (sign_tx rng key tx)
      | None =>
          if is_swap_claim (data tx) && is_swap_pending (content spent_utxo) then
            key ← wread (get_signing_key 0);
            mret (sign_tx rng key tx)
          else
            _ ← ensure_address_indexed (address spent_utxo);
            authorize_input fuel tx outpoint rng
      end
  end.

Fixpoint authorize_inputs tx (os : list OutPoint) (rng : Rng) : WM (list Authorization) :=
  match os with
  | [] => mret []
  | o :: os =>
      '(auth, rng) ← authorize_input 2 tx o rng;
      auths ← authorize_inputs tx os rng;
      mret (auth :: auths)
  end.

Definition authorize (rng : Rng) tx : WM (Authorized Transaction) :=
  auths ← authorize_inputs tx (inputs tx).*1 rng;
  mret {| authorized_tx := tx; authorizations := auths |}.
End WalletTx.
