(* ===== verification/WalletProps.v ===== *)
(** The wallet's address book: what its two maps promise, and that every method
    keeps it (lib/wallet/mod.rs). *)
From S2P Require Import Prelude Bytes SwapTypes TxTypes Externals Accumulator.
From S2P Require Import BlockTypes Rollback Bundle StateDb SwapRules Auth Block.
From S2P Require Import Wallet WalletTx.

(** ** Big-endian indices *)
Lemma read_be_of i : is_u32 i → read_be_u32 (be_u32 i) = i.
Proof.
  intros Hi. unfold read_be_u32, be_u32, arr_bytes. cbn [proj1_sig]. rewrite reverse_involutive.
  apply le_value_bytes. change (256 ^ Z.of_nat 4) with (2 ^ 32).
  unfold is_u32, u32_MAX in Hi. lia.
Qed.

Lemma le_value_app l k : le_value (l ++ k) = le_value l + 256 ^ Z.of_nat (length l) * le_value k.
Proof.
  induction l as [|b l IH]; [simpl; lia|]. cbn [app le_value length].
  rewrite IH, Nat2Z.inj_succ, Z.pow_succ_r by lia. lia.
Qed.

Lemma le_value_range l : 0 ≤ le_value l < 256 ^ Z.of_nat (length l).
Proof.
  induction l as [|b l IH]; [simpl; lia|]. cbn [le_value length].
  pose proof (Z_of_byte_range b). rewrite Nat2Z.inj_succ, Z.pow_succ_r by lia. lia.
Qed.

Lemma read_be_range a : is_u32 (read_be_u32 a).
Proof.
  unfold read_be_u32, is_u32, u32_MAX. pose proof (le_value_range (reverse (arr_bytes a))) as H.
  rewrite length_reverse, arr_length in H. change (256 ^ Z.of_nat 4) with (2 ^ 32) in H. lia.
Qed.

(** Bytes with the most significant one first are ordered as the numbers are. *)
Lemma bytes_le_be l k : length l = length k → bytes_le l k = true →
  le_value (reverse l) ≤ le_value (reverse k).
Proof.
  revert k; induction l as [|a l IH]; intros [|b k] Hlen Hle; try done.
  rewrite !reverse_cons, !le_value_app. cbn [le_value bytes_le length] in *.
  injection Hlen as Hlen. rewrite !length_reverse, Hlen.
  pose proof (le_value_range (reverse l)) as Hl. pose proof (le_value_range (reverse k)) as Hk.
  rewrite length_reverse, Hlen in Hl. rewrite length_reverse in Hk.
  destruct (Z.ltb_spec (Z_of_byte a) (Z_of_byte b)); [nia|].
  destruct (Z.ltb_spec (Z_of_byte b) (Z_of_byte a)); [done|].
  specialize (IH k Hlen Hle). assert (Z_of_byte a = Z_of_byte b) as -> by lia. lia.
Qed.

(** The last element of a sorted list is the greatest. *)
Lemma last_greatest {A} (R : relation A) `{!Transitive R, !Reflexive R} l x y :
  Sorted R l → last l = Some x → y ∈ l → R y x.
Proof.
  intros Hs Hl Hy. apply last_Some in Hl as (l' & ->).
  apply elem_of_app in Hy as [Hy|Hy%list_elem_of_singleton]; [|by subst].
  apply Sorted_StronglySorted in Hs; [|done].
  eapply (StronglySorted_app_1_elem_of R l' [x]); [done..|by left].
Qed.

(** ** Methods that keep a property of the wallet *)
Section WalletProps.
Context {T : ExtTypes} {X : ExtFuns} {E : ExtWallet}.
Implicit Types (w : Wallet) (P : Wallet → Prop) (a : Address).

Definition preserves {A} P (m : WM A) : Prop := ∀ w, P w → P (m w).1.

Lemma preserves_ret {A} P (x : A) : preserves P (mret x).
Proof. by intros w. Qed.
Lemma preserves_read {A} P (f : Wallet → res WalletError A) : preserves P (wread f).
Proof. by intros w. Qed.
Lemma preserves_lift {A} P (m : res WalletError A) : preserves P (wlift m).
Proof. by intros w. Qed.
Lemma preserves_write P f : (∀ w, P w → P (f w)) → preserves P (wwrite f).
Proof. intros Hf w. apply Hf. Qed.
Lemma preserves_bind {A B} P (m : WM A) (f : A → WM B) :
  preserves P m → (∀ x, preserves P (f x)) → preserves P (m ≫= f).
Proof.
  intros Hm Hf w Hw. unfold mbind, WM_bind. specialize (Hm w Hw).
  destruct (m w) as [w' [x|e|]]; simpl in *; [by apply Hf|done|done].
Qed.

(** ** The address book *)

(** Each index holds the address that the seed derives at it; each address is found
    under an index that holds it. *)
Record wallet_wf w : Prop := {
  ww_derived i a : index_to_address w !! i = Some a →
    ∃ s, seed w = Some s ∧ derive_address_for_index s (read_be_u32 i) = Ok a;
  ww_index a i : address_to_index w !! a = Some i → index_to_address w !! i = Some a;
  ww_address i a : index_to_address w !! i = Some a → is_Some (address_to_index w !! a);
}.

(** It depends on the seed and the book alone. *)
Lemma wallet_wf_coins w us ss :
  wallet_wf w → wallet_wf {| w with w_utxos := us; w_stxos := ss |}.
Proof. destruct w. by intros []. Qed.

Lemma index_address_wf w i s a : wallet_wf w → is_u32 i → seed w = Some s →
  derive_address_for_index s i = Ok a → wallet_wf (index_address (be_u32 i) a w).
Proof.
  intros [Hd Hi Ha] Hu Hs Hder. destruct w as [s0 a2i i2a us ss]. simpl in *. split; simpl.
  - intros j b. rewrite lookup_insert_Some. intros [[<- <-]|[_ Hb]]; [|by apply Hd].
    exists s. by rewrite read_be_of.
  - intros b j. rewrite !lookup_insert_Some. intros [[<- <-]|[Hne Hb]]; [by left|].
    apply Hi in Hb. destruct (decide (be_u32 i = j)) as [<-|]; [|by right]. left.
    split; [done|]. destruct (Hd _ _ Hb) as (s' & Hs' & Hd'). simplify_eq.
    rewrite read_be_of in Hd' by done. congruence.
  - intros j b. rewrite lookup_insert_Some, lookup_insert_is_Some.
    intros [[<- <-]|[_ Hb]]; [by left|]. destruct (decide (a = b)); [by left|right].
    split; [done|by eapply Ha].
Qed.

Lemma get_signing_key_derives i w key : get_signing_key i w = Ok key →
  ∃ s, seed w = Some s ∧ derive_address_for_index s i = Ok (key_address key).
Proof.
  unfold get_signing_key. intros (s & Hs & Hk)%bind_Ok_inv. apply ok_or_Ok in Hs.
  exists s. split; [done|]. unfold derive_address_for_index. by rewrite Hk.
Qed.

Lemma adopt_index_zero_wf : preserves wallet_wf adopt_index_zero.
Proof.
  intros w Hw. unfold adopt_index_zero. destruct (seed w) as [s|] eqn:Hs; [|done].
  destruct (last_index w); [|done]. destruct (_ !! _); [done|].
  destruct (get_signing_key 0 w) as [key|e|] eqn:Hk; [|done..].
  apply get_signing_key_derives in Hk as (s' & Hs' & Hd). by eapply index_address_wf.
Qed.

Lemma next_index_range w : is_u32 (next_index w).
Proof. unfold next_index. destruct (last_index w) as [[]|]; [apply u32_add_range|by vm_compute]. Qed.

Lemma get_new_address_wf : preserves wallet_wf get_new_address.
Proof.
  intros w Hw. unfold get_new_address.
  destruct (get_signing_key _ w) as [key|e|] eqn:Hk; [|done..].
  apply get_signing_key_derives in Hk as (s' & Hs' & Hd). eapply index_address_wf; [done| |done..].
  apply next_index_range.
Qed.

Lemma get_address_or_new_wf : preserves wallet_wf get_address_or_new.
Proof.
  intros w Hw. unfold get_address_or_new. destruct (get_last_address w); [done|].
  by apply get_new_address_wf.
Qed.
Lemma get_receive_address_wf : preserves wallet_wf get_receive_address.
Proof.
  intros w Hw. unfold get_receive_address. destruct (last_index w) as [[i a]|].
  - destruct (address_received a w); [by apply get_new_address_wf|done].
  - by apply get_new_address_wf.
Qed.

Lemma find_address_index_Ok fuel s a index i :
  find_address_index fuel s a index = Ok (Some i) → 0 ≤ index →
  derive_address_for_index s i = Ok a ∧ index ≤ i < index + Z.of_nat fuel.
Proof.
  revert index; induction fuel as [|fuel IH]; intros index H Hi; simpl in H; [done|].
  destruct (derive_address_for_index s index) as [a'|e|] eqn:Hd; [| |done].
  - case_decide as Ha; [simplify_eq; split; [done|lia]|].
    destruct (IH _ H) as [? ?]; [lia|]. split; [done|lia].
  - destruct (IH _ H) as [? ?]; [lia|]. split; [done|lia].
Qed.

Lemma ensure_address_indexed_wf a : preserves wallet_wf (ensure_address_indexed a).
Proof.
  intros w Hw. unfold ensure_address_indexed. destruct (address_to_index w !! a); [done|].
  destruct (seed w) as [s|] eqn:Hs; [|done].
  destruct (find_address_index _ s a 0) as [[i|]|e|] eqn:Hf; [|done..].
  apply find_address_index_Ok in Hf as [Hd Hi]; [|lia]. rewrite Z2Nat.id in Hi by done. eapply index_address_wf; [done| |done..].
  unfold is_u32, u32_MAX. unfold MAX_RECOVERY_INDEX in Hi. lia.
Qed.

(** The loop runs on the seed of the wallet. *)
Lemma recover_loop_wf fuel s us gap recovered index :
  0 ≤ index → index + Z.of_nat fuel ≤ u32_MAX →
  preserves (λ w, wallet_wf w ∧ seed w = Some s) (recover_loop fuel s us gap recovered index).
Proof.
  revert gap recovered index; induction fuel as [|fuel IH]; intros gap recovered index Hi Hf.
  { apply preserves_ret. }
  cbn [recover_loop]. destruct (gap <? GAP_LIMIT); [|apply preserves_ret].
  destruct (derive_address_for_index s index) as [a|e|] eqn:Hd; [|by intros w|by intros w].
  intros w [Hw Hs]. cbv [mbind WM_bind wlift wread wwrite].
  case_decide; [|by apply IH; [lia..|]]. destruct (has_address a w); (apply IH; [lia..|]); [done|].
  split; [|done]. eapply index_address_wf; [done| |done..]. unfold is_u32. lia.
Qed.

Lemma recover_addresses_wf us : preserves wallet_wf (recover_addresses_from_utxo_set us).
Proof.
  intros w Hw. unfold recover_addresses_from_utxo_set. case_decide; [done|].
  destruct (seed w) as [s|] eqn:Hs; [|done].
  assert (Z.of_nat (Z.to_nat MAX_RECOVERY_INDEX) = MAX_RECOVERY_INDEX) as Hn by (by apply Z2Nat.id).
  revert Hn. generalize (Z.to_nat MAX_RECOVERY_INDEX) as n. intros n Hn.
  apply (recover_loop_wf n s us 0 0 0); [lia| |done]. rewrite Hn. by vm_compute.
Qed.

(** ** Building and signing *)
Lemma spend_utxos_wf l w : wallet_wf w → wallet_wf (spend_utxos l w).
Proof.
  revert w; induction l as [|p l IH]; intros w Hw; [done|]. apply IH.
  unfold spend_utxo. destruct (w_utxos w !! p.1); [|done]. by apply wallet_wf_coins.
Qed.

Ltac keep := repeat first
  [ apply preserves_ret | apply preserves_lift | apply preserves_read
  | apply get_new_address_wf | apply ensure_address_indexed_wf
  | apply preserves_bind
  | match goal with |- preserves _ (match ?x with _ => _ end) => destruct x end
  | match goal with |- ∀ _, _ => intros ? end ].

Lemma create_withdrawal_wf acc ma v mf f l : preserves wallet_wf (create_withdrawal acc ma v mf f l).
Proof. unfold create_withdrawal. keep. Qed.
Lemma create_swap_create_wf acc pc s1 v1 r v2 n f l :
  preserves wallet_wf (create_swap_create_tx acc pc s1 v1 r v2 n f l).
Proof. unfold create_swap_create_tx. keep. Qed.
Lemma create_swap_claim_wf acc id r l c : preserves wallet_wf (create_swap_claim_tx acc id r l c).
Proof. unfold create_swap_claim_tx. keep. Qed.
Lemma create_swap_accept_wf acc id c f l :
  preserves wallet_wf (create_swap_accept_tx acc id c f l).
Proof. unfold create_swap_accept_tx. keep. Qed.
Lemma create_transaction_many_wf acc d f l :
  preserves wallet_wf (create_transaction_many acc d f l).
Proof. unfold create_transaction_many. keep. Qed.

Lemma authorize_input_wf fuel tx o rng : preserves wallet_wf (authorize_input fuel tx o rng).
Proof.
  revert rng; induction fuel as [|fuel IH]; intros rng; cbn [authorize_input]; keep. apply IH.
Qed.
Lemma authorize_wf rng tx : preserves wallet_wf (authorize rng tx).
Proof.
  unfold authorize. apply preserves_bind; [|intros; apply preserves_ret].
  generalize (inputs tx).*1 as os. intros os. revert rng; induction os as [|o os IH]; intros rng.
  { apply preserves_ret. }
  cbn [authorize_inputs]. apply preserves_bind; [apply authorize_input_wf|]. intros [auth rng'].
  apply preserves_bind; [apply IH|]. intros. apply preserves_ret.
Qed.

(** ** Any use of the wallet *)
Inductive wallet_step w : Wallet → Prop :=
| ws_adopt : wallet_step w (adopt_index_zero w).1
| ws_overwrite s : wallet_step w (overwrite_seed s w)
| ws_set s : wallet_step w (set_seed s w).1
| ws_mnemonic m : wallet_step w (set_seed_from_mnemonic m w).1
| ws_new : wallet_step w (get_new_address w).1
| ws_last_or_new : wallet_step w (get_address_or_new w).1
| ws_receive : wallet_step w (get_receive_address w).1
| ws_ensure a : wallet_step w (ensure_address_indexed a w).1
| ws_recover us : wallet_step w (recover_addresses_from_utxo_set us w).1
| ws_delete os : wallet_step w (delete_utxos os w)
| ws_spend l : wallet_step w (spend_utxos l w)
| ws_put m : wallet_step w (put_utxos_w m w)
| ws_withdrawal acc ma v mf f l : wallet_step w (create_withdrawal acc ma v mf f l w).1
| ws_swap_create acc pc s1 v1 r v2 n f l :
    wallet_step w (create_swap_create_tx acc pc s1 v1 r v2 n f l w).1
| ws_swap_claim acc id r l c : wallet_step w (create_swap_claim_tx acc id r l c w).1
| ws_swap_accept acc id c f l : wallet_step w (create_swap_accept_tx acc id c f l w).1
| ws_transfer acc d f l : wallet_step w (create_transaction_many acc d f l w).1
| ws_authorize rng tx : wallet_step w (authorize rng tx w).1.

Lemma wallet_step_wf w w' : wallet_step w w' → wallet_wf w → wallet_wf w'.
Proof.
  assert (∀ s us ss, wallet_wf (mkWallet s ∅ ∅ us ss)) as Hnew by done.
  intros Hst Hw. destruct Hst.
  - by apply adopt_index_zero_wf.
  - apply Hnew.
  - unfold set_seed. destruct (seed w); [by case_decide|apply Hnew].
  - unfold set_seed_from_mnemonic. apply preserves_bind; [apply preserves_lift| |done].
    intros s w0 Hw0. unfold set_seed. destruct (seed w0); [by case_decide|apply Hnew].
  - by apply get_new_address_wf.
  - by apply get_address_or_new_wf.
  - by apply get_receive_address_wf.
  - by apply ensure_address_indexed_wf.
  - by apply recover_addresses_wf.
  - by apply wallet_wf_coins.
  - by apply spend_utxos_wf.
  - by apply wallet_wf_coins.
  - by apply create_withdrawal_wf.
  - by apply create_swap_create_wf.
  - by apply create_swap_claim_wf.
  - by apply create_swap_accept_wf.
  - by apply create_transaction_many_wf.
  - by apply authorize_wf.
Qed.

(** C39: However the wallet is used, its address book is well-formed: each index holds
    the address that the seed derives at it, and each address is found under an index
    that holds it. *)
Theorem wallet_reachable w : rtc wallet_step wallet_empty w → wallet_wf w.
Proof.
  assert (wallet_wf wallet_empty) as H0 by done. revert H0. generalize wallet_empty.
  intros w0 H0. induction 1 as [|w0 w1 w2 Hst _ IH]; [done|].
  by apply IH, (wallet_step_wf w0).
Qed.

(** ** New addresses *)
Lemma last_index_greatest w i a j b : last_index w = Some (i, a) →
  index_to_address w !! j = Some b → read_be_u32 j ≤ read_be_u32 i.
Proof.
  unfold last_index, index_entries. intros Hl Hj.
  apply (elem_of_entries_by arr_bytes) in Hj.
  assert (key_le arr_bytes (j, b) (i, a)) as Hle.
  { eapply last_greatest; [| | |exact Hl|exact Hj].
    - intros p q r. unfold key_le. apply bytes_le_trans.
    - intros p. unfold key_le. by destruct (bytes_le_total (arr_bytes p.1) (arr_bytes p.1)).
    - apply entries_by_Sorted. }
  apply bytes_le_be; [by rewrite !arr_length|exact Hle].
Qed.

Lemma elem_of_addresses w a : a ∈ get_addresses w ↔ ∃ i, index_to_address w !! i = Some a.
Proof.
  unfold get_addresses, index_entries. rewrite elem_of_list_to_set, list_elem_of_fmap. split.
  - intros ([i b] & -> & Hi). exists i. by apply elem_of_entries_by in Hi.
  - intros (i & Hi). exists (i, a). split; [done|]. by apply elem_of_entries_by.
Qed.

Lemma next_index_above w j b : (∀ i c, last_index w = Some (i, c) → read_be_u32 i < u32_MAX) →
  index_to_address w !! j = Some b → read_be_u32 j < next_index w.
Proof.
  intros Hlast Hj. unfold next_index. destruct (last_index w) as [[i c]|] eqn:Hl.
  - specialize (Hlast i c eq_refl). pose proof (last_index_greatest w i c j b Hl Hj).
    pose proof (read_be_range i) as [Hi _]. rewrite u32_add_small by lia. lia.
  - apply last_None in Hl. apply (elem_of_entries_by arr_bytes) in Hj.
    unfold index_entries in Hl. rewrite Hl in Hj. by apply not_elem_of_nil in Hj.
Qed.

Lemma index_address_lookup i a w j b :
  index_to_address (index_address i a w) !! j = Some b ↔
  (j = i ∧ b = a) ∨ (j ≠ i ∧ index_to_address w !! j = Some b).
Proof. destruct w. simpl. rewrite lookup_insert_Some. naive_solver. Qed.

(** An address that is indexed above all others is the last one. *)
Lemma last_index_above i a w :
  (∀ j b, index_to_address w !! j = Some b → read_be_u32 j < read_be_u32 i) →
  get_last_address (index_address i a w) = Some a.
Proof.
  intros Hmax. unfold get_last_address.
  assert (index_to_address (index_address i a w) !! i = Some a) as Hi
    by (apply index_address_lookup; by left).
  destruct (last_index (index_address i a w)) as [[j b]|] eqn:Hl.
  - pose proof (last_index_greatest _ _ _ _ _ Hl Hi) as Hge.
    apply last_Some_elem_of, elem_of_entries_by, index_address_lookup in Hl as [[_ ->]|[_ Hj]];
      [done|]. apply Hmax in Hj. lia.
  - apply last_None in Hl. apply (elem_of_entries_by arr_bytes) in Hi.
    unfold index_entries in Hl. rewrite Hl in Hi. by apply not_elem_of_nil in Hi.
Qed.

(** A new address is one that the wallet never had, as long as the seed derives
    different addresses at different indices and there are indices left; it is then
    the last address, and the others are kept. *)
Theorem new_address_fresh w w' s a :
  wallet_wf w → seed w = Some s →
  (∀ i j b, is_u32 i → is_u32 j → derive_address_for_index s i = Ok b →
     derive_address_for_index s j = Ok b → i = j) →
  (∀ i b, last_index w = Some (i, b) → read_be_u32 i < u32_MAX) →
  get_new_address w = (w', Ok a) →
  a ∉ get_addresses w ∧ get_addresses w' = {[ a ]} ∪ get_addresses w ∧
  get_last_address w' = Some a ∧ has_address a w' = true.
Proof.
  intros Hw Hs Hinj Hlast H. unfold get_new_address in H.
  pose proof (next_index_range w) as Hn. pose proof (next_index_above w) as Hmax.
  destruct (get_signing_key (next_index w) w) as [key|e|] eqn:Hk; [|by simplify_eq..].
  apply get_signing_key_derives in Hk as (s' & Hs' & Hd). simplify_eq.
  assert (∀ j b, index_to_address w !! j = Some b → j ≠ be_u32 (next_index w)) as Hfree.
  { intros j b Hj ->. specialize (Hmax _ b Hlast Hj). rewrite read_be_of in Hmax by done. lia. }
  split_and!.
  - rewrite elem_of_addresses. intros (j & Hj).
    destruct (ww_derived _ Hw _ _ Hj) as (s' & Hs'' & Hdj). simplify_eq.
    pose proof (Hmax _ _ Hlast Hj). pose proof (read_be_range j).
    assert (next_index w = read_be_u32 j) by (by eapply Hinj). lia.
  - apply set_eq. intros b. rewrite elem_of_union, elem_of_singleton, !elem_of_addresses.
    setoid_rewrite index_address_lookup. naive_solver.
  - apply last_index_above. intros j b Hj. rewrite read_be_of by done. by eapply Hmax.
  - destruct w. unfold has_address. simpl. by rewrite lookup_insert_eq.
Qed.
End WalletProps.
