(* ===== verification/WalletCoins.v ===== *)
(** The wallet's selection of coins (lib/wallet/mod.rs): which coins it takes, and
    when it finds too few. *)
From S2P Require Import Prelude Bytes SwapTypes TxTypes Externals Accumulator.
From S2P Require Import BlockTypes Rollback Bundle StateDb SwapRules Auth Block.
From S2P Require Import Wallet WalletTx WalletProps.

Section WalletCoins.
Context {T : ExtTypes} {X : ExtFuns} {BL : BatchLaws X} {E : ExtWallet} {L : WalletLaws E}.
Implicit Types (w : Wallet) (is_locked : OutPoint → bool) (p : OutPoint * Output).

(** What may be spent: no withdrawal, and nothing locked to a swap. *)
Definition spendable is_locked p : bool :=
  negb (is_withdrawal (content p.2)) && negb (is_locked p.1).
Definition coin_value p : Z := get_value p.2.
Lemma total_cons o out l :
  sumZ coin_value ((o, out) :: l) = get_value out + sumZ coin_value l.
Proof. done. Qed.

(** The coins that can be selected, in the order in which they are tried. *)
Definition spendable_coins is_locked w : list (OutPoint * Output) :=
  filter (λ p, spendable is_locked p = true)
    (sort_by_value (entries_by outpoint_key (w_utxos w))).

Definition coins_wf w : Prop := map_Forall (λ _ out, output_wf out) (w_utxos w).

Lemma sorted_coins_perm w : sort_by_value (entries_by outpoint_key (w_utxos w))
  ≡ₚ map_to_list (w_utxos w).
Proof. by rewrite sort_by_value_perm, entries_by_Permutation. Qed.

Lemma elem_of_spendable_coins is_locked w o out : (o, out) ∈ spendable_coins is_locked w ↔
  w_utxos w !! o = Some out ∧ spendable is_locked (o, out) = true.
Proof.
  unfold spendable_coins. rewrite list_elem_of_filter, sorted_coins_perm, elem_of_map_to_list.
  tauto.
Qed.

Lemma coin_value_pos is_locked w p : coins_wf w → p ∈ spendable_coins is_locked w →
  is_u64 (coin_value p).
Proof.
  destruct p as [o out]. intros Hwf [Ho _]%elem_of_spendable_coins. by apply get_value_range, (Hwf o).
Qed.

Lemma filter_sorted {A} (R : relation A) (f : A → Prop) `{∀ x, Decision (f x)} l :
  StronglySorted R l → StronglySorted R (filter f l).
Proof.
  induction 1 as [|x l Hs IH Hx]; [constructor|]. rewrite filter_cons. case_decide; [|done].
  constructor; [done|]. apply Forall_forall. intros y [_ Hy]%list_elem_of_filter.
  rewrite Forall_forall in Hx. by apply Hx.
Qed.

(** The outcome of the loop on coins [l], of which [l'] can be spent: it takes the
    first ones, and stops as soon as they suffice. *)
Definition takes_first (value : Z) (l' : list (OutPoint * Output)) (total : Z)
    (selected : gmap OutPoint Output)
    (m : res WalletError (Z * gmap OutPoint Output)) : Prop :=
  match m with
  | Ok (total', selected') => ∃ k r, l' = k ++ r ∧
      total' = total + sumZ coin_value k ∧ selected' = list_to_map k ∪ selected ∧
      (∀ k0 p, k = k0 ++ [p] → total + sumZ coin_value k0 < value) ∧
      (r = [] ∨ value ≤ total')
  | Err e => e = WalletAmountOverflow ∧ u64_MAX < total + sumZ coin_value l'
  | Panic => False
  end.

Lemma takes_none value l' total selected : l' = [] ∨ value ≤ total →
  takes_first value l' total selected (Ok (total, selected)).
Proof.
  intros Hl. exists [], l'. split_and!; [done|simpl; lia| | |done].
  - simpl. by rewrite (left_id_L ∅ (∪)).
  - by intros [] ?.
Qed.

Lemma takes_one value l' total selected o out m : total < value →
  o ∉ l'.*1 →
  takes_first value l' (total + get_value out) (<[o := out]> selected) m →
  takes_first value ((o, out) :: l') total selected m.
Proof.
  intros Hlt Ho. destruct m as [[t' s']|e|]; unfold takes_first; [| |done].
  - intros (k & r & -> & -> & -> & Hlast & Hr). exists ((o, out) :: k), r. split_and!.
    + done.
    + rewrite total_cons. lia.
    + simpl. rewrite <-insert_union_l. symmetry. apply insert_union_r.
      apply not_elem_of_list_to_map_1. intros Hin. apply Ho. rewrite fmap_app. set_solver.
    + intros [|q k0] p Heq; simpl in Heq; injection Heq as <- Heq.
      * simpl. lia.
      * specialize (Hlast k0 p Heq). rewrite total_cons. lia.
    + destruct Hr as [->|Hr]; [by left|right]. lia.
  - intros [-> Hbig]. split; [done|]. rewrite total_cons. lia.
Qed.

Lemma select_loop_spec value is_locked l total selected :
  NoDup l.*1 → (∀ p, p ∈ l → is_u64 (coin_value p)) →
  takes_first value (filter (λ p, spendable is_locked p = true) l) total selected
    (select_loop value is_locked l total selected).
Proof.
  revert total selected; induction l as [|[o out] l IH]; intros total selected Hnd Hval.
  { apply takes_none. by left. }
  apply NoDup_cons in Hnd as [Hno Hnd].
  assert (∀ p, p ∈ l → is_u64 (coin_value p)) as Hval' by (intros; apply Hval; by right).
  rewrite filter_cons. cbn [select_loop].
  destruct (is_withdrawal (content out)) eqn:Hwd.
  { rewrite decide_False by (unfold spendable; simpl; by rewrite Hwd). by apply IH. }
  destruct (is_locked o) eqn:Hlk.
  { rewrite decide_False by (unfold spendable; simpl; by rewrite Hwd, Hlk). by apply IH. }
  rewrite decide_True by (unfold spendable; simpl; by rewrite Hwd, Hlk).
  set (l' := filter _ l) in *.
  destruct (Z.leb_spec value total); [apply takes_none; by right|].
  unfold amount_add. destruct (u64_checked_add total (get_value out)) as [t|] eqn:Ht; cbn [ok_or].
  - apply u64_checked_add_Some in Ht as [-> Ht]. rewrite bind_Ok. apply takes_one; [done| |by apply IH].
    intros (p & Hp & Hin)%list_elem_of_fmap. apply list_elem_of_filter in Hin as [_ Hin].
    apply Hno. apply list_elem_of_fmap. by exists p.
  - split; [done|]. unfold u64_checked_add in Ht.
    destruct (Z.leb_spec (total + get_value out) u64_MAX); [done|].
    assert (0 ≤ sumZ coin_value l').
    { apply sumZ_nonneg. intros p [_ Hp]%list_elem_of_filter. by apply Hval'. }
    rewrite total_cons. lia.
Qed.

(** The outcome of a selection. *)
Lemma select_coins_outcome value is_locked w : coins_wf w →
  let all := spendable_coins is_locked w in
  match select_coins_with_filter value is_locked w with
  | Ok (total, selected) => value ≤ total ∧
      ∃ taken rest, all = taken ++ rest ∧ selected = list_to_map taken ∧
        total = sumZ coin_value taken ∧
        (∀ p q, p ∈ taken → q ∈ rest → coin_value p ≤ coin_value q) ∧
        (∀ before p, taken = before ++ [p] → sumZ coin_value before < value)
  | Err NotEnoughFunds => sumZ coin_value all < value
  | Err e => e = WalletAmountOverflow ∧ u64_MAX < sumZ coin_value all
  | Panic => False
  end.
Proof.
  intros Hwf all. unfold select_coins_with_filter.
  pose proof (select_loop_spec value is_locked (sort_by_value (entries_by outpoint_key (w_utxos w)))
    0 ∅) as H. fold (spendable_coins is_locked w) in H. fold all in H.
  assert (StronglySorted (λ p q, coin_value p ≤ coin_value q) all) as Hsort.
  { apply filter_sorted, sort_by_value_sorted. }
  assert (takes_first value all 0 ∅ (select_loop value is_locked
    (sort_by_value (entries_by outpoint_key (w_utxos w))) 0 ∅)) as Hfirst.
  { apply H.
    - rewrite sorted_coins_perm. apply NoDup_fst_map_to_list.
    - intros [o out] Hp. rewrite sorted_coins_perm, elem_of_map_to_list in Hp.
      by apply get_value_range, (Hwf o). }
  clear H. destruct (select_loop _ _ _ 0 ∅) as [[total selected]|e|]; [| |done].
  - destruct Hfirst as (k & r & Hl & -> & -> & Hlast & Hr). rewrite bind_Ok.
    destruct (Z.ltb_spec (0 + sumZ coin_value k) value) as [Hlt|Hge].
    + destruct Hr as [->|Hr]; [|lia]. rewrite Hl, (right_id_L [] (++)). lia.
    + split; [done|]. exists k, r. split_and!; [done|by rewrite (right_id_L ∅ (∪))|lia| |done].
      intros p q Hp Hq. rewrite Hl in Hsort.
      exact (StronglySorted_app_1_elem_of _ k r p q Hsort Hp Hq).
  - destruct Hfirst as [-> H]. by split.
Qed.

(** Enough coins that do not overflow are found. *)
Lemma select_coins_ok value is_locked w : coins_wf w →
  value ≤ sumZ coin_value (spendable_coins is_locked w) ≤ u64_MAX →
  ∃ taken, select_coins_with_filter value is_locked w
      = Ok (sumZ coin_value taken, list_to_map taken) ∧
    value ≤ sumZ coin_value taken ≤ u64_MAX ∧ NoDup taken.*1 ∧
    ∀ p, p ∈ taken → w_utxos w !! p.1 = Some p.2 ∧ spendable is_locked p = true.
Proof.
  intros Hwf [Hle Hmax]. pose proof (select_coins_outcome value is_locked w Hwf) as H.
  cbv zeta in H. destruct (select_coins_with_filter value is_locked w) as [[total sel]|[]|];
    try lia; try (destruct H as [? ?]; first [done|lia]).
  destruct H as (Hv & taken & rest & Hall & -> & -> & _). exists taken.
  assert (∀ p, p ∈ taken ++ rest → w_utxos w !! p.1 = Some p.2 ∧ spendable is_locked p = true)
    as Hin.
  { intros [o out] Hp. rewrite <-Hall in Hp. by apply elem_of_spendable_coins. }
  split; [done|]. split; [|split].
  - split; [done|]. rewrite Hall, sumZ_app in Hmax.
    assert (0 ≤ sumZ coin_value rest); [|lia]. apply sumZ_nonneg. intros [o out] Hp.
    destruct (Hin (o, out)) as [Ho _]; [set_solver|]. by apply get_value_range, (Hwf o).
  - assert (NoDup (spendable_coins is_locked w).*1) as Hnd.
    { eapply sublist_NoDup; [|apply fmap_sublist, sublist_filter].
      rewrite sorted_coins_perm. apply NoDup_fst_map_to_list. }
    rewrite Hall, fmap_app in Hnd. by apply NoDup_app in Hnd as [? _].
  - intros p Hp. apply Hin. set_solver.
Qed.

(** C40: Coins are selected smallest first.  A selection is made of spendable coins of
    the wallet, its total covers the value and is the sum of its coins, and without its
    greatest coin it would not cover the value; it is refused exactly if all spendable
    coins together fall short (or would overflow). *)
Theorem select_coins_spec value is_locked w : coins_wf w →
  let all := spendable_coins is_locked w in
  match select_coins_with_filter value is_locked w with
  | Ok (total, selected) => value ≤ total ∧
      ∃ taken rest, all = taken ++ rest ∧ selected = list_to_map taken ∧
        total = sumZ coin_value taken ∧
        (∀ p q, p ∈ taken → q ∈ rest → coin_value p ≤ coin_value q) ∧
        (∀ before p, taken = before ++ [p] → sumZ coin_value before < value)
  | Err NotEnoughFunds => sumZ coin_value all < value
  | Err e => e = WalletAmountOverflow ∧ u64_MAX < sumZ coin_value all
  | Panic => False
  end.
Proof. apply select_coins_outcome. Qed.
End WalletCoins.
