(* ===== verification/Node.v ===== *)
(** Connecting, disconnecting and re-organising blocks in a node
    (lib/node/net_task.rs).

    A node's database holds the state, the archive and the mempool.  A write
    transaction starts from the committed databases; it is either committed or
    dropped, so a re-organisation returns the committed databases next to its
    result.

    The last section holds what the node offers to the application
    (lib/node/mod.rs): submitting and choosing transactions, invalidating blocks. *)
From S2P Require Import Prelude Bytes SwapTypes TxTypes Externals Accumulator.
From S2P Require Import BlockTypes Rollback Bundle StateDb SwapRules Auth Block.
From S2P Require Import BlockConnect Peg Monitor Mempool Ancestry SideTips Archive.
From S2P Require Import ArchiveWrites ArchiveIter BetterTip.

Inductive NodeError :=
| ArchiveErr (e : ArchiveError)
| MemPoolErr (e : MemPoolError)
| StateErr (e : Error)
| NotInCurrentChain (b : BlockHash).

(** [?] on a result of one of the components *)
Definition lift {E A} (f : E → NodeError) (m : res E A) : res NodeError A :=
  match m with
  | Ok a => Ok a
  | Err e => Err (f e)
  | Panic => Panic
  end.

(** [is_fatal_reorg_error]: an error of the state means an invalid block. *)
Definition is_fatal_reorg_error (e : NodeError) : bool :=
  match e with StateErr _ => false | _ => true end.

Section Node.
Context {T : ExtTypes} {X : ExtFuns} {W : ExtWork} {I : HashIter}.

Record Node := mkNode {
  node_archive : Archive;
  node_mempool : MemPool;
  node_state : State;
}.
Implicit Types (node : Node) (st : State) (ar : Archive) (mp : MemPool).

(** The loops of the mempool end ([mp_delete_descendants], [regenerate_proofs_spec]),
    so the outcome without a pool does not arise. *)
Definition delete_all (txs : list Transaction) mp : res NodeError MemPool :=
  foldM (λ mp tx, expect (mp_delete (txid tx) mp)) mp txs.

Definition connect_tip_ (l1 : Swap → L1Answer) (header : Header) (body : Body)
    (two_way_peg_data : TwoWayPegData) node : res NodeError Node :=
  let block_hash := header_hash header in
  prevalidated ← lift StateErr (prevalidate (node_state node) header body);
  '(st, _) ← lift StateErr (connect_prevalidated (node_state node) header body prevalidated);
  st ← lift StateErr (connect_two_way_peg_data two_way_peg_data l1 st);
  let accumulator := get_accumulator st in
  ar ← lift ArchiveErr (put_header header (node_archive node));
  ar ← lift ArchiveErr (put_body block_hash body ar);
  let ar := put_accumulator block_hash accumulator ar in
  mp ← delete_all (transactions body) (node_mempool node);
  mp ← expect (regenerate_proofs accumulator mp);
  Ok (mkNode ar mp st).

(** ** [disconnect_tip_] *)

(** The last entry of a database of event blocks from before [height - 1]. *)
Definition last_applied (m : gmap Z (BtcBlockHash * Z)) (height : Z) :
    option (BtcBlockHash * Z) :=
  match list_find (λ p : Z * (BtcBlockHash * Z), p.2.2 < u32_sub height 1)
          (reverse (entries_by bincode_u32 m)) with
  | Some (_, p) => Some p.2
  | None => None
  end.

(** The mainchain block after which the events of the tip start. *)
Definition start_block_hash ar st (height : Z) : res NodeError (option BtcBlockHash) :=
  match last_applied (deposit_blocks st) height,
        last_applied (withdrawal_bundle_event_blocks st) height with
  | None, None => Ok None
  | Some (block_hash, _), None | None, Some (block_hash, _) => Ok (Some block_hash)
  | Some (deposit_block, deposit_height), Some (withdrawal_block, withdrawal_height) =>
      match deposit_height ?= withdrawal_height with
      | Lt => Ok (Some withdrawal_block)
      | Gt => Ok (Some deposit_block)
      | Eq =>
          b ← lift ArchiveErr (is_main_descendant ar withdrawal_block deposit_block);
          if b : bool then Ok (Some withdrawal_block)
          else
            b ← lift ArchiveErr (is_main_descendant ar deposit_block withdrawal_block);
            _ ← assert_ b;
            Ok (Some deposit_block)
      end
  end.

(** The mainchain blocks with events that the tip applied, oldest first. *)
Definition tip_peg_data ar st (tip_header : Header) (height : Z) :
    res NodeError TwoWayPegData :=
  start ← start_block_hash ar st height;
  block_infos ← lift ArchiveErr (collect_main_until ar (λ ancestor,
      Ok (match main_block_infos ar !! ancestor with
          | Some block_info =>
              match events block_info with
              | [] => None
              | evs => Some (ancestor, evs)
              end
          | None => None
          end)) (prev_main_hash tip_header) start);
  Ok (reverse block_infos).

(** [Body::authorized_transactions], which can only panic. *)
Definition authorized_of (body : Body) : res NodeError (list (Authorized Transaction)) :=
  match body_authorized_transactions body with
  | Ok l => Ok l
  | _ => Panic
  end.

Definition disconnect_tip_ node : res NodeError Node :=
  let ar := node_archive node in
  let st := node_state node in
  tip_block_hash ← lift StateErr (ok_or (tip st) NoTip);
  tip_header ← lift ArchiveErr (get_header ar tip_block_hash);
  tip_body ← lift ArchiveErr (get_body ar tip_block_hash);
  height ← lift StateErr (ok_or (height st) NoTip);
  two_way_peg_data ← tip_peg_data ar st tip_header height;
  st ← lift StateErr (disconnect_two_way_peg_data two_way_peg_data st);
  st ← lift StateErr (disconnect_tip st tip_header tip_body);
  st ← match tip st with
       | Some new_tip =>
           accumulator ← lift ArchiveErr (archive_accumulator ar new_tip);
           Ok {| st with utreexo_accumulator := Some accumulator |}
       | None => Ok {| st with utreexo_accumulator := None |}
       end;
  txs ← authorized_of tip_body;
  mp ← foldM (λ mp tx, lift MemPoolErr (put tx mp)) (node_mempool node) (reverse txs);
  mp ← expect (regenerate_proofs (get_accumulator st) mp);
  Ok (mkNode ar mp st).

(** ** [reorg_to_tip] *)

(** The tip of the state, with the best mainchain block that verifies it. *)
Definition current_tip node : res NodeError (option Tip) :=
  match tip (node_state node) with
  | None => Ok None
  | Some tip_hash =>
      bmm_verification ←
        lift ArchiveErr (get_best_main_verification (node_archive node) tip_hash);
      Ok (Some (mkTip tip_hash bmm_verification))
  end.

Definition is_better ar (old : option Tip) (new_tip : Tip) : res NodeError bool :=
  match old with
  | None => Ok true
  | Some old =>
      best ← lift ArchiveErr (better_tip ar old new_tip);
      Ok (bool_decide (best = Some new_tip))
  end.

(** The blocks to apply with their bodies, the new tip first. *)
Definition blocks_to_apply ar (new_tip : BlockHash) (common_ancestor : option BlockHash) :
    res NodeError (list (Header * Body)) :=
  header ← lift ArchiveErr (get_header ar new_tip);
  body ← lift ArchiveErr (get_body ar new_tip);
  ancestors ←
    match prev_side_hash header with
    | Some prev_side_hash =>
        lift ArchiveErr (collect_until ar (λ h,
            header ← get_header ar h;
            body ← get_body ar h;
            Ok (Some (header, body))) prev_side_hash common_ancestor)
    | None => Ok []
    end;
  Ok ((header, body) :: ancestors).

Fixpoint disconnect_times (n : nat) node : res NodeError Node :=
  match n with
  | O => Ok node
  | S n => node ← disconnect_tip_ node; disconnect_times n node
  end.

(** The number of blocks to disconnect. *)
Definition disconnects ar (tip_height : option Z) (common_ancestor : option BlockHash) :
    res NodeError Z :=
  match tip_height with
  | None => Ok 0
  | Some tip_height =>
      match common_ancestor with
      | Some c => h ← lift ArchiveErr (archive_height ar c); Ok (u32_sub tip_height h)
      | None => Ok (u32_add tip_height 1)
      end
  end.

(** The mainchain blocks of the whole re-organisation, oldest first. *)
Definition peg_data_batch ar (head : Header) (common_ancestor : option BlockHash) :
    res NodeError TwoWayPegData :=
  stop ← match common_ancestor with
         | Some c =>
             header ← lift ArchiveErr (get_header ar c);
             Ok (Some (prev_main_hash header))
         | None => Ok None
         end;
  l ← lift ArchiveErr (collect_main_until ar (λ ancestor,
      Ok (match main_block_infos ar !! ancestor with
          | Some block_info => Some (ancestor, events block_info)
          | None => None
          end)) (prev_main_hash head) stop);
  Ok (reverse l).

(** The loop ['fill_2wpd]: the blocks up to the header's mainchain parent, and the
    rest of the batch. *)
Fixpoint fill_2wpd (prev_main_hash : BtcBlockHash) (batch : TwoWayPegData) :
    TwoWayPegData * TwoWayPegData :=
  match batch with
  | [] => ([], [])
  | (block_hash, evs) :: batch =>
      if decide (block_hash = prev_main_hash) then ([(block_hash, evs)], batch)
      else let '(data, rest) := fill_2wpd prev_main_hash batch in
           ((block_hash, evs) :: data, rest)
  end.

(** The loop over the blocks, oldest first: the committed node, and the one of the
    open transaction or the error.  [l1] is what the L1 nodes answer while a block is
    connected. *)
Fixpoint apply_blocks (l1 : BlockHash → Swap → L1Answer) (old : option Tip)
    (blocks : list (Header * Body)) (batch : TwoWayPegData) (committed node : Node) :
    Node * res NodeError Node :=
  match blocks with
  | [] => (committed, Ok node)
  | (header, body) :: blocks =>
      let '(data, batch) := fill_2wpd (prev_main_hash header) batch in
      match connect_tip_ (l1 (header_hash header)) header body data node with
      | Panic => (committed, Panic)
      | Err err =>
          if is_fatal_reorg_error err then (committed, Err err)
          else
            match delete_body (header_hash header) (node_archive committed) with
            | Ok ar =>
                (mkNode ar (node_mempool committed) (node_state committed), Err err)
            | Err e => (committed, Err (ArchiveErr e))
            | Panic => (committed, Panic)
            end
      | Ok node =>
          let verdict :=
            new_tip_hash ← expect (tip (node_state node));
            bmm_verification ←
              lift ArchiveErr (get_best_main_verification (node_archive node) new_tip_hash);
            is_better (node_archive node) old (mkTip new_tip_hash bmm_verification) in
          match verdict with
          | Ok true => apply_blocks l1 old blocks batch node node
          | Ok false => apply_blocks l1 old blocks batch committed node
          | Err e => (committed, Err e)
          | Panic => (committed, Panic)
          end
      end
  end.

(** What is read and disconnected before a block is applied: the blocks to apply,
    oldest first, the mainchain's data and the open transaction; nothing when the new
    tip is not better. *)
Definition prepare_reorg (new_tip : Tip) node :
    res NodeError (option (option Tip * list (Header * Body) * TwoWayPegData * Node)) :=
  let ar := node_archive node in
  let tip_height := height (node_state node) in
  old ← current_tip node;
  better ← is_better ar old new_tip;
  if negb better then Ok None
  else
    common_ancestor ←
      match old with
      | Some old =>
          lift ArchiveErr (last_common_ancestor ar (block_hash old) (block_hash new_tip))
      | None => Ok None
      end;
    blocks ← blocks_to_apply ar (block_hash new_tip) common_ancestor;
    n ← disconnects ar tip_height common_ancestor;
    node ← disconnect_times (Z.to_nat n) node;
    _ ← assert_ (bool_decide (tip (node_state node) = common_ancestor));
    head ← expect (head blocks);
    batch ← peg_data_batch (node_archive node) head.1 common_ancestor;
    Ok (Some (old, reverse blocks, batch, node)).

Definition reorg_to_tip (l1 : BlockHash → Swap → L1Answer) (new_tip : Tip) node :
    Node * res NodeError bool :=
  match prepare_reorg new_tip node with
  | Err e => (node, Err e)
  | Panic => (node, Panic)
  | Ok None => (node, Ok false)
  | Ok (Some (old, blocks, batch, working)) =>
      match apply_blocks l1 old blocks batch node working with
      | (committed, Err e) => (committed, Err e)
      | (committed, Panic) => (committed, Panic)
      | (committed, Ok working) =>
          if decide (tip (node_state working) = Some (block_hash new_tip)) then (working, Ok true)
          else (committed, Panic)
      end
  end.
End Node.

(** ** What a node offers to its application *)

Section NodeOps.
Context {T : ExtTypes} {X : ExtFuns} {W : ExtWork} {I : HashIter}.
Implicit Types (node : Node) (st : State).

(** ** [submit_transaction] *)

(** The text of an error mentions an orphaned lock or a corrupted swap. *)
Definition mentions_orphan (e : Error) : bool :=
  match e with
  | InvalidTransaction InputLockedToMissingSwap => true
  | _ => false
  end.

Definition put_in_pool (at_ : AuthorizedTransaction) node : res NodeError Node :=
  mp ← lift MemPoolErr (put at_ (node_mempool node));
  Ok (mkNode (node_archive node) mp (node_state node)).

(** The node next to the result: the clean-up of locks is committed before the
    transaction is validated again. *)
Definition submit_transaction (at_ : AuthorizedTransaction) node : Node * res NodeError () :=
  match regenerate_proof (node_state node) (authorized_tx at_) with
  | Err e => (node, Err (StateErr e))
  | Panic => (node, Panic)
  | Ok tx =>
      let at_ := mkAuthorized tx (authorizations at_) in
      match validate_transaction (node_state node) at_ with
      | Panic => (node, Panic)
      | Ok _ =>
          match put_in_pool at_ node with
          | Ok node => (node, Ok ())
          | Err e => (node, Err e)
          | Panic => (node, Panic)
          end
      | Err err =>
          if mentions_orphan err then
            let '(st, cleaned) := cleanup_orphaned_locks (node_state node) in
            if 0 <? cleaned then
              let node := mkNode (node_archive node) (node_mempool node) st in
              match (_ ← lift StateErr (validate_transaction st at_); put_in_pool at_ node) with
              | Ok node => (node, Ok ())
              | Err e => (node, Err e)
              | Panic => (node, Panic)
              end
            else (node, Err (StateErr err))
          else (node, Err (StateErr err))
      end
  end.

(** ** [get_transactions] *)
Definition remove_from_mempool (tid : Txid) node : res NodeError Node :=
  mp ← expect (mp_delete tid (node_mempool node));
  Ok (mkNode (node_archive node) mp (node_state node)).

(** [State::fill_authorized_transaction] *)
Definition fill_authorized_transaction st (at_ : AuthorizedTransaction) :
    res Error (Authorized FilledTransaction) :=
  ftx ← fill_transaction st (authorized_tx at_);
  Ok (mkAuthorized ftx (authorizations at_)).

Inductive GetTxError := GetTxState (e : Error) | GetTxOverflow | GetTxUnderflow.

Record Template := mkTemplate {
  tpl_pool : MemPool;
  tpl_fee : Z;
  tpl_transactions : list (Authorized FilledTransaction);
  tpl_spent : gset (OutPoint * Hash);
}.

(** The fee of a transaction; the errors are as in the code, which names the wrong one
    for the difference and for the sum. *)
Definition template_fee (ftx : FilledTransaction) (fee : Z) : res GetTxError Z :=
  value_in ← ok_or (checked_sum get_value (spent_utxos ftx)) GetTxOverflow;
  value_out ← ok_or (checked_sum get_value (outputs (transaction ftx))) GetTxOverflow;
  tx_fee ← ok_or (u64_checked_sub value_in value_out) GetTxOverflow;
  ok_or (u64_checked_add fee tx_fee) GetTxUnderflow.

Definition template_step st (acc : Template) (at_ : AuthorizedTransaction) :
    res GetTxError Template :=
  let tx := authorized_tx at_ in
  let drop_tx :=
    mp ← expect (mp_delete (txid tx) (tpl_pool acc));
    Ok (mkTemplate mp (tpl_fee acc) (tpl_transactions acc) (tpl_spent acc)) in
  let ins : gset (OutPoint * Hash) := list_to_set (inputs tx) in
  if decide (tpl_spent acc ∩ ins = ∅) then
    match validate_transaction st at_ with
    | Panic => Panic
    | Err _ => drop_tx
    | Ok _ =>
        match fill_authorized_transaction st at_ with
        | Panic => Panic
        | Err e => Err (GetTxState e)
        | Ok filled =>
            fee ← template_fee (authorized_tx filled) (tpl_fee acc);
            Ok (mkTemplate (tpl_pool acc) fee (tpl_transactions acc ++ [filled])
                  (tpl_spent acc ∪ ins))
        end
    end
  else drop_tx.

Definition get_transactions (number : nat) node :
    Node * res GetTxError (list (Authorized FilledTransaction) * Z) :=
  match foldM (template_step (node_state node)) (mkTemplate (node_mempool node) 0 [] ∅)
          (mp_take number (node_mempool node)) with
  | Ok acc =>
      (mkNode (node_archive node) (tpl_pool acc) (node_state node),
       Ok (tpl_transactions acc, tpl_fee acc))
  | Err e => (node, Err e)
  | Panic => (node, Panic)
  end.

(** ** [invalidate_block] *)

(** The loop that disconnects blocks until the parent of the invalid one is the tip;
    each turn lowers the height of the tip. *)
Fixpoint disconnect_until (fuel : nat) (target : option BlockHash) node :
    res NodeError Node :=
  if decide (tip (node_state node) = target) then Ok node
  else
    match fuel with
    | O => Panic
    | S fuel => node ← disconnect_tip_ node; disconnect_until fuel target node
    end.

Definition node_invalidate_block (b : BlockHash) node : Node * res NodeError () :=
  let ar := node_archive node in
  match headers ar !! b with
  | None => (node, Ok ())
  | Some header =>
      let result :=
        in_active_chain ←
          match tip (node_state node) with
          | Some t => lift ArchiveErr (is_descendant ar b t)
          | None => Ok false
          end;
        node ← (if in_active_chain : bool
                then disconnect_until (S (Z.to_nat (next_height (node_state node))))
                       (prev_side_hash header) node
                else Ok node);
        ar ← expect (invalidate_block b (node_archive node));
        Ok (mkNode ar (node_mempool node) (node_state node)) in
      match result with
      | Ok node => (node, Ok ())
      | Err e => (node, Err e)
      | Panic => (node, Panic)
      end
  end.
End NodeOps.
