(* ===== verification/NodeProps.v ===== *)
(** What a re-organisation commits (lib/node/net_task.rs). *)
From S2P Require Import Prelude Bytes SwapTypes TxTypes Externals Accumulator.
From S2P Require Import BlockTypes Rollback Bundle StateDb SwapRules Auth Block.
From S2P Require Import BlockConnect Peg Monitor Mempool Ancestry BlockTree SideTips.
From S2P Require Import Archive ArchiveWrites ArchiveProps Invalidate Bmm ArchiveIter.
From S2P Require Import BetterTip Node.

Section NodeProps.
Context {T : ExtTypes} {X : ExtFuns} {W : ExtWork} {I : HashIter} {IL : HashIterLaws I}.
Implicit Types (node : Node) (st : State) (ar : Archive) (new : Tip).

(** ** Tips are compared by the trees alone *)
Lemma same_lineages ar ar' : same_but_tips ar ar' →
  side_lineage ar' = side_lineage ar ∧ main_lineage ar' = main_lineage ar.
Proof.
  destruct ar, ar'. unfold same_but_tips, side_tree, main_tree. simpl.
  intros (Hs & Hm & _). by simplify_eq.
Qed.

Lemma same_reads ar ar' : same_but_tips ar ar' →
  archive_height ar' = archive_height ar ∧ get_header ar' = get_header ar ∧
  get_main_height ar' = get_main_height ar ∧ get_total_work ar' = get_total_work ar ∧
  get_bmm_results ar' = get_bmm_results ar ∧ side_fuel ar' = side_fuel ar ∧
  ancestor_headers_next ar' = ancestor_headers_next ar.
Proof.
  destruct ar, ar'. unfold same_but_tips, side_tree, main_tree. simpl.
  intros (Hs & Hm & -> & -> & -> & ->). by simplify_eq.
Qed.

Lemma better_tip_same ar ar' t0 t1 : same_but_tips ar ar' →
  better_tip ar' t0 t1 = better_tip ar t0 t1.
Proof.
  intros Hs. destruct (same_lineages ar ar' Hs) as [Hside Hmain].
  destruct (same_reads ar ar' Hs) as (Hh & Hget & Hmh & Hw & _ & Hf & Hnext).
  unfold better_tip, height_before, height_and_work_before, before_ancestor,
    find_map_ancestors, is_main_descendant, get_nth_main_ancestor,
    shared_mainchain_lineage, last_common_main_ancestor.
  by rewrite Hmain, Hh, Hget, Hmh, Hw, Hf, Hnext.
Qed.

Lemma best_verification_same ar ar' h : same_but_tips ar ar' →
  get_best_main_verification ar' h = get_best_main_verification ar h.
Proof.
  intros Hs. destruct (same_reads ar ar' Hs) as (_ & _ & _ & Hw & Hr & _).
  unfold get_best_main_verification, try_get_best_main_verification. by rewrite Hw, Hr.
Qed.

Lemma is_better_same ar ar' old new : same_but_tips ar ar' →
  is_better ar' old new = is_better ar old new.
Proof.
  intros Hs. unfold is_better. destruct old; [|done]. by rewrite (better_tip_same ar ar').
Qed.

(** ** Commits *)

(** What may be committed in a re-organisation that starts at [node0] with the tip
    [old]: the same state and mempool, or a state with a better tip. *)
Definition may_commit node0 (old : option Tip) node : Prop :=
  (node_state node = node_state node0 ∧ node_mempool node = node_mempool node0) ∨
  ∃ new, current_tip node = Ok (Some new) ∧ is_better (node_archive node) old new = Ok true.

Lemma may_commit_same node0 old ar mp st ar' :
  same_but_tips ar ar' → may_commit node0 old (mkNode ar mp st) →
  may_commit node0 old (mkNode ar' mp st).
Proof.
  intros Hs [Hsame|(new & Hcur & Hb)]; [by left|]. right. exists new. simpl in *.
  rewrite (is_better_same ar) by done. split; [|done]. unfold current_tip in *. simpl in *.
  destruct (tip st); [|done]. by rewrite (best_verification_same ar).
Qed.

(** What [apply_blocks] checks of a connected block. *)
Definition block_verdict (old : option Tip) node : res NodeError bool :=
  new_tip_hash ← expect (tip (node_state node));
  bmm_verification ←
    lift ArchiveErr (get_best_main_verification (node_archive node) new_tip_hash);
  is_better (node_archive node) old (mkTip new_tip_hash bmm_verification).

Lemma block_verdict_true node0 old node :
  block_verdict old node = Ok true → may_commit node0 old node.
Proof.
  intros Hv. right. unfold block_verdict in Hv. apply bind_Ok_inv in Hv as (t & Ht & Hv).
  apply bind_Ok_inv in Hv as (v & Hbest & Hv). apply expect_Ok in Ht.
  exists (mkTip t v). unfold current_tip. by rewrite Ht, Hbest, bind_Ok.
Qed.

Lemma apply_blocks_commits l1 old node0 blocks batch committed node committed' r :
  apply_blocks l1 old blocks batch committed node = (committed', r) →
  may_commit node0 old committed → may_commit node0 old committed'.
Proof.
  revert batch committed node; induction blocks as [|[header body] blocks IH];
    intros batch committed node H Hc; cbn [apply_blocks] in H; [by simplify_eq|].
  destruct (fill_2wpd _ batch) as [data batch'].
  destruct (connect_tip_ _ header body data node) as [node1|err|]; cbn [lift] in H.
  - change (x ← expect (tip (node_state node1)); _) with (block_verdict old node1) in H.
    destruct (block_verdict old node1) as [[]|e|] eqn:Hv; [| |by simplify_eq..].
    + eapply IH; [exact H|]. by apply block_verdict_true.
    + by eapply IH.
  - destruct (is_fatal_reorg_error err); [by simplify_eq|].
    destruct (delete_body _ _) as [ar'|e|] eqn:Hd; simplify_eq; [|done|done].
    destruct committed as [ar mp st]. simpl in *.
    eapply may_commit_same; [by eapply delete_body_same|done].
  - by simplify_eq.
Qed.

Lemma prepare_reorg_Ok new node old r :
  current_tip node = Ok old → prepare_reorg new node = Ok r →
  match r with
  | None => is_better (node_archive node) old new = Ok false
  | Some (old', _, _, _) => old' = old ∧ is_better (node_archive node) old new = Ok true
  end.
Proof.
  intros Hold Hp. unfold prepare_reorg in Hp. rewrite Hold, bind_Ok in Hp.
  apply bind_Ok_inv in Hp as ([] & Hb & Hp); cbn [negb] in Hp; [|by simplify_eq].
  apply bind_Ok_inv in Hp as (ca & _ & Hp). apply bind_Ok_inv in Hp as (bl & _ & Hp).
  apply bind_Ok_inv in Hp as (n & _ & Hp). apply bind_Ok_inv in Hp as (nd & _ & Hp).
  apply bind_Ok_inv in Hp as ([] & _ & Hp). apply bind_Ok_inv in Hp as (hd & _ & Hp).
  by apply bind_Ok_inv in Hp as (b & _ & [= <-]).
Qed.

Lemma reorg_outcome l1 new node node' r old :
  reorg_to_tip l1 new node = (node', r) → current_tip node = Ok old →
  match r with
  | Ok true => tip (node_state node') = Some (block_hash new) ∧
      is_better (node_archive node) old new = Ok true
  | Ok false => node' = node ∧ is_better (node_archive node) old new = Ok false
  | _ => may_commit node old node'
  end.
Proof.
  unfold reorg_to_tip. intros H Hold.
  destruct (prepare_reorg new node) as [o|e|] eqn:Hp; [|simplify_eq; by left..].
  pose proof (prepare_reorg_Ok new node old o Hold Hp) as Ho.
  destruct o as [[[[old' blocks] batch] working]|]; [|by simplify_eq].
  destruct Ho as [-> Hb]. destruct (apply_blocks _ _ _ _ _ _) as [committed r'] eqn:Ha.
  assert (may_commit node old committed) as Hc.
  { eapply apply_blocks_commits; [exact Ha|by left]. }
  destruct r' as [w|e|]; [|by simplify_eq..]. case_decide; by simplify_eq.
Qed.

(** C38: Whatever a re-organisation runs into, it never leaves a worse tip: on success
    the node is at the requested tip, which was better; when none is attempted nothing
    changes; and when it fails half-way, the state and the mempool are as before or
    at a block whose tip is better than the old one. *)
Theorem reorg_never_worse l1 new node node' r old :
  reorg_to_tip l1 new node = (node', r) → current_tip node = Ok old →
  match r with
  | Ok true => tip (node_state node') = Some (block_hash new) ∧
      is_better (node_archive node) old new = Ok true
  | Ok false => node' = node ∧ is_better (node_archive node) old new = Ok false
  | _ => may_commit node old node'
  end.
Proof. apply reorg_outcome. Qed.
End NodeProps.
