(* ===== verification/NetTask.v ===== *)
(** The node's task for its peers (lib/node/net_task.rs): what it makes of the peers'
    answers, of new tips, of new transactions, of the mainchain task's events and of
    connections that fail.

    Its handlers change the databases, the table of connections and the task's own
    maps as they go, and an error of a handler leaves the changes: they are of the
    type [handler].  A database transaction that is dropped changes nothing. *)
From S2P Require Import Prelude Bytes SwapTypes TxTypes Externals Accumulator.
From S2P Require Import BlockTypes Rollback Bundle StateDb SwapRules Auth Block.
From S2P Require Import BlockConnect Peg Monitor Mempool Ancestry SideTips Archive.
From S2P Require Import ArchiveWrites ArchiveIter BetterTip Node MainTask.
From S2P Require Import PeerMsg Addresses Net Peer.

#[export] Instance Tip_countable : Countable Tip.
Proof.
  refine (inj_countable' (λ t, (block_hash t, main_block_hash t)) (λ p, mkTip p.1 p.2) _).
  by intros [].
Defined.

(** The iteration order of the hash maps and sets of the task. *)
Class NetIter := {
  tips_iter : gmap Tip (gset SocketAddr) → list (Tip * gset SocketAddr);
  addrs_iter : gset SocketAddr → list SocketAddr;
  sources_iter : gset (SocketAddr * Hash) → list (SocketAddr * Hash);
}.

Section NetTask.
Context {T : ExtTypes} {X : ExtFuns} {W : ExtWork} {I : HashIter} {P : ExtPeer}.
Context {N : ExtNet} {NI : NetIter}.
Implicit Types (ar : Archive) (node : Node) (addr : SocketAddr).

(** [NetTaskContext] and the variables of [NetTask::run]; the queues hold what was
    sent and not received yet. *)
Record NetTask := mkNetTask {
  nt_node : Node;
  nt_net : Net;
  (* for a missing body: the tips that wait for it, and the peers that sent them *)
  descendant_tips : gmap BlockHash (gmap Tip (gset SocketAddr));
  mainchain_task_request_sources : gmap BtcBlockHash (gset (SocketAddr * Hash));
  (* a tip, the peer it comes from, and whether somebody waits for the result *)
  new_tip_ready : list (Tip * option SocketAddr * bool);
  forwarded_requests : list (BtcBlockHash * SocketAddr * Hash);
  (* requests to the mainchain task, peers to connect to again, results sent *)
  mainchain_requests : list BtcBlockHash;
  reconnects : list ResolvedSeedAddress;
  confirmations : list (Tip * bool);
}.
Implicit Type s : NetTask.
Abbreviation Task := (handler NetTask NodeError).

Definition task_archive s : Archive := node_archive (nt_node s).
Definition set_node node s : NetTask := {| s with nt_node := node |}.
Definition set_archive ar s : NetTask :=
  let node := nt_node s in
  set_node (mkNode ar (node_mempool node) (node_state node)) s.
Definition set_net net s : NetTask := {| s with nt_net := net |}.
Definition in_archive {A} (f : Archive → res ArchiveError A) : Task A :=
  ar ← reads task_archive; returns (lift ArchiveErr (f ar)).

Definition drop_peer addr : Task () := changes (λ s, set_net (remove_active_peer addr (nt_net s)) s).
Definition push_message (m : InternalMessage) addr : Task () :=
  changes (λ s, set_net (push_internal_message m addr (nt_net s)).1 s).
Definition send_new_tip (tip : Tip) (addr : option SocketAddr) (confirm : bool) : Task () :=
  changes (λ s, {| s with new_tip_ready := new_tip_ready s ++ [(tip, addr, confirm)] |}).
Definition add_waiting (missing : BlockHash) (tip : Tip) (sources : gset SocketAddr) : Task () :=
  changes (λ s,
    let tips := default ∅ (descendant_tips s !! missing) in
    {| s with descendant_tips :=
         <[missing := <[tip := sources ∪ default ∅ (tips !! tip)]> tips]> (descendant_tips s) |}).

(** ** A block from a peer *)

(** [iter_missing_bodies(..).next()] *)
Definition earliest_missing_body ar (b : BlockHash) (start_height : Z) :
    res ArchiveError (option BlockHash) :=
  l ← missing_bodies ar 1 b start_height; Ok (head l).
Definition height_after (h : option Z) : Z :=
  match h with Some h => u32_add h 1 | None => 0 end.

(** The peer hears of it if all bodies down to the ancestor are there. *)
Definition notify_bodies addr (b : BlockHash) (descendant_tip : Tip)
    (ancestor : option BlockHash) (id : Hash) : Task () :=
  ancestor_height ← in_archive (λ ar,
    match ancestor with
    | Some ancestor => h ← archive_height ar ancestor; Ok (Some h)
    | None => Ok None
    end);
  missing ← in_archive (λ ar, earliest_missing_body ar b (height_after ancestor_height));
  match missing with
  | Some missing => add_waiting missing descendant_tip {[ addr ]}
  | None => push_message (BodiesAvailable id) addr
  end.

(** The first mainchain block that verifies a block on the line of another one. *)
Fixpoint find_verified ar (main_tip : BtcBlockHash) (l : list (BtcBlockHash * BmmResult)) :
    res ArchiveError (option BtcBlockHash) :=
  match l with
  | [] => Ok None
  | (main_hash, Failed) :: l => find_verified ar main_tip l
  | (main_hash, Verified) :: l =>
      d ← is_main_descendant ar main_hash main_tip;
      if d : bool then Ok (Some main_hash) else find_verified ar main_tip l
  end.
Definition verification_on_line ar (b : BlockHash) (main_tip : BtcBlockHash) :
    res NodeError BtcBlockHash :=
  m ← lift ArchiveErr (find_verified ar main_tip (map_iter (get_bmm_results ar b)));
  expect m.

(** A tip that waited for the block: it waits for another one, and then the parent of
    that one may be better than the tip, or it is complete. *)
Definition next_tip (missing : option BlockHash) (descendant_tip : Tip)
    (sources : gset SocketAddr) : Task (option Tip) :=
  match missing with
  | None => done_with (Some descendant_tip)
  | Some missing =>
      _ ← add_waiting missing descendant_tip sources;
      in_archive (λ ar,
        header ← get_header ar missing;
        match prev_side_hash header with
        | None => Ok None
        | Some tip_hash =>
            bmm_verification ← get_best_main_verification ar tip_hash;
            Ok (Some (mkTip tip_hash bmm_verification))
        end)
  end.

Definition advance_waiting (tip : option Tip) (p : Tip * gset SocketAddr) : Task () :=
  let '(descendant_tip, sources) := p in
  missing ← in_archive (λ ar,
    common_ancestor ←
      match tip with
      | Some tip => last_common_ancestor ar (block_hash descendant_tip) (block_hash tip)
      | None => Ok None
      end;
    h ← match common_ancestor with
        | Some c => h ← archive_height ar c; Ok (Some h)
        | None => Ok None
        end;
    earliest_missing_body ar (block_hash descendant_tip) (height_after h));
  next ← next_tip missing descendant_tip sources;
  match next with
  | None => done_with ()
  | Some next_tip =>
      ar ← reads task_archive;
      better ← returns (is_better ar tip next_tip);
      if better : bool
      then for_each (λ addr, send_new_tip next_tip (Some addr) false) (addrs_iter sources)
      else done_with ()
  end.

(** The tips that become ready with the block. *)
Definition announce_tips addr (b : BlockHash) (header : Header) (descendant_tip : Tip) : Task () :=
  node ← reads nt_node;
  tip ← returns (current_tip node);
  main ← returns (verification_on_line (node_archive node) b (main_block_hash descendant_tip));
  _ ← (if decide (prev_side_hash header = block_hash <$> tip)
       then send_new_tip (mkTip b main) (Some addr) false else done_with ());
  waiting ← reads (λ s, descendant_tips s !! b);
  match waiting with
  | None => done_with ()
  | Some waiting =>
      _ ← changes (λ s, {| s with descendant_tips := delete b (descendant_tips s) |});
      for_each (advance_waiting tip) (tips_iter waiting)
  end.

Definition handle_block addr (b : BlockHash) (descendant_tip : Tip)
    (ancestor : option BlockHash) (id : Hash) (header : Header) (body : Body) : Task () :=
  if decide (header_hash header = b) then
    ar ← in_archive (put_body b body);
    _ ← changes (set_archive ar);
    _ ← notify_bodies addr b descendant_tip ancestor id;
    announce_tips addr b header descendant_tip
  else drop_peer addr.

(** ** Headers from a peer *)

(** Sequential, and no block among them is invalidated. *)
Fixpoint headers_follow ar (prev : option BlockHash) (l : list Header) : bool :=
  match l with
  | [] => true
  | header :: l =>
      bool_decide (prev_side_hash header = prev) &&
      negb (invalidated_block ar (header_hash header)) &&
      headers_follow ar (Some (header_hash header)) l
  end.

(** The loop that stores them; it ends at a header without its parent. *)
Fixpoint store_headers (l : list Header) ar : res ArchiveError Archive :=
  match l with
  | [] => Ok ar
  | header :: l =>
      match headers ar !! header_hash header with
      | Some _ => store_headers l ar
      | None =>
          if match prev_side_hash header with
             | Some parent => bool_decide (headers ar !! parent = None)
             | None => false
             end
          then Ok ar
          else ar ← put_header header ar; store_headers l ar
      end
  end.

Definition expected_end_height ar (start_hash : option BlockHash) (len : nat) :
    res ArchiveError Z :=
  let len := Z.of_nat len `mod` 2 ^ 32 in
  match start_hash with
  | Some start_hash => start_height ← archive_height ar start_hash; Ok (u32_add start_height len)
  | None => Ok (u32_sub len 1)
  end.

Definition handle_headers addr (start : gset BlockHash) (end_ : BlockHash) (height : Z)
    (id : Hash) (l : list Header) : Task () :=
  match head l, last l with
  | Some first, Some end_header =>
      let start_hash := prev_side_hash first in
      if decide (header_hash end_header = end_) then
        if match start_hash with Some h => bool_decide (h ∉ start) | None => false end
        then drop_peer addr
        else
          end_height ← in_archive (λ ar, expected_end_height ar start_hash (length l));
          if end_height =? height then
            ar ← reads task_archive;
            if headers_follow ar start_hash l then
              ar ← in_archive (store_headers l);
              _ ← changes (set_archive ar);
              push_message (HeadersAvailable id) addr
            else drop_peer addr
          else drop_peer addr
      else drop_peer addr
  | _, _ => drop_peer addr
  end.

(** ** [handle_response] *)
Definition handle_response addr (resp : ResponseMessage) (req : Request) : Task () :=
  match req, resp with
  | GetBlock (mkGetBlock b (Some descendant_tip) ancestor (Some id)), BlockResponse header body =>
      handle_block addr b descendant_tip ancestor id header body
  | GetBlock (mkGetBlock b (Some _) _ (Some _)), NoBlock b' =>
      if decide (b = b') then done_with () else drop_peer addr
  | GetHeaders (mkGetHeaders start end_ (Some height) (Some id)), HeadersResponse l =>
      handle_headers addr start end_ height id l
  | GetHeaders r, NoHeaderResponse b =>
      if decide (gh_end r = b) then done_with () else drop_peer addr
  | PushTransaction _, TransactionAccepted _ | PushTransaction _, TransactionRejected _ =>
      done_with ()
  | _, _ => drop_peer addr
  end.

(** ** Events of the mainchain task *)

(** The loop over the blocks that are no sidechain tips (any more): each turn lowers
    the height. *)
Fixpoint disconnect_lost (fuel : nat) ar st : res NodeError State :=
  match tip st with
  | None => Ok st
  | Some state_tip =>
      match sidechain_tips (side_tips ar) !! state_tip with
      | Some _ => Ok st
      | None =>
          match fuel with
          | O => Panic
          | S fuel =>
              header ← lift ArchiveErr (get_header ar state_tip);
              body ← lift ArchiveErr (get_body ar state_tip);
              st ← lift StateErr (disconnect_tip st header body);
              disconnect_lost fuel ar st
          end
      end
  end.

Definition try_reorg (l1 : BlockHash → Swap → L1Answer) (new_tip : Tip) : Task bool := λ s,
  let '(node, r) := reorg_to_tip l1 new_tip (nt_node s) in (set_node node s, r).

Definition handle_mainchain_block_event (l1 : BlockHash → Swap → L1Answer) : Task () :=
  node ← reads nt_node;
  let ar := node_archive node in
  let st := node_state node in
  st ← returns (disconnect_lost (S (Z.to_nat (next_height st))) ar st);
  _ ← changes (set_node (mkNode ar (node_mempool node) st));
  match best_side_tip (side_tips ar) with
  | None => done_with ()
  | Some (info, b) =>
      _ ← try_reorg l1 (mkTip b (tip_main_block_hash info)); done_with ()
  end.

Definition handle_mainchain_task_response (b : BtcBlockHash) (r : res MainTaskError bool) : Task () :=
  sources ← reads (λ s, mainchain_task_request_sources s !! b);
  match sources with
  | None => done_with ()
  | Some sources =>
      _ ← changes (λ s, {| s with mainchain_task_request_sources :=
                             delete b (mainchain_task_request_sources s) |});
      for_each (λ p : SocketAddr * Hash,
          push_message (match r with
                        | Ok true => MainchainAncestors p.2
                        | _ => MainchainAncestorsError
                        end) p.1) (sources_iter sources)
  end.

Definition handle_mainchain_task_event (l1 : BlockHash → Swap → L1Answer) (e : MainTaskEvent) : Task () :=
  match e with
  | BlockSent _ => handle_mainchain_block_event l1
  | ResponseSent b r => handle_mainchain_task_response b r
  end.

(** ** New tips *)
Definition on_best_chain (new_tip : Tip) ar : res ArchiveError bool :=
  match sidechain_tips (side_tips ar) !! block_hash new_tip with
  | None => Ok false
  | Some _ =>
      is_main_descendant ar (main_block_hash new_tip)
        (mainchain_tip_hash (mainchain_tip (side_tips ar)))
  end.
Definition attempt_tip (l1 : BlockHash → Swap → L1Answer) (new_tip : Tip) : Task bool :=
  current ← in_archive (on_best_chain new_tip);
  if current : bool then try_reorg l1 new_tip else done_with false.

(** [OneshotGuard]: whoever waits hears of the result, and of a failure whenever the
    handler is left without one. *)
Definition confirm_result (new_tip : Tip) (confirm applied : bool) s : NetTask :=
  if confirm then {| s with confirmations := confirmations s ++ [(new_tip, applied)] |} else s.

Definition handle_new_tip (l1 : BlockHash → Swap → L1Answer)
    (m : Tip * option SocketAddr * bool) : Task () := λ s,
  let '(new_tip, addr, confirm) := m in
  match attempt_tip l1 new_tip s with
  | (s, Ok applied) => (confirm_result new_tip confirm applied s, Ok ())
  | (s, Panic) => (confirm_result new_tip confirm false s, Panic)
  | (s, Err e) =>
      if is_fatal_reorg_error e then (confirm_result new_tip confirm false s, Err e)
      else
        let s := match addr with
                 | Some addr => set_net (remove_active_peer addr (nt_net s)) s
                 | None => s
                 end in
        (confirm_result new_tip confirm false s, Ok ())
  end.

(** ** What peers send *)

(** An error of a peer's message costs the peer its connection, and nothing else. *)
Definition or_drop_peer addr (m : Task ()) : Task () := λ s,
  match m s with
  | (s, Err _) => drop_peer addr s
  | r => r
  end.

Definition reconnect (r : ResolvedSeedAddress) : Task () :=
  changes (λ s, {| s with reconnects := reconnects s ++ [r] |}).
Definition reconnect_next (r : ResolvedSeedAddress) : Task () :=
  match (pop_first_ip_addr r).2 with
  | Some next => reconnect next
  | None => done_with ()
  end.

Definition handle_peer_error addr (e : ConnError) (resolved : ResolvedSeedAddress) : Task () :=
  match e with
  | CeMailbox HeartbeatTimeout =>
      h ← reads (λ s, active_peers (nt_net s) !! addr);
      match h with
      | None => done_with ()
      | Some h =>
          _ ← drop_peer addr;
          if received_msg_successfully h then reconnect resolved else reconnect_next resolved
      end
  | _ =>
      _ ← drop_peer addr;
      _ ← (if is_duplicate_connection e || is_connect_timeout e then reconnect resolved
           else if is_bad_magic e then done_with () else reconnect_next resolved);
      if is_bad_magic e then changes (λ s, set_net (forget_peer addr (nt_net s)).1 s)
      else done_with ()
  end.

Definition handle_new_transaction addr (tx : Authorized Transaction) : Task () :=
  node ← reads nt_node;
  let st := node_state node in
  at_ ← returns (lift StateErr (
    regenerated ← regenerate_proof st (authorized_tx tx);
    let at_ := mkAuthorized regenerated (authorizations tx) in
    _ ← validate_transaction st at_; Ok at_));
  match put at_ (node_mempool node) with
  | Ok mp =>
      _ ← changes (set_node (mkNode (node_archive node) mp st));
      changes (λ s, set_net (push_tx {[ addr ]} at_ (nt_net s)) s)
  | Err MemPoolDoubleSpent => done_with ()
  | Panic => returns Panic
  end.

Definition handle_peer_info addr (i : Info) : Task () :=
  match i with
  | InfoError e resolved => handle_peer_error addr e resolved
  | NeedMainchainAncestors main_hash id =>
      changes (λ s, {| s with forwarded_requests := forwarded_requests s ++ [(main_hash, addr, id)] |})
  | NewTipReady new_tip => send_new_tip new_tip (Some addr) false
  | NewTransaction tx => or_drop_peer addr (handle_new_transaction addr tx)
  | InfoResponse resp req => or_drop_peer addr (handle_response addr resp req)
  end.

(** ** The mailbox *)
Inductive NetTaskError :=
| NtNode (e : NodeError)
| NtNet (e : NetError)
| NtPeerInfoRxClosed.

(** What the streams deliver; the queues of the state deliver their first message. *)
Inductive NetMail :=
| NmAcceptConnection addr (closed : bool)
(* a request of the queue, which the mainchain task takes or not *)
| NmForwardRequest (taken : bool)
| NmMainchainTaskEvent (e : MainTaskEvent)
| NmNewTipReady
(* [new_tip_ready_confirm] of the node *)
| NmConfirmTip (new_tip : Tip)
| NmPeerInfo (info : option (SocketAddr * option Info))
| NmReconnectPeer
| NmRedialKnownPeers (min_delay max_delay : Z) (delay : Z * bool)
| NmRedialError (e : NetError).

Definition node_errors (m : Task ()) : handler NetTask NetTaskError () := λ s,
  match m s with
  | (s, Ok u) => (s, Ok u)
  | (s, Err e) => (s, Err (NtNode e))
  | (s, Panic) => (s, Panic)
  end.

Definition forward_request (taken : bool) : Task () := λ s,
  match forwarded_requests s with
  | [] => (s, Ok ())
  | (b, addr, id) :: rest =>
      let s := {| s with forwarded_requests := rest |} in
      if taken then
        let sources := {[ (addr, id) ]} ∪ default ∅ (mainchain_task_request_sources s !! b) in
        ({| s with mainchain_requests := mainchain_requests s ++ [b];
                   mainchain_task_request_sources :=
                     <[b := sources]> (mainchain_task_request_sources s) |}, Ok ())
      else (s, Ok ())
  end.

Definition next_new_tip (l1 : BlockHash → Swap → L1Answer) : Task () := λ s,
  match new_tip_ready s with
  | [] => (s, Ok ())
  | m :: rest => handle_new_tip l1 m {| s with new_tip_ready := rest |}
  end.

Definition next_reconnect : Task () := λ s,
  match reconnects s with
  | [] => (s, Ok ())
  | r :: rest =>
      let s := {| s with reconnects := rest |} in
      (set_net (connect_peer r (nt_net s)).1 s, Ok ())
  end.

Definition net_turn (l1 : BlockHash → Swap → L1Answer) (item : NetMail) :
    handler NetTask NetTaskError () :=
  match item with
  | NmAcceptConnection addr closed =>
      changes (λ s, set_net (accept_incoming addr closed (nt_net s)).1 s)
  | NmForwardRequest taken => node_errors (forward_request taken)
  | NmMainchainTaskEvent e => node_errors (handle_mainchain_task_event l1 e)
  | NmNewTipReady => node_errors (next_new_tip l1)
  | NmConfirmTip new_tip => node_errors (send_new_tip new_tip None true)
  | NmPeerInfo None => returns (Err NtPeerInfoRxClosed)
  | NmPeerInfo (Some (addr, None)) => node_errors (drop_peer addr)
  | NmPeerInfo (Some (addr, Some i)) => node_errors (handle_peer_info addr i)
  | NmReconnectPeer => node_errors next_reconnect
  | NmRedialKnownPeers min_delay max_delay delay =>
      changes (λ s, set_net (redial_turn min_delay max_delay delay (nt_net s)).1 s)
  | NmRedialError e => returns (Err (NtNet e))
  end.

(** [NetTask::run] over what arrives, with the L1 nodes' answers at each turn. *)
Definition net_run (items : list ((BlockHash → Swap → L1Answer) * NetMail)) :
    handler NetTask NetTaskError () :=
  for_each (λ p, net_turn p.1 p.2) items.
End NetTask.
