(* ===== verification/HeaderSync.v ===== *)
(** Storing the headers of a peer: when it succeeds, what it keeps, and that the
    headers an honest peer serves are stored. *)
From S2P Require Import Prelude Bytes SwapTypes TxTypes Externals Accumulator.
From S2P Require Import BlockTypes Rollback Bundle StateDb SwapRules Auth Block.
From S2P Require Import BlockConnect Peg Monitor Mempool Ancestry BlockTree SideTips Archive.
From S2P Require Import ArchiveWrites ArchiveProps Invalidate Bmm ArchiveIter ArchiveIterProps.
From S2P Require Import BetterTip Node MainTask MainTaskProps MainFetch PeerMsg Addresses Net Peer NetTask.

Section HeaderSync.
Context {T : ExtTypes} {X : ExtFuns} {W : ExtWork} {I : HashIter} {IL : HashIterLaws I}.
Implicit Types (ar : Archive) (hd header : Header) (b p : BlockHash).

(** ** A header whose parents are known can be stored *)

(** What is under a successor slot of the mainchain is known. *)
Lemma main_successors_known ar x s m : archive_wf ar →
  main_successors ar !! x = Some s → m ∈ s → is_Some (main_header_infos ar !! m).
Proof.
  intros Hwf Hs Hm.
  set (o := if decide (x = zero_hash) then None else Some x).
  assert (t_slot main_ops o = x) as Ho by (unfold o; by case_decide).
  destruct (proj1 (tw_children _ _ (aw_main _ Hwf) o s m ltac:(by rewrite Ho)
    ltac:(unfold o; intros b; case_decide; intros [= <-]; done)) Hm) as (v & Hv & _).
  by exists v.
Qed.

Lemma bmm_result_at_total ar header m : archive_wf ar → bmm_sound ar →
  infos_stored ar → is_Some (main_header_infos ar !! m) →
  (∀ p, prev_side_hash header = Some p → is_Some (headers ar !! p)) →
  ∃ r, bmm_result_at ar header (get_bmm_results ar <$> prev_side_hash header) m = Ok r.
Proof.
  intros Hwf Hs Hinf [mi Hm] Hp. destruct (Hinf m) as [info Hinfo]; [by exists mi|].
  unfold bmm_result_at, get_main_block_info, get_main_header_info. rewrite Hinfo. simpl.
  destruct (bmm_commitment info) as [c|]; [|by eexists]. case_decide; [|by eexists].
  rewrite Hm. simpl. case_decide; [|by eexists].
  destruct (prev_side_hash header) as [p|] eqn:Hpr; [|by eexists]. simpl.
  destruct (parent_committed_total ar p m Hwf Hs) as [b Hb]; [by apply Hp|by exists mi|].
  rewrite Hb. by eexists.
Qed.

Lemma foldM_all {E S A} (f : S → A → res E S) s l :
  (∀ s x, x ∈ l → ∃ s', f s x = Ok s') → ∃ s', foldM f s l = Ok s'.
Proof.
  revert s; induction l as [|x l IH]; intros s Hf; simpl; [by eexists|].
  destruct (Hf s x) as [s' ->]; [by left|]. simpl. apply IH. intros s2 y Hy. apply Hf. by right.
Qed.

Lemma store_bmm_results_total ar header : archive_wf ar → bmm_sound ar → infos_stored ar →
  is_Some (main_successors ar !! prev_main_hash header) →
  (∀ p, prev_side_hash header = Some p → is_Some (headers ar !! p)) →
  ∃ ar', store_bmm_results (header_hash header) header ar = Ok ar'.
Proof.
  intros Hwf Hs Hinf [s Hsucc] Hp. unfold store_bmm_results, get_main_successors.
  rewrite Hsucc. simpl.
  destruct (foldM_all (λ results m,
    r ← bmm_result_at ar header (get_bmm_results ar <$> prev_side_hash header) m;
    Ok (<[m:=r]> results)) (get_bmm_results ar (header_hash header)) (set_iter s)) as [rs ->];
    [|by eexists].
  intros rs m Hm. rewrite set_iter_perm in Hm. apply elem_of_elements in Hm.
  destruct (bmm_result_at_total ar header m) as [r ->]; [done..|by eapply main_successors_known|done|].
  by eexists.
Qed.

(** The parent is stored, or there is none. *)
Definition parent_stored ar (o : option BlockHash) : Prop :=
  match o with Some p => is_Some (headers ar !! p) | None => True end.

(** All of [put_header] but its last step. *)
Lemma put_header_tree ar header : archive_wf ar →
  headers ar !! header_hash header = None → parent_stored ar (prev_side_hash header) →
  Z.of_nat (size (headers ar)) ≤ u32_MAX →
  ∃ h ar2, header_height header ar = Ok h ∧ put_header header ar
      = store_bmm_results (header_hash header) header ar2 ∧
    height_above (side_tree ar) (prev_side_hash header) h ∧ is_u32 h ∧
    tree_put side_ops (side_tree ar) header h (side_tree ar2) ∧ same_main ar ar2 ∧
    bmm_results ar2 = bmm_results ar ∧ invalid_blocks ar2 = invalid_blocks ar.
Proof.
  intros Hwf Hfresh Hpar Hsize. pose proof (aw_side _ Hwf) as Hside.
  assert (∀ p hp, block_hash_to_height ar !! p = Some hp → hp < u32_MAX) as Hmax.
  { intros p hp Hhp. pose proof (height_lt_size side_ops _ Hside p hp Hhp). simpl in *. lia. }
  assert (∃ h, header_height header ar = Ok h) as [h Hh].
  { unfold header_height. destruct (prev_side_hash header) as [p|]; [|by eexists].
    destruct (known_height side_ops _ Hside p Hpar) as (hp & Hhp & _). simpl in Hhp.
    rewrite Hhp. by eexists. }
  destruct (header_height_above header ar h) as (Habove & Hu);
    [done|by intros p hp _; apply Hmax|done|].
  unfold put_header. rewrite Hh. cbn [mbind res_bind]. unfold add_successor.
  assert (∃ s, successors ar !! prev_side_hash header = Some s) as [sl Hsl].
  { destruct (prev_side_hash header) as [p|];
      [by apply (tw_succ _ _ Hside)|apply (tw_first _ _ Hside)]. }
  rewrite (proj2 (get_successors_Ok (store_header _ _ _ _) _ sl)) by done. cbn [mbind res_bind].
  match goal with |- context [store_row _ _ _ ?a] => set (ar1 := a) end. unfold store_row.
  destruct (linked_insert (side_lineage ar) (side_lineage ar1) (side_lineage ar1)
    (known (side_tree ar)) (header_hash header) (prev_side_hash header) h) as (row & Hrow & _).
  - apply (tw_linked _ _ Hside).
  - intros b [v Hv]. simpl in Hv. assert (b ≠ header_hash header) as Hne by congruence.
    unfold same_links. simpl. unfold archive_height, get_header. simpl.
    by rewrite !lookup_insert_ne by done.
  - done.
  - done.
  - simpl. unfold archive_height. simpl. by rewrite lookup_insert_eq.
  - done.
  - intros Hpos. unfold height_above in Habove.
    destruct (prev_side_hash header) as [p|] eqn:Hp; [|lia].
    destruct Habove as (_ & Hkp & Hhp). exists p. split_and!; [done| |done|].
    + simpl. unfold get_header. simpl. rewrite lookup_insert_eq. simpl. by rewrite Hp.
    + simpl in Hhp |- *. unfold archive_height. by rewrite Hhp.
  - rewrite Hrow. cbn [mbind res_bind]. eexists h, _. split_and!; [done|done|done|done| |done|done|done].
    split; simpl; [done|done| |by exists sl].
    exists row, (prev_side_hash header). by split_and!.
Qed.

Lemma put_header_total ar header : archive_wf ar → bmm_sound ar → infos_stored ar →
  header_hash header ∉ invalid_blocks ar → headers ar !! header_hash header = None →
  parent_stored ar (prev_side_hash header) → Z.of_nat (size (headers ar)) ≤ u32_MAX →
  is_Some (main_successors ar !! prev_main_hash header) →
  ∃ ar', put_header header ar = Ok ar'.
Proof.
  intros Hwf Hs Hinf Hval Hfresh Hpar Hsize Hmain.
  destruct (put_header_tree ar header) as
    (h & ar2 & Hh & -> & Habove & Hu & Hput & Hsame & Hres & Hinv); [done..|].
  pose proof (tp_headers _ _ _ _ _ Hput) as Hhd. simpl in Hhd.
  pose proof (f_equal t_headers (sm_tree _ _ Hsame)) as Hmi. simpl in Hmi.
  pose proof (f_equal t_succs (sm_tree _ _ Hsame)) as Hsu. simpl in Hsu.
  apply store_bmm_results_total.
  - split; [|by rewrite (sm_tree _ _ Hsame); apply Hwf|].
    + eapply (tree_put_wf side_ops header h (side_tree ar)); [apply Hwf| |done..].
      simpl. intros v' Hv'. congruence.
    + unfold work_wf. rewrite Hmi, (sm_work _ _ Hsame). apply Hwf.
  - apply (bmm_sound_extends ar); [|done|done| |done].
    + split; [|by rewrite (sm_infos _ _ Hsame)|by rewrite Hmi].
      intros b hd Hb. rewrite Hhd, lookup_insert_ne by congruence. done.
    + intros b. rewrite Hhd. intros [<-|[_ Hb]]%lookup_insert_is_Some; [done|].
      by apply (bs_valid _ Hs).
  - unfold infos_stored. by rewrite Hmi, (sm_infos _ _ Hsame).
  - by rewrite Hsu.
  - intros p Hp. rewrite Hhd, lookup_insert_is_Some. right. rewrite Hp in Hpar.
    split; [|done]. intros <-. simpl in Hpar. rewrite Hfresh in Hpar. by destruct Hpar.
Qed.

(** ** Storing the headers of an answer *)

(** What storing headers keeps. *)
Record stored_more ar ar' : Prop := {
  so_steps : rtc archive_step ar ar';
  so_main : same_main ar ar';
  so_invalid : invalid_blocks ar' = invalid_blocks ar;
  so_headers b hd : headers ar !! b = Some hd → headers ar' !! b = Some hd;
}.

Lemma stored_more_refl ar : stored_more ar ar.
Proof. by split. Qed.

Lemma stored_more_trans ar1 ar2 ar3 :
  stored_more ar1 ar2 → stored_more ar2 ar3 → stored_more ar1 ar3.
Proof.
  intros [Hs Hm Hi Hh] [Hs' Hm' Hi' Hh']. split; [by etrans| |congruence|by eauto].
  destruct Hm, Hm'. split; congruence.
Qed.

Lemma headers_follow_invalid ar ar' prev l : invalid_blocks ar' = invalid_blocks ar →
  headers_follow ar' prev l = headers_follow ar prev l.
Proof.
  intros Hi. revert prev; induction l as [|hd l IH]; intros prev; [done|]. simpl.
  unfold invalidated_block. by rewrite Hi, IH.
Qed.

Lemma put_header_more ar header ar' : archive_wf ar → bmm_sound ar →
  header_hash header ∉ invalid_blocks ar → headers ar !! header_hash header = None →
  Z.of_nat (size (headers ar)) ≤ u32_MAX → put_header header ar = Ok ar' →
  stored_more ar ar' ∧ headers ar' = <[header_hash header := header]> (headers ar).
Proof.
  intros Hwf Hs Hval Hfresh Hsize Hput.
  assert (header_fits header ar) as Hfits.
  { split; [done|intros hd Hhd; congruence|]. intros p h _ Hh.
    pose proof (height_lt_size side_ops _ (aw_side _ Hwf) p h Hh). simpl in *. lia. }
  destruct (put_header_wf header ar ar') as (_ & Hhd & Hsame); [done|apply Hfits..|done|].
  destruct (put_header_split header ar ar' Hput) as (ar1 & Hst & _ & _ & _ & _ & _ & Hinv).
  split; [|done]. split.
  - apply rtc_once. by apply (step_header ar header).
  - done.
  - unfold store_bmm_results in Hst. apply bind_Ok_inv in Hst as (m & _ & Hst).
    by apply bind_Ok_inv in Hst as (rs & _ & [= <-]).
  - intros b hd Hb. rewrite Hhd, lookup_insert_ne by congruence. done.
Qed.

(** Whatever headers are stored, once they follow each other and none is invalid. *)
Lemma store_headers_more l prev ar ar' : archive_wf ar → bmm_sound ar →
  headers_follow ar prev l = true →
  Z.of_nat (size (headers ar) + length l) ≤ u32_MAX →
  store_headers l ar = Ok ar' → stored_more ar ar'.
Proof.
  revert prev ar; induction l as [|hd l IH]; intros prev ar Hwf Hs Hf Hsize Hst; simpl in *.
  { injection Hst as <-. apply stored_more_refl. }
  apply andb_true_iff in Hf as [[_ Hval]%andb_true_iff Hf].
  apply negb_true_iff, bool_decide_eq_false in Hval.
  destruct (headers ar !! header_hash hd) eqn:Hhd; [eapply IH; [..|done]; by eauto with lia|].
  destruct (match prev_side_hash hd with Some _ => _ | None => _ end);
    [injection Hst as <-; apply stored_more_refl|].
  apply bind_Ok_inv in Hst as (ar1 & Hput & Hst).
  destruct (put_header_more ar hd ar1) as [Hmore Hins]; [done..|lia|done|].
  destruct (archive_steps_inv ar ar1 (so_steps _ _ Hmore)) as [Hwf1 Hs1]; [done|].
  apply (stored_more_trans _ _ _ Hmore). eapply (IH (Some (header_hash hd))); [done|done| | |done].
  - by rewrite (headers_follow_invalid ar ar1) by apply Hmore.
  - rewrite Hins, map_size_insert_None by done. lia.
Qed.

(** All of them are stored if the first one's parent is there and their mainchain
    blocks are known. *)
Lemma store_headers_all l prev ar : archive_wf ar → bmm_sound ar → infos_stored ar →
  headers_follow ar prev l = true → parent_stored ar prev →
  (∀ hd, hd ∈ l → is_Some (main_successors ar !! prev_main_hash hd)) →
  Z.of_nat (size (headers ar) + length l) ≤ u32_MAX →
  ∃ ar', store_headers l ar = Ok ar' ∧ ∀ hd, hd ∈ l → is_Some (headers ar' !! header_hash hd).
Proof.
  revert prev ar; induction l as [|hd l IH]; intros prev ar Hwf Hs Hinf Hf Hprev Hmain Hsize; simpl in *.
  { exists ar. split; [done|]. by intros ? ?%elem_of_nil. }
  pose proof Hf as Hfull.
  apply andb_true_iff in Hf as [[Hp Hval]%andb_true_iff Hf]. apply bool_decide_eq_true in Hp.
  apply negb_true_iff, bool_decide_eq_false in Hval.
  assert (∀ ar1, stored_more ar ar1 → is_Some (headers ar1 !! header_hash hd) →
    Z.of_nat (size (headers ar1) + length l) ≤ u32_MAX →
    ∃ ar', store_headers l ar1 = Ok ar' ∧
      ∀ hd', hd' ∈ hd :: l → is_Some (headers ar' !! header_hash hd')) as Hrest.
  { intros ar1 Hmore Hhd1 Hsize1.
    destruct (archive_steps_inv ar ar1 (so_steps _ _ Hmore)) as [Hwf1 Hs1]; [done|].
    pose proof (so_main _ _ Hmore) as Hsame.
    pose proof (f_equal t_headers (sm_tree _ _ Hsame)) as Hmi. simpl in Hmi.
    pose proof (f_equal t_succs (sm_tree _ _ Hsame)) as Hsu. simpl in Hsu.
    pose proof Hf as Hf1. rewrite <-(headers_follow_invalid ar ar1) in Hf1 by apply Hmore.
    destruct (IH (Some (header_hash hd)) ar1) as (ar' & Hst & Hall); try done.
    - unfold infos_stored. by rewrite Hmi, (sm_infos _ _ Hsame).
    - intros hd' Hin. rewrite Hsu. apply Hmain. by right.
    - exists ar'. split; [done|]. intros hd' [->|Hin]%elem_of_cons; [|by apply Hall].
      destruct Hhd1 as [v Hv]. exists v.
      by apply (so_headers _ _ (store_headers_more l _ ar1 ar' Hwf1 Hs1 Hf1 Hsize1 Hst)). }
  destruct (headers ar !! header_hash hd) as [v|] eqn:Hhd.
  { apply Hrest; [apply stored_more_refl|by exists v|lia]. }
  destruct (put_header_total ar hd) as [ar1 Hput]; try done.
  { by rewrite Hp. }
  { lia. }
  { apply Hmain. by left. }
  destruct (put_header_more ar hd ar1) as [Hmore Hins]; [done..|lia|done|].
  assert (match prev_side_hash hd with
          | Some parent => bool_decide (headers ar !! parent = None)
          | None => false end = false) as ->.
  { rewrite Hp. destruct prev as [p|]; [|done]. apply bool_decide_eq_false. simpl in Hprev.
    intros Hn. rewrite Hn in Hprev. by destruct Hprev. }
  rewrite Hput. cbn [mbind res_bind]. apply Hrest; [done| |].
  - rewrite Hins, lookup_insert_eq. by eexists.
  - rewrite Hins, map_size_insert_None by done. lia.
Qed.

(** ** What an honest peer serves *)

(** The headers from a block down to the first one after a block of [start]. *)
Inductive served arp (start : gset BlockHash) : option BlockHash → list Header → Prop :=
| served_first : served arp start None []
| served_start b : b ∈ start → served arp start (Some b) []
| served_block b hd l :
    b ∉ start → headers arp !! b = Some hd → served arp start (prev_side_hash hd) l →
    served arp start (Some b) (hd :: l).

Lemma serve_loop arp start b h acc fuel : archive_wf arp →
  block_hash_to_height arp !! b = Some h → (Z.to_nat h + 2 ≤ fuel)%nat →
  ∃ l, iter_loop (ancestor_headers_next arp) (λ acc q,
      Ok (if decide (q.1 ∈ start) then inr acc else inl (acc ++ [q.2]))) fuel (Some b) acc
    = Ok (acc ++ l) ∧ served arp start (Some b) l.
Proof.
  intros Hwf. revert b h acc; induction fuel as [|fuel IH]; intros b h acc Hh Hf; [lia|].
  destruct (tw_height _ _ (aw_side _ Hwf) b h Hh) as [hd Hhd]. simpl in Hhd.
  destruct (tw_header _ _ (aw_side _ Hwf) b hd Hhd) as (_ & _ & h' & Hh' & Hab). simpl in *.
  unfold get_header. rewrite Hhd. simpl. case_decide as Hin.
  { exists []. rewrite app_nil_r. split; [done|by constructor]. }
  assert (h' = h) as -> by congruence.
  destruct (prev_side_hash hd) as [p|] eqn:Hp.
  - destruct Hab as (Hpos & _ & Hhp). simpl in Hhp.
    destruct (IH p (h - 1) (acc ++ [hd]) Hhp) as (l & -> & Hl); [lia|].
    exists (hd :: l). rewrite <-app_assoc. split; [done|]. econstructor; [done..|]. by rewrite Hp.
  - destruct fuel as [|fuel]; [lia|]. simpl. exists [hd]. split; [done|].
    econstructor; [done..|]. rewrite Hp. constructor.
Qed.

Lemma handle_get_headers_served arp start b : archive_wf arp → is_Some (headers arp !! b) →
  ∃ l, handle_get_headers arp start b = Ok (HeadersResponse (reverse l)) ∧
    served arp start (Some b) l.
Proof.
  intros Hwf Hb. pose proof Hb as [hd Hhd].
  destruct (known_height side_ops _ (aw_side _ Hwf) b Hb) as (h & Hh & [H0 _]). simpl in Hh.
  pose proof (height_lt_size side_ops _ (aw_side _ Hwf) b h Hh) as Hlt. simpl in Hlt.
  unfold handle_get_headers. rewrite Hhd.
  destruct (serve_loop arp start b h [] (side_fuel arp) Hwf Hh) as (l & -> & Hl);
    [unfold side_fuel; lia|]. by exists l.
Qed.

Lemma headers_follow_snoc ar prev l hd :
  headers_follow ar prev (l ++ [hd]) =
  headers_follow ar prev l &&
    (bool_decide (prev_side_hash hd = match last l with Some x => Some (header_hash x) | None => prev end)
     && negb (invalidated_block ar (header_hash hd))).
Proof.
  revert prev; induction l as [|x l IH]; intros prev; simpl; [by rewrite andb_true_r|].
  rewrite IH, !andb_assoc. destruct l as [|y l]; [done|].
  rewrite last_cons_cons. by destruct (last (y :: l)) eqn:Hl; [|apply last_None in Hl].
Qed.

(** They follow each other from a block of [start], or from the first block, and their
    number is that of the heights between. *)
Lemma served_follow ar arp start o l : archive_wf arp → served arp start o l →
  (∀ hd, hd ∈ l → header_hash hd ∉ invalid_blocks ar) →
  ∃ o', headers_follow ar o' (reverse l) = true ∧
    match o' with
    | Some p => p ∈ start ∧ ∀ b h, o = Some b → block_hash_to_height arp !! b = Some h →
        block_hash_to_height arp !! p = Some (h - Z.of_nat (length l))
    | None => ∀ b h, o = Some b → block_hash_to_height arp !! b = Some h →
        h + 1 = Z.of_nat (length l)
    end ∧
    match last l with Some first => o' = prev_side_hash first | None => o' = o end.
Proof.
  intros Hwf Hl Hval. induction Hl as [|b Hb|b hd l Hb Hhd Hl IH].
  - by exists None.
  - exists (Some b). split_and!; [done|done| |done]. intros b' h [= <-] ->. f_equal. simpl. lia.
  - destruct IH as (o' & Hf & Hh & Hfirst); [intros x Hx; apply Hval; by right|]. exists o'.
    destruct (tw_header _ _ (aw_side _ Hwf) b hd Hhd) as (_ & _ & h & Hbh & Hab). simpl in *.
    split_and!.
    + rewrite reverse_cons, headers_follow_snoc, Hf. simpl.
      assert (invalidated_block ar (header_hash hd) = false) as ->
        by (apply bool_decide_eq_false, Hval; by left). rewrite andb_true_r.
      apply bool_decide_eq_true. rewrite last_reverse. inversion Hl as [Ho|p Hp Ho|p x l' Hp Hx Hl' Ho]; subst.
      * simpl in *. congruence.
      * simpl in *. congruence.
      * simpl. f_equal. symmetry. by apply (tw_header _ _ (aw_side _ Hwf) p x Hx).
    + destruct o' as [p|]; [split; [by apply Hh|]|]; intros b' h' [= <-] Hbh'; simplify_eq;
        destruct (prev_side_hash hd) as [q|] eqn:Hq; simpl in Hab.
      * destruct Hab as (_ & _ & Hqh). rewrite (proj2 Hh q (h - 1) eq_refl Hqh). f_equal. simpl. lia.
      * exfalso. inversion Hl; subst. simpl in Hfirst. done.
      * destruct Hab as (_ & _ & Hqh). specialize (Hh q (h - 1) eq_refl Hqh). simpl. lia.
      * inversion Hl; subst. simpl. lia.
    + destruct l as [|y l]; [exact Hfirst|]. rewrite last_cons_cons.
      by destruct (last (y :: l)) eqn:Hy; [|apply last_None in Hy].
Qed.

Lemma served_line arp start o l hd : archive_wf arp → served arp start o l → hd ∈ l →
  ∃ b, o = Some b ∧ rtc (side_parent arp) b (header_hash hd) ∧
    headers arp !! header_hash hd = Some hd.
Proof.
  intros Hwf Hl. induction Hl as [|b Hb|b hd' l Hb Hhd Hl IH];
    [by intros ?%elem_of_nil..|].
  destruct (tw_header _ _ (aw_side _ Hwf) b hd' Hhd) as (Hhash & _). simpl in Hhash.
  intros [->|Hin]%elem_of_cons; exists b; (split; [done|]).
  - by rewrite Hhash.
  - destruct (IH Hin) as (p & Hp & Hr & Hs). split; [|done].
    eapply rtc_l; [|exact Hr]. by exists hd'.
Qed.

(** ** Two archives *)

(** Blocks that both archives hold are the same. *)
Definition agree ar arp : Prop := ∀ b hd hd',
  headers ar !! b = Some hd → headers arp !! b = Some hd' → hd = hd'.

Lemma same_heights ar arp b h h' : archive_wf ar → archive_wf arp → agree ar arp →
  block_hash_to_height ar !! b = Some h → block_hash_to_height arp !! b = Some h' → h = h'.
Proof.
  intros Hwf Hwfp Hag. remember (Z.to_nat h') as n eqn:Hn.
  revert b h h' Hn; induction n as [|n IH]; intros b h h' Hn Hh Hh';
    destruct (tw_height _ _ (aw_side _ Hwf) b h Hh) as [hd Hhd];
    destruct (tw_height _ _ (aw_side _ Hwfp) b h' Hh') as [hd' Hhd'];
    pose proof (Hag b hd hd' Hhd Hhd') as <-;
    destruct (tw_header _ _ (aw_side _ Hwf) b hd Hhd) as (_ & _ & x & Hx & Hab);
    destruct (tw_header _ _ (aw_side _ Hwfp) b hd Hhd') as (_ & _ & x' & Hx' & Hab');
    simpl in *; simplify_eq; destruct (prev_side_hash hd) as [p|]; simpl in *; try lia.
  - destruct Hab as (Hpos & _ & Hp), Hab' as (Hpos' & _ & Hp').
    assert (h - 1 = h' - 1); [|lia]. apply (IH p); [lia|done|done].
Qed.

Lemma ancestor_known ar b a n : archive_wf ar → is_Some (headers ar !! b) →
  ancestor_at (side_lineage ar) n b a → is_Some (headers ar !! a).
Proof.
  intros Hwf Hb Ha. destruct (known_height side_ops _ (aw_side _ Hwf) b Hb) as (h & Hh & _).
  apply (lin_height_of side_ops (side_tree ar)) in Hh.
  by destruct (ancestor_at_height _ _ (tw_linked _ _ (aw_side _ Hwf)) n b a h) as (_ & ? & _).
Qed.

Lemma locator_known ar b l c : archive_wf ar → get_block_locator ar b = Ok l → c ∈ l →
  is_Some (headers ar !! c).
Proof.
  intros Hwf H Hc. unfold get_block_locator in H.
  apply bind_Ok_inv in H as (hd & Hhd%ok_or_Ok & H).
  apply bind_Ok_inv in H as (row & Hrow%ok_or_Ok & H).
  assert (∀ x, x ∈ row → is_Some (headers ar !! x)) as Hall.
  { intros x [i Hx]%list_elem_of_lookup.
    destruct (tw_linked _ _ (aw_side _ Hwf) b) as (h & row' & _ & _ & _ & Hrow' & Hok); [by exists hd|].
    simpl in Hrow'. rewrite Hrow in Hrow'. injection Hrow' as <-.
    destruct (row_link _ _ _ _ Hok i) as (a & Ha & Hat).
    { apply (row_end _ _ _ _ Hok). by eapply lookup_lt_Some. }
    assert (a = x) as -> by congruence. eapply ancestor_known; [done| |exact Hat]. by exists hd. }
  destruct (prev_side_hash hd) as [p|] eqn:Hp; injection H as <-; [|by apply Hall].
  rewrite elem_of_reverse in Hc. apply elem_of_app in Hc as [Hc|Hc].
  - apply Hall. by rewrite elem_of_reverse in Hc.
  - apply list_elem_of_singleton in Hc as ->.
    destruct (tw_header _ _ (aw_side _ Hwf) b hd Hhd) as (_ & _ & h & _ & Hab). simpl in Hab.
    rewrite Hp in Hab. by destruct Hab as (_ & Hk & _).
Qed.

(** The archive knows the mainchain of the other one, from [m] down. *)
Definition knows_mainchain ar arp m : Prop := ∀ x mi,
  rtc (main_parent arp) m x → main_header_infos arp !! x = Some mi →
  main_header_infos ar !! x = Some mi.

Lemma main_successors_total ar x mi : archive_wf ar → main_header_infos ar !! x = Some mi →
  is_Some (main_successors ar !! info_prev_block_hash mi).
Proof.
  intros Hwf Hx. destruct (tw_header _ _ (aw_main _ Hwf) x mi Hx) as (_ & _ & h & _ & Hab).
  simpl in Hab. unfold main_prev in Hab. case_decide as Hz; simpl in Hab.
  - rewrite Hz. apply (tw_first _ _ (aw_main _ Hwf)).
  - destruct Hab as (_ & Hk & _). by apply (tw_succ _ _ (aw_main _ Hwf)).
Qed.

(** The blocks below a committed one are built on mainchain blocks that it knows. *)
Lemma committed_built_on ar arp m b c hd : archive_wf ar →
  committed arp m b → knows_mainchain ar arp m →
  rtc (side_parent arp) b c → headers arp !! c = Some hd →
  is_Some (main_successors ar !! prev_main_hash hd).
Proof.
  intros Hwf Hc Hk Hr. revert Hk Hr.
  assert (∀ m b hd hd0, commits_to arp m hd0 → headers arp !! b = Some hd0 →
    headers arp !! b = Some hd → knows_mainchain ar arp m →
    is_Some (main_successors ar !! prev_main_hash hd)) as Hown.
  { intros m0 b0 hd1 hd0 (info & mi & _ & _ & Hmi & Hprev) Hb Hb' Hk. simplify_eq.
    rewrite Hprev. apply (main_successors_total ar m0 mi Hwf). by apply Hk. }
  induction Hc as [m b hd0 Hb Hcom Hp|m b hd0 p m' Hb Hcom Hp _ IH Hm]; intros Hk Hr Hhd.
  - inversion Hr as [|? p ? (hd' & Hb' & Hp')]; subst; [by eapply Hown|].
    simpl in Hb', Hp'. congruence.
  - inversion Hr as [|? p' ? (hd' & Hb' & Hp') Hr']; subst; [by eapply Hown|].
    simpl in Hb', Hp'. assert (p' = p) as -> by congruence. apply IH; [|done|done].
    intros x mi Hx. apply Hk. by etrans.
Qed.

(** The heights on both sides agree with the number of headers. *)
Lemma served_end_height ar arp (start : gset BlockHash) prev b h len : archive_wf ar → archive_wf arp → agree ar arp →
  (∀ p, p ∈ start → is_Some (headers ar !! p)) →
  block_hash_to_height arp !! b = Some h → (0 < len)%nat → h < u32_MAX →
  match prev with
  | Some p => p ∈ start ∧ ∀ b' h', Some b = Some b' → block_hash_to_height arp !! b' = Some h' →
      block_hash_to_height arp !! p = Some (h' - Z.of_nat len)
  | None => ∀ b' h', Some b = Some b' → block_hash_to_height arp !! b' = Some h' →
      h' + 1 = Z.of_nat len
  end →
  expected_end_height ar prev len = Ok h ∧ Z.of_nat len ≤ h + 1.
Proof.
  intros Hwf Hwfp Hag Hstart Hb Hpos Hmax Hh. unfold expected_end_height.
  destruct prev as [p|].
  - destruct Hh as [Hp Hh]. specialize (Hh _ _ eq_refl Hb).
    destruct (known_height side_ops _ (aw_side _ Hwf) p (Hstart p Hp)) as (hp & Hhp & [H0 _]).
    simpl in Hhp. pose proof (same_heights _ arp p hp _ Hwf Hwfp Hag Hhp Hh) as Heq.
    unfold archive_height. rewrite Hhp, Z.mod_small by (unfold u32_MAX in *; lia). simpl.
    rewrite u32_add_small by lia. split; [f_equal|]; lia.
  - specialize (Hh _ _ eq_refl Hb). rewrite Z.mod_small by (unfold u32_MAX in *; lia).
    rewrite u32_sub_small by lia. split; [f_equal|]; lia.
Qed.

(** ** The round of a request for headers *)
Section Round.
Context {P : ExtPeer} {N : ExtNet} {NI : NetIter}.
Implicit Types (s : NetTask) (addr : SocketAddr) (q : Sender).

(** The request that [request_headers] sends. *)
Lemma request_headers_sent ar tip_info peer_tip id q q' : archive_wf ar →
  request_headers ar tip_info peer_tip id q = Ok (q', Some false) →
  headers ar !! block_hash (info_tip peer_tip) = None ∧
  ∃ r, q' = (send_request (GetHeaders r) q).1 ∧
    r = mkGetHeaders (gh_start r) (block_hash (info_tip peer_tip))
          (Some (block_height peer_tip)) (Some id) ∧
    ∀ b, b ∈ gh_start r → is_Some (headers ar !! b).
Proof.
  intros Hwf H. unfold request_headers in H.
  destruct (headers ar !! _) eqn:Hhd; [done|]. split; [done|].
  apply bind_Ok_inv in H as (start & Hstart & [= <-]). eexists. split_and!; [done|done|]. simpl.
  destruct tip_info as [t|]; [|by injection Hstart as <-].
  apply bind_Ok_inv in Hstart as (l & Hl & [= <-]). intros b Hb%elem_of_list_to_set.
  by eapply locator_known.
Qed.

(** The checks of the answer, and what is left to do. *)
Lemma handle_headers_accepts addr start b height id l prev first s :
  head l = Some first → prev_side_hash first = prev →
  (header_hash <$> last l) = Some b →
  match prev with Some p => p ∈ start | None => True end →
  expected_end_height (task_archive s) prev (length l) = Ok height →
  headers_follow (task_archive s) prev l = true →
  handle_headers addr start b height id l s
  = (ar ← in_archive (store_headers l); _ ← changes (set_archive ar);
     push_message (HeadersAvailable id) addr) s.
Proof.
  intros Hhead <- Hlast Hstart Hheight Hf. unfold handle_headers. rewrite Hhead.
  destruct (last l) as [end_header|]; [|done]. injection Hlast as Hlast.
  rewrite decide_True by done.
  assert (match prev_side_hash first with Some h => bool_decide (h ∉ start) | None => false end
    = false) as ->.
  { destruct (prev_side_hash first); [|done]. apply bool_decide_eq_false. naive_solver. }
  unfold mbind at 1, handler_bind at 1, in_archive at 1, mbind at 1, handler_bind at 1.
  unfold reads at 1, returns at 1. rewrite Hheight. simpl lift. cbv beta iota.
  rewrite Z.eqb_refl. unfold mbind at 1, handler_bind at 1, reads at 1. by rewrite Hf.
Qed.

(** C7: The headers up to a tip that an honest peer announces arrive.  The node asks
    for them with the locator of its own tip; what the peer serves from its archive
    passes every check, and all of it is stored: the tip's header is there
    afterwards, with its ancestors, the peer's task hears of it, and nothing else of
    the node changes.  The peer's archive is a sound one with the tip at the height
    that it announced, verified in a mainchain block down from which this node knows
    the mainchain; what both archives hold is the same, and the node invalidated none
    of the blocks. *)
Theorem honest_headers_stored ar arp tip_info peer_tip id q q' addr s :
  archive_wf ar → bmm_sound ar → infos_stored ar →
  archive_wf arp → bmm_sound arp → agree ar arp →
  let tip := info_tip peer_tip in
  block_hash_to_height arp !! block_hash tip = Some (block_height peer_tip) →
  try_get_bmm_result arp (block_hash tip) (main_block_hash tip) = Some Verified →
  knows_mainchain ar arp (main_block_hash tip) →
  (∀ b, rtc (side_parent arp) (block_hash tip) b → b ∉ invalid_blocks ar) →
  Z.of_nat (size (headers ar) + size (headers arp)) ≤ u32_MAX →
  request_headers ar tip_info peer_tip id q = Ok (q', Some false) →
  task_archive s = ar →
  ∃ r l ar', q' = (send_request (GetHeaders r) q).1 ∧
    handle_get_headers arp (gh_start r) (gh_end r) = Ok (HeadersResponse l) ∧
    handle_response addr (HeadersResponse l) (GetHeaders r) s
    = (set_net (push_internal_message (HeadersAvailable id) addr (nt_net s)).1 (set_archive ar' s),
       Ok ()) ∧
    stored_more ar ar' ∧ archive_wf ar' ∧ bmm_sound ar' ∧
    is_Some (headers ar' !! block_hash tip).
Proof.
  intros Hwf Hs Hinf Hwfp Hsp Hag tip Hheight Hver Hknows Hval Hsize Hreq Har.
  destruct (request_headers_sent ar tip_info peer_tip id q q' Hwf Hreq)
    as (Hfresh & r & -> & -> & Hstart). cbn [gh_start gh_end]. fold tip in Hfresh |- *.
  set (start := gh_start r) in *. clearbody start. clear Hreq r.
  destruct (tw_height _ _ (aw_side _ Hwfp) _ _ Hheight) as [tip_hd Htip]. simpl in Htip.
  assert (block_hash tip ∉ start) as Hns.
  { intros Hin. destruct (Hstart _ Hin) as [? Hx]. congruence. }
  destruct (handle_get_headers_served arp start (block_hash tip) Hwfp) as (l & Hserve & Hl);
    [by exists tip_hd|].
  assert (∀ hd, hd ∈ l → rtc (side_parent arp) (block_hash tip) (header_hash hd) ∧
    headers arp !! header_hash hd = Some hd) as Hline.
  { intros hd Hin. by destruct (served_line arp start _ l hd Hwfp Hl Hin) as (? & [= <-] & ?). }
  destruct (served_follow ar arp start (Some (block_hash tip)) l) as (prev & Hf & Hh & Hfirst);
    [done|done|by intros hd Hin; apply Hval, Hline|].
  inversion Hl as [|b Hin Hb|b hd l' _ Hhd Hl' Hb]; subst; [done|].
  assert (hd = tip_hd) as -> by congruence. clear Hl' Hhd.
  set (l := tip_hd :: l') in *.
  pose proof (height_lt_size side_ops _ (aw_side _ Hwfp) _ _ Hheight) as Hlt. simpl in Hlt.
  destruct (served_end_height (task_archive s) arp start prev (block_hash tip)
    (block_height peer_tip) (length l)) as [Hend Hlen];
    [done..|unfold l; simpl; lia|lia|done|].
  destruct (store_headers_all (reverse l) prev (task_archive s)) as (ar' & Hst & Hall); try done.
  { destruct prev as [p|]; [|done]. by apply Hstart, Hh. }
  { intros hd Hin. rewrite elem_of_reverse in Hin. destruct (Hline hd Hin) as [Hr Hhd].
    eapply (committed_built_on _ arp (main_block_hash tip) (block_hash tip)); [done| |done..].
    apply (bs_verified _ Hsp); [|done]. apply (bs_valid _ Hsp). by exists tip_hd. }
  { rewrite length_reverse. lia. }
  pose proof (store_headers_more (reverse l) prev (task_archive s) ar' Hwf Hs Hf) as Hmore.
  rewrite length_reverse in Hmore. specialize (Hmore ltac:(lia) Hst).
  destruct (archive_steps_inv _ ar' (so_steps _ _ Hmore)) as [Hwf' Hs']; [done|].
  destruct (tw_header _ _ (aw_side _ Hwfp) _ tip_hd Htip) as (Hhash & _). simpl in Hhash.
  eexists (mkGetHeaders start _ _ _), (reverse l), ar'. split_and!; [done|done| |done..|].
  - simpl handle_response. destruct (last l) as [first|] eqn:Hlast; [|by apply last_None in Hlast].
    rewrite (handle_headers_accepts addr start (block_hash tip) (block_height peer_tip) id
      (reverse l) prev first).
    + unfold mbind, handler_bind, in_archive, changes, push_message, reads, returns. simpl.
      unfold mbind, handler_bind. by rewrite Hst.
    + by rewrite head_reverse.
    + done.
    + rewrite last_reverse. simpl. by rewrite Hhash.
    + destruct prev; [by apply Hh|done].
    + by rewrite length_reverse.
    + done.
  - rewrite <-Hhash. apply Hall. rewrite elem_of_reverse. by left.
Qed.
End Round.

(** ** The claims of an honest peer *)
Lemma max_by_key_elem {A} (key : A → res ArchiveError Z) l x :
  max_by_key key l = Ok (Some x) → x ∈ l.
Proof.
  unfold max_by_key. intros H. apply bind_Ok_inv in H as (best & Hb & H). injection H as H.
  assert (∀ k y, best = Some (k, y) → y ∈ l) as Hin.
  { refine (foldM_inv (λ o, ∀ k y, o = Some (k, y) → y ∈ l) _ None l best _ _ Hb); [done|].
    intros o z o' Hz IH Hf. apply bind_Ok_inv in Hf as (k & _ & [= <-]). intros k' y.
    destruct o as [[k0 y0]|]; [|by intros [= <- <-]].
    destruct (k0 <? k); intros [= <- <-]; [done|by eapply IH]. }
  destruct best as [[k y]|]; [|done]. simpl in H. injection H as <-. by eapply Hin.
Qed.

Lemma best_verification_verified ar b m :
  get_best_main_verification ar b = Ok m → get_bmm_results ar b !! m = Some Verified.
Proof.
  unfold get_best_main_verification, try_get_best_main_verification. intros H.
  apply bind_Ok_inv in H as (o & Ho & ->%ok_or_Ok). apply max_by_key_elem in Ho.
  apply list_elem_of_omap in Ho as ([m' r] & Hin & Hr). cbn [fst snd] in Hr.
  case_decide; [|done]. simplify_eq. rewrite map_iter_perm in Hin.
  by apply elem_of_map_to_list in Hin.
Qed.

(** The work of a mainchain block is that of its line. *)
Lemma same_work ar arp m : archive_wf ar → archive_wf arp →
  is_Some (main_header_infos arp !! m) → knows_mainchain ar arp m →
  total_work ar !! m = total_work arp !! m.
Proof.
  intros Hwf Hwfp [mi Hm] Hk.
  destruct (known_height main_ops _ (aw_main _ Hwfp) m) as (h & Hh & [H0 _]); [by exists mi|].
  simpl in Hh. remember (Z.to_nat h) as n eqn:Hn.
  revert m mi h Hn Hm Hh H0 Hk; induction n as [|n IH]; intros m mi h Hn Hm Hh H0 Hk;
    pose proof (Hk m mi ltac:(done) Hm) as Hm';
    destruct (aw_work _ Hwf m mi Hm') as (w & Hw & Hab);
    destruct (aw_work _ Hwfp m mi Hm) as (w' & Hw' & Hab');
    destruct (tw_header _ _ (aw_main _ Hwfp) m mi Hm) as (_ & _ & x & Hx & Hup); simpl in *;
    simplify_eq; rewrite Hw, Hw'; destruct (main_prev mi) as [p|] eqn:Hp; try congruence.
  - destruct Hup as (Hpos & _). lia.
  - destruct Hup as (Hpos & [pi Hpi] & Hph), Hab as (wp & Hwp & ->), Hab' as (wp' & Hwp' & ->).
    simpl in *. f_equal. assert (total_work ar !! p = total_work arp !! p); [|congruence].
    apply (IH p pi (h - 1)); [lia|done|done|lia|]. intros y yi Hy. apply Hk.
    eapply rtc_l; [|exact Hy]. by exists mi.
Qed.

(** An honest peer is not banned for what it claims: the total work that it states
    is the one that this node computes, and the mainchain block that it names
    committed to its tip, if this node knows the mainchain down from that block. *)
Theorem honest_claims_pass ar arp stp pt :
  archive_wf ar → archive_wf arp → bmm_sound arp →
  own_tip_info arp stp = Ok (Some pt) →
  is_Some (headers arp !! block_hash (info_tip pt)) →
  knows_mainchain ar arp (main_block_hash (info_tip pt)) →
  main_block_infos ar !! main_block_hash (info_tip pt)
  = main_block_infos arp !! main_block_hash (info_tip pt) →
  check_claims ar pt = Ok ().
Proof.
  intros Hwf Hwfp Hsp Hown [hd Hhd] Hk Hinfos. unfold own_tip_info in Hown.
  destruct (tip stp) as [t|]; [|done]. apply bind_Ok_inv in Hown as (h & _ & Hown).
  apply bind_Ok_inv in Hown as (m & Hbest & Hown). apply bind_Ok_inv in Hown as (w & Hw & [= <-]).
  simpl in *. apply ok_or_Ok in Hw.
  assert (committed arp m t) as Hc.
  { apply (bs_verified _ Hsp); [apply (bs_valid _ Hsp); by exists hd|].
    by apply best_verification_verified. }
  assert (∃ info, main_block_infos arp !! m = Some info ∧ bmm_commitment info = Some t ∧
    is_Some (main_header_infos arp !! m)) as (info & Hinfo & Hcom & Hm).
  { assert (∀ hd0, headers arp !! t = Some hd0 → header_hash hd0 = t) as Hhash.
    { intros hd0 Hhd0. by destruct (tw_header _ _ (aw_side _ Hwfp) t hd0 Hhd0) as (? & _). }
    destruct Hc as [? ? hd0 Hb (info & mi & Hi & Hcm & Hmi & _) _|
                    ? ? hd0 ? ? Hb (info & mi & Hi & Hcm & Hmi & _) _ _ _];
      exists info; rewrite <-(Hhash hd0 Hb); (split_and!; [done|done|by exists mi]). }
  unfold check_claims, get_total_work, get_main_block_info. cbn [info_tip main_block_hash info_total_work].
  rewrite (same_work ar arp m), Hw by done. cbn [ok_or from_task mbind res_bind].
  rewrite Z.eqb_refl. cbn [ensure mbind res_bind]. rewrite Hinfos, Hinfo. simpl.
  by rewrite Hcom, bool_decide_true.
Qed.
End HeaderSync.
