(* ===== verification/NetProps.v ===== *)
(** What a peer can do to a node: whatever its task reports, the node's task goes on
    (but for one assertion about blocks that it asked for), and only what was checked
    gets into the databases.

    The first part shows of the archive's queries and writes, of the check of a
    transaction and of the handlers that use them that they do not panic: [calm] for
    results, [stops_only] for handlers. *)
From S2P Require Import Prelude Bytes SwapTypes TxTypes Externals Accumulator.
From S2P Require Import BlockTypes Rollback Bundle StateDb SwapRules Auth Block.
From S2P Require Import BlockConnect Peg Monitor Mempool Ancestry BlockTree SideTips Archive.
From S2P Require Import ArchiveWrites ArchiveProps Invalidate Bmm ArchiveIter ArchiveIterProps.
From S2P Require Import BetterTip Node MainTask MainTaskProps PeerMsg Addresses Net Peer NetTask.
From S2P Require Import HeaderSync.

(** ** Code that does not panic *)
Definition calm {E A} (m : res E A) : Prop := m ≠ Panic.

Section Calm.
Context {E : Type}.

Lemma calm_Ok {A} (a : A) : calm (@Ok E A a).
Proof. done. Qed.
Lemma calm_Err {A} (e : E) : calm (@Err E A e).
Proof. done. Qed.
Lemma calm_ok_or {A} (o : option A) (e : E) : calm (ok_or o e).
Proof. by destruct o. Qed.
Lemma calm_ensure b (e : E) : calm (ensure b e).
Proof. by destruct b. Qed.
Lemma calm_fmap {A B} (f : A → B) (m : res E A) : calm m → calm (f <$> m).
Proof. by destruct m. Qed.
Lemma calm_bind {A B} (m : res E A) (f : A → res E B) :
  calm m → (∀ a, m = Ok a → calm (f a)) → calm (m ≫= f).
Proof. destruct m as [a| |]; [|done..]. intros _ Hf. by apply Hf. Qed.
Lemma calm_foldM {S A} (f : S → A → res E S) s l :
  (∀ s x, x ∈ l → calm (f s x)) → calm (foldM f s l).
Proof.
  revert s; induction l as [|x l IH]; intros s Hf; simpl; [done|].
  apply calm_bind; [apply Hf; by left|]. intros s' _. apply IH. intros ? ? ?. apply Hf. by right.
Qed.
Lemma calm_lift `{ExtTypes} {A} (f : E → NodeError) (m : res E A) : calm m → calm (lift f m).
Proof. by destruct m. Qed.
End Calm.

(** The rules, as often as they apply. *)
Ltac calming :=
  repeat match goal with
    | H : ?P |- ?P => exact H
    | |- calm (Ok _) => apply calm_Ok
    | |- calm (Err _) => apply calm_Err
    | |- calm (ok_or _ _) => apply calm_ok_or
    | |- calm (ensure _ _) => apply calm_ensure
    | |- calm (lift _ _) => apply calm_lift
    | |- calm (_ <$> _) => apply calm_fmap
    | |- calm (_ ≫= _) => apply calm_bind; [|intros ? ?]
    | |- calm (foldM _ _ _) => apply calm_foldM; intros ? ? ?
    | |- calm (if ?b then _ else _) => destruct b
    | |- calm (match ?x with _ => _ end) => destruct x
    end.

(** *** Ancestors *)
Section Ancestors.
Context {K E : Type} `{EqDecision K} (L : Lineage K E) (D : K → Prop).
Context (Hlink : linked_on L D) (Hheight : ∀ k, calm (lin_height L k)).
Context (Hknown : ∀ k h, lin_height L k = Ok h → D k).

Lemma nth_ancestor_calm k n : calm (nth_ancestor L k n).
Proof.
  destruct (Z.le_gt_cases n 0) as [Hn|Hn].
  { unfold nth_ancestor. generalize 32%nat. intros [|fuel]; cbn [nth_ancestor_loop];
      by rewrite (proj2 (Z.ltb_ge 0 n)). }
  destruct (lin_height L k) as [h|e|] eqn:Hh; [| |by destruct (Hheight k)].
  - destruct (Z.le_gt_cases n h) as [Hle|Hgt].
    + by destruct (nth_ancestor_ok L D Hlink k h n) as (a & -> & _); [by eapply Hknown|..|lia|].
    + by rewrite (nth_ancestor_err L k h n).
  - unfold nth_ancestor. generalize 32%nat. intros [|fuel]; cbn [nth_ancestor_loop];
      rewrite Hh; by destruct (0 <? n).
Qed.

Lemma descends_calm a b : calm (descends L a b).
Proof. unfold descends. calming; [apply Hheight..|apply nth_ancestor_calm]. Qed.

Lemma equalize_calm a b : calm (equalize L a b).
Proof. unfold equalize. calming; try apply Hheight; apply nth_ancestor_calm. Qed.

Lemma equalize_height a b a' b' h :
  equalize L a b = Ok (a', b', h) → ∃ k, lin_height L k = Ok h.
Proof.
  unfold equalize. intros H. apply bind_Ok_inv in H as (h0 & H0 & H).
  apply bind_Ok_inv in H as (h1 & H1 & H). destruct (h0 ?= h1); simplify_eq; [by eexists|..];
    apply bind_Ok_inv in H as (c & _ & H); simplify_eq; by eexists.
Qed.

Lemma bisect_calm fuel a b lo hi :
  0 ≤ lo ≤ hi → 2 * hi ≤ u32_MAX → hi - lo < 2 ^ Z.of_nat fuel → calm (bisect L fuel a b lo hi).
Proof.
  revert lo hi; induction fuel as [|fuel IH]; intros lo hi Hlo Hhi Hf;
    cbn [bisect]; destruct (Z.ltb_spec lo hi) as [Hlt|Hge]; try apply calm_Ok.
  { simpl in Hf. lia. }
  rewrite u32_add_small by lia.
  pose proof (Z.div_mod (lo + hi) 2 ltac:(lia)) as Hdm.
  pose proof (Z.mod_pos_bound (lo + hi) 2 ltac:(lia)) as Hmod.
  rewrite Nat2Z.inj_succ, Z.pow_succ_r in Hf by lia.
  calming; [apply nth_ancestor_calm..| |]; apply IH; lia.
Qed.

Lemma search_common_calm a b k h :
  lin_height L k = Ok h → 2 * h ≤ u32_MAX → calm (search_common L a b h).
Proof.
  intros Hk Hmax. destruct (linked_height L D Hlink k) as (h' & ? & [H0 _]); [by eapply Hknown|].
  same_Ok. unfold search_common. calming; [|apply nth_ancestor_calm].
  destruct (Z.le_gt_cases 1 h).
  - apply bisect_calm; [lia|done|]. unfold u32_MAX in Hmax. simpl. lia.
  - generalize 33%nat. intros [|fuel]; cbn [bisect]; by rewrite (proj2 (Z.ltb_ge 1 h)) by lia.
Qed.
End Ancestors.

(** *** The archive *)
Section ArchiveCalm.
Context {T : ExtTypes} {X : ExtFuns} {W : ExtWork} {I : HashIter} {IL : HashIterLaws I}.
Context {P : ExtPeer}.
Implicit Types (ar : Archive) (hd header : Header) (b p : BlockHash).

(** Neither tree has [2^31] blocks. *)
Definition archive_fits ar : Prop :=
  2 * Z.of_nat (size (headers ar)) ≤ u32_MAX ∧
  2 * Z.of_nat (size (main_header_infos ar)) ≤ u32_MAX.

Lemma side_height_known ar : archive_wf ar → ∀ k h,
  lin_height (side_lineage ar) k = Ok h → known (side_tree ar) k ∧ h < Z.of_nat (size (headers ar)).
Proof.
  intros Hwf k h Hh%ok_or_Ok. split; [by eapply (tw_height _ _ (aw_side _ Hwf))|].
  by apply (height_lt_size side_ops _ (aw_side _ Hwf) k h).
Qed.
Lemma main_height_known ar : tree_wf main_ops (main_tree ar) → ∀ k h,
  lin_height (main_lineage ar) k = Ok h →
  known (main_tree ar) k ∧ h < Z.of_nat (size (main_header_infos ar)).
Proof.
  intros Hwf k h Hh%ok_or_Ok. split; [by eapply (tw_height _ _ Hwf)|].
  by apply (height_lt_size main_ops _ Hwf k h).
Qed.

Section Main.
Context (ar : Archive) (Hwf : tree_wf main_ops (main_tree ar)).
Let Hlink : linked_on (main_lineage ar) (known (main_tree ar)) := tw_linked _ _ Hwf.
Let Hheight k : calm (lin_height (main_lineage ar) k) := calm_ok_or _ _.
Let Hknown k h Hk := proj1 (main_height_known ar Hwf k h Hk).

Lemma main_ancestor_calm b n : calm (get_nth_main_ancestor ar b n).
Proof. by apply (nth_ancestor_calm _ _ Hlink Hheight Hknown). Qed.
Lemma main_descendant_calm a b : calm (is_main_descendant ar a b).
Proof. by apply (descends_calm _ _ Hlink Hheight Hknown). Qed.
Lemma shared_lineage_calm a b : calm (shared_mainchain_lineage ar a b).
Proof.
  unfold shared_mainchain_lineage. calming. by apply (equalize_calm _ _ Hlink Hheight Hknown).
Qed.
Lemma common_main_calm a b : 2 * Z.of_nat (size (main_header_infos ar)) ≤ u32_MAX →
  calm (last_common_main_ancestor ar a b).
Proof.
  intros Hmax. unfold last_common_main_ancestor.
  apply calm_bind; [by apply (equalize_calm _ _ Hlink Hheight Hknown)|]. intros [[a' b'] h] Heq.
  apply equalize_height in Heq as [k Hk]. case_decide; [done|].
  pose proof (proj2 (main_height_known ar Hwf k h Hk)).
  apply (search_common_calm _ _ Hlink Hheight Hknown _ _ k); [done|lia].
Qed.
Lemma parent_committed_calm results m : calm (parent_committed ar results m).
Proof.
  unfold parent_committed. induction (map_iter results) as [|x l IH]; simpl; [done|].
  calming. apply main_descendant_calm.
Qed.
End Main.

Section Side.
Context (ar : Archive) (Hwf : archive_wf ar) (Hfits : archive_fits ar).
Let Hlink : linked_on (side_lineage ar) (known (side_tree ar)) := tw_linked _ _ (aw_side _ Hwf).
Let Hheight k : calm (lin_height (side_lineage ar) k) := calm_ok_or _ _.
Let Hknown k h Hk := proj1 (side_height_known ar Hwf k h Hk).

Lemma common_side_calm a b : calm (last_common_ancestor ar a b).
Proof.
  unfold last_common_ancestor.
  apply calm_bind; [by apply (equalize_calm _ _ Hlink Hheight Hknown)|]. intros [[a' b'] h] Heq.
  apply equalize_height in Heq as [k Hk]. pose proof (proj2 (side_height_known ar Hwf k h Hk)).
  destruct Hfits as [Hmax _]. calming; try by apply (nth_ancestor_calm _ _ Hlink Hheight Hknown).
  apply (search_common_calm _ _ Hlink Hheight Hknown _ _ k); [done|lia].
Qed.

(** A loop over the ancestors of a block ends with the first one. *)
Lemma ancestors_loop_calm {B} (step : B → BlockHash * Header → res ArchiveError (B + B)) b h acc fuel :
  block_hash_to_height ar !! b = Some h → (Z.to_nat h + 2 ≤ fuel)%nat →
  (∀ acc q, calm (step acc q)) →
  calm (iter_loop (ancestor_headers_next ar) step fuel (Some b) acc).
Proof.
  intros Hh Hf Hstep. revert b h acc Hh Hf; induction fuel as [|fuel IH]; intros b h acc Hh Hf; [lia|].
  destruct (tw_height _ _ (aw_side _ Hwf) b h Hh) as [hd Hhd]. simpl in Hhd.
  destruct (tw_header _ _ (aw_side _ Hwf) b hd Hhd) as (_ & _ & h' & Hh' & Hab). simpl in *.
  unfold get_header. rewrite Hhd. simpl. assert (h' = h) as -> by congruence.
  apply calm_bind; [apply Hstep|]. intros [acc'|acc'] _; [|done].
  destruct (prev_side_hash hd) as [p|].
  - destruct Hab as (Hpos & _ & Hhp). simpl in Hhp. eapply IH; [exact Hhp|lia].
  - destruct fuel; [lia|done].
Qed.

Lemma find_map_calm {A} (f : BlockHash → res ArchiveError (option A)) b :
  (∀ a, calm (f a)) → calm (find_map_ancestors ar f b).
Proof.
  intros Hf. unfold find_map_ancestors. destruct (headers ar !! b) as [hd|] eqn:Hhd.
  - destruct (known_height side_ops _ (aw_side _ Hwf) b) as (h & Hh & [H0 _]); [by exists hd|].
    pose proof (height_lt_size side_ops _ (aw_side _ Hwf) b h Hh) as Hlt. simpl in Hh, Hlt.
    apply (ancestors_loop_calm _ b h); [done|unfold side_fuel; lia|].
    intros acc q. calming. apply Hf.
  - unfold side_fuel. simpl. unfold get_header. by rewrite Hhd.
Qed.

Lemma max_by_key_calm {A} (key : A → res ArchiveError Z) l :
  (∀ x, calm (key x)) → calm (max_by_key key l).
Proof. intros Hk. unfold max_by_key. calming. apply Hk. Qed.
Lemma best_verification_calm b : calm (get_best_main_verification ar b).
Proof.
  unfold get_best_main_verification, try_get_best_main_verification. calming.
  apply max_by_key_calm. intros x. apply calm_ok_or.
Qed.

Lemma better_tip_calm t0 t1 : calm (better_tip ar t0 t1).
Proof.
  assert (∀ m hd, calm (before_ancestor ar m hd)) as Hbefore.
  { intros m hd. unfold before_ancestor. calming. apply main_descendant_calm, Hwf. }
  assert (∀ m b, calm (height_before ar m b)) as Hhb.
  { intros m b. apply find_map_calm. intros a. unfold get_header, archive_height. calming.
    apply Hbefore. }
  assert (∀ m h b, calm (height_and_work_before ar m h b)) as Hhw.
  { intros m h b. apply find_map_calm. intros a.
    unfold get_header, archive_height, get_main_height, get_total_work. calming;
      [apply Hbefore|apply main_ancestor_calm, Hwf]. }
  pose proof (λ a b, shared_lineage_calm ar (aw_main _ Hwf) a b) as Hsh.
  pose proof (λ a b, common_main_calm ar (aw_main _ Hwf) a b (proj2 Hfits)) as Hlc.
  unfold better_tip, archive_height, get_total_work, get_main_height. calming; auto.
Qed.

Lemma take_missing_calm fuel n it l :
  ancestors_rev_collect (side_rev ar) fuel it = Ok l → calm (take_missing ar fuel n it).
Proof.
  revert n it l; induction fuel as [|fuel IH]; intros [|n] it l Hl; try done;
    cbn [take_missing ancestors_rev_collect] in *; apply bind_Ok_inv in Hl as ([[item|] it'] & -> & Hl);
    rewrite bind_Ok; try done.
  apply bind_Ok_inv in Hl as (rest & Hl & _).
  destruct (contains_body ar item.1); [by eapply IH|]. calming. by eapply IH.
Qed.

Lemma missing_bodies_calm n b s : 0 ≤ s → calm (missing_bodies ar n b s).
Proof.
  intros Hs. unfold missing_bodies. destruct (block_hash_to_height ar !! b) as [h|] eqn:Hh.
  - pose proof (height_lt_size side_ops _ (aw_side _ Hwf) b h Hh) as Hlt. simpl in Hlt.
    destruct (side_rev_line ar Hwf b h s (side_fuel ar)) as (l & Hl & _);
      [done|done|unfold side_fuel; lia|]. by eapply take_missing_calm.
  - destruct n; unfold side_fuel; [done|]. cbn [take_missing].
    unfold ancestors_rev_next. simpl. unfold archive_height. by rewrite Hh.
Qed.
End Side.

(** ** Storing a body *)

(** The queue of [put_body]: the blocks that were queued, done or not, are above [b],
    and each was queued as the child of a block that is done. *)
Record queued ar b (done_ queue : list BlockHash) : Prop := {
  qu_once : NoDup (done_ ++ queue);
  qu_height c : c ∈ done_ ++ queue → ∃ h0 h, block_hash_to_height ar !! b = Some h0 ∧
    block_hash_to_height ar !! c = Some h ∧ h0 ≤ h;
  qu_parent c : c ∈ done_ ++ queue → c = b ∨ ∃ p, p ∈ done_ ∧ side_parent ar c p;
}.

Lemma queued_fits ar b done_ queue : archive_wf ar → queued ar b done_ queue →
  (length done_ + length queue ≤ size (headers ar))%nat.
Proof.
  intros Hwf [Hnd Hh _]. rewrite <-length_app, <-size_dom, <-(size_list_to_set (C := gset BlockHash) _ Hnd).
  apply subseteq_size. intros c Hc%elem_of_list_to_set. apply elem_of_dom.
  destruct (Hh c Hc) as (_ & h & _ & Hch & _). by apply (tw_height _ _ (aw_side _ Hwf) c h).
Qed.

(** The children of a block are its successors. *)
Lemma children_of ar b s c : archive_wf ar → successors ar !! Some b = Some s →
  c ∈ s ↔ side_parent ar c b.
Proof.
  intros Hwf Hs. pose proof (tw_children _ _ (aw_side _ Hwf) (Some b) s c Hs) as Hc. simpl in Hc.
  rewrite Hc by done. done.
Qed.

Lemma child_height ar c p h : archive_wf ar → side_parent ar c p →
  block_hash_to_height ar !! p = Some h → block_hash_to_height ar !! c = Some (h + 1).
Proof.
  intros Hwf (v & Hv & Hp) Hh. destruct (tw_header _ _ (aw_side _ Hwf) c v Hv) as (_ & _ & hc & Hhc & Hab).
  rewrite Hp in Hab. destruct Hab as (_ & _ & Hhp). simpl in *. rewrite Hhc. f_equal.
  assert (h = hc - 1) by congruence. lia.
Qed.

Lemma queued_skip ar b done_ c queue :
  queued ar b done_ (c :: queue) → queued ar b (done_ ++ [c]) queue.
Proof.
  intros [Hnd Hh Hp]. rewrite (cons_middle c) in *.
  split; rewrite <-?app_assoc; [done|done|].
  intros x [->|(p & Hin & Hpar)]%Hp; [by left|]. right. exists p. split; [set_solver|done].
Qed.

Lemma queued_more ar b done_ c queue s : archive_wf ar →
  queued ar b done_ (c :: queue) → successors ar !! Some c = Some s →
  queued ar b (done_ ++ [c]) (queue ++ set_iter s).
Proof.
  intros Hwf Hq Hs. pose proof (queued_skip _ _ _ _ _ Hq) as [Hnd' Hh' Hp'].
  destruct Hq as [Hnd Hh Hp].
  assert (∀ x, x ∈ set_iter s ↔ side_parent ar x c) as Hel.
  { intros x. rewrite set_iter_perm, elem_of_elements. by apply children_of. }
  destruct (Hh c) as (h0 & hc & Hh0 & Hhc & Hle); [set_solver|].
  assert (c ∉ done_) as Hcd.
  { apply NoDup_app in Hnd as (_ & Hd & _). intros Hin. apply (Hd c Hin). by left. }
  split; rewrite ?app_assoc.
  - apply NoDup_app. split_and!; [done| |rewrite set_iter_perm; apply NoDup_elements].
    intros x Hx Hin. rewrite Hel in Hin. pose proof (child_height ar x c hc Hwf Hin Hhc) as Hhx.
    destruct (Hp x) as [->|(p & Hpd & Hpar)]; [set_solver|rewrite Hh0 in Hhx; injection Hhx; lia|].
    assert (p = c) as ->; [|done].
    destruct Hin as (v & Hv & Hpv), Hpar as (v' & Hv' & Hpv'). congruence.
  - intros x [Hx|Hx]%elem_of_app; [by apply Hh'|]. rewrite Hel in Hx. exists h0, (hc + 1).
    split_and!; [done|by eapply child_height|lia].
  - intros x [Hx|Hx]%elem_of_app.
    + destruct (Hp' x Hx) as [->|?]; [by left|by right].
    + right. exists c. rewrite Hel in Hx. split; [set_solver|done].
Qed.

Lemma connect_verified_calm main b hd acc (q : BtcBlockHash * BmmResult) :
  tree_wf main_ops (main_tree acc.1) → calm (connect_verified main b hd acc q).
Proof.
  destruct acc as [ar c], q as [m r]. intros Hwf. unfold connect_verified, get_total_work. calming.
  - by apply main_descendant_calm, Hwf.
  - assert (∀ {A} (m : res SideTipsError A), calm m → calm (from_side_tips m)) as Hside
      by by intros ? [].
    apply Hside. unfold connect_sidechain_tip. calming.
Qed.

Lemma connect_verified_same main b hd acc (q : BtcBlockHash * BmmResult) acc' :
  connect_verified main b hd acc q = Ok acc' → same_but_tips acc.1 acc'.1.
Proof.
  destruct acc as [ar c], q as [m [|]]; simpl; [|by intros [= <-]].
  destruct (match prev_side_hash hd with Some _ => _ | None => _ end); [by intros [= <-]|].
  intros H. apply bind_Ok_inv in H as ([] & _ & H); [|by simplify_eq].
  apply bind_Ok_inv in H as (w & _ & H). by apply bind_Ok_inv in H as (t & _ & [= <-]).
Qed.

Lemma update_side_tips_calm main b hd ar q : tree_wf main_ops (main_tree ar) →
  calm (update_side_tips main b hd (ar, q)).
Proof.
  intros Hwf. unfold update_side_tips. apply calm_bind.
  - enough (∀ l acc, main_tree acc.1 = main_tree ar →
      calm (foldM (connect_verified main b hd) acc l)) as H by by apply H.
    induction l as [|q' l IH]; intros acc Hm; simpl; [done|]. apply calm_bind.
    + apply connect_verified_calm. by rewrite Hm.
    + intros acc' Hacc. apply IH. apply connect_verified_same in Hacc as (_ & -> & _). done.
  - intros [ar' c] _. destruct c; [|done]. apply calm_bind; [|done].
    unfold get_successors. by destruct (successors _ !! _).
Qed.

Lemma update_side_tips_queue main b hd ar q ar' q' :
  update_side_tips main b hd (ar, q) = Ok (ar', q') →
  side_tree ar' = side_tree ar ∧ main_tree ar' = main_tree ar ∧
  (q' = q ∨ ∃ s, successors ar !! Some b = Some s ∧ q' = q ++ set_iter s).
Proof.
  intros H. pose proof (update_side_tips_same _ _ _ _ _ _ _ H) as (Hs & Hm & _).
  split_and!; [done..|]. pose proof (f_equal t_succs Hs) as Hsucc. simpl in Hsucc.
  unfold update_side_tips in H. apply bind_Ok_inv in H as ([ar1 c] & _ & H).
  destruct c; [|simplify_eq; by left]. apply bind_Ok_inv in H as (s & Hsu%get_successors_Ok & H).
  simplify_eq. right. exists s. by rewrite <-Hsucc.
Qed.

(** Every block is done once, so that the fuel is enough. *)
Lemma connect_queue_calm fuel main b done_ queue ar ar0 : archive_wf ar0 →
  side_tree ar = side_tree ar0 → main_tree ar = main_tree ar0 →
  queued ar0 b done_ queue → (size (headers ar0) ≤ fuel + length done_)%nat →
  calm (connect_queue fuel main (ar, queue)).
Proof.
  intros Hwf. revert done_ queue ar; induction fuel as [|fuel IH]; intros done_ [|c queue] ar Hs Hm Hq Hf;
    try done; pose proof (queued_fits _ _ _ _ Hwf Hq) as Hlen; simpl in Hlen; [lia|].
  cbn [connect_queue]. pose proof (queued_skip _ _ _ _ _ Hq) as Hskip.
  assert (size (headers ar0) ≤ fuel + length (done_ ++ [c]))%nat as Hf'
    by (rewrite length_app; simpl; lia).
  destruct (contains_body ar c); [|by eapply IH].
  unfold get_header. calming; [by apply update_side_tips_calm; rewrite Hm; apply Hwf|].
  match goal with H : update_side_tips _ _ _ _ = Ok ?a |- _ => destruct a as [ar' q'];
    apply update_side_tips_queue in H as (Hs' & Hm' & Hq') end.
  apply (IH (done_ ++ [c])); [congruence|congruence| |done].
  destruct Hq' as [->|(s & Hsu & ->)]; [done|].
  pose proof (f_equal t_succs Hs) as Hsucc. simpl in Hsucc. rewrite Hsucc in Hsu.
  by apply queued_more.
Qed.

Lemma put_body_calm ar b body : archive_wf ar → calm (put_body b body ar).
Proof.
  intros Hwf. unfold put_body. unfold get_header. apply calm_bind; [apply calm_ok_or|].
  intros hd Hhd%ok_or_Ok. apply calm_bind; [apply update_side_tips_calm, Hwf|].
  intros [ar' q] (Hs & Hm & Hq)%update_side_tips_queue.
  destruct (known_height side_ops _ (aw_side _ Hwf) b) as (h & Hh & [H0 _]); [by exists hd|].
  simpl in Hh.
  assert (queued ar b [] [b]) as Hqb.
  { split; simpl; [apply NoDup_singleton| |]; intros c ->%list_elem_of_singleton; [|by left].
    by exists h, h. }
  eapply (connect_queue_calm _ _ b [b] q ar' ar Hwf Hs Hm); [|simpl; lia].
  destruct Hq as [->|(s & Hsu & ->)]; [by apply (queued_skip ar b [] b [])|].
  by apply (queued_more ar b [] b [] s).
Qed.

(** ** Storing headers *)
Lemma bmm_result_at_calm ar hd results m : tree_wf main_ops (main_tree ar) →
  calm (bmm_result_at ar hd results m).
Proof.
  intros Hwf. unfold bmm_result_at, get_main_block_info, get_main_header_info. calming.
  by apply parent_committed_calm.
Qed.

Lemma put_header_calm ar hd : archive_wf ar → headers ar !! header_hash hd = None →
  parent_stored ar (prev_side_hash hd) → Z.of_nat (size (headers ar)) ≤ u32_MAX →
  calm (put_header hd ar).
Proof.
  intros Hwf Hfresh Hpar Hsize.
  destruct (put_header_tree ar hd) as (h & ar2 & _ & -> & _ & _ & _ & Hsame & _); [done..|].
  unfold store_bmm_results, get_main_successors. calming. apply bmm_result_at_calm.
  rewrite (sm_tree _ _ Hsame). apply Hwf.
Qed.

Lemma store_headers_calm l prev ar : archive_wf ar → bmm_sound ar →
  headers_follow ar prev l = true →
  Z.of_nat (size (headers ar) + length l) ≤ u32_MAX → calm (store_headers l ar).
Proof.
  revert prev ar; induction l as [|hd l IH]; intros prev ar Hwf Hs Hf Hsize; [done|].
  cbn [headers_follow store_headers length] in *.
  apply andb_true_iff in Hf as [[_ Hval]%andb_true_iff Hf].
  apply negb_true_iff, bool_decide_eq_false in Hval.
  destruct (headers ar !! header_hash hd) eqn:Hhd; [eapply IH; by eauto with lia|].
  destruct (match prev_side_hash hd with Some _ => _ | None => _ end) eqn:Hpar; [done|].
  apply calm_bind.
  - apply put_header_calm; [done|done| |lia]. unfold parent_stored.
    destruct (prev_side_hash hd) as [p|]; [|done]. apply bool_decide_eq_false in Hpar.
    by apply not_eq_None_Some.
  - intros ar1 Hput. destruct (put_header_more ar hd ar1) as [Hmore Hins]; [done..|lia|done|].
    destruct (archive_steps_inv ar ar1 (so_steps _ _ Hmore)) as [Hwf1 Hs1]; [done|].
    apply (IH (Some (header_hash hd))); [done|done| |].
    + by rewrite (headers_follow_invalid ar ar1) by apply Hmore.
    + rewrite Hins, map_size_insert_None by done. lia.
Qed.
End ArchiveCalm.

(** *** Transactions *)
Lemma calm_mapM {E A B} (f : A → res E B) l : (∀ x, calm (f x)) → calm (mapM_res f l).
Proof. intros Hf. induction l as [|x l IH]; simpl; calming. apply Hf. Qed.

Lemma validate_transaction_calm `{ExtTypes} `{ExtFuns} st at_ : calm (validate_transaction st at_).
Proof.
  assert (∀ tx, calm (validate_no_locked_outputs st tx)) as Hlocks.
  { intros tx. unfold validate_no_locked_outputs, require. calming. }
  unfold validate_transaction. calming.
  - unfold fill_transaction. calming. apply calm_mapM. intros ?. calming.
  - apply Hlocks.
  - unfold validate_swap_create, check_create_input, require, fail. calming.
  - unfold validate_swap_claim, validate_swap_claim_consensus, check_claim_input, amount_paid_to,
      require, fail. calming.
  - unfold validate_swap_accept, require, fail. calming. apply Hlocks.
  - unfold check_tx_owners. calming.
  - unfold validate_filled_transaction, validate_utxo_hashes. calming.
Qed.

(** *** Handlers that may panic in one case only *)
Section StopsOnly.
Context {T : ExtTypes} {X : ExtFuns} {W : ExtWork} {I : HashIter} {IL : HashIterLaws I}.
Context {P : ExtPeer} {N : ExtNet} {NI : NetIter}.
Implicit Types (s : NetTask) (addr : SocketAddr).
Context (ar : Archive) (Q : Prop).

(** With the archive [ar], which it leaves, the handler panics only if [Q]. *)
Definition stops_only {A} (m : handler NetTask NodeError A) : Prop :=
  ∀ s, task_archive s = ar → task_archive (m s).1 = ar ∧ ((m s).2 = Panic → Q).

Lemma stops_bind {A B} (m : handler NetTask NodeError A) (f : A → handler NetTask NodeError B) :
  stops_only m → (∀ a, stops_only (f a)) → stops_only (m ≫= f).
Proof.
  intros Hm Hf s Hs. destruct (Hm s Hs) as [Hs' Hp]. unfold mbind, handler_bind.
  destruct (m s) as [s' [a|e|]]; simpl in *; [by apply Hf|done|].
  split; [done|]. intros _. by apply Hp.
Qed.
Lemma stops_reads {A B} (g : NetTask → A) (f : A → handler NetTask NodeError B) :
  (∀ s, task_archive s = ar → stops_only (f (g s))) → stops_only (a ← reads g; f a).
Proof. intros Hf s Hs. exact (Hf s Hs s Hs). Qed.
Lemma stops_returns {A} (m : res NodeError A) : (m = Panic → Q) → stops_only (returns m).
Proof. by intros Hm s Hs. Qed.
Lemma stops_changes f : (∀ s, task_archive (f s) = task_archive s) → stops_only (changes f).
Proof. intros Hf s Hs. split; [simpl; by rewrite Hf|done]. Qed.
Lemma stops_in_archive {A} (f : Archive → res ArchiveError A) :
  calm (f ar) → stops_only (in_archive f).
Proof.
  intros Hf. unfold in_archive. apply stops_reads. intros s ->. apply stops_returns.
  by destruct (f ar).
Qed.
Lemma stops_for_each {A} (f : A → handler NetTask NodeError ()) l :
  (∀ x, stops_only (f x)) → stops_only (for_each f l).
Proof.
  intros Hf. induction l as [|x l IH]; simpl; [by apply stops_returns|]. by apply stops_bind.
Qed.
End StopsOnly.

Ltac stopping :=
  repeat match goal with
    | |- stops_only _ _ (in_archive _) => apply stops_in_archive
    | |- stops_only _ _ (returns _) => apply stops_returns
    | |- stops_only _ _ (done_with _) => by apply stops_returns
    | |- stops_only _ _ (changes _) => by apply stops_changes
    | |- stops_only _ _ (send_new_tip _ _ _) => by apply stops_changes
    | |- stops_only _ _ (add_waiting _ _ _) => by apply stops_changes
    | |- stops_only _ _ (push_message _ _) => by apply stops_changes
    | |- stops_only _ _ (drop_peer _) => by apply stops_changes
    | |- stops_only _ _ (for_each _ _) => apply stops_for_each; intros ?
    | |- stops_only _ _ (reads _ ≫= _) => apply stops_reads; intros ? ?
    | |- stops_only _ _ (_ ≫= _) => apply stops_bind; [|intros ?]
    | |- stops_only _ _ (if ?b then _ else _) => destruct b
    | |- stops_only _ _ (match ?x with _ => _ end) => destruct x
    end.

Section BlockStops.
Context {T : ExtTypes} {X : ExtFuns} {W : ExtWork} {I : HashIter} {IL : HashIterLaws I}.
Context {P : ExtPeer} {N : ExtNet} {NI : NetIter}.
Implicit Types (s : NetTask) (addr : SocketAddr) (ar : Archive).

(** No mainchain block on the line of [main] verifies [b]. *)
Definition unverified_on ar (b : BlockHash) (main : BtcBlockHash) : Prop :=
  ∀ m, try_get_bmm_result ar b m = Some Verified → ¬ rtc (main_parent ar) main m.

Lemma find_verified_calm ar main l : tree_wf main_ops (main_tree ar) → calm (find_verified ar main l).
Proof.
  intros Hwf. induction l as [|[m []] l IH]; simpl; [done| |done]. calming.
  by apply main_descendant_calm.
Qed.

Lemma descends_false ar m main : archive_wf ar →
  is_main_descendant ar m main = Ok false → ¬ rtc (main_parent ar) main m.
Proof.
  intros Hwf H Hr. pose proof H as Hd. unfold is_main_descendant, descends in Hd. case_decide; [done|].
  apply bind_Ok_inv in Hd as (hm & Hm%ok_or_Ok & Hd).
  apply bind_Ok_inv in Hd as (ht & Ht%ok_or_Ok & _).
  apply (tw_height _ _ (aw_main _ Hwf)) in Hm, Ht.
  destruct (is_main_descendant_ok ar m main Hwf Hm Ht) as (r & Hr' & Hiff).
  rewrite H in Hr'. injection Hr' as <-. by apply Hiff in Hr.
Qed.

Lemma find_verified_none ar main l m : archive_wf ar →
  find_verified ar main l = Ok None → (m, Verified) ∈ l → ¬ rtc (main_parent ar) main m.
Proof.
  intros Hwf. induction l as [|[m' r] l IH]; intros H Hin; [by apply elem_of_nil in Hin|].
  simpl in H. apply elem_of_cons in Hin as [[= <- <-]|Hin].
  - apply bind_Ok_inv in H as ([] & Hd & H); [done|]. intros Hr.
    apply (descends_false ar m main Hwf Hd Hr).
  - destruct r; [|by eapply IH]. apply bind_Ok_inv in H as ([] & _ & H); [done|]. by eapply IH.
Qed.

Lemma verification_panics ar b main : archive_wf ar →
  verification_on_line ar b main = Panic → unverified_on ar b main.
Proof.
  intros Hwf. unfold verification_on_line.
  destruct (find_verified _ _ _) as [[m|]|e|] eqn:Hf; simpl; try done.
  - intros _ m Hm. apply (find_verified_none ar main _ m Hwf Hf). rewrite map_iter_perm.
    by apply elem_of_map_to_list.
  - by apply find_verified_calm in Hf; [|apply Hwf].
Qed.

(** *** What a block of a peer sets off *)
Section Block.
Context (ar : Archive) (Hwf : archive_wf ar) (Hfits : archive_fits ar) (Q : Prop).

Lemma earliest_missing_calm b h : 0 ≤ h → calm (earliest_missing_body ar b h).
Proof. intros Hh. unfold earliest_missing_body. calming. by apply missing_bodies_calm. Qed.
Lemma height_after_nonneg h : 0 ≤ height_after h.
Proof. destruct h as [h|]; [|done]. by destruct (u32_add_range h 1). Qed.

Lemma notify_stops addr b t anc id : stops_only ar Q (notify_bodies addr b t anc id).
Proof.
  unfold notify_bodies. stopping.
  - unfold archive_height. calming.
  - apply earliest_missing_calm, height_after_nonneg.
Qed.

Lemma advance_stops tip q : stops_only ar Q (advance_waiting tip q).
Proof.
  destruct q as [t src]. unfold advance_waiting, next_tip. stopping.
  - unfold archive_height. calming; [by apply common_side_calm|].
    apply earliest_missing_calm, height_after_nonneg.
  - unfold get_header. calming. by apply best_verification_calm.
  - match goal with H : task_archive _ = ar |- _ => rewrite H end. unfold is_better. intros Hb.
    match type of Hb with ?x = _ => assert (calm x) as Hc end; [|by destruct Hc].
    calming. by apply better_tip_calm.
Qed.

Lemma announce_stops addr b hd t : (unverified_on ar b (main_block_hash t) → Q) →
  stops_only ar Q (announce_tips addr b hd t).
Proof.
  intros HQ. unfold announce_tips. stopping; [| |apply advance_stops].
  - intros Ht. match type of Ht with ?x = _ => assert (calm x) as Hc end; [|by destruct Hc].
    unfold current_tip. calming. by apply best_verification_calm.
  - intros Hp. apply HQ, verification_panics; [done|]. unfold task_archive in *. congruence.
Qed.
End Block.

(** An answer with a block that stops the task: nothing on the mainchain line of the
    tip that it was asked for verifies it. *)
Lemma block_stops addr b t anc id hd body s :
  archive_wf (task_archive s) → archive_fits (task_archive s) →
  (handle_block addr b t anc id hd body s).2 = Panic →
  header_hash hd = b ∧ unverified_on (task_archive s) b (main_block_hash t).
Proof.
  intros Hwf [Hf Hf']. unfold handle_block. case_decide as Hb; [|done].
  unfold mbind at 1, handler_bind at 1, in_archive at 1, mbind at 1, handler_bind at 1.
  unfold reads at 1, returns at 1.
  destruct (put_body b body (task_archive s)) as [ar'|e|] eqn:Hput; simpl;
    [|done|by apply put_body_calm in Hput].
  pose proof (put_body_same _ _ _ _ Hput) as Hsame.
  assert (archive_wf ar') as Hwf'.
  { destruct Hsame as (Hside & Hmain & _ & Hwork & _). pose proof (f_equal t_headers Hmain) as Hmi.
    simpl in Hmi. split; [rewrite Hside|rewrite Hmain|unfold work_wf; rewrite Hmi, Hwork]; apply Hwf. }
  destruct Hsame as (Hside & Hmain & _ & _ & Hres & _).
  pose proof (f_equal t_headers Hside) as Hhd. pose proof (f_equal t_headers Hmain) as Hmi. simpl in *.
  assert (archive_fits ar') as Hfits by by (unfold archive_fits; rewrite Hhd, Hmi).
  intros Hp. split; [done|].
  assert (stops_only ar' (unverified_on ar' b (main_block_hash t))
    (_ ← notify_bodies addr b t anc id; announce_tips addr b hd t)) as Hst.
  { apply stops_bind; [by apply notify_stops|]. intros _. by apply announce_stops. }
  destruct (Hst (set_archive ar' s) eq_refl) as [_ Hq]. specialize (Hq Hp).
  intros m Hm. unfold unverified_on, try_get_bmm_result, get_bmm_results, main_parent in *.
  rewrite Hres, Hmain in Hq. by apply Hq.
Qed.
End BlockStops.

Section NetProps.
Context {T : ExtTypes} {X : ExtFuns} {W : ExtWork} {I : HashIter} {IL : HashIterLaws I}.
Context {P : ExtPeer} {N : ExtNet} {NI : NetIter}.
Implicit Types (s : NetTask) (addr : SocketAddr) (ar : Archive).

(** The connections and the known peers but the one peer's are still there. *)
Definition net_kept addr (net net' : Net) : Prop :=
  (∀ a, a ≠ addr → is_Some (active_peers net !! a) → is_Some (active_peers net' !! a)) ∧
  known_peers net ∖ {[ addr ]} ⊆ known_peers net'.

(** What the messages of the peer [addr] change at most. *)
Record contained addr s s' : Prop := {
  co_state : node_state (nt_node s') = node_state (nt_node s);
  co_pool : node_mempool (nt_node s') = node_mempool (nt_node s);
  co_archive : rtc archive_step (task_archive s) (task_archive s');
  co_net : net_kept addr (nt_net s) (nt_net s');
}.

#[export] Instance contained_preorder addr : PreOrder (contained addr).
Proof.
  split.
  - intros s. split; [done|done|done|]. split; [done|set_solver].
  - intros s1 s2 s3 [H1 H2 H3 [H4 H4']] [H1' H2' H3' [H5 H5']].
    split; [congruence|congruence|by etrans|]. split; [naive_solver|set_solver].
Qed.

Lemma push_kept addr m a net : net_kept addr net (push_internal_message m a net).1.
Proof.
  unfold push_internal_message. destruct (active_peers net !! a) as [h|] eqn:Ha;
    [destruct (send_internal m h)|]; (split; [|set_solver]); try done.
  intros a' _ Ha'. simpl. apply lookup_insert_is_Some'. by right.
Qed.

Lemma drop_contained addr : keeps (contained addr) (drop_peer addr).
Proof.
  apply keeps_changes. intros s. split; [done|done|done|]. split; [|set_solver].
  intros a Hne Ha. simpl. by rewrite lookup_delete_ne.
Qed.

Lemma push_contained addr m a : keeps (contained addr) (push_message m a).
Proof. apply keeps_changes. intros s. split; [done|done|done|apply push_kept]. Qed.

(** Changes of the task's own queues and maps. *)
Lemma queues_contained addr f :
  (∀ s, nt_node (f s) = nt_node s ∧ nt_net (f s) = nt_net s) →
  keeps (contained addr) (changes f : handler NetTask NodeError ()).
Proof.
  intros Hf. apply keeps_changes. intros s. destruct (Hf s) as [Hn Hnet].
  split; unfold task_archive; rewrite ?Hn; [done..|]. rewrite Hnet. split; [done|set_solver].
Qed.
Lemma new_tip_contained addr t a c : keeps (contained addr) (send_new_tip t a c).
Proof. by apply queues_contained. Qed.
Lemma waiting_contained addr m t src : keeps (contained addr) (add_waiting m t src).
Proof. by apply queues_contained. Qed.

Lemma in_archive_contained addr {A} (f : Archive → res ArchiveError A) :
  keeps (contained addr) (in_archive f).
Proof. apply keeps_bind; [apply _|by apply keeps_reads, _|]. intros ar. apply keeps_returns, _. Qed.

(** The rules for handlers, as often as they apply. *)
Ltac keeping :=
  repeat first
    [ apply drop_contained | apply push_contained | apply new_tip_contained
    | apply waiting_contained | apply in_archive_contained | by apply queues_contained
    | apply keeps_reads, _ | apply keeps_returns, _ | apply keeps_done, _
    | apply keeps_for_each; [apply _|]; intros | apply keeps_bind; [apply _| |intros]
    | match goal with
      | |- keeps _ (if ?b then _ else _) => destruct b
      | |- keeps _ (match ?x with _ => _ end) => destruct x
      end ].

(** *** Blocks *)
Lemma advance_contained addr tip p : keeps (contained addr) (advance_waiting tip p).
Proof. destruct p as [t src]. unfold advance_waiting, next_tip. keeping. Qed.

Lemma announce_contained addr a b header t : keeps (contained addr) (announce_tips a b header t).
Proof.
  unfold announce_tips. keeping. apply advance_contained.
Qed.

Lemma notify_contained addr a b t anc id : keeps (contained addr) (notify_bodies a b t anc id).
Proof. unfold notify_bodies. keeping. Qed.

(** Storing something in the archive, and going on. *)
Lemma store_contained addr (f : Archive → res ArchiveError Archive) (k : handler NetTask NodeError ()) s :
  (∀ ar', f (task_archive s) = Ok ar' → rtc archive_step (task_archive s) ar') →
  keeps (contained addr) k →
  contained addr s ((ar ← in_archive f; _ ← changes (set_archive ar); k) s).1.
Proof.
  intros Hf Hk. unfold mbind, handler_bind, in_archive, reads, returns, changes.
  unfold mbind, handler_bind. destruct (f (task_archive s)) as [ar'|e|] eqn:Har; simpl;
    [|reflexivity..].
  etrans; [|apply Hk]. split; [done|done|by apply Hf|]. split; [done|set_solver].
Qed.

Lemma block_contained addr b t anc id header body s :
  contained addr s (handle_block addr b t anc id header body s).1.
Proof.
  unfold handle_block. case_decide; [|apply drop_contained].
  apply store_contained.
  - intros ar' Hput. apply rtc_once. by eapply step_body.
  - apply keeps_bind; [apply _|apply notify_contained|]. intros _. apply announce_contained.
Qed.

(** *** Headers *)
Lemma headers_contained addr start b height id l s :
  archive_wf (task_archive s) → bmm_sound (task_archive s) →
  Z.of_nat (size (headers (task_archive s)) + length l) ≤ u32_MAX →
  contained addr s (handle_headers addr start b height id l s).1.
Proof.
  intros Hwf Hs Hsize. unfold handle_headers.
  destruct (head l) as [first|]; [|apply drop_contained].
  destruct (last l) as [end_header|]; [|apply drop_contained].
  case_decide; [|apply drop_contained].
  destruct (match prev_side_hash first with Some _ => _ | None => _ end); [apply drop_contained|].
  unfold mbind at 1, handler_bind at 1, in_archive at 1, mbind at 1, handler_bind at 1.
  unfold reads at 1, returns at 1. destruct (expected_end_height _ _ _) as [h|e|];
    cbn [lift]; [|reflexivity..].
  destruct (h =? height); [|apply drop_contained].
  unfold mbind at 1, handler_bind at 1, reads at 1.
  destruct (headers_follow _ _ _) eqn:Hf; [|apply drop_contained].
  apply store_contained; [|apply push_contained]. intros ar' Hst.
  by apply (so_steps _ _ (store_headers_more l _ _ _ Hwf Hs Hf Hsize Hst)).
Qed.

(** The headers that a message carries. *)
Definition carried (i : Info) : nat :=
  match i with InfoResponse (HeadersResponse l) _ => length l | _ => 0 end.

Lemma response_contained addr resp req s :
  archive_wf (task_archive s) → bmm_sound (task_archive s) →
  Z.of_nat (size (headers (task_archive s)) + carried (InfoResponse resp req)) ≤ u32_MAX →
  contained addr s (handle_response addr resp req s).1.
Proof.
  intros Hwf Hs Hsize. unfold handle_response.
  destruct req as [[b [t|] anc [id|]]|[start b [h|] [id|]]|tx],
    resp as [hd body|l|b'|b'|tid|tid]; cbn [carried] in Hsize;
    try apply drop_contained; try (case_decide; [reflexivity|apply drop_contained]);
    try reflexivity; [apply block_contained|by apply headers_contained].
Qed.

(** *** Errors of connections *)
Lemma reconnect_contained addr r : keeps (contained addr) (reconnect r).
Proof. by apply queues_contained. Qed.
Lemma reconnect_next_contained addr r : keeps (contained addr) (reconnect_next r).
Proof. unfold reconnect_next. destruct (pop_first_ip_addr r).2; [apply reconnect_contained|keeping]. Qed.

Lemma forget_contained addr :
  keeps (contained addr)
    (changes (λ s, set_net (forget_peer addr (nt_net s)).1 s) : handler NetTask NodeError ()).
Proof. apply keeps_changes. intros s. split; [done|done|done|]. split; [done|set_solver]. Qed.

Lemma peer_error_contained addr e r : keeps (contained addr) (handle_peer_error addr e r).
Proof.
  assert (∀ b1 b2 : bool, keeps (contained addr) (_ ← drop_peer addr;
    _ ← (if b1 : bool then reconnect r else if b2 : bool then done_with () else reconnect_next r);
    (if b2 then changes (λ s, set_net (forget_peer addr (nt_net s)).1 s) else done_with ()
      : handler NetTask NodeError ()))) as Hgen.
  { intros b1 b2. apply keeps_bind; [apply _|apply drop_contained|]. intros _.
    apply keeps_bind; [apply _| |].
    - destruct b1; [apply reconnect_contained|]. destruct b2; [keeping|apply reconnect_next_contained].
    - intros _. destruct b2; [apply forget_contained|keeping]. }
  unfold handle_peer_error. destruct e as [| |[]| | | |]; try apply Hgen.
  apply keeps_bind; [apply _|keeping|]. intros [h|]; [|keeping].
  apply keeps_bind; [apply _|apply drop_contained|]. intros _.
  destruct (received_msg_successfully h); [apply reconnect_contained|apply reconnect_next_contained].
Qed.

Lemma or_drop_contained addr m s :
  contained addr s (m s).1 → contained addr s (or_drop_peer addr m s).1.
Proof.
  intros Hm. unfold or_drop_peer. destruct (m s) as [s' [|e|]]; simpl in *; [done| |done].
  etrans; [exact Hm|apply drop_contained].
Qed.

(** *** What ends the task *)

Lemma peer_error_total addr e r s : ∃ s', handle_peer_error addr e r s = (s', Ok ()).
Proof.
  assert (∀ s, ∃ s', reconnect_next r s = (s', Ok ())) as Hnext.
  { intros s0. unfold reconnect_next. destruct (pop_first_ip_addr r).2; by eexists. }
  assert (∀ b1 b2 : bool, ∃ s', (_ ← drop_peer addr;
    _ ← (if b1 : bool then reconnect r else if b2 : bool then done_with () else reconnect_next r);
    (if b2 then changes (λ s, set_net (forget_peer addr (nt_net s)).1 s) else done_with ()
      : handler NetTask NodeError ())) s = (s', Ok ())) as Hgen.
  { intros [] []; unfold mbind, handler_bind; simpl; try (by eexists).
    match goal with |- context [reconnect_next r ?x] => destruct (Hnext x) as [s' ->] end. by eexists. }
  unfold handle_peer_error. destruct e as [| |[]| | | |]; try apply Hgen.
  unfold mbind, handler_bind, reads. simpl. destruct (active_peers (nt_net s) !! addr) as [h|];
    [|by eexists]. simpl. destruct (received_msg_successfully h); [by eexists|apply Hnext].
Qed.

(** A transaction of a peer gets into the pool only if it is valid now. *)
Definition pool_after st mp mp' : Prop :=
  mp' = mp ∨ ∃ at_ fee, validate_transaction st at_ = Ok fee ∧ put at_ mp = Ok mp'.

Lemma push_tx_kept exclude tx addr net : net_kept addr net (push_tx exclude tx net).
Proof.
  split; [|set_solver]. intros a _ [h Ha]. simpl. rewrite map_lookup_imap, Ha. simpl. by eexists.
Qed.

Lemma new_transaction_contained addr tx s :
  let s' := (or_drop_peer addr (handle_new_transaction addr tx) s).1 in
  node_state (nt_node s') = node_state (nt_node s) ∧ task_archive s' = task_archive s ∧
  net_kept addr (nt_net s) (nt_net s') ∧
  pool_after (node_state (nt_node s)) (node_mempool (nt_node s)) (node_mempool (nt_node s')).
Proof.
  assert (net_kept addr (nt_net s) (remove_active_peer addr (nt_net s))) as Hdrop.
  { split; [|set_solver]. intros a Hne Ha. simpl. by rewrite lookup_delete_ne. }
  assert (∀ net, net_kept addr net net) as Hrefl by (intros; split; [done|set_solver]).
  unfold or_drop_peer, handle_new_transaction, mbind, handler_bind, reads, returns. simpl.
  destruct (regenerate_proof _ _) as [tx'|e|]; simpl;
    [|by split_and!; [..|left]|by split_and!; [..|left]].
  destruct (validate_transaction _ _) as [fee|e|] eqn:Hv; simpl;
    [|by split_and!; [..|left]|by split_and!; [..|left]].
  destruct (put _ _) as [mp|[]|] eqn:Hput; simpl;
    [|by split_and!; [..|left]|by split_and!; [..|left]].
  split_and!; [done|done|apply push_tx_kept|]. right. by eexists _, fee.
Qed.

Lemma new_transaction_calm addr tx s : (handle_new_transaction addr tx s).2 ≠ Panic.
Proof.
  unfold handle_new_transaction. unfold mbind at 1, handler_bind at 1, reads at 1.
  unfold mbind at 1, handler_bind at 1, returns at 1.
  match goal with |- context [lift StateErr ?m] => assert (calm m) as Hm; [|destruct m as [at_|e|]] end;
    cbn [lift]; [|clear Hm|done|by destruct Hm].
  - unfold regenerate_proof. calming. apply validate_transaction_calm.
  - assert (put at_ (node_mempool (nt_node s)) ≠ Panic) as Hput.
    { unfold put.
      by destruct (put_inputs_not_panic (txid (tx_of at_)) (inputs (tx_of at_))
        (node_mempool (nt_node s))) as [->|[mp ->]]. }
    by destruct (put _ _) as [mp|[]|].
Qed.

Lemma headers_calm addr start b height id l s :
  archive_wf (task_archive s) → bmm_sound (task_archive s) →
  Z.of_nat (size (headers (task_archive s)) + length l) ≤ u32_MAX →
  (handle_headers addr start b height id l s).2 ≠ Panic.
Proof.
  intros Hwf Hs Hsize. unfold handle_headers.
  destruct (head l) as [first|]; [|done]. destruct (last l) as [end_header|]; [|done].
  case_decide; [|done].
  destruct (match prev_side_hash first with Some _ => _ | None => _ end); [done|].
  unfold mbind at 1, handler_bind at 1, in_archive at 1, mbind at 1, handler_bind at 1.
  unfold reads at 1, returns at 1.
  assert (calm (expected_end_height (task_archive s) (prev_side_hash first) (length l))) as Hc.
  { unfold expected_end_height, archive_height. calming. }
  destruct (expected_end_height _ _ _) as [h|e|]; cbn [lift]; [|done..].
  destruct (h =? height); [|done]. unfold mbind at 1, handler_bind at 1, reads at 1.
  destruct (headers_follow _ _ _) eqn:Hf; [|done].
  unfold mbind at 1, handler_bind at 1, in_archive at 1, mbind at 1, handler_bind at 1.
  unfold reads at 1, returns at 1.
  assert (calm (store_headers l (task_archive s))) as Hst by by eapply store_headers_calm.
  by destruct (store_headers _ _).
Qed.

(** The answer with a block that nothing on the line that it was asked for verifies. *)
Definition stray_block ar (i : Info) : Prop :=
  ∃ hd body tip anc id,
    i = InfoResponse (BlockResponse hd body)
          (GetBlock (mkGetBlock (header_hash hd) (Some tip) anc (Some id))) ∧
    unverified_on ar (header_hash hd) (main_block_hash tip).

Lemma response_stops addr resp req s :
  archive_wf (task_archive s) → bmm_sound (task_archive s) → archive_fits (task_archive s) →
  Z.of_nat (size (headers (task_archive s)) + carried (InfoResponse resp req)) ≤ u32_MAX →
  (handle_response addr resp req s).2 = Panic → stray_block (task_archive s) (InfoResponse resp req).
Proof.
  intros Hwf Hs Hfits Hsize. unfold handle_response.
  destruct req as [[b [t|] anc [id|]]|[start b [h|] [id|]]|tx],
    resp as [hd body|l|b'|b'|tid|tid]; cbn [carried] in Hsize;
    try (case_decide; done); try done.
  - intros Hp. destruct (block_stops addr b t anc id hd body s Hwf Hfits Hp) as [<- Hun].
    by exists hd, body, t, anc, id.
  - intros Hp. by apply headers_calm in Hp.
Qed.

(** What the handling of [i] comes to, from what its handler comes to. *)
Lemma or_drop_result addr (m : handler NetTask NodeError ()) s (Q : Prop) :
  ((m s).2 = Panic → Q) →
  (or_drop_peer addr m s).2 = Ok () ∨ (or_drop_peer addr m s).2 = Panic ∧ Q.
Proof.
  intros Hm. unfold or_drop_peer. destruct (m s) as [s' [[]|e|]]; simpl in *; [by left|by left|].
  right. split; [done|by apply Hm].
Qed.

(** C6: Whatever a peer's task reports to the node (an answer, well-formed or not, to
    any request, a tip, a transaction, an error of the connection), the node's task
    goes on: its turn ends neither with an error nor with a panic.  There is one
    exception, which the code does not check for: a block that was asked for with a
    tip, where no block on the line of that tip's mainchain block verifies the block
    ([stray_block]); then the task may panic.  In every case the state is not touched,
    the archive stays well-formed with its BMM results justified, a transaction gets
    into the pool only if it is valid and spends nothing that the pool spends, and no
    other peer loses its connection or is forgotten.  Neither tree of the archive has
    [2^31] blocks. *)
Theorem peer_info_contained l1 addr i s s' r :
  archive_wf (task_archive s) → bmm_sound (task_archive s) →
  2 * Z.of_nat (size (headers (task_archive s)) + carried i) ≤ u32_MAX →
  2 * Z.of_nat (size (main_header_infos (task_archive s))) ≤ u32_MAX →
  net_turn l1 (NmPeerInfo (Some (addr, Some i))) s = (s', r) →
  (r = Ok () ∨ r = Panic ∧ stray_block (task_archive s) i) ∧
  node_state (nt_node s') = node_state (nt_node s) ∧
  archive_wf (task_archive s') ∧ bmm_sound (task_archive s') ∧
  pool_after (node_state (nt_node s)) (node_mempool (nt_node s)) (node_mempool (nt_node s')) ∧
  net_kept addr (nt_net s) (nt_net s').
Proof.
  intros Hwf Hs Hside Hmain H. cbn [net_turn] in H. unfold node_errors in H.
  assert (archive_fits (task_archive s)) as Hfits by (split; [lia|done]).
  assert (Z.of_nat (size (headers (task_archive s)) + carried i) ≤ u32_MAX) as Hsize by lia.
  assert (∀ s1, contained addr s s1 →
    node_state (nt_node s1) = node_state (nt_node s) ∧
    archive_wf (task_archive s1) ∧ bmm_sound (task_archive s1) ∧
    pool_after (node_state (nt_node s)) (node_mempool (nt_node s)) (node_mempool (nt_node s1)) ∧
    net_kept addr (nt_net s) (nt_net s1)) as Hcont.
  { intros s1 [Hst Hmp Har Hnet]. destruct (archive_steps_inv _ _ Har) as [? ?]; [done|].
    split_and!; [done|done|done|by left|done..]. }
  destruct i as [e resolved|main_hash id|t|tx|resp req]; cbn [handle_peer_info] in H.
  - pose proof (peer_error_contained addr e resolved s) as Hk.
    destruct (peer_error_total addr e resolved s) as [s1 Hs1]. rewrite Hs1 in H, Hk.
    injection H as <- <-. split; [by left|]. by apply Hcont.
  - injection H as <- <-. split; [by left|]. apply Hcont. split; [done..|]. split; [done|set_solver].
  - injection H as <- <-. split; [by left|]. apply Hcont. split; [done..|]. split; [done|set_solver].
  - pose proof (new_transaction_contained addr tx s) as (Hst & Har & Hnet & Hmp).
    destruct (or_drop_result addr (handle_new_transaction addr tx) s False) as [Hr|[_ []]];
      [intros Hp; by apply new_transaction_calm in Hp|].
    destruct (or_drop_peer addr _ s) as [s1 ?]; simpl in *; subst.
    injection H as <- <-. rewrite Har. by split_and!; [left|..].
  - pose proof (or_drop_contained addr _ s (response_contained addr resp req s Hwf Hs Hsize)) as Hk.
    pose proof (or_drop_result addr (handle_response addr resp req) s _
      (response_stops addr resp req s Hwf Hs Hfits Hsize)) as Hr.
    destruct (or_drop_peer addr _ s) as [s1 ?]; simpl in *.
    destruct Hr as [->|[-> Hstray]]; injection H as <- <-;
      (split; [|by apply Hcont]); [by left|by right].
Qed.
End NetProps.
