(* ===== verification/Submit.v ===== *)
(** Submitting a mined block (lib/node/mod.rs, [Node::submit_block]) and the miner that
    gets its request into the mainchain (lib/miner.rs).

    Submitting goes through the mainchain task, the archive and the net task; what the
    mainchain task makes of the request and what the mainchain's block producer answers
    are arguments. *)
From S2P Require Import Prelude Bytes SwapTypes TxTypes Externals Accumulator.
From S2P Require Import BlockTypes Rollback Bundle StateDb SwapRules Auth Block.
From S2P Require Import BlockConnect Peg Monitor Mempool Ancestry BlockTree SideTips.
From S2P Require Import Archive ArchiveWrites ArchiveProps Invalidate Bmm ArchiveIter.
From S2P Require Import BetterTip Node NodeProps MainTask PeerMsg Addresses Net Peer NetTask.
From S2P Require Import Proto.

Section Submit.
Context {T : ExtTypes} {X : ExtFuns} {W : ExtWork} {I : HashIter} {IL : HashIterLaws I}.
Context {P : ExtPeer} {N : ExtNet} {NI : NetIter}.
Implicit Types (s : NetTask) (ar : Archive) (header : Header) (body : Body) (m : BtcBlockHash).

Inductive SubmitError :=
| SbNode (e : NodeError)
| SbMainchainAncestors (e : MainTaskError)
| SbProto (e : ProtoError).

Definition sb_archive {A} (r : res ArchiveError A) : res SubmitError A :=
  match r with
  | Ok a => Ok a
  | Err e => Err (SbNode (ArchiveErr e))
  | Panic => Panic
  end.

(** What the mainchain task does to the archive for a request, and its answer. *)
Context (ask_mainchain : BtcBlockHash → Archive → Archive * res MainTaskError bool).
(** The block producer's service, if the mainchain node has one. *)
Context {C : ExtConsensus} (propose : option (ProposeRequest → bool)).
Context (l1 : BlockHash → Swap → L1Answer).

Definition request_mainchain_ancestor_infos m : handler NetTask SubmitError bool := λ s,
  let '(ar, r) := ask_mainchain m (task_archive s) in
  (set_archive ar s,
   match r with
   | Ok b => Ok b
   | Err e => Err (SbMainchainAncestors e)
   | Panic => Panic
   end).

(** Storing in the archive, and committing. *)
Definition writes (f : Archive → res ArchiveError Archive) : handler NetTask SubmitError () :=
  ar ← reads task_archive;
  ar ← returns (sb_archive (f ar));
  changes (set_archive ar).

(** The bodies that are missing on the way from the tip's line to the block. *)
Definition missing_to_tip header s : res ArchiveError (list BlockHash) :=
  let ar := task_archive s in
  let h := header_hash header in
  common_ancestor ←
    match tip (node_state (nt_node s)) with
    | Some tip => last_common_ancestor ar tip h
    | None => Ok None
    end;
  get_missing_bodies ar h common_ancestor.

(** [new_tip_ready_confirm]: the net task handles the tip and answers, whatever
    comes of it. *)
Definition new_tip_ready_confirm (new_tip : Tip) : handler NetTask SubmitError bool := λ s,
  match handle_new_tip l1 (new_tip, None, true) s with
  | (s, Panic) => (s, Panic)
  | (s, _) => (s, Ok (default false (snd <$> last (confirmations s))))
  end.

Definition propose_pending st : res SubmitError () :=
  match pending_withdrawal_bundle st, propose with
  | Some (bundle, _), Some call =>
      match propose_withdrawal_bundle call (tx_output bundle) with
      | Ok _ => Ok ()
      | Err e => Err (SbProto e)
      | Panic => Panic
      end
  | _, _ => Ok ()
  end.

Definition known_parent header ar : bool :=
  match prev_side_hash header with
  | Some parent => bool_decide (is_Some (headers ar !! parent))
  | None => true
  end.

(** The part from the check of the BMM result on. *)
Definition submit_stored m header body : handler NetTask SubmitError bool :=
  result ← (ar ← reads task_archive;
            returns (sb_archive (get_bmm_result ar (header_hash header) m)));
  if bool_decide (result = Verified) then
    missing ← (s ← reads id; returns (sb_archive (missing_to_tip header s)));
    if bool_decide (missing = [] ∨ missing = [header_hash header]) then
      _ ← (if bool_decide (missing = [header_hash header])
           then writes (put_body (header_hash header) body) else done_with ());
      accepted ← new_tip_ready_confirm (mkTip (header_hash header) m);
      if accepted : bool then
        st ← reads (λ s, node_state (nt_node s));
        _ ← returns (propose_pending st);
        done_with true
      else done_with false
    else done_with false
  else done_with false.

Definition submit_block m header body : handler NetTask SubmitError bool :=
  ar ← reads task_archive;
  if known_parent header ar then
    known ← request_mainchain_ancestor_infos m;
    if known : bool then
      _ ← writes (put_header header);
      submit_stored m header body
    else done_with false
  else done_with false.

(** ** What comes of a submitted block *)
Lemma try_reorg_node new s s' r :
  try_reorg l1 new s = (s', r) → reorg_to_tip l1 new (nt_node s) = (nt_node s', r).
Proof. unfold try_reorg. destruct (reorg_to_tip _ _ _) as [node' r']. by intros [= <- <-]. Qed.

(** Attempting a tip either goes through a re-organisation or leaves the node as it
    was. *)
Lemma attempt_tip_node new s s' r : attempt_tip l1 new s = (s', r) →
  (s' = s ∧ r ≠ Ok true) ∨ reorg_to_tip l1 new (nt_node s) = (nt_node s', r).
Proof.
  unfold attempt_tip, in_archive, reads, returns, done_with, mbind, handler_bind.
  destruct (on_best_chain new (task_archive s)) as [[]|e|]; simpl; try (intros [= <- <-]; by left).
  intros H. right. by apply try_reorg_node.
Qed.

Lemma confirm_node new s s' r : new_tip_ready_confirm new s = (s', r) →
  (nt_node s' = nt_node s ∧ r ≠ Ok true) ∨
  ∃ r', reorg_to_tip l1 new (nt_node s) = (nt_node s', r') ∧ (r = Ok true ↔ r' = Ok true).
Proof.
  unfold new_tip_ready_confirm, handle_new_tip.
  destruct (attempt_tip l1 new s) as [s1 r1] eqn:Ha. apply attempt_tip_node in Ha.
  intros H.
  assert (nt_node s' = nt_node s1 ∧ (r = Ok true ↔ r1 = Ok true)) as [Hn Hr].
  { destruct r1 as [applied|e|]; [|destruct (is_fatal_reorg_error e)|];
      simpl in H; rewrite ?last_snoc in H; injection H as <- <-; simpl; (split; [done|]);
      (split; [by intros [= <-]|by intros [= <-]]). }
  rewrite Hn. destruct Ha as [[-> Hne]|Hre].
  - left. split; [done|]. by rewrite Hr.
  - right. by exists r1.
Qed.

(** The verdict on a block with the archive [ar] of the time when it is tried: it is
    the tip, and better than the old one, or what a failed re-organisation may leave. *)
Definition tried (node0 : Node) (new : Tip) ar (node' : Node) (r : res SubmitError bool) : Prop :=
  let node := mkNode ar (node_mempool node0) (node_state node0) in
  get_bmm_result ar (block_hash new) (main_block_hash new) = Ok Verified ∧
  ∃ old, current_tip node = Ok old ∧
    match r with
    | Ok true | Err (SbProto _) =>
        tip (node_state node') = Some (block_hash new) ∧ is_better ar old new = Ok true
    | _ => may_commit node old node'
    end.

(** The same state and mempool, and no success. *)
Definition untouched (node0 node' : Node) (r : res SubmitError bool) : Prop :=
  node_state node' = node_state node0 ∧ node_mempool node' = node_mempool node0 ∧ r ≠ Ok true.

Lemma reorg_error new node node' r : reorg_to_tip l1 new node = (node', r) →
  (∀ old, current_tip node ≠ Ok old) → node' = node ∧ r ≠ Ok true.
Proof.
  unfold reorg_to_tip, prepare_reorg. intros H Hcur.
  destruct (current_tip node) as [old|e|]; [by destruct (Hcur old)|..]; by injection H as <- <-.
Qed.

Lemma confirm_tried new s s' r : new_tip_ready_confirm new s = (s', r) →
  get_bmm_result (task_archive s) (block_hash new) (main_block_hash new) = Ok Verified →
  untouched (nt_node s) (nt_node s') r ∨
  tried (nt_node s) new (task_archive s) (nt_node s') r.
Proof.
  intros H Hver. destruct (confirm_node _ _ _ _ H) as [[Hn Hr]|(r' & Hre & Hr)].
  { left. split_and!; by rewrite ?Hn. }
  assert (∀ e, r ≠ Err e) as Hne.
  { intros e ->. unfold new_tip_ready_confirm in H.
    by destruct (handle_new_tip _ _ _) as [s2 [u|e2|]]. }
  assert (mkNode (task_archive s) (node_mempool (nt_node s)) (node_state (nt_node s)) = nt_node s)
    as Hid by (unfold task_archive; by destruct (nt_node s)).
  destruct (current_tip (nt_node s)) as [old|e|] eqn:Hcur.
  - pose proof (reorg_outcome _ _ _ _ _ _ Hre Hcur) as Ho.
    destruct r' as [[]|e|].
    2: { left. destruct Ho as [-> _]. split_and!; [done|done|by rewrite Hr]. }
    all: right; split; [done|]; rewrite Hid; exists old; split; [done|].
    1: by rewrite (proj2 Hr eq_refl).
    all: destruct r as [[]|e'|];
      [by specialize (proj1 Hr eq_refl)|exact Ho|by destruct (Hne e')|exact Ho].
  - left. destruct (reorg_error _ _ _ _ Hre) as [-> Hnt]; [by rewrite Hcur|].
    split_and!; [done|done|by rewrite Hr].
  - left. destruct (reorg_error _ _ _ _ Hre) as [-> Hnt]; [by rewrite Hcur|].
    split_and!; [done|done|by rewrite Hr].
Qed.

(** Steps before the block is tried change the archive only. *)
Definition same_ledger s s' : Prop :=
  node_state (nt_node s') = node_state (nt_node s) ∧
  node_mempool (nt_node s') = node_mempool (nt_node s).

Lemma writes_ledger f s : same_ledger s (writes f s).1.
Proof.
  unfold writes, reads, returns, changes, mbind, handler_bind.
  by destruct (sb_archive (f (task_archive s))).
Qed.

Lemma untouched_from s1 s2 s' r :
  same_ledger s1 s2 → untouched (nt_node s2) (nt_node s') r → untouched (nt_node s1) (nt_node s') r.
Proof. intros [Hs Hm] (H1 & H2 & Hr). split_and!; congruence. Qed.
Lemma tried_from s1 s2 new ar s' r : same_ledger s1 s2 →
  tried (nt_node s2) new ar (nt_node s') r → tried (nt_node s1) new ar (nt_node s') r.
Proof. intros [Hs Hm]. unfold tried. by rewrite Hs, Hm. Qed.

Lemma put_body_bmm h body ar ar' b m : put_body h body ar = Ok ar' →
  get_bmm_result ar' b m = get_bmm_result ar b m.
Proof.
  intros Hp%put_body_same. destruct (same_reads _ _ Hp) as (_ & _ & _ & _ & Hr & _).
  unfold get_bmm_result, try_get_bmm_result. by rewrite Hr.
Qed.

(** After an accepted tip the pending bundle is proposed, which cannot undo it. *)
Lemma submit_stored_outcome m header body s s' r :
  submit_stored m header body s = (s', r) →
  untouched (nt_node s) (nt_node s') r ∨
  ∃ ar, tried (nt_node s) (mkTip (header_hash header) m) ar (nt_node s') r.
Proof.
  unfold submit_stored, reads, returns, mbind, handler_bind. intros H.
  assert (∀ r, r ≠ Ok true → untouched (nt_node s) (nt_node s) r) as Hsame by done.
  destruct (sb_archive (get_bmm_result _ _ _)) as [result|e|] eqn:Hres;
    [|injection H as <- <-; left; by apply Hsame..].
  case_bool_decide as Hver; [subst result|injection H as <- <-; left; by apply Hsame].
  destruct (sb_archive (missing_to_tip header (id s))) as [missing|e|];
    [|injection H as <- <-; left; by apply Hsame..].
  destruct (bool_decide (missing = [] ∨ _)); [|injection H as <- <-; left; by apply Hsame].
  assert (get_bmm_result (task_archive s) (header_hash header) m = Ok Verified) as Hv.
  { destruct (get_bmm_result _ _ _) as [v|e|]; [by injection Hres as ->|done..]. }
  match type of H with (match ?w s with _ => _ end) = _ => destruct (w s) as [s2 [u|e|]] eqn:Hw end.
  2-3: case_bool_decide; [pose proof (writes_ledger (put_body (header_hash header) body) s) as Hl;
    rewrite Hw in Hl; injection H as <- <-; left; by apply (untouched_from s s2)|done].
  assert (same_ledger s s2 ∧
    get_bmm_result (task_archive s2) (header_hash header) m = Ok Verified) as [Hl Hv2].
  { case_bool_decide; [|by injection Hw as <- _].
    pose proof (writes_ledger (put_body (header_hash header) body) s) as Hl. rewrite Hw in Hl.
    split; [exact Hl|]. unfold writes, reads, returns, changes, mbind, handler_bind in Hw.
    destruct (put_body _ _ _) as [ar'|e|] eqn:Hp; [|done..]. simpl in Hw. injection Hw as <- _.
    simpl. by rewrite (put_body_bmm _ _ _ _ _ _ Hp). }
  destruct (new_tip_ready_confirm _ s2) as [s3 r3] eqn:Hc.
  destruct (confirm_tried _ _ _ _ Hc Hv2) as [Hun|Htr].
  - left. eapply untouched_from; [exact Hl|]. destruct Hun as (H1 & H2 & Hne).
    destruct r3 as [[]|e|]; [done|by injection H as <- <-..].
  - right. exists (task_archive s2). eapply tried_from; [exact Hl|].
    destruct r3 as [[]|e|]; [|by injection H as <- <-..].
    destruct Htr as (Hv3 & old & Hcur & Ht). unfold propose_pending in H.
    split; [done|]. exists old. split; [done|].
    destruct (pending_withdrawal_bundle _) as [[bundle n]|], propose as [call|];
      try (by injection H as <- <-).
    unfold propose_withdrawal_bundle in H. destruct (call _); by injection H as <- <-.
Qed.

(** A block that is submitted becomes the tip only if its header's BMM request was
    verified in the mainchain block that was named, and if it is better than the old
    tip; then submitting reports success, or an error of proposing the pending bundle.
    If it is rejected on the way, state and mempool are untouched; and if the
    re-organisation fails half-way the node is not at a worse tip. *)
Theorem submit_block_outcome m header body s s' r :
  submit_block m header body s = (s', r) →
  untouched (nt_node s) (nt_node s') r ∨
  ∃ ar, tried (nt_node s) (mkTip (header_hash header) m) ar (nt_node s') r.
Proof.
  unfold submit_block, request_mainchain_ancestor_infos, reads, returns, mbind, handler_bind.
  intros H. destruct (known_parent header (task_archive s)); [|injection H as <- <-; by left].
  destruct (ask_mainchain m (task_archive s)) as [ar res]. cbn [fst snd] in H.
  assert (same_ledger s (set_archive ar s)) as H1 by done.
  destruct res as [[]|e|]; [|injection H as <- <-; by left..].
  destruct (writes (put_header header) (set_archive ar s)) as [s2 w] eqn:Hw.
  pose proof (writes_ledger (put_header header) (set_archive ar s)) as Hl. rewrite Hw in Hl.
  assert (same_ledger s s2) as H2 by exact Hl.
  destruct w as [u|e|]; [|injection H as <- <-; left; by apply (untouched_from s s2)..].
  destruct (submit_stored_outcome _ _ _ _ _ _ H) as [Hun|[ar' Htr]].
  - left. by eapply untouched_from.
  - right. exists ar'. by eapply tried_from.
Qed.

(** ** The miner *)
Record Miner := mkMiner { miner_block : option (Header * Body) }.

(** [wallet] and [srv] are the services of the mainchain's wallet and validator. *)
Definition attempt_bmm (wallet : BmmTxRequest → option (option HashField))
    (amount height : Z) header body : handler Miner ProtoError BtcTxid :=
  txid ← returns (create_bmm_critical_data_tx wallet amount height (header_hash header)
                    (prev_main_hash header));
  _ ← changes (λ _, mkMiner (Some (header, body)));
  done_with txid.

(** The first event after subscribing; [None] if the stream ends. *)
Definition first_event {XT : ExtText} (srv : Validator) :
    res ProtoError (option MainchainEvent) :=
  events_stream ← subscribe_events srv;
  match events_stream with
  | [] => Ok None
  | item :: _ => event ← item; Ok (Some event)
  end.

Definition confirm_bmm {XT : ExtText} (srv : Validator) :
    handler Miner ProtoError (option (BtcBlockHash * Header * Body)) :=
  block ← reads miner_block;
  match block with
  | None => done_with None
  | Some (header, body) =>
      event ← returns (first_event srv);
      _ ← changes (λ _, mkMiner None);
      match event with
      | Some (ConnectBlock header_info block_info) =>
          if bool_decide (bmm_commitment block_info = Some (header_hash header))
          then done_with (Some (info_block_hash header_info, header, body))
          else done_with None
      | _ => done_with None
      end
  end.
End Submit.
