(* ===== verification/Template.v ===== *)
(** The block that a node proposes: the transactions of its mempool, the coinbase, the
    header (build_block_template of app/app.rs, modify_memforest of lib/types/mod.rs). *)
From S2P Require Import Prelude Bytes SwapTypes TxTypes Externals Accumulator.
From S2P Require Import BlockTypes Rollback Bundle StateDb SwapRules Auth Block.
From S2P Require Import BlockConnect Peg Monitor Mempool Ancestry SideTips Archive.
From S2P Require Import ArchiveWrites ArchiveIter BetterTip Node Wallet WalletTx.

Inductive RpcMessage :=
| MsgSwapNotFound
| MsgSwapNotReady
| MsgNoLockedOutputs
| MsgNoLiveReservation
| MsgNoTip
| MsgNoTipHeight
| MsgReservedForOther (recipient requested : Address).

Inductive AppError :=
| AppArchive (e : ArchiveError)
| AppComputeMerkleRoot (e : Txid * ComputeFeeError)
| AppGetTx (e : GetTxError)
| AppNode (e : NodeError)
| AppRequestMainchainAncestorInfos (h : BtcBlockHash)
| AppState (e : Error)
| AppUtreexo
| AppWallet (e : WalletError)
| AppRpc (msg : RpcMessage).

(** [?] *)
Definition map_err {E F A} (f : E → F) (m : res E A) : res F A :=
  match m with
  | Ok a => Ok a
  | Err e => Err (f e)
  | Panic => Panic
  end.

Section Template.
Context {T : ExtTypes} {X : ExtFuns} {W : ExtWork} {I : HashIter} {E : ExtWallet}.

Record App := mkApp {
  app_node : Node;
  app_wallet : Wallet;
  app_utxos : gmap OutPoint Output;
  (* of the node: the swaps that it created *)
  created_pending_swap_ids : gset SwapId;
}.
Implicit Types (app : App) (ar : Archive).

(** ** [Body::modify_memforest] *)
Definition pointed_hashes (l : list (OutPoint * Output)) : list Hash :=
  (λ p, hash_pointed p.1 p.2) <$> l.
Definition modify_memforest (coinbase : list Output) (txs : list FilledTransaction)
    (memforest : MemForest) : res AppError (MerkleRoot * MemForest) :=
  merkle_root ← map_err AppComputeMerkleRoot (compute_merkle_root coinbase txs);
  let accumulator_add :=
    pointed_hashes (coinbase_outputs merkle_root coinbase) ++
    (txs ≫= λ ftx, pointed_hashes
       (regular_outputs (txid (transaction ftx)) (outputs (transaction ftx)))) in
  let accumulator_del := txs ≫= λ ftx, (inputs (transaction ftx)).*2 in
  memforest ← ok_or (forest_modify memforest accumulator_add accumulator_del) AppUtreexo;
  Ok (merkle_root, memforest).

(** ** [build_block_template] *)
Definition EMPTY_BLOCK_BMM_BRIBE : Z := 1000.
Definition NUM_TRANSACTIONS : nat := 1000.

Record BlockTemplate := mkBlockTemplate {
  tp_bribe : Z;
  tp_header : Header;
  tp_body : Body;
  tp_fees : Z;
}.

(** The block to build on: the tip, if its mainchain parent is in the line of the
    mainchain's tip; otherwise its last ancestor from before the fork. *)
Definition choose_parent ar (tip_hash : option BlockHash) (main_tip : BtcBlockHash) :
    res AppError (option BlockHash) :=
  match tip_hash with
  | None => Ok None
  | Some tip_hash =>
      tip_header ← map_err AppArchive (get_header ar tip_hash);
      last_common ←
        map_err AppArchive
          (last_common_main_ancestor ar main_tip (prev_main_hash tip_header));
      if decide (last_common = prev_main_hash tip_header) then Ok (Some tip_hash)
      else
        map_err AppArchive (iter_loop (ancestor_headers_next ar) (λ _ p,
            if decide (prev_main_hash p.2 = last_common) then Ok (inl None)
            else
              d ← is_main_descendant ar (prev_main_hash p.2) last_common;
              Ok (if d : bool then inr (Some p.1) else inl None))
          (side_fuel ar) (Some tip_hash) None)
  end.

(** The accumulator of the block to build on. *)
Definition parent_accumulator ar (parent : option BlockHash) : res AppError MemForest :=
  match parent with
  | Some h => map_err AppArchive (archive_accumulator ar h)
  | None => Ok forest_default
  end.

(** Header and body of a block of some transactions. *)
Definition assemble ar (prev_side_hash : option BlockHash) (prev_main_hash : BtcBlockHash)
    (txs : list (Authorized FilledTransaction)) (coinbase : list Output) :
    res AppError (Header * Body) :=
  accumulator ← parent_accumulator ar prev_side_hash;
  '(merkle_root, accumulator) ← modify_memforest coinbase (authorized_tx <$> txs) accumulator;
  Ok ({| merkle_root := merkle_root; prev_side_hash := prev_side_hash;
         prev_main_hash := prev_main_hash; roots := forest_roots accumulator |},
      body_new ((λ a, mkAuthorized (transaction (authorized_tx a)) (authorizations a)) <$> txs)
        coinbase).

(** The coinbase, and the wallet: the fees go to the receive address. *)
Definition template_coinbase (tx_fees : Z) : WM (list Output) :=
  if decide (tx_fees = 0) then mret []
  else a ← get_receive_address; mret [mkOutput a (Value tx_fees)].

(** [prev_main_hash] is the mainchain's tip; [requested] the archive after the request
    for the headers above the last known one, if it was answered. *)
Definition build_block_template (prev_main_hash : BtcBlockHash) (requested : option Archive)
    (bribe : option Z) app : App * res AppError BlockTemplate :=
  let node := app_node app in
  let tip_hash := tip (node_state node) in
  let archive :=
    match tip_hash, main_header_infos (node_archive node) !! prev_main_hash with
    | Some _, None =>
        ok_or requested (AppRequestMainchainAncestorInfos prev_main_hash)
    | _, _ => Ok (node_archive node)
    end in
  match (ar ← archive; p ← choose_parent ar tip_hash prev_main_hash; Ok (ar, p)) with
  | Err e => (app, Err e)
  | Panic => (app, Panic)
  | Ok (ar, prev_side) =>
      let node := mkNode ar (node_mempool node) (node_state node) in
      let app := {| app with app_node := node |} in
      if decide (prev_side = tip_hash) then
        match get_transactions NUM_TRANSACTIONS node with
        | (node, Err e) => ({| app with app_node := node |}, Err (AppGetTx e))
        | (node, Panic) => ({| app with app_node := node |}, Panic)
        | (node, Ok (txs, tx_fees)) =>
            match template_coinbase tx_fees (app_wallet app) with
            | (w, Err e) => ({| app with app_node := node; app_wallet := w |}, Err (AppWallet e))
            | (w, Panic) => ({| app with app_node := node; app_wallet := w |}, Panic)
            | (w, Ok coinbase) =>
                ({| app with app_node := node; app_wallet := w |},
                 '(header, body) ← assemble ar prev_side prev_main_hash txs coinbase;
                 let bribe :=
                   default (if 0 <? tx_fees then tx_fees else EMPTY_BLOCK_BMM_BRIBE) bribe in
                 Ok (mkBlockTemplate bribe header body tx_fees))
            end
        end
      else
        (app,
         '(header, body) ← assemble ar prev_side prev_main_hash [] [];
         Ok (mkBlockTemplate EMPTY_BLOCK_BMM_BRIBE header body 0))
  end.
End Template.
