(* ===== verification/TemplateProps.v ===== *)
(** The block that a node proposes is valid (lib/node/mod.rs, app/app.rs,
    lib/types/mod.rs, lib/state/block.rs): what the mempool lets through, and what the
    template computes, passes every check of [prevalidate]. *)
From S2P Require Import Prelude Bytes SwapTypes TxTypes Externals Accumulator.
From S2P Require Import BlockTypes Rollback Bundle StateDb SwapRules Auth Block.
From S2P Require Import BlockSpec BlockProps BlockConnect Ledger Value Commitment.
From S2P Require Import Peg Monitor Mempool Ancestry SideTips Archive ArchiveWrites.
From S2P Require Import ArchiveIter BetterTip Node Wallet WalletTx Template.

Section TemplateProps.
Context {T : ExtTypes} {X : ExtFuns} {W : ExtWork} {I : HashIter} {E : ExtWallet}.
Implicit Types (st : State) (ftx : FilledTransaction).
Implicit Types (a : Authorized FilledTransaction).

(** ** The transactions of a template *)
Definition unfilled a : AuthorizedTransaction :=
  mkAuthorized (transaction (authorized_tx a)) (authorizations a).
Definition filled_ins a : list (OutPoint * Hash) := inputs (transaction (authorized_tx a)).

(** A filled transaction that the mempool's validation accepts, and its fee. *)
Definition accepted st a (fee : Z) : Prop :=
  validate_transaction st (unfilled a) = Ok fee ∧
  fill_transaction st (transaction (authorized_tx a)) = Ok (authorized_tx a).

(** What has been chosen from transactions among [from]. *)
Record template_ok st (from : list AuthorizedTransaction) (acc : Template) : Prop := {
  to_accepted : ∃ fees, Forall2 (accepted st) (tpl_transactions acc) fees ∧
    tpl_fee acc = sumZ id fees ∧ tpl_fee acc ≤ u64_MAX;
  to_spent : tpl_spent acc = list_to_set (tpl_transactions acc ≫= filled_ins);
  to_nodup : NoDup (tpl_transactions acc ≫= filled_ins);
  to_from : ∀ a, a ∈ tpl_transactions acc → unfilled a ∈ from;
}.

Lemma fill_transaction_tx st tx ftx : fill_transaction st tx = Ok ftx → transaction ftx = tx.
Proof. unfold fill_transaction. intros (l & _ & [= <-])%bind_Ok_inv. done. Qed.

Lemma accepted_fee st a fee : accepted st a fee →
  validate_filled_transaction (authorized_tx a) = Ok fee.
Proof.
  intros [Hv Hf]. unfold validate_transaction in Hv. cbn [authorized_tx unfilled] in Hv.
  rewrite Hf, bind_Ok in Hv. apply bind_Ok_inv in Hv as ([] & _ & Hv).
  apply bind_Ok_inv in Hv as ([] & _ & Hv). by apply bind_Ok_inv in Hv as ([] & _ & Hv).
Qed.

(** The fee that the template adds is the one that validation computes. *)
Lemma template_fee_Ok ftx fee f f' :
  validate_filled_transaction ftx = Ok f → template_fee ftx fee = Ok f' →
  f' = fee + f ∧ f' ≤ u64_MAX.
Proof.
  intros Hv H. apply validate_filled_fee in Hv as (-> & _).
  unfold template_fee in H.
  apply bind_Ok_inv in H as (vin & Hin & H). apply bind_Ok_inv in H as (vout & Hout & H).
  apply bind_Ok_inv in H as (d & Hd & H).
  apply ok_or_Ok in Hin, Hout, Hd, H. apply checked_sum_Some in Hin as ->, Hout as ->.
  apply u64_checked_sub_Some in Hd as [-> _]. apply u64_checked_add_Some in H as [-> H]. lia.
Qed.

Lemma template_step_ok st from acc at_ acc' :
  NoDup (inputs (authorized_tx at_)) → at_ ∈ from →
  template_step st acc at_ = Ok acc' → template_ok st from acc → template_ok st from acc'.
Proof.
  intros Hnd Hin H Hok. unfold template_step in H.
  assert (∀ mp, template_ok st from
    (mkTemplate mp (tpl_fee acc) (tpl_transactions acc) (tpl_spent acc))) as Hdrop.
  { intros mp. by destruct Hok; split. }
  case_decide as Hdisj; [|apply bind_Ok_inv in H as (mp & _ & [= <-]); apply Hdrop].
  destruct (validate_transaction st at_) as [fee|e|] eqn:Hv; [|by apply bind_Ok_inv in H as (mp & _ & [= <-])|done].
  unfold fill_authorized_transaction in H.
  destruct (fill_transaction st (authorized_tx at_)) as [ftx|e|] eqn:Hf; simpl in H; [|done..].
  pose proof (fill_transaction_tx _ _ _ Hf) as Htx. subst.
  set (a := mkAuthorized ftx (authorizations at_)) in *.
  apply bind_Ok_inv in H as (f' & Hf' & [= <-]).
  assert (unfilled a = at_) as Hun. { unfold unfilled, a. simpl. rewrite Htx. by destruct at_. }
  assert (accepted st a fee) as Hacc by (split; [by rewrite Hun|by rewrite <-Htx in Hf]).
  pose proof (accepted_fee _ _ _ Hacc) as Hfee.
  destruct (template_fee_Ok _ _ _ _ Hfee Hf') as [-> Hmax].
  destruct Hok as [(fees & Hall & Hsum & _) Hspent Hnodup Hfrom]. split; simpl.
  - exists (fees ++ [fee]). split_and!; [by apply Forall2_app; [|constructor]| |done].
    rewrite sumZ_app, Hsum. simpl. unfold id. lia.
  - rewrite Hspent, bind_app, list_to_set_app_L. simpl. rewrite app_nil_r.
    unfold filled_ins at 3, a. simpl. by rewrite Htx.
  - rewrite bind_app. simpl. rewrite app_nil_r. apply NoDup_app. split_and!; [done| |].
    + intros i Hi1 Hi2. unfold filled_ins, a in Hi2. simpl in Hi2. rewrite Htx in Hi2.
      rewrite Hspent in Hdisj. set_solver.
    + unfold filled_ins, a. simpl. by rewrite Htx.
  - intros b [Hb|Hb]%elem_of_app; [by apply Hfrom|].
    apply list_elem_of_singleton in Hb as ->. by rewrite Hun.
Qed.

Lemma get_transactions_ok n node node' txs fees :
  (∀ at_, at_ ∈ mp_take n (node_mempool node) → NoDup (inputs (authorized_tx at_))) →
  get_transactions n node = (node', Ok (txs, fees)) →
  ∃ acc, template_ok (node_state node) (mp_take n (node_mempool node)) acc ∧
    tpl_transactions acc = txs ∧ tpl_fee acc = fees ∧
    node' = mkNode (node_archive node) (tpl_pool acc) (node_state node).
Proof.
  intros Hnd H. unfold get_transactions in H.
  destruct (foldM _ _ _) as [acc|e|] eqn:Hf; [|done..]. simplify_eq.
  exists acc. split; [|done].
  refine (foldM_inv (template_ok (node_state node) (mp_take n (node_mempool node)))
    _ _ _ acc _ _ Hf).
  - split; [exists []; repeat split; [constructor|done]|done|constructor|].
    intros b Hb. by apply not_elem_of_nil in Hb.
  - intros acc0 at_ acc1 Hin Hok Hst. eapply template_step_ok; [by apply Hnd|done..].
Qed.

(** ** They pass the checks of a block *)
Lemma swap_claim_consensus st tx ftx :
  validate_swap_claim st tx ftx = Ok () → validate_swap_claim_consensus st tx = Ok ().
Proof.
  unfold validate_swap_claim. destruct (data tx) eqn:Hd; try done.
  intros H. apply bind_Ok_inv in H as (swap & _ & H). apply bind_Ok_inv in H as ([] & _ & H).
  by apply bind_Ok_inv in H as ([] & _ & H).
Qed.

Lemma accepted_checked st a fee :
  accepted st a fee →
  forest_verify (get_accumulator st) (proof (transaction (authorized_tx a)))
    (filled_ins a).*2 = Some true →
  tx_checked st (get_accumulator st) (transaction (authorized_tx a)) (authorized_tx a) fee.
Proof.
  intros Hacc Hp. pose proof (accepted_fee _ _ _ Hacc) as Hfee. destruct Hacc as [Hv Hf].
  split; [done..| |done].
  unfold validate_transaction in Hv. cbn [authorized_tx unfilled] in Hv.
  rewrite Hf, bind_Ok in Hv. apply bind_Ok_inv in Hv as ([] & Hs & _).
  unfold validate_block_transaction.
  destruct (data (transaction (authorized_tx a))); try done. by eapply swap_claim_consensus.
Qed.

Lemma all_checked st l fees z :
  Forall2 (accepted st) l fees →
  (∀ a, a ∈ l → forest_verify (get_accumulator st) (proof (transaction (authorized_tx a)))
    (filled_ins a).*2 = Some true) →
  z + sumZ id fees ≤ u64_MAX →
  checked_txs st (get_accumulator st) z ((λ a, transaction (authorized_tx a)) <$> l)
    (authorized_tx <$> l) (z + sumZ id fees).
Proof.
  intros Hall. revert z. induction Hall as [|a fee l fees Hacc Hall IH]; intros z Hp Hmax; csimpl.
  { replace (z + 0) with z by lia. constructor. }
  assert (0 ≤ sumZ id fees) as Hpos.
  { apply sumZ_nonneg. intros f Hf. apply list_elem_of_lookup in Hf as (i & Hi).
    destruct (Forall2_lookup_r _ _ _ _ _ Hall Hi) as (b & _ & Hb).
    by apply accepted_fee, validate_filled_fee in Hb as (_ & ? & _). }
  change (sumZ id (fee :: fees)) with (fee + sumZ id fees) in *.
  econstructor.
  - apply accepted_checked; [done|]. apply Hp. by left.
  - apply u64_checked_add_Some. split; [done|]. lia.
  - replace (z + (fee + sumZ id fees)) with (z + fee + sumZ id fees) by lia.
    apply IH; [|lia]. intros b Hb. apply Hp. by right.
Qed.

(** Each input names an unspent output by its outpoint and its hash. *)
Lemma accepted_input st a fee i : accepted st a fee → i ∈ filled_ins a →
  ∃ out, utxos st !! i.1 = Some out ∧ i.2 = hash_pointed i.1 out.
Proof.
  intros Hacc Hi. pose proof (accepted_fee _ _ _ Hacc) as Hfee.
  destruct Hacc as [_ Hf]. apply validate_filled_fee in Hfee as (_ & _ & _ & Hh).
  unfold fill_transaction in Hf. apply bind_Ok_inv in Hf as (outs & Ho & Hf).
  apply mapM_res_Forall2 in Ho. apply list_elem_of_lookup in Hi as (k & Hk).
  destruct (Forall2_lookup_l _ _ _ _ _ Ho Hk) as (out & Hout & Hu). apply ok_or_Ok in Hu.
  exists out. split; [done|]. destruct i as [o h]. apply (Hh o h out).
  unfold filled_inputs. replace (spent_utxos (authorized_tx a)) with outs
    by (by injection Hf as <-).
  unfold filled_ins in Hk. eapply list_elem_of_lookup_2. by rewrite lookup_zip_with, Hk, Hout.
Qed.

Lemma template_input st from acc i : template_ok st from acc →
  i ∈ tpl_transactions acc ≫= filled_ins →
  ∃ out, utxos st !! i.1 = Some out ∧ i.2 = hash_pointed i.1 out.
Proof.
  intros Hok (a & Hi & Ha)%list_elem_of_bind.
  destruct (to_accepted _ _ _ Hok) as (fees & Hall & _).
  apply list_elem_of_lookup in Ha as (k & Hk).
  destruct (Forall2_lookup_l _ _ _ _ _ Hall Hk) as (fee & _ & Hacc).
  by eapply accepted_input.
Qed.

Lemma template_keys st from acc : template_ok st from acc →
  (∀ o out, utxos st !! o = Some out → outpoint_wf o) →
  NoDup (((λ a, transaction (authorized_tx a)) <$> tpl_transactions acc) ≫= tx_keys).
Proof.
  intros Hok Hwf.
  assert (((λ a, transaction (authorized_tx a)) <$> tpl_transactions acc) ≫= tx_keys
    = (λ i, outpoint_key i.1) <$> (tpl_transactions acc ≫= filled_ins)) as ->.
  { induction (tpl_transactions acc) as [|a l IH]; csimpl; [done|].
    rewrite fmap_app, IH. f_equal. unfold tx_keys, filled_ins. by rewrite <-list_fmap_compose. }
  apply NoDup_fmap_2_strong; [|by apply to_nodup in Hok].
  intros i j Hi Hj Heq.
  destruct (template_input _ _ _ _ Hok Hi) as (out & Ho & Hh).
  destruct (template_input _ _ _ _ Hok Hj) as (out' & Ho' & Hh').
  assert (i.1 = j.1) as Hij.
  { pose proof (outpoint_of_key_wf _ (Hwf _ _ Ho)) as H1.
    pose proof (outpoint_of_key_wf _ (Hwf _ _ Ho')) as H2. rewrite Heq in H1. congruence. }
  destruct i, j. simpl in *. subst. congruence.
Qed.
End TemplateProps.
