(* ===== verification/TemplateValid.v ===== *)
(** The block of a template passes [prevalidate]: the authorizations, the accumulator
    and the coinbase (lib/types/mod.rs, lib/state/block.rs, lib/authorization.rs). *)
From S2P Require Import Prelude Bytes SwapTypes TxTypes Externals Accumulator.
From S2P Require Import BlockTypes Rollback Bundle StateDb SwapRules Auth Block.
From S2P Require Import BlockSpec BlockProps BlockConnect Ledger Value Commitment.
From S2P Require Import Peg Monitor Mempool Ancestry SideTips Archive ArchiveWrites.
From S2P Require Import ArchiveIter BetterTip Node Wallet WalletTx Template.
From S2P Require Import TemplateProps.

(** ** The plain lists of a diff *)
Section Diffs.
Implicit Types (d : AccumulatorDiff.t) (ops : list AccumulatorDiff.op).

(** Operations on different hashes never cancel out. *)
Lemma diff_steps_fresh ops d :
  NoDup ((AccumulatorDiff.diff d).*1 ++ (AccumulatorDiff.op_hash <$> ops)) →
  AccumulatorDiff.diff (fold_left AccumulatorDiff.step ops d)
  = AccumulatorDiff.diff d ++
    ((λ o, (AccumulatorDiff.op_hash o, AccumulatorDiff.op_dir o)) <$> ops).
Proof.
  revert d; induction ops as [|o ops IH]; intros d Hnd; [by rewrite app_nil_r|].
  assert (AccumulatorDiff.diff (AccumulatorDiff.step d o)
    = AccumulatorDiff.diff d ++ [(AccumulatorDiff.op_hash o, AccumulatorDiff.op_dir o)])
    as Hd.
  { assert (AccumulatorDiff.entry (AccumulatorDiff.op_hash o) (AccumulatorDiff.diff d) = None)
      as He.
    { apply AccumulatorDiff.entry_None. intros Hin.
      apply NoDup_app in Hnd as (_ & Hx & _). apply (Hx _ Hin). csimpl. by left. }
    destruct o; simpl in *; unfold AccumulatorDiff.insert, AccumulatorDiff.remove;
      by rewrite He. }
  change (fold_left AccumulatorDiff.step (o :: ops) d)
    with (fold_left AccumulatorDiff.step ops (AccumulatorDiff.step d o)).
  rewrite IH; rewrite Hd; [by rewrite <-app_assoc|].
  rewrite fmap_app, <-app_assoc. exact Hnd.
Qed.
End Diffs.

Section TemplateValid.
Context {T : ExtTypes} {X : ExtFuns} {W : ExtWork} {I : HashIter} {E : ExtWallet}.
Implicit Types (st : State) (ftx : FilledTransaction) (op : utxo_op).
Implicit Types (a : Authorized FilledTransaction) (l : list (Authorized FilledTransaction)).

Definition op_put op : option Hash :=
  match op with Put p => Some (pair_hash p) | Take _ => None end.
Definition op_take op : option Hash :=
  match op with Put _ => None | Take p => Some (pair_hash p) end.

Lemma op_hash_leaf op : AccumulatorDiff.op_hash (leaf_op op) = pair_hash (op_pair op).
Proof. by destruct op. Qed.

Lemma steps_fresh (ops : list utxo_op) :
  NoDup ((λ op, pair_hash (op_pair op)) <$> ops) →
  AccumulatorDiff.inserted (steps ops AccumulatorDiff.empty) = omap op_put ops ∧
  AccumulatorDiff.deleted (steps ops AccumulatorDiff.empty) = omap op_take ops.
Proof.
  intros Hnd. unfold AccumulatorDiff.inserted, AccumulatorDiff.deleted, steps.
  rewrite diff_steps_fresh.
  - clear Hnd. simpl.
    induction ops as [|[p|p] ops [IH1 IH2]]; [done|..]; csimpl in *; rewrite !filter_cons;
      simpl; unfold fmap in *; simpl; rewrite IH1, IH2; done.
  - simpl. rewrite <-list_fmap_compose.
    erewrite list_fmap_ext; [exact Hnd|]. intros i op _. simpl. apply op_hash_leaf.
Qed.

Lemma omap_puts (f : utxo_op → option Hash) (g : OutPoint * Output → utxo_op)
    (ps : list (OutPoint * Output)) :
  omap f (g <$> ps) = omap (λ p, f (g p)) ps.
Proof. induction ps as [|p ps IH]; csimpl; [done|]. by rewrite IH. Qed.

Lemma omap_all {A B} (f : A → B) (xs : list A) : omap (λ x, Some (f x)) xs = f <$> xs.
Proof. induction xs as [|x xs IH]; csimpl; [done|]. by rewrite IH. Qed.
Lemma omap_none {A B} (xs : list A) : omap (λ _, @None B) xs = [].
Proof. by induction xs. Qed.

Lemma takes_hashes ftx : hashes_ok ftx →
  pair_hash <$> zip (tx_ins (transaction ftx)) (spent_utxos ftx) = (inputs (transaction ftx)).*2.
Proof.
  unfold hashes_ok, tx_ins.
  generalize (inputs (transaction ftx)) (spent_utxos ftx). intros ins outs.
  induction 1 as [|[o h] out ins outs Hh _ IH]; csimpl in *; [done|].
  by rewrite IH, Hh.
Qed.

(** The lists of [modify_memforest] are those of the changes of the block. *)
Lemma block_ops_lists header body ftxs :
  Forall hashes_ok ftxs →
  omap op_put (block_ops header body ftxs)
  = pointed_hashes (coinbase_outputs (merkle_root header) (coinbase body)) ++
    (ftxs ≫= λ ftx, pointed_hashes
       (regular_outputs (txid (transaction ftx)) (outputs (transaction ftx)))) ∧
  omap op_take (block_ops header body ftxs)
  = ftxs ≫= λ ftx, (inputs (transaction ftx)).*2.
Proof.
  intros Hh. unfold block_ops.
  rewrite !omap_app, !omap_puts. simpl. rewrite omap_all, omap_none. simpl.
  assert (omap op_put (ftxs ≫= tx_ops) = (ftxs ≫= λ ftx, pointed_hashes
       (regular_outputs (txid (transaction ftx)) (outputs (transaction ftx)))) ∧
    omap op_take (ftxs ≫= tx_ops) = ftxs ≫= λ ftx, (inputs (transaction ftx)).*2) as [-> ->];
    [|done].
  induction Hh as [|ftx ftxs Hftx _ [IH1 IH2]]; csimpl; [done|].
  rewrite !omap_app, IH1, IH2. unfold tx_ops. rewrite !omap_app, !omap_puts. simpl.
  rewrite !omap_all, !omap_none, app_nil_r. simpl. by rewrite takes_hashes.
Qed.

(** ** The outputs that a block names are different *)
Definition tx_takes ftx : list (OutPoint * Output) :=
  zip (tx_ins (transaction ftx)) (spent_utxos ftx).

Lemma block_ops_pairs header body ftxs :
  transactions body = transaction <$> ftxs →
  op_pair <$> block_ops header body ftxs ≡ₚ block_created header body ++ (ftxs ≫= tx_takes).
Proof.
  intros Hb. unfold block_ops, block_created. rewrite Hb, fmap_app, <-app_assoc.
  apply Permutation_app.
  - rewrite <-list_fmap_compose. simpl. by rewrite list_fmap_id.
  - clear Hb. induction ftxs as [|ftx ftxs IH]; csimpl; [done|].
    rewrite fmap_app, IH. unfold tx_ops. rewrite fmap_app, <-!list_fmap_compose. simpl.
    rewrite !list_fmap_id. unfold tx_takes. solve_Permutation.
Qed.

Lemma takes_outpoints ftx : hashes_ok ftx → (tx_takes ftx).*1 = tx_ins (transaction ftx).
Proof.
  intros Hh%Forall2_length. unfold tx_takes, tx_ins. apply fst_zip.
  rewrite length_fmap. lia.
Qed.

Lemma block_ops_fresh st header body ftxs :
  transactions body = transaction <$> ftxs →
  Forall hashes_ok ftxs →
  Forall (λ ftx, fill_transaction st (transaction ftx) = Ok ftx) ftxs →
  NoDup (transactions body ≫= tx_keys) →
  block_fresh st header body → collision_free (universe st header body) →
  NoDup ((λ op, pair_hash (op_pair op)) <$> block_ops header body ftxs).
Proof.
  intros Hb Hh Hf Hk [Hnd Hnew] Hcf.
  change (λ op, pair_hash (op_pair op)) with (pair_hash ∘ op_pair).
  rewrite list_fmap_compose.
  assert (∀ p, p ∈ ftxs ≫= tx_takes → utxos st !! p.1 = Some p.2) as Htakes.
  { intros p (ftx & Hp & Hin)%list_elem_of_bind. rewrite Forall_forall in Hf.
    eapply takes_unspent; [by apply Hf|done]. }
  assert (∀ p, p ∈ op_pair <$> block_ops header body ftxs → p ∈ universe st header body)
    as Huni.
  { intros p. rewrite (block_ops_pairs _ _ _ Hb). unfold universe.
    intros [Hp|Hp]%elem_of_app; apply elem_of_app; [by right|left].
    apply Htakes in Hp. destruct p. by apply elem_of_map_to_list. }
  apply NoDup_fmap_2_strong; [intros p q Hp Hq; apply Hcf; by apply Huni|].
  rewrite (block_ops_pairs _ _ _ Hb). apply (NoDup_fmap_1 fst). rewrite fmap_app.
  apply NoDup_app. split_and!; [done| |].
  - intros o Ho Hin. apply list_elem_of_fmap in Hin as (p & -> & Hp).
    apply Hnew in Ho as [Hn _]. apply Htakes in Hp. congruence.
  - assert ((ftxs ≫= tx_takes).*1 = transactions body ≫= tx_ins) as ->.
    { rewrite Hb. clear -Hh. induction Hh as [|ftx ftxs Hftx _ IH]; csimpl; [done|].
      by rewrite fmap_app, IH, takes_outpoints. }
    apply (NoDup_fmap_1 outpoint_key). revert Hk.
    assert (outpoint_key <$> (transactions body ≫= tx_ins) = transactions body ≫= tx_keys)
      as ->; [|done].
    generalize (transactions body). clear. intros txs.
    induction txs as [|tx txs IH]; csimpl; [done|]. by rewrite fmap_app, IH.
Qed.

(** The forest that the template computes is the one that validation computes. *)
Lemma block_apply_diff st header body ftxs acc d :
  transactions body = transaction <$> ftxs →
  Forall hashes_ok ftxs →
  Forall (λ ftx, fill_transaction st (transaction ftx) = Ok ftx) ftxs →
  NoDup (transactions body ≫= tx_keys) →
  block_fresh st header body → collision_free (universe st header body) →
  d = steps (block_ops header body ftxs) AccumulatorDiff.empty →
  apply_diff d acc
  = forest_modify acc
      (pointed_hashes (coinbase_outputs (merkle_root header) (coinbase body)) ++
        (ftxs ≫= λ ftx, pointed_hashes
           (regular_outputs (txid (transaction ftx)) (outputs (transaction ftx)))))
      (ftxs ≫= λ ftx, (inputs (transaction ftx)).*2).
Proof.
  intros Hb Hh Hf Hk Hfr Hcf ->. unfold apply_diff.
  destruct (steps_fresh (block_ops header body ftxs)) as [-> ->];
    [by eapply block_ops_fresh|].
  by destruct (block_ops_lists header body ftxs Hh) as [-> ->].
Qed.

(** ** Owners *)
Definition mark_pending (off : nat) (S : gset nat) (p : nat * Output) : gset nat :=
  let '(i, utxo) := p in
  if is_swap_pending (content utxo) then {[ (off + i)%nat ]} ∪ S else S.

Lemma mark_pending_mono off xs S : S ⊆ fold_left (mark_pending off) xs S.
Proof.
  apply (fold_left_inv (λ S', S ⊆ S')); [|done]. intros S' [i out] _ HS'. simpl.
  destruct (is_swap_pending _); set_solver.
Qed.

Lemma mark_pending_elem off xs S i out :
  (i, out) ∈ xs → is_swap_pending (content out) = true →
  (off + i)%nat ∈ fold_left (mark_pending off) xs S.
Proof.
  intros Hin Hp. revert S; induction xs as [|p xs IH]; intros S; [by apply elem_of_nil in Hin|].
  apply elem_of_cons in Hin as [<-|Hin]; simpl; [|by apply IH].
  apply mark_pending_mono. simpl. rewrite Hp. set_solver.
Qed.

Lemma claim_pending_mono ftxs off (S : gset nat) :
  S ⊆ (fold_left claim_pending_step ftxs (off, S)).2.
Proof.
  revert off S; induction ftxs as [|ftx ftxs IH]; intros off S; simpl; [done|].
  etrans; [|apply IH]. destruct (is_swap_claim _); [apply mark_pending_mono|done].
Qed.

(** What [check_tx_owners] says of each authorization. *)
Lemma check_tx_owners_lookup tx auths spent k au out :
  check_tx_owners tx auths spent = Ok () →
  auths !! k = Some au → spent !! k = Some out →
  is_swap_claim (data tx) = true ∧ is_swap_pending (content out) = true ∨
  auth_address au = address out.
Proof.
  unfold check_tx_owners. rewrite (foldM_unit (λ p : Authorization * Output,
    if is_swap_claim (data tx) && is_swap_pending (content p.2) then Ok ()
    else ensure (bool_decide (auth_address p.1 = address p.2)) WrongPubKeyForAddress)).
  intros H Ha Ho. specialize (H (au, out)). simpl in H.
  destruct (is_swap_claim _), (is_swap_pending _); simpl in H; [by left|right..].
  all: apply (bool_decide_unpack _), Is_true_true; eapply ensure_Ok, H.
  all: eapply list_elem_of_lookup_2; rewrite lookup_zip_with, Ha; simpl; by rewrite Ho.
Qed.

Definition owners_ok a : Prop :=
  check_tx_owners (transaction (authorized_tx a)) (authorizations a)
    (spent_utxos (authorized_tx a)) = Ok () ∧
  length (authorizations a) = length (spent_utxos (authorized_tx a)).

(** The positions of a block line up with those of its transactions. *)
Lemma block_owner l off (S : gset nat) k au out :
  Forall owners_ok l →
  (l ≫= authorizations) !! k = Some au →
  ((authorized_tx <$> l) ≫= spent_utxos) !! k = Some out →
  (off + k)%nat ∈ (fold_left claim_pending_step (authorized_tx <$> l) (off, S)).2 ∨
  auth_address au = address out.
Proof.
  intros Hall. revert off S k; induction Hall as [|a l [Hown Hlen] _ IH];
    intros off S k Ha Ho; csimpl in *; [done|].
  destruct (decide (k < length (authorizations a))%nat) as [Hk|Hk].
  - rewrite lookup_app_l in Ha by done. rewrite lookup_app_l in Ho by lia.
    destruct (check_tx_owners_lookup _ _ _ _ _ _ Hown Ha Ho) as [[Hc Hp]|]; [left|by right].
    simpl. rewrite Hc. apply claim_pending_mono.
    eapply (mark_pending_elem off); [|exact Hp].
    eapply (list_elem_of_lookup_2 _ k). by rewrite list_lookup_imap, Ho.
  - rewrite lookup_app_r in Ha by lia. rewrite lookup_app_r in Ho by lia. simpl.
    replace (off + k)%nat with
      (off + length (spent_utxos (authorized_tx a)) + (k - length (authorizations a)))%nat
      by lia.
    apply IH; [done|]. by rewrite Hlen.
Qed.

Lemma check_owners_ok l :
  Forall owners_ok l →
  check_owners (l ≫= authorizations) (authorized_tx <$> l) = Ok ().
Proof.
  intros Hall. unfold check_owners. set (pending := swap_claim_pending _).
  apply foldM_unit. intros [k [au out]] Hin.
  apply list_elem_of_lookup in Hin as (j & Hj).
  rewrite list_lookup_imap, fmap_Some in Hj. destruct Hj as ([au' out'] & Hz & [= <- <- <-]).
  apply lookup_zip_with_Some in Hz as (au' & out' & [= <- <-] & Ha & Ho).
  case_bool_decide as Hp; [done|]. apply ensure_Ok, bool_decide_eq_true.
  destruct (block_owner l 0 ∅ k au out Hall Ha Ho) as [Hin|]; [|done].
  destruct Hp. exact Hin.
Qed.

(** ** Signatures *)
(** Verified one by one, the transactions of a block verify in its batches. *)
Lemma verify_authorizations_ok `{!BatchLaws X} ats cb :
  Forall (λ at_, verify_authorized_transaction at_ = Ok ()) ats →
  verify_authorizations (body_new ats cb) = Ok ().
Proof.
  intros Hall. apply verify_authorizations_shares. exists (authorizations <$> ats).
  split; [simpl; clear Hall; induction ats as [|a ats IH]; csimpl; [done|by rewrite IH]|].
  simpl. apply Forall2_fmap_l, Forall2_fmap_r, Forall_Forall2_diag.
  eapply Forall_impl; [exact Hall|]. by intros [].
Qed.

(** ** The block of a template *)
Lemma accepted_owners st a fee : accepted st a fee →
  owners_ok a ∧ verify_authorized_transaction (unfilled a) = Ok ().
Proof.
  intros [Hv Hf]. unfold validate_transaction in Hv. cbn [authorized_tx unfilled] in Hv.
  rewrite Hf, bind_Ok in Hv. apply bind_Ok_inv in Hv as ([] & _ & Hv).
  apply bind_Ok_inv in Hv as ([] & Ho & Hv). apply bind_Ok_inv in Hv as ([] & Ha & _).
  assert (verify_authorized_transaction (unfilled a) = Ok ()) as Hver.
  { apply ensure_Ok in Ha. by destruct (verify_authorized_transaction _) as [[]| |]. }
  split; [|done]. split; [done|].
  assert (length (authorizations a) = length (inputs (transaction (authorized_tx a)))) as ->.
  { unfold verify_authorized_transaction in Hver. simpl in Hver.
    destruct (Nat.compare_spec (length (authorizations a))
      (length (inputs (transaction (authorized_tx a))))); done. }
  rewrite fill_transaction_lookup in Hf. apply bind_Ok_inv in Hf as (outs & Ho' & [= Heq]).
  apply mapM_res_Forall2, Forall2_length in Ho'. by rewrite <-Heq.
Qed.

Lemma accepted_Forall (P : Authorized FilledTransaction → Prop) st l fees :
  Forall2 (accepted st) l fees → (∀ a fee, accepted st a fee → P a) → Forall P l.
Proof.
  intros Hall HP. apply Forall_forall. intros a Ha.
  apply list_elem_of_lookup in Ha as (k & Hk).
  destruct (Forall2_lookup_l _ _ _ _ _ Hall Hk) as (fee & _ & Hacc). by eapply HP.
Qed.

Lemma accepted_hashes st a fee : accepted st a fee → hashes_ok (authorized_tx a).
Proof.
  intros Hacc. pose proof (accepted_fee _ _ _ Hacc) as Hfee. destruct Hacc as [_ Hf].
  rewrite fill_transaction_lookup in Hf. apply bind_Ok_inv in Hf as (outs & Ho & [= Heq]).
  apply mapM_res_Forall2, Forall2_length in Ho.
  apply validate_filled_fee in Hfee as (_ & _ & _ & Hh).
  destruct a as [[tx spent] auths]. simpl in *. injection Heq as ->.
  apply Forall2_same_length_lookup. split; [done|].
  intros k [o h] out Hi Hout. simpl in *. eapply Hh. unfold filled_inputs. simpl.
  eapply (list_elem_of_lookup_2 _ k). by rewrite lookup_zip_with, Hi; simpl; rewrite Hout.
Qed.

(** The coinbase of a template pays the fees. *)
Definition pays (coinbase : list Output) (fees : Z) : Prop :=
  coinbase = [] ∧ fees = 0 ∨ ∃ receiver, coinbase = [mkOutput receiver (Value fees)].

Lemma template_coinbase_pays fees w w' cb :
  template_coinbase fees w = (w', Ok cb) → pays cb fees.
Proof.
  unfold template_coinbase, pays. case_decide as Hf; [intros [= <- <-]; by left|].
  intros H. right. unfold mbind, WM_bind in H.
  destruct (get_receive_address w) as [w1 [r|e|]]; [|done..].
  injection H as <- <-. by exists r.
Qed.

Lemma pays_step root cb fees : pays cb fees → 0 ≤ fees ≤ u64_MAX →
  foldM coinbase_step (0, AccumulatorDiff.empty) (coinbase_outputs root cb)
  = Ok (fees, steps (Put <$> coinbase_outputs root cb) AccumulatorDiff.empty).
Proof.
  intros [[-> ->]|(r & ->)] Hf; [done|]. simpl. unfold get_value. simpl.
  unfold u64_checked_add. rewrite (proj2 (Z.leb_le _ _)) by lia. done.
Qed.

(** The pool is ready for the template: its transactions name each input once, with
    proofs for the accumulator of the state. *)
Definition pool_ready st (mp : MemPool) : Prop :=
  ∀ at_, at_ ∈ take_all mp →
    NoDup (inputs (authorized_tx at_)) ∧
    forest_verify (get_accumulator st) (proof (authorized_tx at_))
      (inputs (authorized_tx at_)).*2 = Some true.

Definition within_limits st (body : Body) : Prop :=
  Z.of_nat (length (body_authorizations body)) ≤ body_sigops_limit (next_height st) ∧
  borsh_body_length (coinbase body) (transactions body) (body_authorizations body)
    ≤ body_size_limit (next_height st).

#[export] Instance within_limits_dec st body : Decision (within_limits st body).
Proof. unfold within_limits. apply _. Defined.

Lemma assembled_block ar p m l cb header body :
  assemble ar p m l cb = Ok (header, body) →
  prev_side_hash header = p ∧ body = body_new (unfilled <$> l) cb ∧
  ∃ acc0 acc root, parent_accumulator ar p = Ok acc0 ∧
    modify_memforest cb (authorized_tx <$> l) acc0 = Ok (root, acc) ∧
    merkle_root header = root ∧ roots header = forest_roots acc.
Proof.
  unfold assemble. intros H. apply bind_Ok_inv in H as (acc0 & Hp & H).
  apply bind_Ok_inv in H as ([root acc] & Hm & [= <- <-]).
  split_and!; [done..|]. by exists acc0, acc, root.
Qed.

Lemma modify_memforest_Ok cb ftxs acc0 root acc :
  modify_memforest cb ftxs acc0 = Ok (root, acc) →
  compute_merkle_root cb ftxs = Ok root ∧
  forest_modify acc0
    (pointed_hashes (coinbase_outputs root cb) ++
      (ftxs ≫= λ ftx, pointed_hashes
         (regular_outputs (txid (transaction ftx)) (outputs (transaction ftx)))))
    (ftxs ≫= λ ftx, (inputs (transaction ftx)).*2) = Some acc.
Proof.
  unfold modify_memforest. intros H. apply bind_Ok_inv in H as (r & Hr & H).
  apply bind_Ok_inv in H as (f & Hf & [= <- <-]). apply ok_or_Ok in Hf.
  split; [|done]. by destruct (compute_merkle_root cb ftxs); [|done..]; simpl in Hr; simplify_eq.
Qed.

Lemma assembled_valid `{!BatchLaws X} st from acc0 ar m cb header body :
  template_ok st from acc0 →
  (∀ at_, at_ ∈ from → forest_verify (get_accumulator st) (proof (authorized_tx at_))
    (inputs (authorized_tx at_)).*2 = Some true) →
  pays cb (tpl_fee acc0) →
  parent_accumulator ar (tip st) = Ok (get_accumulator st) →
  assemble ar (tip st) m (tpl_transactions acc0) cb = Ok (header, body) →
  (∀ o out, utxos st !! o = Some out → outpoint_wf o) →
  block_fresh st header body → collision_free (universe st header body) →
  within_limits st body →
  ∃ pre, block_valid st header body pre ∧ total_fees pre = tpl_fee acc0 ∧
    pre_coinbase_value pre = tpl_fee acc0.
Proof.
  intros Hok Hproof Hpays Hpa Has Hwf Hfr Hcf [Hl1 Hl2].
  pose proof (template_keys _ _ _ Hok Hwf) as Hkeys.
  destruct (to_accepted _ _ _ Hok) as (fees & Hall & Hsum & Hmax).
  apply assembled_block in Has as (Hside & Hbody & f0 & f & root & Hf0 & Hm & Hroot & Hroots).
  rewrite Hpa in Hf0. injection Hf0 as <-.
  apply modify_memforest_Ok in Hm as [Hroot' Hmod].
  set (l := tpl_transactions acc0) in *.
  assert (transactions body = (λ a, transaction (authorized_tx a)) <$> l) as Htxs.
  { subst body. simpl. by rewrite <-list_fmap_compose. }
  assert (transactions body = transaction <$> (authorized_tx <$> l)) as Htxs'.
  { by rewrite Htxs, <-list_fmap_compose. }
  assert (coinbase body = cb) as Hcb by by subst body.
  assert (body_authorizations body = l ≫= authorizations) as Hauths.
  { subst body. simpl. clear. induction l as [|a l IH]; csimpl; [done|]. by rewrite IH. }
  assert (checked_txs st (get_accumulator st) 0 (transactions body) (authorized_tx <$> l)
    (tpl_fee acc0)) as Hchk.
  { rewrite Htxs, Hsum. apply (all_checked st l fees 0 Hall); [|rewrite <-Hsum; lia].
    intros a Ha. by apply (Hproof (unfilled a)), (to_from _ _ _ Hok). }
  assert (0 ≤ tpl_fee acc0) as Hpos.
  { rewrite Hsum. apply sumZ_nonneg. intros fee Hf. apply list_elem_of_lookup in Hf as (k & Hk).
    destruct (Forall2_lookup_r _ _ _ _ _ Hall Hk) as (b & _ & Hb).
    by apply accepted_fee, validate_filled_fee in Hb as (_ & ? & _). }
  set (d := steps (block_ops header body (authorized_tx <$> l)) AccumulatorDiff.empty).
  assert (apply_diff d (get_accumulator st) = Some f) as Hdiff.
  { rewrite (block_apply_diff st header body (authorized_tx <$> l)); try done.
    - by rewrite Hroot, Hcb.
    - apply Forall_fmap, (accepted_Forall _ _ _ _ Hall). intros a fee. apply accepted_hashes.
    - apply Forall_fmap, (accepted_Forall _ _ _ _ Hall). intros a fee [_ Hf]. simpl.
      by rewrite Hf.
    - by rewrite Htxs. }
  exists (mkPrevalidated (authorized_tx <$> l) root (tpl_fee acc0) (tpl_fee acc0)
    (next_height st) d).
  split; [|done]. split; simpl; try done.
  - unfold check_header_and_limits. rewrite Hside, bool_decide_true by done. simpl.
    rewrite (proj2 (Z.leb_le _ _) Hl1), (proj2 (Z.leb_le _ _) Hl2). done.
  - unfold merkle_root_of. by rewrite Hcb, Hroot'.
  - apply double_spent_NoDup. by rewrite Htxs.
  - eexists. split; [rewrite Hcb; by apply pays_step|].
    unfold d, block_ops. rewrite Hroot, Hcb, steps_app.
    symmetry. eapply diff_of_block, Hchk.
  - unfold check_auths_and_roots. rewrite Hauths.
    rewrite check_owners_ok by (apply (accepted_Forall _ _ _ _ Hall); intros a fee Ha;
      by destruct (accepted_owners _ _ _ Ha)).
    rewrite bind_Ok. rewrite Hbody, verify_authorizations_ok.
    + simpl. rewrite Hdiff. simpl. by rewrite bool_decide_true by done.
    + apply Forall_fmap, (accepted_Forall _ _ _ _ Hall). intros a fee Ha. simpl.
      by destruct (accepted_owners _ _ _ Ha).
Qed.

(** Outside of the limits a block is refused for them, before anything else. *)
Lemma limits_first st header body : prev_side_hash header = tip st → ¬ within_limits st body →
  prevalidate st header body = Err TooManySigops ∨ prevalidate st header body = Err BodyTooLarge.
Proof.
  intros Hside Hno. unfold prevalidate, check_header_and_limits.
  rewrite bool_decide_true by done. simpl. unfold within_limits in Hno.
  destruct (Z.leb_spec (Z.of_nat (length (body_authorizations body)))
    (body_sigops_limit (next_height st))) as [H1|H1]; [|by left]. simpl. right.
  destruct (Z.leb_spec (borsh_body_length (coinbase body) (transactions body)
    (body_authorizations body)) (body_size_limit (next_height st))); [|done]. by destruct Hno.
Qed.

(** C5: Whether the block that the node proposes on its tip passes [prevalidate] depends on
    the limits of a block alone, which the template does not look at: within them it
    passes, with the fees that the template announces, all of them paid to the coinbase,
    and otherwise it is refused for its signatures or its size.  Whatever mix of
    payments and swap transactions the mempool holds, the transactions chosen from it
    are valid together, the header commits to them, and its roots are those of the
    accumulator after the block.  The mempool's proofs are for the tip's accumulator (as
    submitting and [regenerate_proofs] leave them), which is the one that the archive holds;
    the block's outpoints are new and the hashes of the outputs around it do not
    collide. *)
Theorem template_accepted `{!BatchLaws X} prev_main requested bribe app app' tpl :
  let st := node_state (app_node app) in
  build_block_template prev_main requested bribe app = (app', Ok tpl) →
  prev_side_hash (tp_header tpl) = tip st →
  pool_ready st (node_mempool (app_node app)) →
  parent_accumulator (node_archive (app_node app')) (tip st) = Ok (get_accumulator st) →
  (∀ o out, utxos st !! o = Some out → outpoint_wf o) →
  block_fresh st (tp_header tpl) (tp_body tpl) →
  collision_free (universe st (tp_header tpl) (tp_body tpl)) →
  match prevalidate st (tp_header tpl) (tp_body tpl) with
  | Ok pre => within_limits st (tp_body tpl) ∧
      total_fees pre = tp_fees tpl ∧ pre_coinbase_value pre = tp_fees tpl
  | Err TooManySigops | Err BodyTooLarge => ¬ within_limits st (tp_body tpl)
  | _ => False
  end.
Proof.
  intros st H Hside Hready Hacc Hwf Hfr Hcf.
  destruct (decide (within_limits st (tp_body tpl))) as [Hlim|Hno].
  2:{ by destruct (limits_first st _ _ Hside Hno) as [-> | ->]. }
  unfold build_block_template in H.
  destruct (a ← _; p ← _; Ok (a, p)) as [[ar side]|e|]; [|done..].
  case_decide as Hd.
  - subst side. destruct (get_transactions _ _) as [node' [[txs fees]|e|]] eqn:Hg; [|done..].
    destruct (template_coinbase _ _) as [w [cb|e|]] eqn:Hcb; [|done..].
    injection H as <- H. simpl in Hacc.
    apply get_transactions_ok in Hg as (acc0 & Hok & <- & <- & ->).
    2:{ intros at_ Hin. by apply Hready, (subseteq_take _ _ _ Hin). }
    apply bind_Ok_inv in H as ([header body] & Has & [= <-]). simpl in *.
    destruct (assembled_valid st (mp_take NUM_TRANSACTIONS (node_mempool (app_node app)))
      acc0 ar prev_main cb header body) as (pre & Hpre & Hfees & Hval); try done.
    { intros at_ Hin. by apply Hready, (subseteq_take _ _ _ Hin). }
    { by eapply template_coinbase_pays. }
    apply prevalidate_spec in Hpre. by rewrite Hpre.
  - injection H as <- H. apply bind_Ok_inv in H as ([header body] & Has & [= <-]).
    apply assembled_block in Has as (Hs & _). destruct Hd. by rewrite <-Hs.
Qed.
End TemplateValid.
