(* ===== verification/App.v ===== *)
(** The application over node and wallet: keeping the wallet up to date, sending, and
    the calls that move coins and swaps (app/app.rs, app/rpc_server.rs).

    As in the wallet, what was written before an error stays, so that an operation
    returns the application next to its result. *)
From S2P Require Import Prelude Bytes SwapTypes TxTypes Externals Accumulator.
From S2P Require Import BlockTypes Rollback Bundle StateDb SwapRules Auth Block.
From S2P Require Import BlockConnect Peg Monitor Mempool Ancestry SideTips Archive.
From S2P Require Import ArchiveWrites ArchiveIter BetterTip Node Wallet WalletTx.
From S2P Require Import Template.

Section App.
Context {T : ExtTypes} {X : ExtFuns} {W : ExtWork} {I : HashIter} {E : ExtWallet}.
Implicit Types (app : App) (tx : Transaction) (w : Wallet) (node : Node).

(** An operation that may write and then fail. *)
Definition AM (A : Type) : Type := App → App * res AppError A.
#[export] Instance AM_ret : MRet AM := λ A a app, (app, Ok a).
#[export] Instance AM_bind : MBind AM := λ A B f m app,
  match m app with
  | (app, Ok a) => f a app
  | (app, Err e) => (app, Err e)
  | (app, Panic) => (app, Panic)
  end.
Definition aread {A} (f : App → A) : AM A := λ app, (app, Ok (f app)).
Definition alift {A} (m : res AppError A) : AM A := λ app, (app, m).
Definition awrite (f : App → App) : AM () := λ app, (f app, Ok ()).

(** A call of the wallet, and one of the node. *)
Definition in_wallet {A} (m : WM A) : AM A := λ app,
  let '(w, r) := m (app_wallet app) in
  ({| app with app_wallet := w |}, map_err AppWallet r).
Definition in_node {A} (m : Node → Node * res NodeError A) : AM A := λ app,
  let '(node, r) := m (app_node app) in
  ({| app with app_node := node |}, map_err AppNode r).
Definition app_state app : State := node_state (app_node app).

(** ** Keeping the wallet up to date *)

(** [get_utxos_by_addresses], [get_spent_utxos] *)
Definition get_utxos_by_addresses (addresses : gset Address) (st : State) :
    gmap OutPoint Output := filter (λ p, address p.2 ∈ addresses) (utxos st).
Definition get_spent_utxos (outpoints : list OutPoint) (st : State) :
    list (OutPoint * SpentOutput) :=
  omap (λ o, pair o <$> stxos st !! o) outpoints.

Definition refresh_wallet (st : State) w : Wallet :=
  let new := get_utxos_by_addresses (get_addresses w) st in
  let outpoints := (coin_iter (w_utxos w)).*1 in
  let spent := (λ p : OutPoint * SpentOutput, (p.1, inpoint p.2)) <$> get_spent_utxos outpoints st in
  spend_utxos spent (put_utxos_w new w).
Definition update_wallet app : App :=
  {| app with app_wallet := refresh_wallet (app_state app) (app_wallet app) |}.
Definition update app : App :=
  let app := update_wallet app in
  {| app with app_utxos := w_utxos (app_wallet app) |}.

Definition recover_wallet_addresses : AM () := λ app,
  if has_seed (app_wallet app) then
    let all_utxos := utxos (app_state app) in
    if decide (all_utxos = ∅) then (app, Ok ())
    else
      (_ ← in_wallet (recover_addresses_from_utxo_set
              (list_to_set ((λ p : OutPoint * Output, address p.2) <$> map_to_list all_utxos)));
       mret ()) app
  else (app, Ok ()).

(** [App::task]: whether addresses are to be recovered, and one turn of the loop; it
    logs errors and goes on. *)
Definition needs_recovery_at_start app : bool :=
  bool_decide (get_addresses (app_wallet app) = ∅) && has_seed (app_wallet app).
Definition task_turn (needs_recovery : bool) app : App * bool :=
  let '(app, needs_recovery) :=
    if needs_recovery then
      match recover_wallet_addresses app with
      | (app, Ok _) => (app, bool_decide (get_addresses (app_wallet app) = ∅))
      | (app, _) => (app, true)
      end
    else (app, false) in
  (update app, needs_recovery).

(** ** Sending *)
Definition app_is_locked app (o : OutPoint) : bool :=
  match is_output_locked_to_swap (app_state app) o with Some _ => true | None => false end.

Definition sign_and_send (rng : Rng) tx : AM () :=
  at_ ← in_wallet (authorize rng tx);
  _ ← in_node (submit_transaction at_);
  awrite update.

(** What the calls have in common: a transaction is built on the accumulator of the
    tip, leaving locked outputs alone, and sent. *)
Definition build_tx {A} (m : MemForest → (OutPoint → bool) → WM A) : AM A := λ app,
  in_wallet (m (get_accumulator (app_state app)) (app_is_locked app)) app.

Definition transfer (rng : Rng) (dest : Address) (value_sats fee_sats : Z) : AM Txid :=
  tx ← build_tx (λ acc is_locked, create_transaction acc dest value_sats fee_sats is_locked);
  _ ← sign_and_send rng tx;
  mret (txid tx).
Definition transfer_many (rng : Rng) (dests : gmap Address Z) (fee_sats : Z) : AM Txid :=
  tx ← build_tx (λ acc is_locked, create_transaction_many acc dests fee_sats is_locked);
  _ ← sign_and_send rng tx;
  mret (txid tx).
Definition withdraw (rng : Rng) (mainchain_address : BtcAddress)
    (amount_sats fee_sats mainchain_fee_sats : Z) : AM Txid :=
  tx ← build_tx (λ acc is_locked,
    create_withdrawal acc mainchain_address amount_sats mainchain_fee_sats fee_sats is_locked);
  _ ← sign_and_send rng tx;
  mret (txid tx).

(** ** Swaps *)
Definition add_created_pending_swap (id : SwapId) app : App :=
  {| app with created_pending_swap_ids := {[ id ]} ∪ created_pending_swap_ids app |}.
Definition is_created_pending_swap (id : SwapId) app : bool :=
  bool_decide (id ∈ created_pending_swap_ids app).
Definition remove_created_pending_swap (id : SwapId) app : App :=
  {| app with created_pending_swap_ids := created_pending_swap_ids app ∖ {[ id ]} |}.

Definition create_swap (rng : Rng) (parent_chain : ParentChainType)
    (l1_recipient_address : string) (l1_amount_sats : Z) (l2_recipient : option Address)
    (l2_amount_sats : Z) (required_confirmations : option Z) (fee_sats : Z) :
    AM (SwapId * Txid) :=
  '(tx, id) ← build_tx (λ acc is_locked,
    create_swap_create_tx acc parent_chain l1_recipient_address l1_amount_sats l2_recipient
      l2_amount_sats required_confirmations fee_sats is_locked);
  _ ← sign_and_send rng tx;
  _ ← awrite (add_created_pending_swap id);
  mret (id, txid tx).

Definition accept_swap (rng : Rng) (id : SwapId) (l2_claimer_address : option Address)
    (fee_sats : option Z) : AM Txid :=
  tx ← build_tx (λ acc is_locked,
    create_swap_accept_tx acc id l2_claimer_address (default 0 fee_sats) is_locked);
  _ ← sign_and_send rng tx;
  mret (txid tx).

Definition names_swap (id : SwapId) (output : Output) : bool :=
  match content output with
  | SwapPending _ locked_swap_id => bool_decide (locked_swap_id = id)
  | _ => false
  end.

(** The outputs that name the swap, in the order of the map of all outputs. *)
Definition swap_outputs (id : SwapId) (st : State) : list (OutPoint * Output) :=
  filter (λ p, names_swap id p.2 = true)
    (coin_iter (utxos st)).

(** The swap and the address that may claim it now, or why the claim is refused. *)
Definition claim_checks (id : SwapId) (l2_claimer_address : option Address) (st : State) :
    res AppError (Swap * list (OutPoint * Output) * Address) :=
  swap ← ok_or (get_swap st id) (AppRpc MsgSwapNotFound);
  _ ← ensure (bool_decide (state swap = ReadyToClaim)) (AppRpc MsgSwapNotReady);
  let locked_outputs := swap_outputs id st in
  _ ← ensure (negb (bool_decide (locked_outputs = []))) (AppRpc MsgNoLockedOutputs);
  recipient ← ok_or (entitled_claimer_at st swap (next_height st)) (AppRpc MsgNoLiveReservation);
  _ ← match l2_claimer_address with
      | Some requested =>
          ensure (bool_decide (requested = recipient))
            (AppRpc (MsgReservedForOther recipient requested))
      | None => Ok ()
      end;
  Ok (swap, locked_outputs, recipient).

Definition claim_swap (rng : Rng) (id : SwapId) (l2_claimer_address : option Address) :
    AM Txid := λ app,
  (checked ← alift (claim_checks id l2_claimer_address (app_state app));
   let '(swap, locked_outputs, recipient) := checked in
   _ ← in_wallet (wwrite (put_utxos_w (list_to_map locked_outputs)));
   let l2_claimer_for_tx :=
     match l2_recipient swap with None => Some recipient | Some _ => None end in
   tx ← build_tx (λ acc _,
     create_swap_claim_tx acc id recipient locked_outputs l2_claimer_for_tx);
   _ ← sign_and_send rng tx;
   mret (txid tx)) app.

(** [resolve_swap_creator]: the creator, if it is ours. *)
Definition resolve_swap_creator (id : SwapId) app : res Error (option Address) :=
  swap ← ok_or (get_swap (app_state app) id) (SwapNotFound id);
  creator ← ok_or (l2_creator_address swap) SwapNotCreator;
  if decide (creator ∈ get_addresses (app_wallet app)) then Ok (Some creator)
  else Err SwapNotCreator.

(** A write to the state, committed if it succeeds. *)
Definition in_state (f : State → res Error State) : AM () := λ app,
  match f (app_state app) with
  | Ok st =>
      let node := app_node app in
      ({| app with app_node := mkNode (node_archive node) (node_mempool node) st |}, Ok ())
  | Err e => (app, Err (AppState e))
  | Panic => (app, Panic)
  end.

Definition rpc_cancel_swap (id : SwapId) : AM () := λ app,
  (creator ← alift (map_err AppState (resolve_swap_creator id app));
   in_state (cancel_swap id creator)) app.

Definition rpc_update_swap_l1_txid (id : SwapId) (l1_txid : SwapTxId) (confirmations : Z)
    (l2_claimer_address : option Address) : AM () := λ app,
  (block_hash ← alift (ok_or (tip (app_state app)) (AppRpc MsgNoTip));
   block_height ← alift (ok_or (height (app_state app)) (AppRpc MsgNoTipHeight));
   in_state (update_swap_l1_txid id l1_txid confirmations None l2_claimer_address
               block_hash block_height)) app.
End App.
