(* ===== verification/AppTasks.v ===== *)
(** The application's background tasks (app/app.rs): following the mainchain's tip,
    checking the confirmations of waiting swaps, keeping the wallet up to date, finding
    out which services the mainchain node has, and the coins at start-up.  Timers and
    logging are left out; a turn of a loop is an operation. *)
From S2P Require Import Prelude Bytes SwapTypes TxTypes Externals Hex F64 ParentRpc.
From S2P Require Import Accumulator BlockTypes Rollback Bundle StateDb SwapRules Auth Block.
From S2P Require Import BlockConnect Peg Monitor Mempool Ancestry SideTips Archive.
From S2P Require Import ArchiveWrites ArchiveIter BetterTip Node MainTask Wallet WalletTx.
From S2P Require Import Template App.
From S2P Require Import Proto.

Section AppTasks.
Context {T : ExtTypes} {X : ExtFuns} {W : ExtWork} {I : HashIter} {E : ExtWallet}.
Implicit Types (app : App) (st : State) (ar : Archive) (node : Node).

(** ** [App::task] over a number of changes of the state *)
Fixpoint task_turns (n : nat) (needs_recovery : bool) app : App * bool :=
  match n with
  | O => (app, needs_recovery)
  | S n => let '(app, needs_recovery) := task_turn needs_recovery app in
           task_turns n needs_recovery app
  end.

(** ** [App::new]: the coins that no transaction of the mempool spends *)
Definition initial_utxos (transactions : list AuthorizedTransaction)
    (wallet_utxos : gmap OutPoint Output) : gmap OutPoint Output :=
  foldl (λ utxos transaction,
      foldl (λ utxos (i : OutPoint * Hash), delete i.1 utxos) utxos
        (inputs (authorized_tx transaction))) wallet_utxos transactions.

(** ** [l1_sync_task] *)
Inductive L1SyncAction :=
| Unreachable
| UpToDate
| RequestAncestors (l1_tip_hash : BtcBlockHash).

(** One turn: what is stored in [mainchain_reachable], and what is requested.  The
    error of the best verification ends the task. *)
Definition l1_sync_turn (l1_tip : res ProtoError BtcBlockHash) node :
    bool * res ArchiveError L1SyncAction :=
  match l1_tip with
  | Ok l1_tip_hash =>
      let ar := node_archive node in
      (true,
       synced_main_hash ←
         match tip (node_state node) with
         | Some sidechain_tip => try_get_best_main_verification ar sidechain_tip
         | None => Ok None
         end;
       let needs_sync :=
         match synced_main_hash with
         | Some synced => negb (bool_decide (l1_tip_hash = synced))
         | None => true
         end in
       Ok (if needs_sync then
             match main_header_infos ar !! l1_tip_hash with
             | Some _ => UpToDate
             | None => RequestAncestors l1_tip_hash
             end
           else UpToDate))
  | _ => (false, Ok Unreachable)
  end.

(** ** [swap_confirmation_check_task] *)
Definition waits_for_confirmations (swap : Swap) : bool :=
  match state swap with
  | WaitingConfirmations _ _ => negb (l1_txid_unset (l1_txid swap))
  | _ => false
  end.
Definition swaps_to_check st : list Swap :=
  filter (λ swap, waits_for_confirmations swap = true) (load_all_swaps st).

(** One swap: the open transaction and the number of updates.  [rpc] is the answer to
    [get_transaction_confirmations] at the chain's node, if one is configured. *)
Definition check_swap (rpc : ParentChainType → option (string → res RpcErr Z))
    (acc : State * nat) (swap : Swap) : State * nat :=
  let '(st, updated_count) := acc in
  match rpc (parent_chain swap) with
  | None => acc
  | Some confirmations_of =>
      match confirmations_of (to_hex (l1_txid swap)) with
      | Ok new_confirmations =>
          let current_confirmations :=
            match state swap with WaitingConfirmations current _ => current | _ => 0 end in
          if current_confirmations <? new_confirmations then
            match tip st, height st with
            | Some block_hash, Some block_height =>
                match StateDb.update_swap_l1_txid (swap_id swap) (l1_txid swap)
                        new_confirmations None None block_hash block_height st with
                | Ok st => (st, S updated_count)
                | _ => acc
                end
            | _, _ => acc
            end
          else acc
      | _ => acc
      end
  end.

(** The state after a turn of the loop. *)
Definition confirmation_check_turn rpc st : State :=
  let '(st', updated_count) := foldl (check_swap rpc) (st, 0%nat) (swaps_to_check st) in
  if (0 <? updated_count)%nat then st' else st.

(** ** [check_proto_support] *)
Record ProtoSupport := mkProtoSupport { block_producer : bool; wallet_service : bool }.

(** The answers of the health service: its status, or the code of an error. *)
Inductive Health := Status (serving : bool) | HealthNotFound | HealthError.

Definition check_status_serving (answer : Health) : option bool :=
  match answer with
  | Status serving => Some serving
  | HealthNotFound => Some false
  | HealthError => None
  end.

(** [None] is an error. *)
Definition check_proto_support (validator producer wallet : Health) : option ProtoSupport :=
  validator ← check_status_serving validator;
  if validator : bool then
    has_block_producer ← check_status_serving producer;
    has_wallet ← check_status_serving wallet;
    Some (mkProtoSupport has_block_producer has_wallet)
  else None.

(** The first attempt that succeeds in time; [None] in the list is a timeout. *)
Fixpoint wait_for_proto_support (attempts : list (option (Health * Health * Health))) :
    option ProtoSupport :=
  match attempts with
  | [] => None
  | attempt :: attempts =>
      match '(v, p, w) ← attempt; check_proto_support v p w with
      | Some support => Some support
      | None => wait_for_proto_support attempts
      end
  end.

(** ** Properties *)

(** The check of confirmations changes nothing, whatever the nodes answer: it updates
    waiting swaps with an operation that refuses every swap but the pending ones. *)
Lemma check_swap_same rpc st n swap :
  get_swap st (swap_id swap) = Some swap → waits_for_confirmations swap = true →
  check_swap rpc (st, n) swap = (st, n).
Proof.
  intros Hg Hw. unfold check_swap, waits_for_confirmations in *.
  destruct (rpc (parent_chain swap)) as [f|]; [|done].
  destruct (f _) as [c|e|]; [|done..]. destruct (state swap) as [|cur r| | |] eqn:Hs; try done.
  destruct (cur <? c); [|done]. destruct (tip st), (height st); try done.
  unfold StateDb.update_swap_l1_txid. rewrite Hg. simpl. by rewrite Hs, bool_decide_false.
Qed.

Lemma confirmation_check_never_updates rpc st :
  (∀ swap, swap ∈ load_all_swaps st → get_swap st (swap_id swap) = Some swap) →
  confirmation_check_turn rpc st = st.
Proof.
  intros Hload. unfold confirmation_check_turn.
  assert (foldl (check_swap rpc) (st, 0%nat) (swaps_to_check st) = (st, 0%nat)) as ->; [|done].
  assert (∀ swap, swap ∈ swaps_to_check st →
    get_swap st (swap_id swap) = Some swap ∧ waits_for_confirmations swap = true) as Hl.
  { intros swap [Hw Hin]%list_elem_of_filter. split; [by apply Hload|exact Hw]. }
  revert Hl. generalize (swaps_to_check st). intros l. induction l as [|swap l IH]; intros Hl; [done|].
  destruct (Hl swap ltac:(by left)). cbn [foldl]. rewrite check_swap_same by done.
  apply IH. intros s' Hs'. apply Hl. by right.
Qed.
End AppTasks.
