(* ===== verification/Queries.v ===== *)
(** What a node and its RPC server answer without changing anything
    (lib/node/mod.rs, app/rpc_server.rs), and the few calls that change one thing
    only.

    Each call reads one snapshot; the source opens one read transaction per call of the
    node.  Outputs of hash maps come in the order of [coin_iter]. *)
From S2P Require Import Prelude Bytes SwapTypes TxTypes Externals Hex Addresses.
From S2P Require Import Accumulator BlockTypes Rollback Bundle StateDb SwapRules Auth Block.
From S2P Require Import BlockConnect Peg Monitor Mempool Ancestry BlockTree SideTips Archive.
From S2P Require Import ArchiveWrites ArchiveProps ArchiveIter ArchiveIterProps BetterTip.
From S2P Require Import Node Net Wallet WalletTx Reconstruct Template App.

(** [FallibleIterator::nth] *)
Fixpoint iter_nth {It A E} (next : It → res E (option (A * It))) (n : nat) (it : It) :
    res E (option A) :=
  o ← next it;
  match o, n with
  | None, _ => Ok None
  | Some (a, _), O => Ok (Some a)
  | Some (_, it), S n => iter_nth next n it
  end.

(** ** The node *)
Section Queries.
Context {T : ExtTypes} {X : ExtFuns} {W : ExtWork} {I : HashIter} {E : ExtWallet}.
Implicit Types (node : Node) (b : BlockHash) (h : Z) (app : App).

Definition try_get_block_hash_read node h : res NodeError (option BlockHash) :=
  match tip (node_state node), height (node_state node) with
  | Some tip, Some tip_height =>
      if h <=? tip_height then
        lift ArchiveErr
          (fmap (M:=option) fst <$>
             iter_nth (ancestor_headers_next (node_archive node))
               (Z.to_nat (tip_height - h)) (Some tip))
      else Ok None
  | _, _ => Ok None
  end.
Definition try_get_block_hash node h : res NodeError (option BlockHash) :=
  try_get_block_hash_read node h.

(** The events are keyed by height. *)
Definition node_block_index_events node b : res NodeError BlockIndexEvents :=
  h ← lift ArchiveErr (archive_height (node_archive node) b);
  on_chain ← try_get_block_hash_read node h;
  _ ← ensure (bool_decide (on_chain = Some b)) (NotInCurrentChain b);
  Ok (get_block_index_events (node_state node) h).

Definition get_bmm_inclusions node b : list BtcBlockHash :=
  omap (λ p : BtcBlockHash * BmmResult, if decide (p.2 = Verified) then Some p.1 else None)
    (map_iter (get_bmm_results (node_archive node) b)).

Definition get_latest_failed_withdrawal_bundle_height node : res NodeError (option Z) :=
  bundle ← lift StateErr (get_latest_failed_withdrawal_bundle (node_state node));
  Ok (fmap (M:=option) fst bundle).

Definition get_pending_withdrawal_bundle node : option WithdrawalBundle :=
  fst <$> pending_withdrawal_bundle (node_state node).

(** ** The RPC server *)
Definition get_block b app : res AppError (option (Header * Body)) :=
  match headers (node_archive (app_node app)) !! b with
  | None => Ok None
  | Some header =>
      body ← map_err AppArchive (get_body (node_archive (app_node app)) b);
      Ok (Some (header, body))
  end.

Definition get_block_hash h app : res AppError (option BlockHash) :=
  map_err AppNode (try_get_block_hash (app_node app) h).

(** [BlockIndexTx], and [MempoolTx] without the transaction itself *)
Record TxEntry := mkTxEntry { te_txid : Txid; te_size : Z; te_raw : list byte }.
Definition tx_entry (tx : Transaction) : TxEntry :=
  mkTxEntry (txid tx) (canonical_size tx) (hex_encode (canonical_encoding tx)).

Record BlockIndex := mkBlockIndex {
  bi_txs : list TxEntry;
  bi_deposits : list (OutPoint * Output);
  bi_bundle_spends : list (OutPoint * M6id);
}.
Definition get_block_index b app : res AppError BlockIndex :=
  body ← map_err AppArchive (get_body (node_archive (app_node app)) b);
  let txs := tx_entry <$> transactions body in
  events ← map_err AppNode (node_block_index_events (app_node app) b);
  Ok (mkBlockIndex txs (deposits events) (bundle_spends events)).

(** [GetBlockTemplateResponse] *)
Record TemplateResponse := mkTemplateResponse {
  tr_critical_hash : BlockHash;
  tr_block : Header * Body;
  tr_fees_sats : Z;
}.
Definition template_response (template : BlockTemplate) : TemplateResponse :=
  mkTemplateResponse (header_hash (tp_header template))
    (tp_header template, tp_body template) (tp_fees template).

Definition get_best_sidechain_block_hash app : option BlockHash := tip (app_state app).
Definition get_best_mainchain_block_hash app : res AppError (option BtcBlockHash) :=
  match tip (app_state app) with
  | None => Ok None
  | Some sidechain_hash =>
      block_hash ← map_err AppArchive
        (get_best_main_verification (node_archive (app_node app)) sidechain_hash);
      Ok (Some block_hash)
  end.

(** The set of addresses, sorted by their texts. *)
Definition base58_le {XT : ExtText} : relation Address := λ x y,
  bytes_leR (as_base58 x) (as_base58 y).
#[export] Instance base58_le_dec {XT : ExtText} : RelDecision base58_le.
Proof. intros x y. unfold base58_le. apply _. Defined.
Definition get_wallet_addresses {XT : ExtText} app : list Address :=
  merge_sort base58_le (elements (get_addresses (app_wallet app))).

Definition getblockcount app : Z :=
  match height (app_state app) with Some h => u32_add h 1 | None => 0 end.

Definition list_mempool app : list (TxEntry * Transaction) :=
  (λ at_, (tx_entry (authorized_tx at_), authorized_tx at_)) <$>
    take_all (node_mempool (app_node app)).

Definition list_utxos app : list (OutPoint * Output) := coin_iter (utxos (app_state app)).
Definition get_wallet_utxos app : list (OutPoint * Output) :=
  coin_iter (w_utxos (app_wallet app)).

Definition get_swap_status (id : SwapId) app : option Swap := get_swap (app_state app) id.
Definition list_swaps app : list Swap := load_all_swaps (app_state app).
Definition list_swaps_by_recipient (recipient : Address) app : list Swap :=
  get_swaps_by_recipient (app_state app) recipient.

Definition sidechain_wealth_sats app : res AppError Z :=
  map_err AppState (sidechain_wealth (app_state app)).

(** ** Calls that change one thing *)
Definition rpc_invalidate_block b : AM () := in_node (node_invalidate_block b).
(** Nothing is committed unless the transaction is deleted. *)
Definition rpc_remove_from_mempool (tid : Txid) : AM () := λ app,
  match remove_from_mempool tid (app_node app) with
  | Ok node => ({| app with app_node := node |}, Ok ())
  | Err e => (app, Err (AppNode e))
  | Panic => (app, Panic)
  end.
Definition rpc_set_seed_from_mnemonic (mnemonic : string) : AM () :=
  in_wallet (set_seed_from_mnemonic mnemonic).
Definition rpc_get_new_address : AM Address := in_wallet get_new_address.
(** [reconstruct_swaps], from the tip down *)
Definition rpc_reconstruct_swaps app : App * res ReconstructError Z :=
  let node := app_node app in
  match reconstruct_swaps_from_blockchain (node_archive node) None (node_state node) with
  | Ok (st, count) =>
      ({| app with app_node := mkNode (node_archive node) (node_mempool node) st |}, Ok count)
  | Err e => (app, Err e)
  | Panic => (app, Panic)
  end.
End Queries.

(** ** Properties *)
Lemma iter_nth_take {It A E} (next : It → res E (option (A * It))) n it l :
  iter_take next (S n) it = Ok l → length l = S n →
  ∃ a, iter_nth next n it = Ok (Some a) ∧ l !! n = Some a.
Proof.
  revert it l; induction n as [|n IH]; intros it l Hl Hlen; cbn [iter_take] in Hl;
    apply bind_Ok_inv in Hl as ([[a it']|] & Hnext & Hl); try by simplify_eq.
  - simpl in Hl. simplify_eq. exists a. simpl. by rewrite Hnext.
  - apply bind_Ok_inv in Hl as (rest & Hrest & Hl). simplify_eq. simpl in Hlen.
    destruct (IH it' rest) as (x & Hx & Hr); [done|lia|]. exists x. split; [|done].
    simpl. by rewrite Hnext.
Qed.

Section QueryProps.
Context {T : ExtTypes} {X : ExtFuns} {W : ExtWork} {I : HashIter} {E : ExtWallet}.
Context (ar : Archive) (Hwf : archive_wf ar).
Implicit Types (b c t : BlockHash) (h th : Z).

(** Heights count the steps along parents. *)
Lemma steps_height (m : nat) b c h : block_hash_to_height ar !! b = Some h → Z.of_nat m ≤ h →
  nsteps (side_parent ar) m b c → block_hash_to_height ar !! c = Some (h - Z.of_nat m).
Proof.
  intros Hh Hm Hst. destruct (ancestor_at_height _ _ (tw_linked _ _ (aw_side _ Hwf))
    (Z.of_nat m) b c h) as (_ & _ & Hx).
  - by apply (tw_height _ _ (aw_side _ Hwf) b h).
  - by apply lin_height_of.
  - split; [lia|]. rewrite Nat2Z.id.
    by apply (nsteps_parent_of side_ops (side_tree ar) (aw_side _ Hwf)).
  - by apply lin_height_of in Hx.
Qed.

Lemma height_steps b c h hc : block_hash_to_height ar !! b = Some h →
  block_hash_to_height ar !! c = Some hc → rtc (side_parent ar) b c →
  hc ≤ h ∧ nsteps (side_parent ar) (Z.to_nat (h - hc)) b c.
Proof.
  intros Hh Hhc Hbc. apply (rtc_parent_of side_ops (side_tree ar) (aw_side _ Hwf)) in Hbc.
  apply (rtc_ancestor_at _ _ (tw_linked _ _ (aw_side _ Hwf)) b c h hc) in Hbc;
    [|by apply (tw_height _ _ (aw_side _ Hwf) b h)|by apply lin_height_of..].
  destruct Hbc as [Hle Hst]. split; [lia|].
  by apply (nsteps_parent_of side_ops (side_tree ar) (aw_side _ Hwf)) in Hst.
Qed.

Lemma nth_block t th h : block_hash_to_height ar !! t = Some th → 0 ≤ h ≤ th →
  ∃ p, iter_nth (ancestor_headers_next ar) (Z.to_nat (th - h)) (Some t) = Ok (Some p) ∧
    nsteps (side_parent ar) (Z.to_nat (th - h)) t p.1.
Proof.
  intros Ht Hh. destruct (side_take ar Hwf (S (Z.to_nat (th - h))) t th) as (l & Hl & Hlen & Hrun);
    [done|lia|].
  destruct (iter_nth_take _ _ _ _ Hl Hlen) as (p & Hp & Hi). exists p. split; [done|].
  by destruct (Hrun _ _ Hi) as [Hst _].
Qed.

(** The blocks of the current chain, by height. *)
Definition on_chain st b h : Prop :=
  ∃ t, tip st = Some t ∧ rtc (side_parent ar) t b ∧ block_hash_to_height ar !! b = Some h.

(** The state's height is that of its tip in the archive. *)
Definition tip_at_height st : Prop :=
  ∃ t th, tip st = Some t ∧ height st = Some th ∧ block_hash_to_height ar !! t = Some th.

Lemma block_hash_read mp st h : tip_at_height st → 0 ≤ h →
  ∃ o, try_get_block_hash_read (mkNode ar mp st) h = Ok o ∧
    ∀ b, o = Some b ↔ on_chain st b h.
Proof.
  intros (t & th & Ht & Hth & Hat) Hh. unfold try_get_block_hash_read. simpl. rewrite Ht, Hth.
  unfold on_chain. rewrite Ht. destruct (Z.leb_spec h th) as [Hle|Hgt].
  - destruct (nth_block t th h Hat) as (p & -> & Hst); [lia|]. simpl.
    exists (Some p.1). split; [done|]. intros b. split.
    + intros [= <-]. exists t. split_and!; [done|by eapply rtc_nsteps_2|].
      rewrite (steps_height (Z.to_nat (th - h)) t p.1 th Hat ltac:(lia) Hst). f_equal. lia.
    + intros (t' & [= <-] & Hb & Hbh). destruct (height_steps _ _ _ _ Hat Hbh Hb) as [_ Hst'].
      f_equal. eapply (nsteps_det (side_lineage ar)).
      * by apply (nsteps_parent_of side_ops (side_tree ar) (aw_side _ Hwf)).
      * by apply (nsteps_parent_of side_ops (side_tree ar) (aw_side _ Hwf)).
  - exists None. split; [done|]. intros b. split; [done|].
    intros (t' & [= <-] & Hb & Hbh). destruct (height_steps _ _ _ _ Hat Hbh Hb). lia.
Qed.

(** Heights are there exactly up to the tip's. *)
Lemma on_chain_heights st h : tip_at_height st →
  (∃ b, on_chain st b h) ↔ 0 ≤ h ∧ ∃ th, height st = Some th ∧ h ≤ th.
Proof.
  intros (t & th & Ht & Hth & Hat). split.
  - intros (b & t' & Ht' & Hb & Hbh). simplify_eq.
    destruct (height_steps _ _ _ _ Hat Hbh Hb) as [Hle _]. split; [|by exists th].
    destruct (known_height side_ops (side_tree ar) (aw_side _ Hwf) b
      (tw_height _ _ (aw_side _ Hwf) b h Hbh)) as (h' & Hh' & [H0 _]).
    simpl in Hh'. by simplify_eq.
  - intros (H0 & th' & Hth' & Hle). simplify_eq.
    destruct (nth_block t th h Hat) as (p & _ & Hst); [lia|]. exists p.1, t.
    split_and!; [done|by eapply rtc_nsteps_2|].
    rewrite (steps_height (Z.to_nat (th - h)) t p.1 th Hat ltac:(lia) Hst). f_equal. lia.
Qed.

Lemma block_index_events_read mp st b h : tip_at_height st →
  block_hash_to_height ar !! b = Some h →
  (on_chain st b h ∧
    node_block_index_events (mkNode ar mp st) b = Ok (get_block_index_events st h)) ∨
  (¬ on_chain st b h ∧
    node_block_index_events (mkNode ar mp st) b = Err (NotInCurrentChain b)).
Proof.
  intros Hst Hb. unfold node_block_index_events, archive_height. simpl. rewrite Hb. simpl.
  destruct (known_height side_ops (side_tree ar) (aw_side _ Hwf) b
    (tw_height _ _ (aw_side _ Hwf) b h Hb)) as (h' & Hh' & [H0 _]).
  simpl in Hh'. simplify_eq.
  destruct (block_hash_read mp st h Hst H0) as (o & -> & Ho). simpl. specialize (Ho b).
  case_bool_decide as Hd; simpl; [left|right]; by rewrite <-Ho.
Qed.
End QueryProps.

Section ChainQueries.
Context {T : ExtTypes} {X : ExtFuns} {W : ExtWork} {I : HashIter} {E : ExtWallet}.

(** C33: What is asked by height is answered for the current chain.  In a well-formed
    archive, with the state's height that of its tip, [get_block_hash] returns the
    block of the chain at the height, and [None] exactly if there is none, which is
    from [getblockcount] on; [get_block_index] returns the movements recorded at a
    block's height if the block is on the chain, and refuses every other block. *)
Theorem chain_queries (app : App) :
  let st := app_state app in
  let ar := node_archive (app_node app) in
  archive_wf ar → tip_at_height ar st →
  (∀ h, 0 ≤ h → ∃ o, get_block_hash h app = Ok o ∧ ∀ b, o = Some b ↔ on_chain ar st b h) ∧
  (∀ h, height st ≠ Some u32_MAX →
    (∃ b, on_chain ar st b h) ↔ 0 ≤ h < getblockcount app) ∧
  (∀ b h body, block_hash_to_height ar !! b = Some h → bodies ar !! b = Some body →
    (on_chain ar st b h →
      get_block_index b app = Ok (mkBlockIndex (tx_entry <$> transactions body)
        (deposits (get_block_index_events st h)) (bundle_spends (get_block_index_events st h)))) ∧
    (¬ on_chain ar st b h → get_block_index b app = Err (AppNode (NotInCurrentChain b)))).
Proof.
  intros st ar Hwf Hst.
  assert (app_node app = mkNode ar (node_mempool (app_node app)) st) as Hnode
    by (subst ar st; unfold app_state; by destruct (app_node app)).
  split_and!.
  - intros h Hh. unfold get_block_hash, try_get_block_hash. rewrite Hnode.
    destruct (block_hash_read ar Hwf (node_mempool (app_node app)) st h Hst Hh) as (o & -> & Ho).
    by exists o.
  - intros h Hmax. rewrite (on_chain_heights ar Hwf st h Hst). unfold getblockcount. fold st.
    destruct Hst as (t & th & Ht & Hth & Hat). rewrite Hth in *.
    destruct (known_height side_ops (side_tree ar) (aw_side _ Hwf) t
      (tw_height _ _ (aw_side _ Hwf) t th Hat)) as (h' & Hh' & Hu).
    simpl in Hh'. simplify_eq. destruct Hu as [Hu0 Hu].
    assert (th ≠ u32_MAX) by (intros ->; done). rewrite u32_add_small by lia.
    split; [intros (? & ? & [= <-] & ?); lia|]. intros ?. split; [lia|]. exists th.
    split; [done|lia].
  - intros b h body Hb Hbody. unfold get_block_index, get_body. fold ar. rewrite Hbody. simpl.
    rewrite Hnode. destruct (block_index_events_read ar Hwf (node_mempool (app_node app)) st b h
      Hst Hb) as [[Hon ->]|[Hoff ->]]; by split.
Qed.

(** The reported inclusions of a block are the mainchain blocks in which it is
    verified. *)
Lemma bmm_inclusions_verified {IL : HashIterLaws I} (node : Node) (b : BlockHash) m :
  m ∈ get_bmm_inclusions node b ↔ get_bmm_result (node_archive node) b m = Ok Verified.
Proof.
  unfold get_bmm_inclusions, get_bmm_result, try_get_bmm_result. rewrite list_elem_of_omap.
  rewrite ok_or_Ok. split.
  - intros ([m' r] & Hin & Hr). case_decide; simplify_eq/=.
    by rewrite map_iter_perm, elem_of_map_to_list in Hin.
  - intros Hm. exists (m, Verified). split; [by rewrite map_iter_perm, elem_of_map_to_list|]. by rewrite decide_True.
Qed.
End ChainQueries.
