(* ===== verification/Mining.v ===== *)
(** Mining and the mainchain wallet from the application (app/app.rs): a template is
    built, its request is sent to the mainchain, and the block submitted when the
    request is in.

    Application, net task and miner run over one node.  The answers of the mainchain
    node differ from call to call: every call has an argument of its own. *)
From S2P Require Import Prelude Bytes SwapTypes TxTypes Externals Accumulator.
From S2P Require Import BlockTypes Rollback Bundle StateDb SwapRules Auth Block.
From S2P Require Import BlockConnect Peg Monitor Mempool Ancestry BlockTree SideTips.
From S2P Require Import Archive ArchiveWrites ArchiveProps Invalidate Bmm ArchiveIter.
From S2P Require Import BetterTip Node NodeProps Proto MainTask PeerMsg Addresses Net Peer NetTask.
From S2P Require Import Submit Wallet WalletTx WalletProps Template App.

Section Mining.
Context {T : ExtTypes} {X : ExtFuns} {W : ExtWork} {I : HashIter} {IL : HashIterLaws I}.
Context {P : ExtPeer} {N : ExtNet} {NI : NetIter} {E : ExtWallet}.
Context {C : ExtConsensus} {XT : ExtText}.
Implicit Types (m : BtcBlockHash) (header : Header) (body : Body).

Inductive MineError :=
| MnApp (e : AppError)
| MnSubmit (e : SubmitError)
| MnMiner (e : ProtoError)
| MnCusfMainchain (e : ProtoError)
| MnMainchainUnreachable (e : ProtoError)
| MnRegenerateProof (e : Error)
| NoCusfMainchainWalletClient.

(** The running program; the application's node is the net task's. *)
Record Running := mkRunning {
  rn_task : NetTask;
  rn_wallet : Wallet;
  rn_utxos : gmap OutPoint Output;
  rn_created : gset SwapId;
  rn_miner : option Miner;
  rn_transaction : Transaction;
}.
Implicit Types (s : Running).

Definition running_node s : Node := nt_node (rn_task s).
Definition running_app s : App :=
  mkApp (running_node s) (rn_wallet s) (rn_utxos s) (rn_created s).
Definition set_app app s : Running :=
  {| s with rn_task := set_node (app_node app) (rn_task s); rn_wallet := app_wallet app;
            rn_utxos := app_utxos app; rn_created := created_pending_swap_ids app |}.

(** A call of the application, of the node and its net task, of the miner. *)
Definition in_app {A} (f : AM A) : handler Running MineError A := λ s,
  let '(app, r) := f (running_app s) in (set_app app s, map_err MnApp r).
Definition in_task {A} (f : handler NetTask SubmitError A) : handler Running MineError A := λ s,
  let '(t, r) := f (rn_task s) in ({| s with rn_task := t |}, map_err MnSubmit r).
Definition in_miner {A} (f : handler Miner ProtoError A) : handler Running MineError A := λ s,
  match rn_miner s with
  | None => (s, Err NoCusfMainchainWalletClient)
  | Some miner =>
      let '(miner, r) := f miner in
      ({| s with rn_miner := Some miner |}, map_err MnMiner r)
  end.

(** What the mainchain task does for a request ([Submit.v]). *)
Abbreviation Ask := (BtcBlockHash → Archive → Archive * res MainTaskError bool).

(** ** [build_block_template], with its request *)

(** The archive after a request for the headers above the last known one. *)
Definition request_template_ancestors (ask : Ask) m : handler Running MineError (option Archive) :=
  node ← reads running_node;
  match tip (node_state node) with
  | None => done_with None
  | Some tip_hash =>
      _ ← returns (map_err (MnApp ∘ AppArchive) (get_header (node_archive node) tip_hash));
      match main_header_infos (node_archive node) !! m with
      | Some _ => done_with None
      | None =>
          known ← in_task (request_mainchain_ancestor_infos ask m);
          if known : bool then reads (λ s, Some (node_archive (running_node s)))
          else returns (Err (MnApp (AppRequestMainchainAncestorInfos m)))
      end
  end.

Definition block_template (srv : Validator) (ask : Ask) (fee : option Z) :
    handler Running MineError BlockTemplate :=
  chain_tip ← returns (map_err MnMainchainUnreachable (get_chain_tip srv));
  let prev_main_hash := info_block_hash chain_tip in
  requested ← request_template_ancestors ask prev_main_hash;
  in_app (build_block_template prev_main_hash requested fee).
Definition get_block_template (srv : Validator) (ask : Ask) :
    handler Running MineError BlockTemplate := block_template srv ask None.

(** ** [connect_block] and [mine] *)
Definition app_update : handler Running MineError () := in_app (awrite update).

Definition connect_block (ask : Ask) (propose : option (ProposeRequest → bool))
    (l1 : BlockHash → Swap → L1Answer) header body m : handler Running MineError bool :=
  accepted ← in_task (submit_block ask propose l1 m header body);
  _ ← (if accepted : bool then app_update else done_with ());
  done_with accepted.

(** [regenerate_proof] of the transaction that the user interface is building *)
Definition regenerate_own_proof : handler Running MineError () := λ s,
  match regenerate_proof (node_state (running_node s)) (rn_transaction s) with
  | Ok tx => ({| s with rn_transaction := tx |}, Ok ())
  | Err e => (s, Err (MnRegenerateProof e))
  | Panic => (s, Panic)
  end.

(** The services of the mainchain node during one call of [mine]. *)
Record MineServices := mkMineServices {
  ms_tip : Validator;
  ms_template_ask : Ask;
  ms_wallet : BmmTxRequest → option (option HashField);
  ms_events : Validator;
  ms_submit_ask : Ask;
  ms_propose : option (ProposeRequest → bool);
  ms_l1 : BlockHash → Swap → L1Answer;
}.

Definition mine (ms : MineServices) (fee : option Z) : handler Running MineError () :=
  miner ← reads rn_miner;
  match miner with
  | None => returns (Err NoCusfMainchainWalletClient)
  | Some _ =>
      template ← block_template (ms_tip ms) (ms_template_ask ms) fee;
      _ ← in_miner (attempt_bmm (ms_wallet ms) (tp_bribe template) 0
                      (tp_header template) (tp_body template));
      confirmed ← in_miner (confirm_bmm (ms_events ms));
      _ ← match confirmed with
          | Some (main_hash, header, body) =>
              accepted ← in_task
                (submit_block (ms_submit_ask ms) (ms_propose ms) (ms_l1 ms) main_hash header body);
              done_with ()
          | None => done_with ()
          end;
      _ ← app_update;
      regenerate_own_proof
  end.

(** ** The mainchain wallet *)

(** bitcoin: whether an address is of a network. *)
Context (is_valid_for_network : BtcAddress → Proto.Network → bool).

Definition get_new_main_address (srv : Validator) (wallet : option (list byte)) :
    handler Running MineError BtcAddress :=
  miner ← reads rn_miner;
  match miner with
  | None => returns (Err NoCusfMainchainWalletClient)
  | Some _ =>
      network ← returns (map_err MnCusfMainchain (get_chain_info srv));
      address ← returns (map_err MnCusfMainchain (create_new_address wallet));
      (* [require_network(..).unwrap()] *)
      if is_valid_for_network address network then done_with address else returns Panic
  end.

(** [None]: the mainchain node does not serve the wallet. *)
Definition deposit (wallet_client : option (DepositTxRequest → option (option HashField)))
    (address : Address) (amount fee : Z) : res MineError BtcTxid :=
  match wallet_client with
  | None => Err NoCusfMainchainWalletClient
  | Some wallet_client => map_err MnCusfMainchain (create_deposit_tx wallet_client address amount fee)
  end.
End Mining.

(** ** What comes of mining *)
Section MiningProps.
Context {T : ExtTypes} {X : ExtFuns} {W : ExtWork} {I : HashIter} {IL : HashIterLaws I}.
Context {P : ExtPeer} {N : ExtNet} {NI : NetIter} {E : ExtWallet}.
Context {C : ExtConsensus} {XT : ExtText}.
Implicit Types (s : Running) (ms : MineServices) (m : BtcBlockHash).

(** The state stays, and the address book well-formed. *)
Definition steady s s' : Prop :=
  node_state (running_node s') = node_state (running_node s) ∧
  (wallet_wf (rn_wallet s) → wallet_wf (rn_wallet s')).
#[local] Instance steady_preorder : PreOrder steady.
Proof. split; [by intros s|]. intros s1 s2 s3 [H1 H2] [H3 H4]. split; [congruence|auto]. Qed.

Lemma request_steady ask m : keeps steady (request_template_ancestors ask m).
Proof.
  apply keeps_bind; [apply _|apply keeps_reads, _|]. intros node.
  destruct (tip (node_state node)) as [t|]; [|apply keeps_done, _].
  apply keeps_bind; [apply _|apply keeps_returns, _|]. intros _.
  destruct (main_header_infos (node_archive node) !! m); [apply keeps_done, _|].
  apply keeps_bind; [apply _| |intros []; [apply keeps_reads, _|apply keeps_returns, _]].
  intros s. unfold in_task, request_mainchain_ancestor_infos.
  by destruct (ask m (task_archive (rn_task s))).
Qed.

Lemma get_transactions_state n node :
  node_state (get_transactions n node).1 = node_state node.
Proof. unfold get_transactions. by destruct (foldM _ _ _). Qed.

Lemma template_coinbase_wf fees : preserves wallet_wf (template_coinbase fees).
Proof.
  unfold template_coinbase. destruct (decide (fees = 0)); [apply preserves_ret|].
  apply preserves_bind; [apply get_receive_address_wf|intros a; apply preserves_ret].
Qed.

Lemma build_template_steady m requested fee :
  keeps steady (in_app (build_block_template m requested fee)).
Proof.
  intros s. unfold in_app, build_block_template.
  destruct (_ ≫= _) as [[ar prev]|e|]; [|done..].
  destruct (decide _); [|done]. cbn [node_state running_app app_node].
  set (node := mkNode ar _ _).
  assert (node_state node = node_state (running_node s)) as Hn by done.
  pose proof (get_transactions_state NUM_TRANSACTIONS node) as Hst. rewrite Hn in Hst.
  destruct (get_transactions NUM_TRANSACTIONS node) as [node' [[txs fees]|e2|]]; simpl in *;
    [|by split..].
  pose proof (template_coinbase_wf fees (rn_wallet s)) as Hw.
  by destruct (template_coinbase fees (rn_wallet s)) as [w [coinbase|e3|]].
Qed.

Lemma block_template_steady srv ask fee : keeps steady (block_template srv ask fee).
Proof.
  apply keeps_bind; [apply _|apply keeps_returns, _|]. intros info.
  apply keeps_bind; [apply _|apply request_steady|]. intros requested.
  apply build_template_steady.
Qed.

Lemma in_miner_steady {A} (f : handler Miner ProtoError A) : keeps steady (in_miner f).
Proof.
  intros s. unfold in_miner. destruct (rn_miner s) as [miner|]; [|done].
  by destruct (f miner) as [miner' r].
Qed.

Lemma update_steady s :
  ∃ s', app_update s = (s', Ok ()) ∧ steady s s' ∧ running_node s' = running_node s ∧
    rn_utxos s' = w_utxos (rn_wallet s') ∧ rn_miner s' = rn_miner s.
Proof.
  eexists. split; [done|]. split_and!; try done. split; [done|]. intros Hw.
  by apply spend_utxos_wf, wallet_wf_coins.
Qed.

(** The validator's next event is that the request is in the mainchain block [m]. *)
Definition announced ms (template : BlockTemplate) m : Prop :=
  ∃ info block_info, first_event (ms_events ms) = Ok (Some (ConnectBlock info block_info)) ∧
    info_block_hash info = m ∧
    bmm_commitment block_info = Some (header_hash (tp_header template)).

Lemma confirm_cases ms template s s' r :
  rn_miner s = Some (mkMiner (Some (tp_header template, tp_body template))) →
  in_miner (confirm_bmm (ms_events ms)) s = (s', r) →
  running_node s' = running_node s ∧
  match r with
  | Ok None => rn_miner s' = Some (mkMiner None)
  | Ok (Some (m, header, body)) => rn_miner s' = Some (mkMiner None) ∧
      header = tp_header template ∧ body = tp_body template ∧ announced ms template m
  | _ => True
  end.
Proof.
  unfold in_miner, confirm_bmm, reads, returns, changes, done_with, mbind, handler_bind.
  intros ->. simpl. unfold announced.
  destruct (first_event (ms_events ms)) as [[[info bi|h]|]|e|]; simpl;
    [case_bool_decide|..]; intros [= <- <-]; naive_solver.
Qed.

(** The transaction that the user is building has a proof for the accumulator. *)
Definition own_proof_fresh s : Prop :=
  forest_prove (get_accumulator (node_state (running_node s))) (inputs (rn_transaction s)).*2
  = Some (proof (rn_transaction s)).

(** The end of [mine]: the wallet is updated, and the own transaction proved again. *)
Lemma finish_mine s s' r :
  (_ ← app_update; regenerate_own_proof) s = (s', r) →
  steady s s' ∧ running_node s' = running_node s ∧
  (r = Ok () → rn_utxos s' = w_utxos (rn_wallet s') ∧ own_proof_fresh s' ∧
    rn_miner s' = rn_miner s).
Proof.
  destruct (update_steady s) as (s1 & Hup & Hst & Hn & Hu & Hm).
  unfold mbind, handler_bind. rewrite Hup. unfold regenerate_own_proof, regenerate_proof.
  destruct (forest_prove _ _) as [p|] eqn:Hp; simpl; intros [= <- <-]; [|done].
  split_and!; [exact Hst|exact Hn|]. intros _. done.
Qed.

(** What mining leaves: the state as it was, or a verdict on the block of the template
    in the mainchain block that was announced for it. *)
Definition mined ms fee s s' (r : res MineError ()) : Prop :=
  node_state (running_node s') = node_state (running_node s) ∨
  ∃ template s1 m ar r',
    block_template (ms_tip ms) (ms_template_ask ms) fee s = (s1, Ok template) ∧
    announced ms template m ∧
    tried (running_node s1) (mkTip (header_hash (tp_header template)) m) ar (running_node s') r' ∧
    (∀ e, r' = Err e → r = Err (MnSubmit e)).

Lemma submit_mined ms fee s s1 s2 s' r template m :
  block_template (ms_tip ms) (ms_template_ask ms) fee s = (s1, Ok template) →
  announced ms template m → running_node s2 = running_node s1 →
  (_ ← (accepted ← in_task (submit_block (ms_submit_ask ms) (ms_propose ms) (ms_l1 ms) m
                              (tp_header template) (tp_body template));
        done_with ());
   _ ← app_update; regenerate_own_proof) s2 = (s', r) →
  mined ms fee s s' r ∧
  (wallet_wf (rn_wallet s2) → wallet_wf (rn_wallet s')) ∧
  (r = Ok () → rn_utxos s' = w_utxos (rn_wallet s') ∧ own_proof_fresh s' ∧
    rn_miner s' = rn_miner s2).
Proof.
  intros Ht Hann Hn. unfold mbind at 1, handler_bind at 1.
  unfold mbind at 1, handler_bind at 1, in_task.
  destruct (submit_block _ _ _ _ _ _ (rn_task s2)) as [t sub] eqn:Hsub.
  apply submit_block_outcome in Hsub.
  assert (∀ s3 r3, running_node s3 = nt_node t → (∀ e, sub = Err e → r3 = Err (MnSubmit e)) →
    mined ms fee s s3 r3) as Hmined.
  { intros s3 r3 Hs3 He. destruct Hsub as [(Hs & _ & _)|[ar Htr]].
    - left. rewrite Hs3, Hs. fold (running_node s2). rewrite Hn.
      pose proof (block_template_steady (ms_tip ms) (ms_template_ask ms) fee s) as [Hst _].
      by rewrite Ht in Hst.
    - right. exists template, s1, m, ar, sub. split_and!; [done|done| |done].
      rewrite Hs3, <-Hn. exact Htr. }
  destruct sub as [acc|e|]; simpl.
  - intros Hf. destruct (finish_mine _ _ _ Hf) as ([_ Hw] & Hn' & Hok). split_and!; [|exact Hw|exact Hok].
    apply Hmined; [by rewrite Hn'|done].
  - intros [= <- <-]. split_and!; [apply Hmined; [done|by intros ? [= ->]]|done|done].
  - intros [= <- <-]. split_and!; [by apply Hmined|done|done].
Qed.

(** C8: Mining changes the state only by submitting the block of the template that was
    built for the call, in a mainchain block that the validator announced with its
    request, and submitting judges it ([submit_block_outcome]): it becomes the tip only
    with a verified request and if it is better than the old tip.  Otherwise the state
    is as it was.  The address book stays well-formed; and when mining reports no
    error the coins are those of the wallet, the miner holds no block any more, and the
    transaction that the user is building has a fresh proof. *)
Theorem mine_outcome ms fee s s' r :
  mine ms fee s = (s', r) →
  mined ms fee s s' r ∧
  (wallet_wf (rn_wallet s) → wallet_wf (rn_wallet s')) ∧
  (r = Ok () → rn_utxos s' = w_utxos (rn_wallet s') ∧ own_proof_fresh s' ∧
    rn_miner s' = Some (mkMiner None)).
Proof.
  unfold mine, reads. unfold mbind at 1, handler_bind at 1.
  destruct (rn_miner s) as [miner|] eqn:Hm; [|intros [= <- <-]; split_and!; [by left|done|done]].
  pose proof (block_template_steady (ms_tip ms) (ms_template_ask ms) fee s) as Hst.
  unfold mbind at 1, handler_bind at 1.
  destruct (block_template _ _ fee s) as [s1 [template|e|]] eqn:Ht; cbn [fst] in Hst;
    [|intros [= <- <-]; destruct Hst; split_and!; [by left|done|done]..].
  unfold mbind at 1, handler_bind at 1.
  match goal with |- context [in_miner (attempt_bmm ?w ?a 0 ?h ?b) s1] =>
    pose proof (in_miner_steady (attempt_bmm w a 0 h b) s1) as Hst1;
    destruct (in_miner (attempt_bmm w a 0 h b) s1) as [s2 [txid|e|]] eqn:Hat; cbn [fst] in Hst1
  end.
  2-3: intros [= <- <-]; assert (steady s s2) as [Hs Hw] by (by etrans);
    split_and!; [by left|done|done].
  assert (running_node s2 = running_node s1 ∧
    rn_miner s2 = Some (mkMiner (Some (tp_header template, tp_body template)))) as [Hn2 Hm2].
  { unfold in_miner, attempt_bmm, returns, changes, done_with, mbind, handler_bind in Hat.
    destruct (rn_miner s1); [|done]. destruct (create_bmm_critical_data_tx _ _ _ _ _); by simplify_eq/=. }
  assert (steady s s2) as [Hs2 Hw2] by (by etrans).
  unfold mbind at 1, handler_bind at 1.
  pose proof (in_miner_steady (confirm_bmm (ms_events ms)) s2) as Hst2.
  destruct (in_miner (confirm_bmm (ms_events ms)) s2) as [s3 c] eqn:Hc. cbn [fst] in Hst2.
  assert (steady s s3) as [Hs3 Hw3] by (by etrans; [split; [exact Hs2|exact Hw2]|]).
  destruct (confirm_cases _ _ _ _ _ Hm2 Hc) as [Hn3 Hcase].
  destruct c as [[[[m header] body]|]|e|];
    [destruct Hcase as (Hm3 & -> & -> & Hann)|
    |intros [= <- <-]; split_and!; [by left|done|done]..].
  - intros Hf. destruct (submit_mined ms fee s s1 s3 s' r template m) as (Hmined & Hw & Hok);
      [exact Ht|exact Hann|congruence| |].
    { exact Hf. }
    split_and!; [exact Hmined|by auto|]. intros Hr. destruct (Hok Hr) as (? & ? & Hm').
    by rewrite Hm', Hm3.
  - intros Hf. destruct (finish_mine _ _ _ Hf) as ([Hs Hw] & _ & Hok).
    split_and!; [left; congruence|by auto|]. intros Hr. destruct (Hok Hr) as (? & ? & Hm').
    by rewrite Hm', Hcase.
Qed.
End MiningProps.
