(* ===== verification/AppSend.v ===== *)
(** Signing and sending (lib/wallet/mod.rs, app/app.rs, lib/node/mod.rs): a transaction
    that spends coins of the wallet by the rules is signed, validated and put into the
    mempool. *)
From S2P Require Import Prelude Bytes SwapTypes TxTypes Externals Accumulator.
From S2P Require Import BlockTypes Rollback Bundle StateDb SwapRules Auth Block.
From S2P Require Import BlockSpec BlockConnect Ledger Value Commitment.
From S2P Require Import Peg Monitor Mempool Ancestry SideTips Archive ArchiveWrites.
From S2P Require Import ArchiveIter BetterTip Node Wallet WalletTx WalletProps.
From S2P Require Import WalletCoins Template App.

(** Stored leaves can be proved, and the proof verifies. *)
Class ProofLaws {T : ExtTypes} (X : ExtFuns) {F : ForestLaws X} := {
  forest_prove_leaves f hs : (∀ h, h ∈ hs → h ∈ leaves f) →
    ∃ p, forest_prove f hs = Some p ∧ forest_verify f p hs = Some true;
}.

(** A loop that adds up values that do not overflow. *)
Lemma sum_loop_ok {E A} (f : A → Z) (chk : A → res E ()) (e : E) (l : list A) a :
  (∀ x, x ∈ l → chk x = Ok () ∧ 0 ≤ f x) → a + sumZ f l ≤ u64_MAX →
  foldM (λ acc x, _ ← chk x; ok_or (u64_checked_add acc (f x)) e) a l = Ok (a + sumZ f l).
Proof.
  revert a; induction l as [|x l IH]; intros a Hl Hmax; simpl in *.
  { by rewrite Z.add_0_r. }
  destruct (Hl x) as [-> Hx]; [by left|].
  assert (0 ≤ sumZ f l) by (apply sumZ_nonneg; intros y Hy; apply Hl; by right).
  simpl. rewrite (proj2 (u64_checked_add_Some a (f x) (a + f x))) by (split; [done|lia]).
  simpl. rewrite IH; [f_equal; lia| |lia]. intros y Hy. apply Hl. by right.
Qed.

Section AppSend.
Context {T : ExtTypes} {X : ExtFuns} {W : ExtWork} {I : HashIter} {E : ExtWallet}.
Context {F : ForestLaws X} {P : ProofLaws X} {BL : BatchLaws X} {L : WalletLaws E}.
Implicit Types (app : App) (tx : Transaction) (w : Wallet) (st : State) (node : Node).

Lemma wm_bind_ok {A B} (m : WM A) (f : A → WM B) w w' a :
  m w = (w', Ok a) → (m ≫= f) w = f a w'.
Proof. intros Hm. unfold mbind, WM_bind. by rewrite Hm. Qed.
Lemma am_bind_ok {A B} (m : AM A) (f : A → AM B) app app' a :
  m app = (app', Ok a) → (m ≫= f) app = f a app'.
Proof. intros Hm. unfold mbind, AM_bind. by rewrite Hm. Qed.
Lemma wlift_ok {A} (m : res WalletError A) w a : m = Ok a → wlift m w = (w, Ok a).
Proof. by intros ->. Qed.
Lemma wread_ok {A} (f : Wallet → res WalletError A) w a : f w = Ok a → wread f w = (w, Ok a).
Proof. unfold wread. by intros ->. Qed.
Lemma in_wallet_ok {A} (m : WM A) app w a :
  m (app_wallet app) = (w, Ok a) → in_wallet m app = ({| app with app_wallet := w |}, Ok a).
Proof. intros Hm. unfold in_wallet. by rewrite Hm. Qed.
Lemma in_node_ok {A} (m : Node → Node * res NodeError A) app node a :
  m (app_node app) = (node, Ok a) → in_node m app = ({| app with app_node := node |}, Ok a).
Proof. intros Hm. unfold in_node. by rewrite Hm. Qed.

(** ** Signing *)

(** The seed derives at every index. *)
Definition keys_total w : Prop := ∀ i, is_u32 i → ∃ key, get_signing_key i w = Ok key.

(** The pending outputs that a claim spends need no signature of their owner. *)
Definition claims tx (out : Output) : bool :=
  is_swap_claim (data tx) && is_swap_pending (content out).

(** A transaction that spends unspent outputs, each once, that the wallet holds; they are
    its own, or a swap that is being claimed. *)
Record spends st w tx : Prop := {
  sp_nodup : NoDup (inputs tx).*1;
  sp_input i : i ∈ inputs tx → ∃ out,
    utxos st !! i.1 = Some out ∧ w_utxos w !! i.1 = Some out ∧
    i.2 = hash_pointed i.1 out ∧ output_wf out ∧ is_withdrawal (content out) = false ∧
    (has_address (address out) w = true ∨ claims tx out = true);
}.

Definition signed tx (au : Authorization) : Prop := ∃ rng key,
  verifying_key au = verifying_key_of key ∧
  signature au = (frost_sign rng key (canonical_encoding tx)).1.

Lemma sign_tx_signed rng key tx :
  signed tx (sign_tx rng key tx).1 ∧ auth_address (sign_tx rng key tx).1 = key_address key.
Proof.
  unfold sign_tx, sign, signed, auth_address, key_address.
  destruct (frost_sign rng key (canonical_encoding tx)) as [sig rng'] eqn:Hs. simpl.
  split; [|done]. exists rng, key. by rewrite Hs.
Qed.

Lemma has_address_key w a : wallet_wf w → has_address a w = true →
  ∃ i key, address_to_index w !! a = Some i ∧
    get_signing_key (read_be_u32 i) w = Ok key ∧ key_address key = a.
Proof.
  intros Hw Ha. unfold has_address in Ha.
  destruct (address_to_index w !! a) as [i|] eqn:Hi; [|done].
  destruct (ww_derived _ Hw _ _ (ww_index _ Hw _ _ Hi)) as (s & Hs & Hd).
  unfold derive_address_for_index in Hd. apply bind_Ok_inv in Hd as (key & Hk & [= <-]).
  exists i, key. split_and!; [done| |done]. unfold get_signing_key. by rewrite Hs.
Qed.

Lemma authorize_input_ok st w tx i rng fuel :
  wallet_wf w → keys_total w → spends st w tx → i ∈ inputs tx →
  ∃ au rng' out, authorize_input (S fuel) tx i.1 rng w = (w, Ok (au, rng')) ∧ signed tx au ∧
    utxos st !! i.1 = Some out ∧ (claims tx out = true ∨ auth_address au = address out).
Proof.
  intros Hw Hk Hsp Hi. destruct (sp_input _ _ _ Hsp i Hi) as (out & Hu & Hwu & _ & _ & _ & Ha).
  assert (∃ key, (claims tx out = true ∨ key_address key = address out) ∧
    authorize_input (S fuel) tx i.1 rng w = (w, Ok (sign_tx rng key tx))) as (key & Hkey & Heq).
  { cbn [authorize_input]. unfold mbind, WM_bind, wread. rewrite Hwu. cbn [ok_or].
    destruct (address_to_index w !! address out) as [idx|] eqn:Hidx.
    - destruct (has_address_key w (address out)) as (i' & key & Hi' & Hg & Hka); [done|..].
      { unfold has_address. by rewrite Hidx. }
      exists key. simplify_eq. split; [by right|]. by rewrite Hg.
    - destruct Ha as [Ha|Ha]; [unfold has_address in Ha; by rewrite Hidx in Ha|].
      destruct (Hk 0) as (key & Hg); [by vm_compute|]. exists key. split; [by left|].
      unfold claims in Ha. rewrite Ha, Hg. done. }
  destruct (sign_tx_signed rng key tx) as [Hs Haa].
  destruct (sign_tx rng key tx) as [au rng'] eqn:Hst. exists au, rng', out.
  split; [done|]. split; [done|]. split; [done|].
  destruct Hkey as [?|Hka]; [by left|right]. simpl in Haa. by rewrite Haa.
Qed.

(** What signing gives for each input. *)
Definition authorized_input st tx (i : OutPoint * Hash) (au : Authorization) : Prop :=
  signed tx au ∧ ∃ out, utxos st !! i.1 = Some out ∧
    (claims tx out = true ∨ auth_address au = address out).

Lemma authorize_inputs_ok st w tx l rng :
  wallet_wf w → keys_total w → spends st w tx → (∀ i, i ∈ l → i ∈ inputs tx) →
  ∃ auths, authorize_inputs tx l.*1 rng w = (w, Ok auths) ∧
    Forall2 (authorized_input st tx) l auths.
Proof.
  intros Hw Hk Hsp. revert rng; induction l as [|i l IH]; intros rng Hl.
  { exists []. split; [done|constructor]. }
  destruct (authorize_input_ok st w tx i rng 1 Hw Hk Hsp) as (au & rng' & out & Heq & Hs & Hu & Ho).
  { apply Hl. by left. }
  destruct (IH rng') as (auths & Heqs & Hall). { intros j Hj. apply Hl. by right. }
  exists (au :: auths). split; [|constructor; [split; [done|by exists out]|done]].
  change ((i :: l).*1) with (i.1 :: l.*1). cbn [authorize_inputs].
  rewrite (wm_bind_ok _ _ _ _ _ Heq). by rewrite (wm_bind_ok _ _ _ _ _ Heqs).
Qed.

Lemma authorize_ok st w tx rng :
  wallet_wf w → keys_total w → spends st w tx →
  ∃ auths, authorize rng tx w = (w, Ok (mkAuthorized tx auths)) ∧
    Forall2 (authorized_input st tx) (inputs tx) auths.
Proof.
  intros Hw Hk Hsp. destruct (authorize_inputs_ok st w tx (inputs tx) rng) as (auths & Heq & Hall);
    [done..|]. exists auths. split; [|done].
  unfold authorize, mbind, WM_bind. by rewrite Heq.
Qed.

(** ** Validation *)

(** The rules of the swap that a transaction is about, as the mempool checks them. *)
Definition swap_rules st tx ftx : res Error () :=
  match data tx with
  | SwapCreate _ _ _ _ _ _ _ _ => validate_swap_create st tx ftx
  | SwapClaim _ _ _ => validate_swap_claim st tx ftx
  | SwapAccept _ _ => validate_swap_accept st tx ftx
  | RegularTx => validate_no_locked_outputs st tx
  end.

Lemma spends_filled st w tx : spends st w tx →
  ∃ spent, fill_transaction st tx = Ok (mkFilled tx spent) ∧
    Forall2 (λ i out, utxos st !! i.1 = Some out ∧ i.2 = hash_pointed i.1 out ∧
      output_wf out ∧ is_withdrawal (content out) = false) (inputs tx) spent.
Proof.
  intros Hsp. pose proof (sp_input _ _ _ Hsp) as Hin. unfold fill_transaction. clear Hsp.
  induction (inputs tx) as [|i l IH]; [exists []; split; [done|constructor]|].
  destruct (Hin i) as (out & Hu & _ & Hh & Hwf & Hwd & _); [by left|].
  destruct IH as (spent & Hf & Hall); [intros j Hj; apply Hin; by right|].
  apply bind_Ok_inv in Hf as (l' & Hm & [= ->]).
  exists (out :: spent). cbn [mapM_res]. rewrite Hu. cbn [ok_or]. rewrite bind_Ok, Hm, !bind_Ok.
  split; [done|]. by constructor.
Qed.

Lemma filled_fee tx spent :
  Forall2 (λ i out, i.2 = hash_pointed i.1 out ∧ output_wf out ∧
    is_withdrawal (content out) = false) (inputs tx) spent →
  sumZ get_value spent ≤ u64_MAX → Forall output_wf (outputs tx) →
  sumZ get_value (outputs tx) ≤ sumZ get_value spent →
  validate_filled_transaction (mkFilled tx spent)
  = Ok (sumZ get_value spent - sumZ get_value (outputs tx)).
Proof.
  intros Hall Hmax Hwf Hle. unfold validate_filled_transaction.
  assert (validate_utxo_hashes (mkFilled tx spent) = Ok ()) as ->.
  { apply foldM_unit. intros [[o h] out] Hin. apply ensure_Ok, bool_decide_eq_true.
    apply list_elem_of_lookup in Hin as (k & Hk).
    apply lookup_zip_with_Some in Hk as (i & out' & [= Hi <-] & Hki & Hko). subst i.
    by destruct (Forall2_lookup_lr _ _ _ _ _ _ Hall Hki Hko) as [? _]. }
  rewrite bind_Ok. cbn [spent_utxos transaction].
  rewrite (sum_loop_ok get_value (λ utxo, ensure (negb (is_withdrawal (content utxo)))
    SpendWithdrawalOutput)).
  2:{ intros out Hout. apply list_elem_of_lookup in Hout as (k & Hk).
      destruct (Forall2_lookup_r _ _ _ _ _ Hall Hk) as (i & _ & _ & Hw & ->).
      split; [done|]. by apply get_value_range. }
  2:{ by rewrite Z.add_0_l. }
  rewrite bind_Ok, Z.add_0_l.
  pose proof (sum_loop_ok get_value (λ _, Ok ()) AmountOverflow (outputs tx) 0) as Hsum.
  cbn [mbind res_bind] in Hsum. rewrite Hsum.
  - rewrite bind_Ok, Z.add_0_l, (proj2 (Z.ltb_ge _ _)) by lia. simpl.
    by rewrite (proj2 (u64_checked_sub_Some _ _ _) (conj eq_refl Hle)).
  - intros out Hout. split; [done|]. rewrite Forall_forall in Hwf.
    by apply get_value_range, Hwf.
  - lia.
Qed.

Lemma owners_checked st tx spent auths :
  Forall2 (λ i out, utxos st !! i.1 = Some out) (inputs tx) spent →
  Forall2 (authorized_input st tx) (inputs tx) auths →
  check_tx_owners tx auths spent = Ok ().
Proof.
  intros Hsp Hau. apply foldM_unit. intros [au out] Hin. simpl.
  apply list_elem_of_lookup in Hin as (k & Hk).
  apply lookup_zip_with_Some in Hk as (au' & out' & [= <- <-] & Ha & Ho).
  destruct (Forall2_lookup_r _ _ _ _ _ Hau Ha) as (i & Hi & _ & out1 & Hu & Hc).
  pose proof (Forall2_lookup_lr _ _ _ _ _ _ Hsp Hi Ho) as Hu'. simpl in Hu'. simplify_eq.
  unfold claims in Hc. destruct (_ && _); [done|].
  destruct Hc as [|Hc]; [done|]. rewrite Hc. by rewrite bool_decide_true.
Qed.

Lemma signatures_verify st tx auths :
  Forall2 (authorized_input st tx) (inputs tx) auths →
  verify_authorized_transaction (mkAuthorized tx auths) = Ok ().
Proof.
  intros Hall. apply verify_transaction_Ok.
  split; [by rewrite (Forall2_length _ _ _ Hall)|]. apply Forall_forall. intros au Hau.
  apply list_elem_of_lookup in Hau as (k & Hk).
  destruct (Forall2_lookup_r _ _ _ _ _ Hall Hk) as (i & _ & (rng & key & Hvk & Hs) & _).
  unfold auth_valid. simpl. rewrite Hvk, Hs. apply signed_valid.
Qed.

(** What is signed with a key per input verifies. *)
Lemma authorize_with_verifies rng keys tx at_ :
  authorize_with rng keys tx = Ok at_ → length keys = length (inputs tx) →
  verify_authorized_transaction at_ = Ok ().
Proof.
  unfold authorize_with. intros Ha Hl. apply bind_Ok_inv in Ha as (auths & Ha & [= <-]).
  apply verify_transaction_Ok. rewrite <-Hl. clear Hl. revert rng auths Ha.
  induction keys as [|[a key] keys IH]; intros rng auths Ha; simpl in Ha; [by simplify_eq|].
  apply bind_Ok_inv in Ha as ([] & _ & Ha).
  pose proof (sign_tx_signed rng key tx) as [(r & k & Hvk & Hs) _].
  destruct (sign_tx rng key tx) as [au rng']. apply bind_Ok_inv in Ha as (auths' & Ha & [= <-]).
  destruct (IH _ _ Ha) as [Hl Hall]. split; [simpl; by rewrite Hl|].
  constructor; [|done]. unfold auth_valid. simpl in *. rewrite Hvk, Hs. apply signed_valid.
Qed.

(** A transaction ready to be signed: its coins, the rule of its kind, its amounts. *)
Record ready st w tx (fee : Z) : Prop := {
  rd_spends : spends st w tx;
  rd_rules spent : fill_transaction st tx = Ok (mkFilled tx spent) →
    swap_rules st tx (mkFilled tx spent) = Ok () ∧
    sumZ get_value spent = sumZ get_value (outputs tx) + fee ∧
    sumZ get_value spent ≤ u64_MAX;
  rd_outputs : Forall output_wf (outputs tx);
  rd_fee : 0 ≤ fee;
  rd_proof : forest_prove (get_accumulator st) (inputs tx).*2 = Some (proof tx);
}.

Lemma ready_validates st w tx fee auths :
  ready st w tx fee → Forall2 (authorized_input st tx) (inputs tx) auths →
  validate_transaction st (mkAuthorized tx auths) = Ok fee.
Proof.
  intros Hr Hau. destruct (spends_filled _ _ _ (rd_spends _ _ _ _ Hr)) as (spent & Hf & Hall).
  destruct (rd_rules _ _ _ _ Hr _ Hf) as (Hrule & Hsum & Hmax).
  unfold validate_transaction. cbn [authorized_tx authorizations]. rewrite Hf, bind_Ok.
  fold (swap_rules st tx (mkFilled tx spent)). rewrite Hrule, bind_Ok. cbn [spent_utxos].
  rewrite (owners_checked st), bind_Ok; [|eapply Forall2_impl; [exact Hall|naive_solver]|done].
  rewrite (signatures_verify st) by done. cbn [is_ok ensure]. rewrite bind_Ok.
  pose proof (rd_fee _ _ _ _ Hr).
  rewrite filled_fee; [f_equal; lia| |done|by apply Hr|lia].
  eapply Forall2_impl; [exact Hall|]. naive_solver.
Qed.

(** ** Sending *)

(** No transaction of the pool spends an input of [tx]. *)
Definition pool_free (mp : MemPool) tx : Prop :=
  ∀ o, o ∈ (inputs tx).*1 → mp_spent_utxos mp !! o = None.

(** [tx] has entered the mempool, signed and valid with that fee; nothing else of the
    node changed. *)
Definition sent node tx (fee : Z) node' : Prop := ∃ auths,
  validate_transaction (node_state node) (mkAuthorized tx auths) = Ok fee ∧
  mp_transactions (node_mempool node')
  = <[txid tx := mkAuthorized tx auths]> (mp_transactions (node_mempool node)) ∧
  node_state node' = node_state node ∧ node_archive node' = node_archive node.

#[export] Instance pool_free_dec mp tx : Decision (pool_free mp tx).
Proof.
  destruct (decide (Forall (λ o, mp_spent_utxos mp !! o = None) (inputs tx).*1)) as [H|H];
    rewrite Forall_forall in H; [by left|by right].
Defined.

(** What comes of sending [tx], with the result [v] if it is sent: it enters the mempool
    if no transaction there spends one of its coins, and otherwise it is refused and
    the node is as before. *)
Definition sent_or_refused {A} node tx (fee : Z) (v : A) (out : App * res AppError A) : Prop :=
  if decide (pool_free (node_mempool node) tx)
  then out.2 = Ok v ∧ sent node tx fee (app_node out.1)
  else out.2 = Err (AppNode (MemPoolErr MemPoolDoubleSpent)) ∧ app_node out.1 = node.

Lemma put_spent at_ mp : ¬ pool_free mp (tx_of at_) → put at_ mp = Err MemPoolDoubleSpent.
Proof.
  intros Hno. unfold put.
  destruct (put_inputs_not_panic (txid (tx_of at_)) (inputs (tx_of at_)) mp)
    as [->|[mp' Hmp]]; [done|]. destruct Hno. intros o Ho.
  apply put_inputs_Ok in Hmp as (_ & _ & Hin & _). by apply Hin.
Qed.

Lemma submit_cases node w tx fee auths :
  ready (node_state node) w tx fee →
  Forall2 (authorized_input (node_state node) tx) (inputs tx) auths →
  if decide (pool_free (node_mempool node) tx)
  then ∃ node', submit_transaction (mkAuthorized tx auths) node = (node', Ok ()) ∧
         sent node tx fee node'
  else submit_transaction (mkAuthorized tx auths) node
       = (node, Err (MemPoolErr MemPoolDoubleSpent)).
Proof.
  intros Hr Hau. pose proof (ready_validates _ _ _ _ _ Hr Hau) as Hv.
  assert (regenerate_proof (node_state node) tx = Ok tx) as Hreg.
  { unfold regenerate_proof. rewrite (rd_proof _ _ _ _ Hr). by destruct tx. }
  unfold submit_transaction. cbn [authorized_tx authorizations]. rewrite Hreg, Hv.
  unfold put_in_pool. destruct (decide (pool_free (node_mempool node) tx)) as [Hfree|Hno].
  - destruct (put_inputs_succeeds (txid tx) (inputs tx) (node_mempool node)) as (mp & Hmp);
      [apply Hr|done|].
    pose proof (put_inputs_Ok _ _ _ _ Hmp) as (Htxs & _).
    unfold put, tx_of. cbn [authorized_tx]. rewrite Hmp.
    eexists. split; [done|]. exists auths. split; [done|]. simpl. by rewrite Htxs.
  - by rewrite put_spent.
Qed.

Lemma sign_and_send_cases rng tx fee app :
  wallet_wf (app_wallet app) → keys_total (app_wallet app) →
  ready (app_state app) (app_wallet app) tx fee →
  sent_or_refused (app_node app) tx fee () (sign_and_send rng tx app).
Proof.
  intros Hw Hk Hr.
  destruct (authorize_ok _ _ _ rng Hw Hk (rd_spends _ _ _ _ Hr)) as (auths & Hau & Hall).
  destruct app as [node w us ids]. simpl in *.
  pose proof (submit_cases node w tx fee auths Hr Hall) as Hsub. unfold sent_or_refused.
  unfold sign_and_send, mbind, AM_bind, in_wallet, in_node. simpl. rewrite Hau. simpl.
  destruct (decide (pool_free (node_mempool node) tx)).
  - destruct Hsub as (node' & -> & Hsent). by split.
  - by rewrite Hsub.
Qed.

(** What follows the sending and leaves the node alone. *)
Lemma sent_or_refused_bind {A B} node tx fee (v : B) (m : AM A) (k : A → AM B) a app :
  sent_or_refused node tx fee a (m app) →
  (∀ app', (k a app').2 = Ok v ∧ app_node (k a app').1 = app_node app') →
  sent_or_refused node tx fee v ((m ≫= k) app).
Proof.
  unfold sent_or_refused, mbind, AM_bind. intros Hm Hk.
  destruct (m app) as [app' r]. simpl in Hm. destruct (decide _).
  - destruct Hm as [-> Hsent]. destruct (Hk app') as [-> ->]. by split.
  - by destruct Hm as [-> Hn].
Qed.
End AppSend.

(** ** Every call keeps the address book well-formed, whatever comes of it *)
Section AddressBook.
Context {T : ExtTypes} {X : ExtFuns} {W : ExtWork} {I : HashIter} {E : ExtWallet}.

Definition keeps_book {A} (m : AM A) : Prop := ∀ app,
  wallet_wf (app_wallet app) → wallet_wf (app_wallet (m app).1).

Lemma book_ret {A} (a : A) : keeps_book (mret a).
Proof. by intros app. Qed.
Lemma book_lift {A} (m : res AppError A) : keeps_book (alift m).
Proof. by intros app. Qed.
Lemma book_bind {A B} (m : AM A) (f : A → AM B) :
  keeps_book m → (∀ a, keeps_book (f a)) → keeps_book (m ≫= f).
Proof.
  intros Hm Hf app Hw. unfold mbind, AM_bind. specialize (Hm app Hw).
  destruct (m app) as [app' [a|e|]]; simpl in *; [by apply Hf|done|done].
Qed.
Lemma book_in_wallet {A} (m : WM A) : preserves wallet_wf m → keeps_book (in_wallet m).
Proof.
  intros Hm app Hw. unfold in_wallet. specialize (Hm (app_wallet app) Hw).
  by destruct (m (app_wallet app)).
Qed.
Lemma book_in_node {A} (m : Node → Node * res NodeError A) : keeps_book (in_node m).
Proof. intros app Hw. unfold in_node. by destruct (m (app_node app)). Qed.
Lemma book_in_state f : keeps_book (in_state f).
Proof. intros app Hw. unfold in_state. by destruct (f (app_state app)). Qed.
Lemma book_update : keeps_book (awrite update).
Proof. intros app Hw. by apply spend_utxos_wf, wallet_wf_coins. Qed.
Lemma book_build {A} (m : MemForest → (OutPoint → bool) → WM A) :
  (∀ acc l, preserves wallet_wf (m acc l)) → keeps_book (build_tx m).
Proof. intros Hm app. apply book_in_wallet, Hm. Qed.

Lemma book_send rng tx : keeps_book (sign_and_send rng tx).
Proof.
  apply book_bind; [apply book_in_wallet, authorize_wf|]. intros at_.
  apply book_bind; [apply book_in_node|]. intros _. apply book_update.
Qed.

(** A call that builds and sends. *)
Lemma book_build_send {A B} (m : MemForest → (OutPoint → bool) → WM A) rng
    (tx_of : A → Transaction) (rest : A → AM B) :
  (∀ acc l, preserves wallet_wf (m acc l)) → (∀ a, keeps_book (rest a)) →
  keeps_book (a ← build_tx m; _ ← sign_and_send rng (tx_of a); rest a).
Proof.
  intros Hm Hr. apply book_bind; [by apply book_build|]. intros a.
  apply book_bind; [apply book_send|]. intros _. apply Hr.
Qed.

Lemma transfer_many_book rng dests fee : keeps_book (transfer_many rng dests fee).
Proof.
  apply (book_build_send _ rng id); [intros; apply create_transaction_many_wf|].
  intros tx. apply book_ret.
Qed.
Lemma transfer_book rng dest v fee : keeps_book (transfer rng dest v fee).
Proof.
  apply (book_build_send _ rng id); [intros; apply create_transaction_many_wf|].
  intros tx. apply book_ret.
Qed.
Lemma withdraw_book rng ma v fee mfee : keeps_book (withdraw rng ma v fee mfee).
Proof.
  apply (book_build_send _ rng id); [intros; apply create_withdrawal_wf|].
  intros tx. apply book_ret.
Qed.
Lemma accept_swap_book rng id c fee : keeps_book (accept_swap rng id c fee).
Proof.
  apply (book_build_send _ rng (λ tx, tx)); [intros; apply create_swap_accept_wf|].
  intros tx. apply book_ret.
Qed.
Lemma create_swap_book rng pc a v r v2 n fee : keeps_book (create_swap rng pc a v r v2 n fee).
Proof.
  apply book_bind; [apply book_build; intros; apply create_swap_create_wf|]. intros [tx id].
  apply book_bind; [apply book_send|]. intros _. by intros app.
Qed.
Lemma claim_swap_book rng id c : keeps_book (claim_swap rng id c).
Proof.
  intros app Hw. unfold claim_swap. revert app Hw.
  enough (∀ app0, keeps_book (
    checked ← alift (claim_checks id c (app_state app0));
    let '(swap, locked_outputs, recipient) := checked in
    _ ← in_wallet (wwrite (put_utxos_w (list_to_map locked_outputs)));
    let l2_claimer_for_tx := match l2_recipient swap with None => Some recipient | Some _ => None end in
    tx ← build_tx (λ acc _, create_swap_claim_tx acc id recipient locked_outputs l2_claimer_for_tx);
    _ ← sign_and_send rng tx; mret (txid tx))) as H by (intros app; apply (H app)).
  intros app0. apply book_bind; [apply book_lift|]. intros [[swap outs] recipient].
  apply book_bind; [by apply book_in_wallet, preserves_write; intros w; apply wallet_wf_coins|].
  intros _. apply (book_build_send _ rng (λ tx, tx)); [intros; apply create_swap_claim_wf|].
  intros tx. apply book_ret.
Qed.
End AddressBook.
