(* ===== verification/AppProps.v ===== *)
(** What the calls of the application achieve (app/rpc_server.rs): with enough coins a
    payment, a new swap, an acceptance or a claim is built, signed and accepted. *)
From S2P Require Import Prelude Bytes SwapTypes TxTypes Externals Accumulator.
From S2P Require Import BlockTypes Rollback Bundle StateDb SwapRules Auth Block.
From S2P Require Import BlockSpec BlockConnect Ledger Value Commitment.
From S2P Require Import Peg Monitor Mempool Ancestry SideTips Archive ArchiveWrites.
From S2P Require Import ArchiveIter BetterTip Node Wallet WalletTx WalletProps.
From S2P Require Import WalletCoins Template App AppSend.

Section AppProps.
Context {T : ExtTypes} {X : ExtFuns} {W : ExtWork} {I : HashIter} {E : ExtWallet}.
Context {F : ForestLaws X} {P : ProofLaws X} {BL : BatchLaws X} {L : WalletLaws E}.
Implicit Types (app : App) (tx : Transaction) (w : Wallet) (st : State) (node : Node).
Implicit Types (coins : list (OutPoint * Output)).

(** ** New addresses keep what the wallet had *)
Record grows w w' : Prop := {
  gr_seed : seed w' = seed w;
  gr_utxos : w_utxos w' = w_utxos w;
  gr_address a : has_address a w = true → has_address a w' = true;
  gr_wf : wallet_wf w → wallet_wf w';
}.

Lemma grows_refl w : grows w w.
Proof. by split. Qed.
Lemma grows_trans w1 w2 w3 : grows w1 w2 → grows w2 w3 → grows w1 w3.
Proof. intros [] []. split; [congruence..|auto|auto]. Qed.

Lemma keys_total_grows w w' : grows w w' → keys_total w → keys_total w'.
Proof.
  intros Hg Hk i Hi. destruct (Hk i Hi) as (key & H). exists key.
  unfold get_signing_key in *. by rewrite (gr_seed _ _ Hg).
Qed.

Lemma get_new_address_ok w : keys_total w →
  ∃ w' a, get_new_address w = (w', Ok a) ∧ grows w w'.
Proof.
  intros Hk. destruct (Hk (next_index w) (next_index_range w)) as (key & Hkey).
  unfold get_new_address. rewrite Hkey.
  eexists _, _. split; [done|]. split; [done|done| |].
  - intros a. unfold has_address. destruct w. simpl.
    destruct (decide (a = key_address key)) as [->|Hne]; [by rewrite lookup_insert_eq|].
    by rewrite lookup_insert_ne.
  - intros Hw. pose proof (get_new_address_wf w Hw) as H. unfold get_new_address in H.
    by rewrite Hkey in H.
Qed.

(** ** Coins that can be spent *)
Record good_coins (claim : bool) st w coins : Prop := {
  gc_nodup : NoDup coins.*1;
  gc_coin p : p ∈ coins →
    utxos st !! p.1 = Some p.2 ∧ w_utxos w !! p.1 = Some p.2 ∧ output_wf p.2 ∧
    is_withdrawal (content p.2) = false ∧
    (has_address (address p.2) w = true ∨
     claim = true ∧ is_swap_pending (content p.2) = true);
}.

Lemma good_coins_grows claim st w w' coins : grows w w' →
  good_coins claim st w coins → good_coins claim st w' coins.
Proof.
  intros Hg [Hnd Hc]. split; [done|]. intros p Hp. rewrite (gr_utxos _ _ Hg).
  destruct (Hc p Hp) as (H1 & H2 & H3 & H4 & [H5|H5]); split_and!; try done; [|by right].
  left. by apply Hg.
Qed.

Lemma coin_inputs_outpoints coins : (coin_inputs coins).*1 = coins.*1.
Proof. unfold coin_inputs. by rewrite <-list_fmap_compose. Qed.

Lemma good_spends claim st w coins tx : good_coins claim st w coins →
  inputs tx = coin_inputs coins → (claim = true → is_swap_claim (data tx) = true) →
  spends st w tx.
Proof.
  intros [Hnd Hc] Hi Hcl. split; rewrite Hi.
  { by rewrite coin_inputs_outpoints. }
  intros i (p & -> & Hp)%list_elem_of_fmap.
  destruct (Hc p Hp) as (H1 & H2 & H3 & H4 & H5). exists p.2. simpl.
  split_and!; try done. destruct H5 as [?|[Hcl' Hp']]; [by left|right].
  unfold claims. by rewrite (Hcl Hcl'), Hp'.
Qed.

Lemma coins_spent st coins tx spent :
  (∀ p, p ∈ coins → utxos st !! p.1 = Some p.2) → inputs tx = coin_inputs coins →
  fill_transaction st tx = Ok (mkFilled tx spent) → spent = coins.*2.
Proof.
  intros Hc Hi Hf. apply bind_Ok_inv in Hf as (l & Hl & [= ->]).
  rewrite Hi in Hl. apply mapM_res_Forall2 in Hl. unfold coin_inputs in Hl.
  rewrite Forall2_fmap_l in Hl. clear Hi.
  induction Hl as [|p out coins spent Hp _ IH]; [done|]. csimpl in *.
  apply ok_or_Ok in Hp. rewrite (Hc p) in Hp by (by left). injection Hp as <-.
  rewrite IH; [done|]. intros q Hq. apply Hc. by right.
Qed.

Lemma coins_proof st coins : commits st →
  (∀ p, p ∈ coins → utxos st !! p.1 = Some p.2) →
  ∃ p, forest_prove (get_accumulator st) (coin_inputs coins).*2 = Some p.
Proof.
  intros Hcom Hc.
  destruct (forest_prove_leaves (get_accumulator st) (coin_inputs coins).*2) as (p & Hp & _);
    [|by exists p].
  intros h (i & -> & (c & -> & Hin)%list_elem_of_fmap)%list_elem_of_fmap.
  rewrite Hcom. apply elem_of_leaf_set. exists c. split; [by apply Hc|done].
Qed.

(** ** An application ready to spend *)

(** The accumulator commits to the unspent outputs, and the coins that the wallet may
    spend are unspent outputs of its own.  Transactions of the pool may spend them: the
    wallet loses a coin only once a block spends it. *)
Record app_ready app : Prop := {
  ar_wallet : wallet_wf (app_wallet app);
  ar_keys : keys_total (app_wallet app);
  ar_commits : commits (app_state app);
  ar_wf : coins_wf (app_wallet app);
  ar_coins o out : w_utxos (app_wallet app) !! o = Some out →
    spendable (app_is_locked app) (o, out) = true →
    utxos (app_state app) !! o = Some out ∧ has_address (address out) (app_wallet app) = true;
}.

Definition funds app : Z :=
  sumZ coin_value (spendable_coins (app_is_locked app) (app_wallet app)).

(** The coins that a selection takes. *)
Lemma select_ready app value : app_ready app → value ≤ funds app ≤ u64_MAX →
  ∃ total coins sel,
    select_coins_with_filter value (app_is_locked app) (app_wallet app) = Ok (total, sel) ∧
    coin_iter sel = coins ∧ value ≤ total ≤ u64_MAX ∧ sumZ coin_value coins = total ∧
    good_coins false (app_state app) (app_wallet app) coins ∧
    ∀ p, p ∈ coins → app_is_locked app p.1 = false.
Proof.
  intros Hr Hv. destruct (select_coins_ok value (app_is_locked app) (app_wallet app))
    as (taken & Hsel & Hrange & Hnd & Hin); [apply Hr|done|].
  assert (coin_iter (list_to_map taken) ≡ₚ taken) as Hperm.
  { rewrite coin_iter_perm. by apply map_to_list_to_map. }
  eexists _, _, _. split; [exact Hsel|]. split; [done|]. split; [done|].
  split; [by apply sumZ_Permutation|]. split.
  - split; [by rewrite Hperm|]. intros [o out]. rewrite Hperm. intros Hp.
    destruct (Hin _ Hp) as [Hw Hs]. destruct (ar_coins _ Hr _ _ Hw Hs) as [Hu Ha].
    split_and!; try done; [by apply (ar_wf _ Hr o)| |by left].
    unfold spendable in Hs. simpl in *. by destruct (is_withdrawal _).
  - intros [o out]. rewrite Hperm. intros Hp. destruct (Hin _ Hp) as [Hw Hs].
    unfold spendable in Hs. simpl in *.
    by destruct (is_withdrawal _), (app_is_locked app o).
Qed.

(** Spending unlocked coins of the wallet. *)
Lemma unlocked_inputs app coins tx :
  (∀ p, p ∈ coins → app_is_locked app p.1 = false) → inputs tx = coin_inputs coins →
  ∀ i, i ∈ inputs tx → is_output_locked_to_swap (app_state app) i.1 = None.
Proof.
  intros Hc -> i (p & -> & Hp)%list_elem_of_fmap. simpl. apply Hc in Hp.
  unfold app_is_locked in Hp. by destruct (is_output_locked_to_swap _ _).
Qed.

Lemma no_locked_inputs st tx :
  (∀ i, i ∈ inputs tx → is_output_locked_to_swap st i.1 = None) →
  validate_no_locked_outputs st tx = Ok ().
Proof.
  intros Hi. unfold validate_no_locked_outputs.
  destruct (data tx); [..|done|]; apply foldM_unit; intros i Hin; apply ensure_Ok,
    bool_decide_eq_true; by apply Hi.
Qed.

Lemma sumZ_values coins : sumZ get_value coins.*2 = sumZ coin_value coins.
Proof. induction coins as [|c coins IH]; [done|]. csimpl. by rewrite IH. Qed.

Lemma sumZ_elem {A} (f : A → Z) (l : list A) x :
  (∀ y, y ∈ l → 0 ≤ f y) → x ∈ l → f x ≤ sumZ f l.
Proof.
  intros Hpos. induction l as [|y l IH]; [by intros ?%elem_of_nil|].
  assert (0 ≤ sumZ f l) by (apply sumZ_nonneg; intros z Hz; apply Hpos; by right).
  assert (0 ≤ f y) by (apply Hpos; by left).
  intros [->|Hx]%elem_of_cons; simpl; [lia|].
  assert (f x ≤ sumZ f l); [|lia]. apply IH; [|done]. intros z Hz. apply Hpos. by right.
Qed.

(** [grows] and the proof, for a transaction built on selected coins. *)
Lemma ready_on_coins claim st w w' coins tx fee :
  grows w w' → good_coins claim st w coins →
  (claim = true → is_swap_claim (data tx) = true) → inputs tx = coin_inputs coins →
  forest_prove (get_accumulator st) (coin_inputs coins).*2 = Some (proof tx) →
  Forall output_wf (outputs tx) → 0 ≤ fee →
  sumZ coin_value coins = sumZ get_value (outputs tx) + fee → sumZ coin_value coins ≤ u64_MAX →
  swap_rules st tx (mkFilled tx coins.*2) = Ok () →
  ready st w' tx fee.
Proof.
  intros Hg Hc Hcl Hi Hp Hwf Hfee Hsum Hmax Hrule.
  pose proof (good_coins_grows _ _ _ _ _ Hg Hc) as Hc'. split; [|..|done|done|].
  - by eapply good_spends.
  - intros spent Hf.
    rewrite (coins_spent _ coins _ _ (λ p Hin, proj1 (gc_coin _ _ _ _ Hc p Hin)) Hi Hf).
    rewrite sumZ_values. by split_and!.
  - by rewrite Hi.
Qed.

(** What is built on the tip and signed with the wallet's keys is sent or refused. *)
Lemma build_and_send rng app w' tx fee :
  app_ready app → grows (app_wallet app) w' → ready (app_state app) w' tx fee →
  sent_or_refused (app_node app) tx fee () (sign_and_send rng tx {| app with app_wallet := w' |}).
Proof.
  intros Hr Hg Hready. apply (sign_and_send_cases rng tx fee {| app with app_wallet := w' |}).
  - apply (gr_wf _ _ Hg), Hr.
  - eapply keys_total_grows, Hr. exact Hg.
  - done.
Qed.

Lemma amount_add_ok a b : a + b ≤ u64_MAX → amount_add a b = Ok (a + b).
Proof. intros H. by apply ok_or_Ok, u64_checked_add_Some. Qed.
Lemma amount_sub_ok a b : b ≤ a → amount_sub a b = Ok (a - b).
Proof. intros H. by apply expect_Ok, u64_checked_sub_Some. Qed.

(** ** Payments *)
Lemma dests_total (dests : gmap Address Z) fee total :
  (∀ a v, dests !! a = Some v → 0 ≤ v) → sumZ snd (map_to_list dests) + fee ≤ total →
  0 ≤ fee → total ≤ u64_MAX →
  foldM (λ total p, amount_add total p.2) 0 (entries_by arr_bytes dests)
  = Ok (sumZ snd (map_to_list dests)).
Proof.
  intros Hpos Hle Hfee Hmax.
  pose proof (sum_loop_ok (E := WalletError) (snd : Address * Z → Z) (λ _, Ok ())
    WalletAmountOverflow (entries_by arr_bytes dests) 0) as H.
  cbn [mbind res_bind] in H. unfold amount_add. rewrite H.
  - f_equal. rewrite Z.add_0_l. apply sumZ_Permutation, entries_by_Permutation.
  - intros [a v] Hin. split; [done|]. apply (elem_of_entries_by arr_bytes) in Hin.
    by apply Hpos in Hin.
  - rewrite (sumZ_Permutation _ _ _ (entries_by_Permutation arr_bytes dests)). lia.
Qed.

Lemma payment_value (l : list (Address * Z)) :
  sumZ get_value ((λ p, mkOutput p.1 (Value p.2)) <$> l) = sumZ snd l.
Proof. induction l as [|[a v] l IH]; [done|]. csimpl. by rewrite IH. Qed.

(** The transaction that pays [dests] from [coins]. *)
Definition payment_tx coins (dests : gmap Address Z) (p : UtreexoProof) (change : Output) :
    Transaction :=
  {| inputs := coin_inputs coins; proof := p;
     outputs := ((λ p, mkOutput p.1 (Value p.2)) <$> entries_by arr_bytes dests) ++ [change];
     data := RegularTx |}.

Lemma create_transaction_many_ok acc is_locked w (dests : gmap Address Z) fee total sel p w' a :
  let value := sumZ snd (map_to_list dests) in
  dests ≠ ∅ → (∀ a v, dests !! a = Some v → 0 ≤ v) → 0 ≤ fee →
  select_coins_with_filter (value + fee) is_locked w = Ok (total, sel) →
  value + fee ≤ total ≤ u64_MAX →
  forest_prove acc (coin_inputs (coin_iter sel)).*2 = Some p →
  get_new_address w = (w', Ok a) →
  create_transaction_many acc dests fee is_locked w
  = (w', Ok (payment_tx (coin_iter sel) dests p (mkOutput a (Value (total - value - fee))))).
Proof.
  intros value Hne Hpos Hfee Hsel Htot Hp Ha. unfold create_transaction_many.
  erewrite wm_bind_ok
    by (by apply (wlift_ok _ _ ()), ensure_Ok, negb_true_iff, bool_decide_eq_false_2).
  erewrite wm_bind_ok by (apply wlift_ok, (dests_total dests fee total); lia || done).
  erewrite wm_bind_ok by (apply wlift_ok, amount_add_ok; lia).
  erewrite wm_bind_ok by (apply wread_ok, Hsel). cbv beta iota.
  erewrite wm_bind_ok by (apply wlift_ok; rewrite amount_sub_ok, bind_Ok by lia;
    apply amount_sub_ok; lia).
  cbv zeta. erewrite wm_bind_ok by (by apply wlift_ok, ok_or_Ok).
  by rewrite (wm_bind_ok _ _ _ _ _ Ha).
Qed.

Lemma payment_outputs coins (dests : gmap Address Z) p a change :
  (∀ a v, dests !! a = Some v → 0 ≤ v) → sumZ snd (map_to_list dests) ≤ u64_MAX →
  is_u64 change →
  let tx := payment_tx coins dests p (mkOutput a (Value change)) in
  Forall output_wf (outputs tx) ∧
  sumZ get_value (outputs tx) = sumZ snd (map_to_list dests) + change ∧
  ∀ b v, dests !! b = Some v → mkOutput b (Value v) ∈ outputs tx.
Proof.
  intros Hpos Hmax Hch tx. split; [|split].
  - apply Forall_app. split; [|constructor; [exact Hch|constructor]].
    apply Forall_fmap, Forall_forall. intros [b v] Hin.
    apply (elem_of_entries_by arr_bytes) in Hin.
    unfold output_wf. simpl. split; [by apply Hpos in Hin|].
    assert (v ≤ sumZ snd (map_to_list dests)); [|lia].
    apply (sumZ_elem snd (map_to_list dests) (b, v)); [|by apply elem_of_map_to_list].
    intros [b' v'] Hin'%elem_of_map_to_list. by apply Hpos in Hin'.
  - subst tx. simpl. rewrite sumZ_app, payment_value.
    rewrite (sumZ_Permutation _ _ _ (entries_by_Permutation arr_bytes dests)).
    simpl. unfold get_value. simpl. lia.
  - intros b v Hb. apply elem_of_app. left. apply list_elem_of_fmap. exists (b, v).
    split; [done|]. by apply elem_of_entries_by.
Qed.

(** C11: A payment of a wallet that has the funds is built and signed: to whichever
    addresses and at whichever fee, if the unlocked coins cover both (and do not
    overflow), the call spends the coins that the selection takes and pays every
    destination.  If no transaction of the mempool spends one of these coins it validates
    with exactly that fee and enters the mempool; otherwise the call is refused, and
    the node is as before (the selection does not look for another coin then). *)
Theorem transfer_many_sends rng dests fee app :
  app_ready app → dests ≠ ∅ → (∀ a v, dests !! a = Some v → 0 ≤ v) → 0 ≤ fee →
  sumZ snd (map_to_list dests) + fee ≤ funds app ≤ u64_MAX →
  ∃ total sel tx,
    select_coins_with_filter (sumZ snd (map_to_list dests) + fee) (app_is_locked app)
      (app_wallet app) = Ok (total, sel) ∧
    inputs tx = coin_inputs (coin_iter sel) ∧
    (∀ a v, dests !! a = Some v → mkOutput a (Value v) ∈ outputs tx) ∧
    sent_or_refused (app_node app) tx fee (txid tx) (transfer_many rng dests fee app).
Proof.
  intros Hr Hne Hpos Hfee Hfunds. set (value := sumZ snd (map_to_list dests)) in *.
  assert (0 ≤ value) as Hv.
  { apply sumZ_nonneg. intros [a v] Hin%elem_of_map_to_list. by apply Hpos in Hin. }
  destruct (select_ready app (value + fee) Hr Hfunds)
    as (total & coins & sel & Hsel & <- & Htot & Hsum & Hgood & Hfree).
  destruct (coins_proof (app_state app) (coin_iter sel)) as (p & Hp);
    [apply Hr|intros c Hc; by apply (gc_coin _ _ _ _ Hgood)|].
  destruct (get_new_address_ok (app_wallet app) (ar_keys _ Hr)) as (w' & a1 & Ha1 & Hg).
  pose proof (create_transaction_many_ok _ _ _ dests fee total sel p w' a1 Hne Hpos Hfee
    Hsel Htot Hp Ha1) as Hbuild.
  destruct (payment_outputs (coin_iter sel) dests p a1 (total - value - fee)) as (Hwf & Hout & Hpays);
    [done|lia|unfold is_u64; lia|].
  fold value in Hbuild. set (tx := payment_tx _ _ _ _) in *.
  assert (ready (app_state app) w' tx fee) as Hready.
  { eapply (ready_on_coins false _ (app_wallet app) w' (coin_iter sel)); try done; [lia..|].
    unfold swap_rules. simpl. apply no_locked_inputs.
    by eapply (unlocked_inputs app (coin_iter sel)). }
  exists total, sel, tx. split; [done|]. split; [done|]. split; [done|]. unfold transfer_many.
  erewrite am_bind_ok by (by apply in_wallet_ok).
  by eapply sent_or_refused_bind; [apply build_and_send|].
Qed.
End AppProps.
