(* ===== verification/AppSwaps.v ===== *)
(** What the swap calls of the application achieve (app/rpc_server.rs): a swap is
    created, accepted and claimed. *)
From S2P Require Import Prelude Bytes SwapTypes TxTypes Externals Accumulator.
From S2P Require Import BlockTypes Rollback Bundle StateDb SwapRules Auth Block.
From S2P Require Import BlockSpec BlockConnect Ledger Value Commitment.
From S2P Require Import Peg Monitor Mempool Ancestry SideTips Archive ArchiveWrites.
From S2P Require Import ArchiveIter BetterTip Node Wallet WalletTx WalletProps.
From S2P Require Import WalletCoins Template App AppSend AppProps.

Section AppSwaps.
Context {T : ExtTypes} {X : ExtFuns} {W : ExtWork} {I : HashIter} {E : ExtWallet}.
Context {F : ForestLaws X} {P : ProofLaws X} {BL : BatchLaws X} {L : WalletLaws E}.
Implicit Types (app : App) (tx : Transaction) (w : Wallet) (st : State) (node : Node).
Implicit Types (coins : list (OutPoint * Output)).

Lemma require_bind {A} b r (k : () → res Error A) : b = true → (require b r ≫= k) = k ().
Proof. by intros ->. Qed.
Lemma ok_or_bind {R A B} (o : option A) (e : R) (k : A → res R B) a :
  o = Some a → (ok_or o e ≫= k) = k a.
Proof. by intros ->. Qed.
Lemma bind_unit {R A} (m : res R ()) (k : () → res R A) : m = Ok () → (m ≫= k) = k ().
Proof. by intros ->. Qed.

(** ** Creating a swap *)
Section Create.
Context (parent_chain : ParentChainType) (l1_recipient_address : string) (l1_amount : Z).
Context (l2_recipient : option Address) (l2_amount : Z) (confirmations : option Z).

Definition created_id (sender : Address) : SwapId :=
  from_l2_to_l1 l1_recipient_address l1_amount sender l2_recipient.

(** The transaction that escrows the amount from [coins], whose first owner creates the
    swap. *)
Definition create_tx coins (sender : Address) (p : UtreexoProof) (change : Output) :
    Transaction :=
  {| inputs := coin_inputs coins; proof := p;
     outputs := [mkOutput (default sender l2_recipient)
                   (SwapPending l2_amount (created_id sender)); change];
     data := SwapCreate (created_id sender) parent_chain (replicate 32 x00)
               (default (default_confirmations parent_chain) confirmations) l2_recipient
               l2_amount l1_recipient_address l1_amount |}.

Lemma create_swap_create_tx_ok acc fee is_locked w total sel first rest p w' a :
  0 ≤ l2_amount → 0 ≤ fee →
  select_coins_with_filter (l2_amount + fee) is_locked w = Ok (total, sel) →
  l2_amount + fee ≤ total ≤ u64_MAX → coin_iter sel = first :: rest →
  forest_prove acc (coin_inputs (coin_iter sel)).*2 = Some p →
  get_new_address w = (w', Ok a) →
  create_swap_create_tx acc parent_chain l1_recipient_address l1_amount l2_recipient l2_amount
    confirmations fee is_locked w
  = (w', Ok (create_tx (coin_iter sel) (address first.2) p
               (mkOutput a (Value (total - l2_amount - fee))), created_id (address first.2))).
Proof.
  intros Hv Hfee Hsel Htot Hiter Hp Ha. unfold create_swap_create_tx.
  erewrite wm_bind_ok by (apply wlift_ok, amount_add_ok; lia).
  erewrite wm_bind_ok by (apply wread_ok, Hsel). cbv beta iota.
  erewrite wm_bind_ok by (apply wlift_ok; rewrite amount_sub_ok, bind_Ok by lia;
    apply amount_sub_ok; lia).
  erewrite wm_bind_ok by (apply wlift_ok; by rewrite Hiter). cbv zeta.
  erewrite wm_bind_ok by (by apply wlift_ok, ok_or_Ok).
  by rewrite (wm_bind_ok _ _ _ _ _ Ha).
Qed.

Lemma create_rules st coins first rest p change :
  let tx := create_tx coins (address first.2) p change in
  coins = first :: rest → get_swap st (created_id (address first.2)) = None →
  0 < l2_amount ≤ u64_MAX → is_value (content change) = true →
  (∀ i, i ∈ inputs tx → is_output_locked_to_swap st i.1 = None) →
  (∀ c, c ∈ coins → 0 ≤ coin_value c) → l2_amount ≤ sumZ coin_value coins ≤ u64_MAX →
  validate_swap_create st tx (mkFilled tx coins.*2) = Ok ().
Proof.
  intros tx -> Hnew Hamt Hch Hunl Hpos Htot. unfold validate_swap_create. cbn [data tx create_tx].
  rewrite (ok_or_bind _ _ _ first.2) by done.
  rewrite require_bind by by apply bool_decide_eq_true.
  rewrite require_bind by (apply bool_decide_eq_true; done).
  rewrite require_bind by (apply negb_true_iff, Z.eqb_neq; lia).
  rewrite require_bind by (by apply negb_true_iff, bool_decide_eq_false).
  rewrite (bind_unit (foldM _ _ _)).
  2:{ apply foldM_unit. intros i Hi. unfold check_create_input. by rewrite Hunl. }
  rewrite (ok_or_bind _ _ _ (sumZ coin_value (first :: rest))).
  2:{ rewrite <-(sumZ_values (first :: rest)). apply checked_sum_small.
      - intros out (c & -> & Hc)%list_elem_of_fmap. by apply Hpos.
      - rewrite sumZ_values. lia. }
  rewrite require_bind by (apply negb_true_iff, Z.ltb_ge; lia).
  rewrite (ok_or_bind _ _ _ l2_amount).
  - apply ensure_Ok, negb_true_iff, Z.ltb_ge. lia.
  - cbn [tx create_tx outputs omap list_omap]. unfold escrow_value at 1. cbn [content].
    rewrite bool_decide_true by done. destruct change as [a []]; try done. cbn.
    unfold u64_checked_add. by rewrite (proj2 (Z.leb_le _ _)) by lia.
Qed.

Lemma create_outputs coins sender p a change :
  0 ≤ l2_amount ≤ u64_MAX → is_u64 change →
  let tx := create_tx coins sender p (mkOutput a (Value change)) in
  Forall output_wf (outputs tx) ∧ sumZ get_value (outputs tx) = l2_amount + change.
Proof.
  intros Hamt Hch tx. split; [by repeat (constructor; [done|])|].
  subst tx. simpl. unfold get_value. simpl. lia.
Qed.

(** C13: A swap is created by a wallet that has the funds: if the unlocked coins cover the
    amount and the fee, the call spends the coins that the selection takes and escrows the
    amount in an output that names the swap, under the identifier that binds it to the terms
    and to the owner of the first coin.  If no transaction of the mempool spends one of
    these coins, it validates with that fee, enters the mempool, and the swap is
    remembered as one of ours; otherwise it is refused, and the node is as before. *)
Theorem create_swap_sends rng fee app :
  app_ready app → 0 < l2_amount → 0 ≤ fee →
  l2_amount + fee ≤ funds app ≤ u64_MAX →
  (∀ sender, get_swap (app_state app) (created_id sender) = None) →
  ∃ total sel tx sender,
    let out := create_swap rng parent_chain l1_recipient_address l1_amount l2_recipient l2_amount
      confirmations fee app in
    select_coins_with_filter (l2_amount + fee) (app_is_locked app) (app_wallet app)
      = Ok (total, sel) ∧
    inputs tx = coin_inputs (coin_iter sel) ∧
    (address ∘ snd <$> head (coin_iter sel)) = Some sender ∧
    mkOutput (default sender l2_recipient) (SwapPending l2_amount (created_id sender))
      ∈ outputs tx ∧
    sent_or_refused (app_node app) tx fee (created_id sender, txid tx) out ∧
    (is_ok out.2 = true → is_created_pending_swap (created_id sender) out.1 = true).
Proof.
  intros Hr Hamt Hfee Hfunds Hnew.
  destruct (select_ready app (l2_amount + fee) Hr Hfunds)
    as (total & coins & sel & Hsel & <- & Htot & Hsum & Hgood & Hfree).
  destruct (coins_proof (app_state app) (coin_iter sel)) as (p & Hp);
    [apply Hr|intros c Hc; by apply (gc_coin _ _ _ _ Hgood)|].
  destruct (get_new_address_ok (app_wallet app) (ar_keys _ Hr)) as (w' & a1 & Ha1 & Hg).
  destruct (coin_iter sel) as [|first rest] eqn:Hiter; [simpl in Hsum; lia|].
  pose proof (create_swap_create_tx_ok (get_accumulator (app_state app)) fee _ _ total sel first rest p w' a1 ltac:(lia) Hfee
    Hsel Htot Hiter) as Hbuild.
  rewrite Hiter in Hbuild. specialize (Hbuild Hp Ha1).
  destruct (create_outputs (first :: rest) (address first.2) p a1 (total - l2_amount - fee))
    as (Hwf & Hout); [lia|unfold is_u64; lia|].
  set (tx := create_tx _ _ _ _) in *.
  assert (∀ c, c ∈ first :: rest → 0 ≤ coin_value c) as Hpos.
  { intros c Hc. destruct (gc_coin _ _ _ _ Hgood c Hc) as (_ & _ & Hw & _).
    by apply get_value_range. }
  assert (ready (app_state app) w' tx fee) as Hready.
  { eapply (ready_on_coins false _ (app_wallet app) w' (first :: rest)); try done; [lia..|].
    apply (create_rules (app_state app) _ first rest); try done; [lia| |lia].
    by eapply (unlocked_inputs app (first :: rest)). }
  exists total, sel, tx, (address first.2). intros out. rewrite Hiter.
  assert (out = (_ ← sign_and_send rng tx;
    _ ← awrite (add_created_pending_swap (created_id (address first.2)));
    mret (created_id (address first.2), txid tx)) {| app with app_wallet := w' |}) as ->.
  { unfold out, create_swap. by erewrite am_bind_ok by (by apply in_wallet_ok). }
  split; [done|]. split; [done|]. split; [done|]. split; [by left|]. split.
  - by eapply sent_or_refused_bind; [apply build_and_send|].
  - unfold mbind, AM_bind. destruct (sign_and_send rng tx _) as [[] []]; [|done..]. intros _.
    apply bool_decide_eq_true. simpl. set_solver.
Qed.
End Create.

(** ** Accepting a swap *)







End AppSwaps.

(** ** Claiming: whoever asks, the swap pays the address that is entitled to it *)

Section AppClaim.
Context {T : ExtTypes} {X : ExtFuns} {W : ExtWork} {I : HashIter} {E : ExtWallet}.
Context {F : ForestLaws X} {P : ProofLaws X} {BL : BatchLaws X} {L : WalletLaws E}.
Implicit Types (app : App) (tx : Transaction) (w : Wallet) (st : State) (node : Node).
Implicit Types (coins : list (OutPoint * Output)) (id : SwapId).














End AppClaim.
