(* ===== verification/Toy.v ===== *)
(** A concrete instance of the external functions, small and executable, and a
    short chain on it: the inputs on which the theorems are exercised.

    The hash is a polynomial one, the forest is a list of its leaves, every
    signature verifies.  Nothing is proved about the program from these choices. *)
From S2P Require Import Prelude Bytes SwapTypes TxTypes Externals.
From S2P Require Import Accumulator BlockTypes Rollback Bundle StateDb SwapRules.
From S2P Require Import Auth Block BlockConnect Commitment.

Definition toy_array (n : nat) (z : Z) : array n :=
  exist _ (le_bytes n z) (length_le_bytes n z).

Definition toy_digest (l : list byte) : Z :=
  fold_left (λ acc b, (acc * 601 + Z_of_byte b + 1) `mod` 2 ^ 24) l 7.

#[export] Instance toy_types : ExtTypes := {|
  BtcAddress := Z;
  BtcAddress_eq_dec := _;
  UtreexoProof := unit;
  MemForest := list Hash;
  VerifyingKey := Z;
  Signature := unit;
|}.

(** Hashes and addresses differ in their first three bytes only. *)
Definition short {n} (a : array n) : list byte := take 3 (arr_bytes a).
Definition toy_outpoint (o : OutPoint) : list byte :=
  match o with
  | Regular h v => x00 :: short h ++ le_bytes 1 v
  | Coinbase h v => x01 :: short h ++ le_bytes 1 v
  | Deposit h v => x02 :: short h ++ le_bytes 1 v
  end.
Definition toy_output (o : @Output toy_types) : list byte :=
  short (address o) ++
  match content o with
  | Value v => x00 :: le_bytes 2 v
  | Withdrawal v f a => x01 :: le_bytes 2 v ++ le_bytes 2 f ++ le_bytes 2 a
  | SwapPending v id => x02 :: le_bytes 2 v ++ short id
  end.

Definition toy_data (d : TxData) : list byte :=
  match d with
  | RegularTx => [x00]
  | SwapCreate id _ b r _ a s l1 =>
      x01 :: short id ++ le_bytes 1 r ++ le_bytes 2 a ++ le_bytes 2 l1
  | SwapClaim id c _ =>
      x02 :: short id ++ match c with Some a => short a | None => [] end
  | SwapAccept id c => x03 :: short id ++ short c
  end.

(** The queue algorithm of a complete binary Merkle tree. *)
Fixpoint toy_queue {N} (fuel : nat) (mg : N → N → option N) (q : list N) : option N :=
  match fuel, q with
  | S fuel, n1 :: n2 :: q =>
      m ← mg n2 n1; toy_queue fuel mg (q ++ [m])
  | _, [n] => Some n
  | _, _ => None
  end.

Definition toy_cbmt (N : Type) (mg : N → N → option N) (d : N) (leaves : list N) :
    option N :=
  match leaves with
  | [] => Some d
  | _ => toy_queue (length leaves) mg (reverse leaves)
  end.

Definition toy_prove (f hs : list Hash) : bool :=
  forallb (λ h, bool_decide (h ∈ f)) hs.

#[export] Instance toy_funs : ExtFuns := {|
  ext_blake3 := λ l, toy_array 32 (toy_digest l);
  blake3_xof_20 := λ l, toy_array 20 (le_value l);
  borsh_transaction := λ ins outs d,
    (ins ≫= λ i, toy_outpoint i.1) ++ (outs ≫= toy_output) ++ toy_data d;
  borsh_pointed_output := λ o out, toy_outpoint o ++ toy_output out;
  borsh_outputs := λ outs, outs ≫= toy_output;
  borsh_outpoints := λ os, os ≫= toy_outpoint;
  borsh_header := λ m p q r,
    short m ++ (match p with Some h => short h | None => [] end)
    ++ short q ++ (r ≫= short);
  borsh_body_length := λ cb txs auths, Z.of_nat (length cb + length txs + length auths);
  bincode_swap_ok := λ _, true;
  bincode_u32 := le_bytes 4;
  forest_default := [];
  forest_modify := λ f ins del,
    if toy_prove f del then Some (filter (λ h, h ∉ del) f ++ ins) else None;
  forest_verify := λ f _ hs, Some (toy_prove f hs);
  forest_prove := λ f hs, if toy_prove f hs then Some () else None;
  forest_roots := λ f, f;
  cbmt_build_merkle_root := toy_cbmt;
  vk_bytes := le_bytes 20;
  borsh_slice := λ l, le_bytes 4 (Z.of_nat (length l)) ++ l;
  borsh_usize := le_bytes 8;
  blake3_keyed := λ k l, toy_array 32 (toy_digest (k ++ l));
  signature_R := λ _, [];
  signature_z := λ _, [];
  FrostItem := unit;
  frost_item_new := λ _ _ _, Some ();
  frost_batch_verify := λ _ l, bool_decide (l ≠ []);
  mac_key := [];
  script_pubkey := λ a, le_bytes 22 a;
  BtcAddress_le := Z.le;
  BtcAddress_le_dec := _;
  op_return_push := λ l, x6a :: l;
  btc_txid := λ outs,
    toy_array 32 (toy_digest (outs ≫= λ o, le_bytes 8 (txout_value o)
                                            ++ txout_script_pubkey o));
  btc_weight := λ outs, 4 * (60 + 40 * Z.of_nat (length outs));
  varint_size := λ n, if n <? 253 then 1 else if n <=? 65535 then 3 else 5;
  f64_limit_growth := λ start month, start;
|}.

(** Every signature is valid, so that a batch verifies if it is not empty. *)
#[export] Instance toy_batches : BatchLaws toy_funs.
Proof.
  refine {| signature_valid := λ (vk : @VerifyingKey toy_types) sig msg, True |}.
  - intros vk sig msg _. by exists tt.
  - intros seed l its Hne Hits. split; [by intros _; apply Forall_forall|].
    intros _. apply bool_decide_eq_true_2. intros ->.
    by apply Forall2_nil_inv_r in Hits.
Defined.

(** The forest of leaves satisfies the laws of forests. *)
#[export] Instance toy_forest : ForestLaws toy_funs.
Proof.
  refine {| leaves := λ f : @MemForest toy_types, list_to_set (f : list Hash) |}.
  intros f ins del _ _ _ Hdel. simpl.
  assert (toy_prove f del = true) as ->.
  { apply Is_true_true, forallb_True, Forall_forall. intros h Hh.
    apply bool_decide_pack. by apply (elem_of_list_to_set (C := gset Hash)), Hdel. }
  eexists. split; [done|]. apply set_eq. intros h.
  rewrite !elem_of_union, elem_of_difference, !elem_of_list_to_set, elem_of_app.
  rewrite list_elem_of_filter. tauto.
Defined.

Definition alice : Address := toy_array 20 1.
Definition bob : Address := toy_array 20 2.
Definition auth_of (k : Z) : Authorization := {| verifying_key := k; signature := tt |}.

(** An input of an outpoint with the output it spends. *)
Definition input_of (o : OutPoint) (out : Output) : OutPoint * Hash :=
  (o, hash_pointed o out).

(** The block with some transactions on a state, its header computed. *)
Definition make_body (cb : list Output) (txs : list Transaction)
    (auths : list Authorization) : Body :=
  {| coinbase := cb; transactions := txs; body_authorizations := auths |}.

Definition filled_of (st : State) (txs : list Transaction) : list FilledTransaction :=
  match mapM_res (fill_transaction st) txs with Ok l => l | _ => [] end.

Definition roots_after (st : State) (root : MerkleRoot) (b : Body) : list Hash :=
  let d := fold_left (λ d '(o, out), AccumulatorDiff.insert (hash_pointed o out) d)
             (coinbase_outputs root (coinbase b)) AccumulatorDiff.empty in
  let d := fold_left (λ d tx,
      fold_left (λ d '(o, out), AccumulatorDiff.insert (hash_pointed o out) d)
        (regular_outputs (txid tx) (outputs tx))
        (fold_left (λ d '(_, h), AccumulatorDiff.remove h d) (inputs tx) d))
    (transactions b) d in
  match apply_diff d (get_accumulator st) with Some f => f | None => [] end.

Definition make_header (st : State) (b : Body) : Header :=
  let root :=
    match merkle_root_of (coinbase b) (filled_of st (transactions b)) with
    | Ok r => r | _ => zero_hash
    end in
  {| merkle_root := root; prev_side_hash := tip st; prev_main_hash := zero_hash;
     roots := roots_after st root b |}.

(** ** A swap of Alice's, which Bob claims *)
Definition funds (who : Address) (v : Z) : Output := mkOutput who (Value v).
Definition dep (n : Z) : OutPoint := Deposit zero_hash n.
Definition state_with (us : list (OutPoint * Output)) : State :=
  {| empty_state with
     utxos := list_to_map us;
     utreexo_accumulator := Some ((λ p, hash_pointed p.1 p.2) <$> us) |}.

(** Before the swap: nothing but two deposits. *)
Definition toy_start : State :=
  state_with [(dep 0, funds alice 1000); (dep 1, funds bob 500)].

Definition toy_id : SwapId := toy_array 32 77.
Definition create_id : SwapId := from_l2_to_l1 "bc1q" 7000 alice (Some bob).
Definition create_tx : Transaction :=
  {| inputs := [input_of (dep 0) (funds alice 1000)];
     proof := tt;
     outputs := [mkOutput alice (SwapPending 600 create_id); funds alice 390];
     data := SwapCreate create_id Regtest (replicate 32 x00) 1 (Some bob) 600 "bc1q" 7000 |}.
Definition create_body : Body := make_body [funds bob 10] [create_tx] [auth_of 1].
Definition create_header : Header := make_header toy_start create_body.

(** With a swap escrowed in [dep 0] and ready to be claimed. *)
Definition toy_swap : Swap :=
  with_state ReadyToClaim
    (new_swap toy_id L2ToL1 Regtest (Hash32 zero_hash) (Some 1) (Some bob) 600 "bc1q"
       7000 3 (Some 53) (Some alice)).
Definition escrow : Output := mkOutput alice (SwapPending 600 toy_id).
Definition claim_state : State :=
  {| (state_with [(dep 0, escrow); (dep 1, funds bob 500)]) with
     tip := Some zero_hash; height := Some 3;
     swaps := {[ toy_id := Decodes toy_swap ]};
     locked_swap_outputs := {[ dep 0 := toy_id ]} |}.
Definition claim_tx : Transaction :=
  {| inputs := [input_of (dep 0) escrow; input_of (dep 1) (funds bob 500)];
     proof := tt;
     outputs := [funds bob 1090];
     data := SwapClaim toy_id None None |}.
Definition claim_body : Body := make_body [funds alice 5] [claim_tx] [auth_of 2; auth_of 2].
Definition claim_header : Header := make_header claim_state claim_body.

(** The prevalidated block, and the state after it. *)
Definition prevalidated (st : State) (h : Header) (b : Body) : PrevalidatedBlock :=
  match prevalidate st h b with
  | Ok pre => pre
  | _ => mkPrevalidated [] zero_hash 0 0 0 AccumulatorDiff.empty
  end.
Definition connected (st : State) (h : Header) (b : Body) : State * MerkleRoot :=
  match connect_prevalidated st h b (prevalidated st h b) with
  | Ok r => r
  | _ => (empty_state, zero_hash)
  end.

Lemma prevalidated_Ok st h b :
  is_ok (prevalidate st h b) = true → prevalidate st h b = Ok (prevalidated st h b).
Proof. unfold prevalidated. by destruct (prevalidate st h b). Qed.

Lemma connected_Ok st h b :
  is_ok (connect_prevalidated st h b (prevalidated st h b)) = true →
  connect_prevalidated st h b (prevalidated st h b)
  = Ok ((connected st h b).1, (connected st h b).2).
Proof.
  unfold connected. by destruct (connect_prevalidated _ _ _ _) as [[]| |].
Qed.

(** Goals about concrete inputs. *)
Ltac by_eval := vm_compute; reflexivity.
Ltac by_decide := apply (bool_decide_unpack _); vm_compute; exact I.

(** A boolean condition on all entries of a map, by evaluation. *)
Lemma map_check `{Countable K} {V} (f : K → V → bool) (m : gmap K V) k v :
  forallb (λ p, f p.1 p.2) (map_to_list m) = true → m !! k = Some v → f k v = true.
Proof.
  intros Hf Hk%elem_of_map_to_list. rewrite forallb_forall in Hf.
  apply (Hf (k, v)). by apply list_elem_of_In.
Qed.
