(* ===== verification/Scenarios.v ===== *)
(** The theorems at concrete inputs: each is applied on the instance and the
    short chains of Toy.v, where its hypotheses are evaluated. *)
From S2P Require Import Commitment.
From S2P Require Import Prelude Bytes SwapTypes TxTypes Externals Hex.
From S2P Require Import Accumulator BlockTypes Rollback Bundle StateDb SwapRules.
From S2P Require Import Auth Block BlockConnect BlockSpec BlockProps Ledger Value.
From S2P Require Import Peg Monitor PegProps Expiry SwapMachine Mempool Toy.

(** The result of an operation that succeeds. *)
Definition result_or {E A} (d : A) (m : res E A) : A :=
  match m with Ok a => a | _ => d end.
Lemma result_Ok {E A} (d : A) (m : res E A) : is_ok m = true → m = Ok (result_or d m).
Proof. by destruct m. Qed.

(** ** The block in which Bob claims *)
Lemma claim_block_accepted :
  is_ok (prevalidate claim_state claim_header claim_body) = true.
Proof. by_eval. Qed.
Lemma claim_block_connects :
  is_ok (connect_prevalidated claim_state claim_header claim_body
           (prevalidated claim_state claim_header claim_body)) = true.
Proof. by_eval. Qed.
Lemma claim_ledger_wf : ledger_wf claim_state.
Proof. split; [by_decide|vm_compute; split; congruence]. Qed.
Lemma claim_block_fresh : block_fresh claim_state claim_header claim_body.
Proof.
  split; [by_decide|]. intros o Ho.
  apply (proj1 (Forall_forall
    (λ o, utxos claim_state !! o = None ∧ stxos claim_state !! o = None) _)) in Ho;
    [exact Ho|]. by_decide.
Qed.

Lemma escrow_only_claimed_witness :
  ∃ c p recipient,
    data claim_tx = SwapClaim toy_id c p ∧
    claim_pays claim_state claim_tx toy_id c (next_height claim_state) toy_swap recipient.
Proof.
  eapply (escrow_only_claimed claim_state claim_header claim_body
    (prevalidated claim_state claim_header claim_body) claim_tx (dep 0)).
  - apply prevalidated_Ok, claim_block_accepted.
  - by left.
  - by left.
  - by_eval.
  - by_eval.
Defined.

Lemma accepted_block_swaps_witness :
  ∃ swap recipient,
    claim_pays claim_state claim_tx toy_id None (next_height claim_state) swap recipient.
Proof.
  apply (accepted_block_swaps claim_state claim_header claim_body
    (prevalidated claim_state claim_header claim_body) claim_tx).
  - apply prevalidated_Ok, claim_block_accepted.
  - by left.
Defined.

Lemma accepted_block_no_double_spend_witness : spends_once claim_state claim_body.
Proof.
  apply (accepted_block_no_double_spend claim_state claim_header claim_body
    (prevalidated claim_state claim_header claim_body)).
  apply prevalidated_Ok, claim_block_accepted.
Defined.

Lemma disconnect_restores_ledger_witness :
  let st' := (connected claim_state claim_header claim_body).1 in
  disconnect_tip st' claim_header claim_body = Err Utreexo ∨
  ∃ st'', disconnect_tip st' claim_header claim_body = Ok st'' ∧
    utxos st'' = utxos claim_state ∧ stxos st'' = stxos claim_state ∧
    tip st'' = tip claim_state ∧ height st'' = height claim_state.
Proof.
  eapply (disconnect_restores_ledger claim_state claim_header claim_body
    (prevalidated claim_state claim_header claim_body)).
  - reflexivity.
  - apply claim_ledger_wf.
  - apply claim_block_fresh.
  - apply prevalidated_Ok, claim_block_accepted.
  - apply connected_Ok, claim_block_connects.
Defined.

Lemma block_conserves_value_witness :
  utxo_value (utxos (connected claim_state claim_header claim_body).1)
  ≤ utxo_value (utxos claim_state).
Proof.
  eapply (block_conserves_value claim_state claim_header claim_body
    (prevalidated claim_state claim_header claim_body)).
  - apply claim_ledger_wf.
  - apply claim_block_fresh.
  - apply prevalidated_Ok, claim_block_accepted.
  - apply connected_Ok, claim_block_connects.
Defined.

Lemma claim_collision_free : collision_free (universe claim_state claim_header claim_body).
Proof. by_decide. Qed.
Lemma claim_commits : commits claim_state.
Proof. unfold commits. by_decide. Qed.

Lemma connect_commits_witness :
  commits (connected claim_state claim_header claim_body).1.
Proof.
  eapply (connect_commits claim_state claim_header claim_body
    (prevalidated claim_state claim_header claim_body)).
  - apply claim_ledger_wf.
  - apply claim_block_fresh.
  - apply claim_collision_free.
  - apply claim_commits.
  - apply prevalidated_Ok, claim_block_accepted.
  - apply connected_Ok, claim_block_connects.
Defined.

Lemma disconnect_succeeds_witness :
  let st' := (connected claim_state claim_header claim_body).1 in
  ∃ st'', disconnect_tip st' claim_header claim_body = Ok st'' ∧ commits st'' ∧
    utxos st'' = utxos claim_state ∧ stxos st'' = stxos claim_state ∧
    tip st'' = tip claim_state ∧ height st'' = height claim_state.
Proof.
  eapply (disconnect_succeeds claim_state claim_header claim_body
    (prevalidated claim_state claim_header claim_body)).
  - reflexivity.
  - apply claim_ledger_wf.
  - apply claim_block_fresh.
  - apply claim_collision_free.
  - apply claim_commits.
  - apply prevalidated_Ok, claim_block_accepted.
  - apply connected_Ok, claim_block_connects.
Defined.

(** ** Outpoints that repeat

    Validation does not ask that the outpoints of a block are new.  Those of a transaction
    that spends something are, but a transaction without inputs (and without value) may
    be repeated, and so may the coinbase of a block without transactions: it is named by the
    Merkle root alone. *)
Definition accepted_on st body : bool :=
  is_ok (prevalidate st (make_header st body) body) &&
  is_ok (connect_prevalidated st (make_header st body) body
           (prevalidated st (make_header st body) body)).
Definition after_block st body : State := (connected st (make_header st body) body).1.
Definition undone_block st body : res Error State :=
  disconnect_tip (after_block st body) (make_header st body) body.

Definition empty_coinbase : Body := make_body [funds alice 0] [] [].
Definition free_tx : Transaction :=
  {| inputs := []; proof := tt; outputs := [funds alice 0]; data := RegularTx |}.
Definition free_body : Body := make_body [] [free_tx] [].
Definition twice_body : Body := make_body [] [free_tx; free_tx] [].

(** The second of two such blocks is accepted, and disconnecting it takes the output of
    the first one away. *)
Definition loses_output body (o : OutPoint) : bool :=
  let st := after_block toy_start body in
  accepted_on toy_start body && accepted_on st body &&
  bool_decide (is_Some (utxos st !! o)) &&
  match undone_block st body with
  | Ok st' => bool_decide (utxos st' !! o = None)
  | _ => false
  end.

Example repeated_coinbase_lost :
  loses_output empty_coinbase
    (Coinbase (merkle_root (make_header toy_start empty_coinbase)) 0) = true.
Proof. by_eval. Qed.
Example repeated_transaction_lost : loses_output free_body (Regular (txid free_tx) 0) = true.
Proof. by_eval. Qed.

(** A block with the same transaction twice is accepted, and cannot be disconnected. *)
Example twice_in_a_block :
  accepted_on toy_start twice_body = true ∧
  undone_block toy_start twice_body = Err (NoUtxo (Regular (txid free_tx) 0)).
Proof. split; by_eval. Qed.

(** ** Bodies and reservations *)
Lemma body_new_roundtrip_witness :
  body_authorized_transactions
    (body_new [mkAuthorized claim_tx [auth_of 2; auth_of 2]] [funds alice 5])
  = Ok [mkAuthorized claim_tx [auth_of 2; auth_of 2]].
Proof.
  apply (body_new_roundtrip [mkAuthorized claim_tx [auth_of 2; auth_of 2]]).
  by intros at_ ->%list_elem_of_singleton.
Defined.

Lemma reservation_window_witness :
  is_live_at (mkReservation bob 100) Regtest 119 = true ↔ 119 < 100 + 20.
Proof.
  apply (reservation_window (mkReservation bob 100) Regtest 119);
    vm_compute; [split; congruence|congruence].
Defined.

(** ** A bundle that is submitted and fails in one block *)
Definition toy_bundle : WithdrawalBundle :=
  {| spend_utxos := {[ dep 7 := mkOutput alice (Withdrawal 300 10 9) ]};
     tx_output := [mkTxOut 300 []] |}.
Definition toy_m6id : M6id := compute_m6id toy_bundle.
Definition bundle_state : State :=
  {| empty_state with
     utxos := {[ dep 7 := mkOutput alice (Withdrawal 300 10 9) ]};
     height := Some 5; pending_withdrawal_bundle := Some (toy_bundle, 4) |}.
Definition toy_peg_acc : PegAcc :=
  mkPegAcc (mkEventAcc bundle_state AccumulatorDiff.empty no_index_events) None None.
Definition toy_events : list (BtcBlockHash * BlockEvent) :=
  [(zero_hash, DepositEvent (dep 8) (funds bob 50));
   (zero_hash, BundleEvent toy_m6id BundleSubmitted);
   (zero_hash, BundleEvent toy_m6id BundleFailed)].
Definition toy_peg_after : PegAcc :=
  result_or toy_peg_acc (foldM (connect_event 5) toy_peg_acc toy_events).

Lemma peg_events_undo_witness :
  ∃ un, foldM (disconnect_event 5)
      (mkUnpegAcc (acc_state toy_peg_after, AccumulatorDiff.empty) None None)
      (reverse toy_events) = Ok un ∧
    (un_state un).1 = restore_peg (acc_state toy_peg_acc) (acc_state toy_peg_after).
Proof.
  apply (peg_events_undo 5 toy_peg_acc toy_events toy_peg_after).
  - by_decide.
  - apply result_Ok. by_eval.
  - reflexivity.
Defined.

(** A bundle that is confirmed again in a later block: connecting ignores it, and
    disconnecting panics. *)
Definition confirmed_acc : EventAcc :=
  mkEventAcc (put_bundle toy_m6id (Known toy_bundle)
    (mkRollBack (mkStamped BundleSubmitted 4) [mkStamped BundleConfirmed 5]) bundle_state)
    AccumulatorDiff.empty no_index_events.
Lemma confirmed_again_panics_witness :
  connect_withdrawal_bundle_confirmed 6 toy_m6id confirmed_acc = Ok confirmed_acc ∧
  disconnect_withdrawal_bundle_confirmed 6 toy_m6id
    (ev_state confirmed_acc, AccumulatorDiff.empty) = Panic.
Proof.
  eapply confirmed_again_panics; [by_eval|reflexivity|done].
Defined.

(** ** A swap that nobody fills *)
Definition open_swap : Swap := with_state Pending toy_swap.
Definition open_state : State := {| claim_state with swaps := {[ toy_id := Decodes open_swap ]} |}.
Definition no_l1 : Swap → L1Answer := λ _, None.

Lemma open_state_lookup id e :
  swaps open_state !! id = Some e → id = toy_id ∧ e = Decodes open_swap.
Proof.
  assert (swaps open_state = {[ toy_id := Decodes open_swap ]}) as -> by done.
  by intros [<- <-]%lookup_singleton_Some.
Qed.
Lemma open_state_sound : swaps_sound open_state.
Proof. intros id e [-> ->]%open_state_lookup. by eexists. Qed.
Lemma open_state_wf : swaps_wf open_state.
Proof.
  split; [apply open_state_sound|]. intros id s Hs. unfold get_swap in Hs.
  destruct (swaps open_state !! id) as [e|] eqn:He; [|done].
  apply open_state_lookup in He as [-> ->]. by simplify_eq.
Qed.

(** It expires at height 53. *)
Definition expired_state : State :=
  result_or open_state (process_coinshift_transactions no_l1 53 zero_hash open_state).

Lemma expiry_restored_witness :
  ∃ st'', restore_expiries 53 expired_state = Ok st'' ∧
    locked_swap_outputs st'' = locked_swap_outputs open_state ∧
    get_swap st'' toy_id = Some open_swap.
Proof.
  destruct (expiry_restored open_state no_l1 53 zero_hash expired_state)
    as (_ & st'' & H1 & H2 & _ & H3 & _).
  - reflexivity.
  - apply open_state_sound.
  - reflexivity.
  - apply result_Ok. by_eval.
  - exists st''. split; [exact H1|]. split; [exact H2|]. apply (H3 open_swap).
    split; by_eval.
Defined.

(** Alice cancels it. *)
Definition cancelled_state : State :=
  result_or open_state (cancel_swap toy_id (Some alice) open_state).
Lemma cancel_node_step : node_step open_state cancelled_state.
Proof. apply (ns_cancel _ _ toy_id (Some alice)), result_Ok. by_eval. Qed.

Lemma node_step_swaps_witness :
  swaps_wf cancelled_state ∧ evolves open_state cancelled_state.
Proof.
  apply (node_step_swaps open_state cancelled_state);
    [apply open_state_wf|apply cancel_node_step].
Defined.

Lemma node_steps_swaps_witness :
  ∃ s', get_swap cancelled_state toy_id = Some s' ∧ terms s' = terms open_swap.
Proof.
  destruct (node_steps_swaps open_state cancelled_state toy_id open_swap)
    as (_ & s' & H1 & H2 & _).
  - apply open_state_wf.
  - eapply rtc_once, cancel_node_step.
  - by_eval.
  - exists s'. split; [exact H1|exact H2].
Defined.

(** ** A pool with a transaction that spends another one's output *)
Definition pool_parent : AuthorizedTransaction :=
  mkAuthorized {| inputs := [input_of (dep 0) (funds alice 1000)]; proof := tt;
                  outputs := [funds alice 900]; data := RegularTx |} [auth_of 1].
Definition parent_id : Txid := txid (tx_of pool_parent).
Definition pool_child : AuthorizedTransaction :=
  mkAuthorized {| inputs := [input_of (Regular parent_id 0) (funds alice 900)]; proof := tt;
                  outputs := [funds bob 800]; data := RegularTx |} [auth_of 1].
Definition child_id : Txid := txid (tx_of pool_child).
Definition parent_pool : MemPool :=
  mkMemPool {[ parent_id := pool_parent ]} {[ dep 0 := parent_id ]}.

Lemma parent_pool_lookup t tx :
  mp_transactions parent_pool !! t = Some tx → t = parent_id ∧ tx = pool_parent.
Proof.
  assert (mp_transactions parent_pool = {[ parent_id := pool_parent ]}) as -> by done.
  by intros [<- <-]%lookup_singleton_Some.
Qed.
Lemma parent_pool_wf : mp_wf parent_pool.
Proof.
  intros o t. split.
  - assert (mp_spent_utxos parent_pool = {[ dep 0 := parent_id ]}) as -> by done.
    intros [<- <-]%lookup_singleton_Some. exists pool_parent. split; [by_eval|by left].
  - intros (tx & [-> ->]%parent_pool_lookup & Ho).
    apply list_elem_of_singleton in Ho as ->. by_eval.
Qed.
Lemma child_fits : mp_transactions parent_pool !! child_id = None.
Proof. by_eval. Qed.

Lemma put_spec_witness :
  ∃ mp', put pool_child parent_pool = Ok mp' ∧ mp_wf mp' ∧
    mp_transactions mp' = <[child_id := pool_child]> (mp_transactions parent_pool).
Proof.
  apply (put_spec pool_child parent_pool); [apply parent_pool_wf| |].
  - fold child_id. intros tx. rewrite child_fits. done.
  - split; [by_decide|]. intros t tx [-> ->]%parent_pool_lookup o Ho Ho'.
    apply list_elem_of_singleton in Ho, Ho'. subst o. discriminate.
Defined.

Lemma mp_delete_descendants_witness :
  ∃ mp', mp_delete parent_id parent_pool = Some mp' ∧ mp_wf mp'.
Proof.
  destruct (mp_delete_descendants parent_id parent_pool) as (mp' & H1 & H2 & _);
    [apply parent_pool_wf|exists mp'; split; [exact H1|exact H2]].
Defined.

Definition no_leaves : MemForest := [].
Lemma regenerate_proofs_spec_witness :
  ∃ mp', regenerate_proofs no_leaves parent_pool = Some mp' ∧ mp_wf mp'.
Proof.
  destruct (regenerate_proofs_spec no_leaves parent_pool) as (mp' & H1 & H2 & _);
    [apply parent_pool_wf|exists mp'; split; [exact H1|exact H2]].
Defined.

(** Deleting the parent deletes the child; the parent alone stays. *)
Definition family_pool : MemPool :=
  result_or parent_pool (put pool_child parent_pool).
Definition one_leaf : MemForest := [hash_pointed (dep 0) (funds alice 1000)].
Definition pool_ids (mp : option MemPool) : option (gset Txid) :=
  (λ mp, dom (mp_transactions mp)) <$> mp.
Example family_pool_delete :
  pool_ids (mp_delete parent_id family_pool) = Some ∅ ∧
  pool_ids (mp_delete child_id family_pool) = Some {[ parent_id ]} ∧
  pool_ids (regenerate_proofs one_leaf family_pool) = Some {[ parent_id ]}.
Proof. split_and!; by_decide. Qed.

(** ** Signatures: a block of two transactions with three inputs *)
Definition two_txs : Body := make_body [] [create_tx; claim_tx] [auth_of 1; auth_of 2; auth_of 2].

Lemma authorizations_split_witness :
  verify_authorizations two_txs = Ok () ∧
  ∃ shares, body_authorizations two_txs = concat shares ∧
    Forall2 (λ tx auths, verify_authorized_transaction (mkAuthorized tx auths) = Ok ())
      [create_tx; claim_tx] shares.
Proof.
  split; [vm_compute; reflexivity|]. pose proof (authorizations_split two_txs) as H.
  destruct (verify_authorizations two_txs) as [[]|e|] eqn:Hv; [exact H|..];
    vm_compute in Hv; discriminate Hv.
Defined.
