(* ===== verification/SwapScenarios.v ===== *)
(** Concrete runs of the theorems about single swaps: identifiers, cancelling,
    locks and reservations, on the states of Toy.v and Scenarios.v; and blocks with
    swaps for which the program does not do what its comments or its other half say. *)
From S2P Require Import Prelude Bytes SwapTypes TxTypes Externals Hex.
From S2P Require Import Accumulator BlockTypes Rollback Bundle StateDb SwapRules.
From S2P Require Import Auth Block BlockSpec BlockProps BlockConnect Ledger Value.
From S2P Require Import Commitment Peg Monitor PegProps Expiry SwapMachine SwapProps.
From S2P Require Import Mempool Toy Scenarios.

(** One satoshi more gives another preimage. *)
Lemma swap_preimage_binding_witness :
  l2_to_l1_preimage "bc1q" 7000 alice (Some bob)
  ≠ l2_to_l1_preimage "bc1q" 7001 alice (Some bob).
Proof.
  intros H. destruct (swap_preimage_binding "bc1q" 7000 alice (Some bob)
    "bc1q" 7001 alice (Some bob)) as (_ & Hn & _).
  - by vm_compute.
  - by vm_compute.
  - done.
  - exact H.
  - discriminate Hn.
Defined.

(** Alice cancels her pending swap and her output is free again. *)
Lemma cancel_swap_spec_witness :
  get_swap cancelled_state toy_id = Some (with_state Cancelled open_swap) ∧
  is_output_locked_to_swap cancelled_state (dep 0) = None.
Proof.
  destruct (cancel_swap_spec toy_id (Some alice) open_state) as [_ H].
  - done.
  - apply open_state_sound.
  - destruct (H cancelled_state) as (Hg & Hl & _); [apply result_Ok; by_eval|].
    rewrite Hg, Hl. split; by_eval.
Defined.

(** The escrow of a swap whose record is gone. *)
Definition orphan_state : State := {| claim_state with swaps := ∅ |}.
Lemma cleanup_orphaned_locks_spec_witness :
  is_output_locked_to_swap (cleanup_orphaned_locks orphan_state).1 (dep 0) = None ∧
  (cleanup_orphaned_locks orphan_state).2 = 1.
Proof.
  destruct (cleanup_orphaned_locks_spec orphan_state
    (cleanup_orphaned_locks orphan_state).1 (cleanup_orphaned_locks orphan_state).2)
    as (Hl & Hn & _); [apply surjective_pairing|].
  rewrite Hl, Hn. split; by_eval.
Defined.

(** A swap of Alice's that is open to anyone. *)
Definition offer : Swap :=
  with_state Pending
    (new_swap toy_id L2ToL1 Regtest (Hash32 zero_hash) (Some 1) None 600 "bc1q"
       7000 3 (Some 53) (Some alice)).
Definition offer_state : State :=
  {| claim_state with swaps := {[ toy_id := Decodes offer ]} |}.
Definition accept_tx : Transaction :=
  {| inputs := [input_of (dep 1) (funds bob 500)]; proof := tt;
     outputs := [funds bob 490]; data := SwapAccept toy_id bob |}.
Definition accept_filled : FilledTransaction := mkFilled accept_tx [funds bob 500].

Lemma swap_accept_spec_witness :
  validate_block_transaction offer_state accept_tx accept_filled = Ok ().
Proof.
  apply (swap_accept_spec offer_state accept_tx accept_filled toy_id bob); [done|].
  split.
  - intros i ->%list_elem_of_singleton. by_eval.
  - exists offer. split_and!; [by_eval|done| |].
    + intros e [= <-]. by vm_compute.
    + intros r Hr. by vm_compute in Hr.
  - exists (funds bob 500). split; [by left|done].
Defined.

(** Bob has reserved it at height 3, so that the claim pays him. *)
Definition reserved_state : State :=
  {| offer_state with swap_reservations := {[ toy_id := mkReservation bob 3 ]} |}.
Lemma reservation_exclusive_witness :
  l2_amount offer ≤ paid_to claim_tx bob.
Proof.
  refine (reservation_exclusive reserved_state claim_tx
    (mkFilled claim_tx [escrow; funds bob 500]) toy_id offer (mkReservation bob 3)
    _ _ _ _ _ _ eq_refl).
  all: by_eval.
Defined.

(** ** Runs that diverge

    The program does not do here what its comments, its documents or its other half
    say. *)

(** ** A claim takes along an output of somebody else

    The address of an input is not compared with its authorization if the input is an
    output for a swap and the transaction a claim, whichever swap the output names and
    whether it is locked or not: Bob's claim also spends an output of Alice's whose
    swap was cancelled. *)
Definition freed_id : SwapId := toy_array 32 99.
Definition freed : Output := mkOutput alice (SwapPending 300 freed_id).
Definition greedy_state : State :=
  {| (state_with [(dep 0, escrow); (dep 1, funds bob 500); (dep 2, freed)]) with
     tip := Some zero_hash; height := Some 3;
     swaps := {[ toy_id := Decodes toy_swap ]};
     locked_swap_outputs := {[ dep 0 := toy_id ]} |}.
Definition greedy_tx : Transaction :=
  {| inputs := [input_of (dep 0) escrow; input_of (dep 1) (funds bob 500); input_of (dep 2) freed];
     proof := tt; outputs := [funds bob 1390]; data := SwapClaim toy_id None None |}.
Definition greedy_body : Body :=
  make_body [] [greedy_tx] [auth_of 2; auth_of 2; auth_of 2].

Example claim_spends_freed_output :
  is_output_locked_to_swap greedy_state (dep 2) = None ∧
  is_ok (prevalidate greedy_state (make_header greedy_state greedy_body) greedy_body) = true ∧
  bool_decide (auth_address (auth_of 2) = bob) = true ∧ bool_decide (address freed = alice) = true.
Proof. split_and!; by_eval. Qed.

(** ** A valid block that cannot be connected

    The claim of an open swap need not name its claimer for the validators, but has to
    for [connect]. *)
Definition anonymous_state : State :=
  {| reserved_state with swaps := {[ toy_id := Decodes (with_state ReadyToClaim offer) ]} |}.
Definition anonymous_header : Header := make_header anonymous_state claim_body.

Example valid_block_does_not_connect :
  is_ok (prevalidate anonymous_state anonymous_header claim_body) = true ∧
  connect_prevalidated anonymous_state anonymous_header claim_body
    (prevalidated anonymous_state anonymous_header claim_body)
  = Err (InvalidTransaction OpenClaimNeedsClaimer).
Proof. split; by_eval. Qed.

(** ** The second reservation of a block wins

    Both acceptances are checked against the state before the block. *)
Definition rival_state : State :=
  {| (state_with [(dep 0, escrow); (dep 1, funds bob 500); (dep 3, funds alice 400)]) with
     tip := Some zero_hash; height := Some 3;
     swaps := {[ toy_id := Decodes offer ]};
     locked_swap_outputs := {[ dep 0 := toy_id ]} |}.
Definition rival_tx : Transaction :=
  {| inputs := [input_of (dep 3) (funds alice 400)]; proof := tt;
     outputs := [funds alice 390]; data := SwapAccept toy_id alice |}.
Definition rival_body : Body := make_body [] [accept_tx; rival_tx] [auth_of 2; auth_of 1].
Definition rival_header : Header := make_header rival_state rival_body.

Example last_reservation_wins :
  is_ok (prevalidate rival_state rival_header rival_body) = true ∧
  is_ok (connect_prevalidated rival_state rival_header rival_body
    (prevalidated rival_state rival_header rival_body)) = true ∧
  bool_decide (claimer <$> get_swap_reservation (connected rival_state rival_header rival_body).1 toy_id
    = Some alice) = true.
Proof. split_and!; by_eval. Qed.

(** ** Undoing a claim locks the claimer's own coin

    Bob paid the fee of his claim from a plain output; after the block is disconnected
    the output is locked to the swap, and he can spend it with a claim only. *)
Definition undone : State :=
  result_or claim_state
    (disconnect_tip (connected claim_state claim_header claim_body).1 claim_header claim_body).

Example undone_claim_locks_fee_coin :
  is_output_locked_to_swap claim_state (dep 1) = None ∧
  is_ok (disconnect_tip (connected claim_state claim_header claim_body).1 claim_header claim_body) = true ∧
  bool_decide (is_output_locked_to_swap undone (dep 1) = Some toy_id) = true.
Proof. split_and!; by_eval. Qed.
