(* ===== verification/L1Scenarios.v ===== *)
(** The theorems about the parent chain's answers at concrete inputs, and two ways in
    which a payment and a swap do not belong together. *)
From Stdlib Require Import Floats.SpecFloat.
From S2P Require Import Prelude Bytes SwapTypes TxTypes Externals Hex F64 ParentRpc.
From S2P Require Import Accumulator BlockTypes Rollback Bundle StateDb SwapRules.
From S2P Require Import Auth Block BlockSpec BlockProps BlockConnect Ledger Value.
From S2P Require Import Commitment Peg Monitor PegProps Expiry SwapMachine L1Props L1Unique.
From S2P Require Import Mempool Toy Scenarios.

#[export] Instance toy_rpc : ExtRpc := {|
  strings_iter := elements;
  configs_iter := map_to_list;
  str_to_lowercase := λ s, s;
|}.
#[export] Instance toy_rpc_laws : ExtRpcLaws toy_rpc.
Proof. by split. Defined.

(** ** Amounts *)

(** The float next to [n] satoshis, as a node prints them and the client reads them. *)
Definition btc (n : Z) : f64 := SFdiv 53 1024 (f64_of_Z n) sats_per_btc.

(** 0.29 coins: neither the float nor its product is exact, and cutting off would lose
    a satoshi. *)
Definition classic : f64 := S754_finite false 5224175567749775 (-54).
Lemma btc_value_exact_witness :
  nearest_btc classic 29000000 ∧ btc_rpc_value_to_sats classic = Some 29000000.
Proof.
  assert (nearest_btc classic 29000000) as H by (vm_compute; repeat split; discriminate).
  split; [exact H|]. apply (btc_value_exact classic); [lia|exact H].
Defined.

(** The amounts of the tests, and the values that are refused. *)
Example btc_values :
  classic = btc 29000000 ∧
  (btc_rpc_value_to_sats <$> [btc 0; btc 1; btc 100000000; btc 5000000000; btc 2100000000000000])
    = [Some 0; Some 1; Some 100000000; Some 5000000000; Some 2100000000000000] ∧
  btc_rpc_value_to_sats S754_nan = None ∧ btc_rpc_value_to_sats (S754_infinity false) = None ∧
  btc_rpc_value_to_sats (SFopp (btc 1000000)) = None ∧
  btc_rpc_value_to_sats (f64_of_Z (2 ^ 70)) = None.
Proof. by split_and!; vm_compute. Qed.

(** ** A node that reports a payment for the open swap *)
Definition node_url : RpcConfig := mkRpcConfig "http://localhost:18443" "u" "p".
Definition pay_txid : string :=
  "00000000000000000000000000000000000000000000000000000000000000aa".
Definition payment_tx (txid : string) (sats confirmations : Z) : TransactionInfo :=
  mkTxInfo txid confirmations (Some 100)
    [mkVout (btc 500) (mkScriptPubKey (Some "bc1qother") None);
     mkVout (btc sats) (mkScriptPubKey None (Some ["bc1q"]))]
    [].
Definition node_with (txs : list TransactionInfo) : RpcNode := {|
  getrawtransaction := λ id,
    match head (filter (λ tx, ti_txid tx = id) txs) with
    | Some tx => Response (Some tx) None
    | None => Response None (Some (-5, "No such mempool or blockchain transaction"))
    end;
  listunspent := λ address,
    Response (Some (if bool_decide (address = "bc1q") then None :: (Some ∘ ti_txid <$> txs) else []))
      None;
  getblockchaininfo := Response (Some (mkChainInfo (Some 120) (Some "regtest"))) None;
|}.
Definition l1_with (txs : list TransactionInfo) : Swap → L1Answer :=
  l1_query (λ _, node_with txs) (λ _, Some node_url).
Definition after_l1 (txs : list TransactionInfo) (st : State) : State :=
  result_or st (process_coinshift_transactions (l1_with txs) 10 zero_hash st).

Definition payments : list TransactionInfo := [payment_tx pay_txid 7000 2].
Definition paid_state : State := after_l1 payments open_state.

Lemma swap_moves_on_payment_witness : ∃ s',
  get_swap paid_state toy_id = Some s' ∧
  outcome (λ _, node_with payments) (λ _, Some node_url) 10 open_swap s' ∧
  state s' = ReadyToClaim.
Proof.
  destruct (swap_moves_on_payment (λ _, node_with payments) (λ _, Some node_url)
    10 zero_hash open_state paid_state toy_id open_swap) as (s' & Hs' & Ho).
  - apply open_state_sound.
  - apply result_Ok. by_eval.
  - by_eval.
  - exists s'. split; [exact Hs'|]. split; [exact Ho|].
    assert (state <$> get_swap paid_state toy_id = Some ReadyToClaim) as H by by_eval.
    rewrite Hs' in H. by injection H.
Defined.

(** A second open swap, of another amount, and its payment. *)
Definition other_txid : string :=
  "00000000000000000000000000000000000000000000000000000000000000bb".
Definition other_id : SwapId := toy_array 32 78.
Definition other_swap : Swap :=
  with_state Pending
    (new_swap other_id L2ToL1 Regtest (Hash32 zero_hash) (Some 1) (Some bob) 600 "bc1q"
       8000 3 (Some 53) (Some alice)).
Definition two_swaps : State :=
  {| claim_state with swaps := {[ toy_id := Decodes open_swap; other_id := Decodes other_swap ]} |}.
Definition both_paid : State :=
  after_l1 [payment_tx pay_txid 7000 2; payment_tx other_txid 8000 2] two_swaps.

Lemma two_swaps_lookup id e : swaps two_swaps !! id = Some e →
  ∃ s, e = Decodes s ∧ swap_id s = id ∧ l1_txid_unset (l1_txid s) = true.
Proof.
  assert (swaps two_swaps = {[ toy_id := Decodes open_swap; other_id := Decodes other_swap ]})
    as -> by done.
  intros [[<- <-]|[_ [<- <-]%lookup_singleton_Some]]%lookup_insert_Some; by eexists.
Qed.

Lemma one_swap_per_payment_witness :
  let s1 := default open_swap (get_swap both_paid toy_id) in
  let s2 := default open_swap (get_swap both_paid other_id) in
  (parent_chain s1, l1_txid s1) ≠ (parent_chain s2, l1_txid s2) ∧
  state s1 = ReadyToClaim ∧ state s2 = ReadyToClaim.
Proof.
  intros s1 s2. split; [|split; by_eval].
  apply (one_swap_per_payment two_swaps both_paid toy_id other_id s1 s2).
  - intros id e He. destruct (two_swaps_lookup id e He) as (s & -> & <- & _). by eexists.
  - intros id s Hg Hset. unfold get_swap in Hg.
    destruct (swaps two_swaps !! id) as [e|] eqn:He; [|done].
    destruct (two_swaps_lookup id e He) as (s' & -> & _ & Hu). injection Hg as <-.
    by rewrite Hu in Hset.
  - apply rtc_once.
    eapply (se_process _ _ (l1_with [payment_tx pay_txid 7000 2; payment_tx other_txid 8000 2])
      10 zero_hash), result_Ok. by_eval.
  - subst s1. assert (is_Some (get_swap both_paid toy_id)) as [s ->]; [|done].
    apply (bool_decide_eq_true _). by_eval.
  - subst s2. assert (is_Some (get_swap both_paid other_id)) as [s ->]; [|done].
    apply (bool_decide_eq_true _). by_eval.
  - intros H. by vm_compute in H.
  - by_eval.
Defined.

(** ** A payment that is named in advance

    Alice's swap is open and somebody has paid for it on the parent chain.  Before the
    payment is seen, Alice has a block create another swap that names the payment's
    transaction, which no rule forbids: the payment is never credited to her first
    swap, which expires and gives her the escrow back. *)
Definition named_txid : list byte :=
  match from_hex_rpc pay_txid with Some (Hash32 h) => arr_bytes h | _ => [] end.
Definition hijack_id : SwapId := from_l2_to_l1 "bc1qhijack" 1 alice (Some alice).
Definition hijack_tx : Transaction :=
  {| inputs := [input_of (dep 2) (funds alice 50)]; proof := tt;
     outputs := [mkOutput alice (SwapPending 10 hijack_id); funds alice 40];
     data := SwapCreate hijack_id Regtest named_txid 1 (Some alice) 10 "bc1qhijack" 1 |}.
Definition hijack_start : State :=
  {| (state_with [(dep 0, escrow); (dep 2, funds alice 50)]) with
     tip := Some zero_hash; height := Some 3;
     swaps := {[ toy_id := Decodes open_swap ]};
     locked_swap_outputs := {[ dep 0 := toy_id ]} |}.
Definition hijack_body : Body := make_body [] [hijack_tx] [auth_of 1].
Definition hijack_header : Header := make_header hijack_start hijack_body.
Definition hijacked : State := (connected hijack_start hijack_header hijack_body).1.

Example named_payment_is_not_credited :
  is_ok (prevalidate hijack_start hijack_header hijack_body) = true ∧
  is_ok (connect_prevalidated hijack_start hijack_header hijack_body
    (prevalidated hijack_start hijack_header hijack_body)) = true ∧
  state <$> get_swap (after_l1 payments hijack_start) toy_id = Some ReadyToClaim ∧
  state <$> get_swap (after_l1 payments hijacked) toy_id = Some Pending ∧
  bool_decide (swaps_by_l1_txid hijacked !! (Regtest, Hash32 (toy_array 32 0xaa)) = Some hijack_id)
  = true.
Proof. split_and!; by_eval. Qed.

(** ** A swap that is confirmed by another payment

    A swap waits for more confirmations of the transaction that it names; the search
    first finds another payment of the same amount to the same address, and its
    confirmations are counted. *)
Definition waiting_swap : Swap :=
  SwapTypes.update_l1_txid (from_bytes named_txid)
    (with_state (WaitingConfirmations 1 6)
       (new_swap toy_id L2ToL1 Regtest (Hash32 zero_hash) (Some 6) (Some bob) 600 "bc1q"
          7000 3 (Some 53) (Some alice))).
Definition waiting_state : State :=
  {| claim_state with swaps := {[ toy_id := Decodes waiting_swap ]} |}.

Example other_payment_confirms :
  let st := after_l1 [payment_tx other_txid 7000 9] waiting_state in
  state <$> get_swap st toy_id = Some ReadyToClaim ∧
  l1_txid <$> get_swap st toy_id = Some (l1_txid waiting_swap) ∧
  from_hex_rpc other_txid ≠ Some (l1_txid waiting_swap).
Proof. split_and!; [by_eval|by_eval|]. intros H. by vm_compute in H. Qed.

(** ** The all-zero transaction

    The call that records a transaction for a pending swap accepts the all-zero
    identifier; monitoring takes the swap for one without a transaction, and sets it back
    from five confirmations to two. *)
Definition patient_swap : Swap :=
  with_state Pending
    (new_swap toy_id L2ToL1 Regtest (Hash32 zero_hash) (Some 6) (Some bob) 600 "bc1q"
       7000 3 (Some 53) (Some alice)).
Definition patient_state : State :=
  {| claim_state with swaps := {[ toy_id := Decodes patient_swap ]} |}.
Definition zero_recorded : State :=
  result_or patient_state
    (StateDb.update_swap_l1_txid toy_id (Hash32 zero_hash) 5 None None zero_hash 3 patient_state).

Example zero_txid_restarts :
  state <$> get_swap zero_recorded toy_id = Some (WaitingConfirmations 5 6) ∧
  state <$> get_swap (after_l1 payments zero_recorded) toy_id
  = Some (WaitingConfirmations 2 6).
Proof. split; by_eval. Qed.
