(* ===== verification/ChainScenarios.v ===== *)
(** The theorems about the archive and about re-organisations at concrete inputs: a
    mainchain with a fork, the sidechain blocks that its blocks commit to, and a
    node that follows one branch and then the other. *)
From S2P Require Import Prelude Bytes SwapTypes TxTypes Externals Hex.
From S2P Require Import Accumulator BlockTypes Rollback Bundle StateDb SwapRules.
From S2P Require Import Auth Block BlockConnect Peg Monitor Mempool Ancestry BlockTree.
From S2P Require Import SideTips Archive ArchiveWrites ArchiveProps Invalidate Bmm.
From S2P Require Import ArchiveIter ArchiveIterProps BetterTip Node NodeProps Reconstruct Toy Scenarios.

(** ** The external functions *)
#[export] Instance toy_work : ExtWork := {|
  work_add := λ x y, (x + y) `mod` 2 ^ 256;
  work_sub := λ x y, (x - y) `mod` 2 ^ 256;
  bincode_work := le_bytes 32;
  bincode_btc_block_hash := arr_bytes;
|}.
#[export] Instance toy_work_laws : WorkLaws toy_work.
Proof. split; intros x y **; simpl; apply Z.mod_small; lia. Defined.

#[export] Instance toy_iter : HashIter := {|
  map_iter := λ V m, map_to_list m;
  set_iter := elements;
|}.
#[export] Instance toy_iter_laws : HashIterLaws toy_iter.
Proof. by split. Defined.

(** ** Building an archive by its operations *)
Inductive ArchiveOp :=
| OpHeader (header : Header)
| OpMainHeader (info : BlockHeaderInfo)
| OpMainInfo (m : BtcBlockHash) (info : BlockInfo)
| OpBody (b : BlockHash) (body : Body)
| OpMainTip (info : BlockHeaderInfo).

Definition run_op (op : ArchiveOp) (ar : Archive) : res ArchiveError Archive :=
  match op with
  | OpHeader header => put_header header ar
  | OpMainHeader info => put_main_header_info info ar
  | OpMainInfo m info => put_main_block_info m info ar
  | OpBody b body => put_body b body ar
  | OpMainTip info =>
      tips ← from_side_tips (connect_mainchain_tip info None (side_tips ar));
      Ok {| ar with side_tips := tips |}
  end.

(** The operation stores something new on something known. *)
Definition op_fresh (op : ArchiveOp) (ar : Archive) : bool :=
  match op with
  | OpHeader header =>
      bool_decide (header_hash header ∉ invalid_blocks ar) &&
      bool_decide (headers ar !! header_hash header = None) &&
      match prev_side_hash header with
      | Some p => default 0 (block_hash_to_height ar !! p) <? u32_MAX
      | None => true
      end
  | OpMainHeader info =>
      bool_decide (info_block_hash info ≠ zero_hash) &&
      bool_decide (main_header_infos ar !! info_block_hash info = None) &&
      (default 0 (main_block_hash_to_height ar !! info_prev_block_hash info) <? u32_MAX)
  | OpMainInfo m _ => match main_block_infos ar !! m with None => true | Some _ => false end
  | OpBody _ _ | OpMainTip _ => true
  end.

Fixpoint run_ops (ops : list ArchiveOp) (ar : Archive) : option Archive :=
  match ops with
  | [] => Some ar
  | op :: ops =>
      if op_fresh op ar then
        match run_op op ar with Ok ar => run_ops ops ar | _ => None end
      else None
  end.

Lemma run_op_step op ar ar' : op_fresh op ar = true → run_op op ar = Ok ar' → archive_step ar ar'.
Proof.
  destruct op as [header|info|m info|b body|info]; simpl; intros Hf H.
  - apply andb_true_iff in Hf as [[Hv Hn]%andb_true_iff Hh]. apply bool_decide_eq_true in Hv, Hn.
    apply (step_header ar header); [|done]. split; [done| |].
    { intros hd Hhd. assert (Some hd = None) as [=] by (rewrite <-Hn; done). }
    intros p h Hp Hph. rewrite Hp, Hph in Hh. by apply Z.ltb_lt.
  - apply andb_true_iff in Hf as [[Hv Hn]%andb_true_iff Hh]. apply bool_decide_eq_true in Hv, Hn.
    apply (step_main_header ar info); [|done]. split; [done| |].
    { intros i Hi. assert (Some i = None) as [=] by (rewrite <-Hn; done). }
    intros h Hph. rewrite Hph in Hh. by apply Z.ltb_lt.
  - apply (step_main_info ar m info); [|done]. intros i Hi. by rewrite Hi in Hf.
  - by apply (step_body ar b body).
  - apply bind_Ok_inv in H as (tips & _ & [= <-]). apply step_side_tips.
Qed.

Lemma run_ops_steps ops ar ar' : run_ops ops ar = Some ar' → rtc archive_step ar ar'.
Proof.
  revert ar; induction ops as [|op ops IH]; intros ar H; simpl in H; [by simplify_eq|].
  destruct (op_fresh op ar) eqn:Hf; [|done]. destruct (run_op op ar) as [ar1| |] eqn:Hr; [|done..].
  eapply rtc_l; [by eapply run_op_step|by apply IH].
Qed.

(** ** Two branches of the mainchain over a common part *)
Definition btc (n : Z) : BtcBlockHash := toy_array 32 n.
Definition main_block (n p h w : Z) : BlockHeaderInfo := mkHeaderInfo (btc n) (btc p) h w.

(** Blocks [1] to [5] in a line, [13] and [14] another branch above [2]; the last block
    of the branch has more work. *)
Definition main_blocks : list BlockHeaderInfo :=
  [main_block 1 0 0 10; main_block 2 1 1 10; main_block 3 2 2 10; main_block 4 3 3 10;
   main_block 5 4 4 10; main_block 13 2 2 30; main_block 14 13 3 30].

Definition side_header (root : Z) (p : option BlockHash) (m : Z) (f : list Hash) : Header :=
  {| merkle_root := toy_array 32 root; prev_side_hash := p; prev_main_hash := btc m;
     roots := f |}.
Definition side0 : Header := side_header 100 None 1 [].
Definition side1 : Header := side_header 101 (Some (header_hash side0)) 2 [].
Definition side2 : Header := side_header 102 (Some (header_hash side1)) 3 [].
Definition side1' : Header := side_header 111 (Some (header_hash side0)) 2 [].
Definition side2' : Header := side_header 112 (Some (header_hash side1')) 13 [].
Definition empty_body : Body := make_body [] [] [].

Definition commits (n : Z) (h : option Header) : ArchiveOp :=
  OpMainInfo (btc n) (mkBlockInfo (header_hash <$> h) []).
Definition chain_ops : list ArchiveOp :=
  (OpMainHeader <$> main_blocks) ++
  [commits 1 None; commits 2 (Some side0); commits 3 (Some side1); commits 4 (Some side2);
   commits 5 None; commits 13 (Some side1'); commits 14 (Some side2');
   OpMainTip (main_block 1 0 0 10); OpMainTip (main_block 2 1 1 10);
   OpMainTip (main_block 3 2 2 10);
   OpHeader side0; OpHeader side1; OpHeader side2; OpHeader side1'; OpHeader side2';
   OpBody (header_hash side0) empty_body; OpBody (header_hash side1) empty_body].
Definition chain_archive : Archive := default archive_new (run_ops chain_ops archive_new).

Lemma chain_archive_steps : rtc archive_step archive_new chain_archive.
Proof.
  apply (run_ops_steps chain_ops).
  assert (match run_ops chain_ops archive_new with Some _ => true | None => false end = true)
    as Hok by by_eval.
  unfold chain_archive. by destruct (run_ops chain_ops archive_new).
Qed.

Lemma chain_archive_wf : archive_wf chain_archive.
Proof.
  apply (archive_steps_inv archive_new); [apply chain_archive_steps|].
  split; [apply archive_new_wf|apply archive_new_sound].
Qed.

Definition sides : list Header := [side0; side1; side2; side1'; side2'].

Lemma side_known i h : sides !! i = Some h →
  headers chain_archive !! header_hash h = Some h.
Proof.
  intros Hh. do 5 (destruct i as [|i]; [injection Hh as <-; by_eval|]). destruct i; discriminate.
Qed.

Lemma chain_side_parent i h p : sides !! i = Some h → prev_side_hash h = Some p →
  side_parent chain_archive (header_hash h) p.
Proof. intros Hh Hp. exists h. split; [by apply (side_known i)|exact Hp]. Qed.

(** ** The archive *)
Lemma archive_reachable_witness : archive_wf chain_archive ∧ bmm_sound chain_archive.
Proof. apply (archive_reachable chain_archive), chain_archive_steps. Defined.

(** Another block on top of [side2], which mainchain block [5] would have to ask for. *)
Definition side3 : Header := side_header 103 (Some (header_hash side2)) 4 [].
Lemma put_header_wf_witness :
  archive_wf (result_or archive_new (put_header side3 chain_archive)).
Proof.
  apply (put_header_wf side3 chain_archive).
  - apply chain_archive_wf.
  - intros hd Hhd. by vm_compute in Hhd.
  - intros p h [= <-] Hh. vm_compute in Hh. by injection Hh as [= <-].
  - apply result_Ok. by_eval.
Defined.

Lemma put_main_header_info_wf_witness :
  archive_wf (result_or archive_new
    (put_main_header_info (main_block 15 14 4 10) chain_archive)).
Proof.
  apply (put_main_header_info_wf (main_block 15 14 4 10) chain_archive).
  - apply chain_archive_wf.
  - by_decide.
  - intros i Hi. by vm_compute in Hi.
  - intros h Hh. vm_compute in Hh. by injection Hh as [= <-].
  - apply result_Ok. by_eval.
Defined.

Lemma get_nth_ancestor_spec_witness :
  ∃ a, get_nth_ancestor chain_archive (header_hash side2) 2 = Ok a ∧
    nsteps (side_parent chain_archive) 2 (header_hash side2) a.
Proof.
  destruct (get_nth_ancestor_spec chain_archive 2) as [Hside _].
  - apply chain_archive_wf.
  - done.
  - apply (Hside (header_hash side2) 2); [by_eval|done].
Defined.

Lemma is_descendant_spec_witness :
  is_descendant chain_archive (header_hash side0) (header_hash side2') = Ok true ∧
  rtc (side_parent chain_archive) (header_hash side2') (header_hash side0).
Proof.
  destruct (is_descendant_spec chain_archive (header_hash side0) (header_hash side2'))
    as (r & Hr & Hiff).
  - apply chain_archive_wf.
  - exists side0. by apply (side_known 0).
  - exists side2'. by apply (side_known 4).
  - assert (is_descendant chain_archive (header_hash side0) (header_hash side2') = Ok true)
      as Ht by by_eval.
    rewrite Ht in Hr. injection Hr as <-. split; [exact Ht|by apply Hiff].
Defined.

Lemma last_common_ancestor_spec_witness :
  last_common side_ops (side_tree chain_archive) (header_hash side2) (header_hash side2')
    (header_hash side0).
Proof.
  assert (last_common_ancestor chain_archive (header_hash side2) (header_hash side2')
    = Ok (Some (header_hash side0))) as Ht by by_eval.
  destruct (last_common_ancestor_spec chain_archive (header_hash side2) (header_hash side2') 2 2)
    as [(c & Hc & Hlast)|[Hn _]].
  - apply chain_archive_wf.
  - by_eval.
  - by_eval.
  - by vm_compute.
  - rewrite Ht in Hc. injection Hc as <-. exact Hlast.
  - rewrite Ht in Hn. discriminate Hn.
Defined.

(** Invalidating [side1] takes [side2] along. *)
Lemma invalidate_block_spec_witness :
  ∃ ar', invalidate_block (header_hash side1) chain_archive = Some ar' ∧
    headers ar' !! header_hash side2 = None.
Proof.
  destruct (invalidate_block_spec (header_hash side1) chain_archive) as (ar' & Har & _ & Hrm).
  - apply chain_archive_wf.
  - exists ar'. split; [exact Har|]. apply Hrm, rtc_once.
    apply (chain_side_parent 2 side2); reflexivity.
Defined.

(** [side2] alone lacks its body. *)
Lemma missing_bodies_spec_witness :
  iter_missing_bodies chain_archive (header_hash side2) 1 = Ok [header_hash side2] ∧
  get_missing_bodies chain_archive (header_hash side2) (Some (header_hash side0))
    = Ok [header_hash side2].
Proof.
  destruct (missing_bodies_spec chain_archive (header_hash side2) 2 1 (Some (header_hash side0)))
    as (l & Hi & Hg & _).
  - apply chain_archive_wf.
  - by_eval.
  - done.
  - split; [by_eval|]. apply rtc_l with (header_hash side1).
    + apply (chain_side_parent 2 side2); reflexivity.
    + apply rtc_once, (chain_side_parent 1 side1); reflexivity.
  - assert (iter_missing_bodies chain_archive (header_hash side2) 1 = Ok [header_hash side2])
      as Ht by by_eval.
    rewrite Ht in Hi. injection Hi as <-. split; [exact Ht|exact Hg].
Defined.

(** Equal heights on two branches of the mainchain: the work decides. *)
Definition tip2 : Tip := mkTip (header_hash side2) (btc 4).
Definition tip2' : Tip := mkTip (header_hash side2') (btc 14).
Lemma main_branches : rtc (main_parent chain_archive) (btc 4) (btc 2) ∧
  rtc (main_parent chain_archive) (btc 14) (btc 2).
Proof.
  split.
  - apply rtc_l with (btc 3); [exists (main_block 4 3 3 10); split; by_eval|].
    apply rtc_once. exists (main_block 3 2 2 10); split; by_eval.
  - apply rtc_l with (btc 13); [exists (main_block 14 13 3 30); split; by_eval|].
    apply rtc_once. exists (main_block 13 2 2 30); split; by_eval.
Qed.
Lemma better_tip_swap_witness : better_tip chain_archive tip2' tip2 = Ok (Some tip2').
Proof.
  destruct (better_tip_swap chain_archive tip2 tip2' 3 3 (btc 2) (Some tip2')) as [H|[_ Hw]].
  - apply chain_archive_wf.
  - apply (map_Forall_lookup (λ (_ : BtcBlockHash) h, 2 * h ≤ u32_MAX)
      (main_block_hash_to_height chain_archive)). by_decide.
  - by_eval.
  - by_eval.
  - apply main_branches.
  - apply main_branches.
  - by_eval.
  - exact H.
  - by vm_compute in Hw.
Defined.

(** ** A node that changes branches *)

(** No L1 node answers. *)
Definition no_l1 : BlockHash → Swap → L1Answer := λ _ _, None.
Definition above (m : Z) (st : State) (b : Body) : Header :=
  {| (make_header st b) with prev_main_hash := btc m |}.

(** The first block is empty; above it, one branch has the block that opens a swap
    and the other an empty one. *)
Definition node_header0 : Header := above 1 toy_start empty_body.
Definition state_after0 : State :=
  (connected toy_start node_header0 empty_body).1.
Definition node_header1 : Header := above 2 state_after0 create_body.
Definition node_header1' : Header := above 2 state_after0 empty_body.

Definition node_ops : list ArchiveOp :=
  (OpMainHeader <$> main_blocks) ++
  [commits 1 None; commits 2 (Some node_header0); commits 3 (Some node_header1);
   commits 4 None; commits 5 None; commits 13 (Some node_header1'); commits 14 None;
   OpMainTip (main_block 1 0 0 10); OpMainTip (main_block 2 1 1 10);
   OpMainTip (main_block 3 2 2 10);
   OpHeader node_header0; OpHeader node_header1; OpHeader node_header1';
   OpBody (header_hash node_header0) empty_body;
   OpBody (header_hash node_header1) create_body;
   OpBody (header_hash node_header1') empty_body].
Definition node_start : Node :=
  mkNode (default archive_new (run_ops node_ops archive_new)) empty_pool toy_start.
Definition node_tip1 : Tip := mkTip (header_hash node_header1) (btc 3).
Definition node_tip1' : Tip := mkTip (header_hash node_header1') (btc 13).
(** After the first branch, and after the second. *)
Definition node_first : Node := (reorg_to_tip no_l1 node_tip1 node_start).1.
Definition node_second : Node := (reorg_to_tip no_l1 node_tip1' node_first).1.

(** The swap of the first branch is gone, and the deposit that it spent is back. *)
Example branch_swap_undone :
  get_swap (node_state node_first) create_id ≠ None ∧
  get_swap (node_state node_second) create_id = None ∧
  utxos (node_state node_second) !! dep 0 = Some (funds alice 1000).
Proof. split_and!; [by vm_compute|by_eval|by_eval]. Qed.

Lemma node_first_reorgs : (reorg_to_tip no_l1 node_tip1' node_first).2 = Ok true.
Proof. by_eval. Qed.

Lemma node_first_tip : current_tip node_first = Ok (Some node_tip1).
Proof.
  rewrite (result_Ok None (current_tip node_first)) by by_eval.
  assert (result_or None (current_tip node_first) = Some node_tip1) as -> by by_decide.
  reflexivity.
Qed.

Lemma reorg_never_worse_witness :
  tip (node_state node_second) = Some (header_hash node_header1') ∧
  is_better (node_archive node_first) (Some node_tip1) node_tip1' = Ok true.
Proof.
  apply (reorg_never_worse no_l1 node_tip1' node_first node_second (Ok true)
    (Some node_tip1)).
  - rewrite <-node_first_reorgs. unfold node_second. apply surjective_pairing.
  - exact node_first_tip.
Defined.

(** The first branch opened a swap with Alice's deposit, which is spent: rebuilding the
    swaps from its blocks fails. *)
Lemma reconstruct_needs_unspent_witness :
  is_ok (reconstruct_swaps_from_blockchain (node_archive node_first) None (node_state node_first))
  = false ∧
  reconstruct_at_start (node_archive node_first) (node_state node_first) = node_state node_first.
Proof.
  destruct (reconstruct_needs_unspent (node_archive node_first) (node_state node_first)
    (header_hash node_header1) create_body create_tx (input_of (dep 0) (funds alice 1000))
    (header_hash node_header1)) as [Hf Hs].
  - by_decide.
  - apply on_line_tip.
  - by_eval.
  - by left.
  - by left.
  - by_eval.
  - split; [|exact Hs].
    destruct (reconstruct_swaps_from_blockchain _ _ _) as [[st n]|e|]; [by destruct (Hf st n)|done..].
Defined.
