(* ===== verification/NetScenarios.v ===== *)
(** The theorems about peers and about the tasks at concrete inputs: a node that only
    knows the mainchain, and a peer with the chain of the other scenarios. *)
From S2P Require Import Prelude Bytes SwapTypes TxTypes Externals Hex.
From S2P Require Import Accumulator BlockTypes Rollback Bundle StateDb SwapRules.
From S2P Require Import Auth Block BlockConnect Peg Monitor Mempool Ancestry BlockTree.
From S2P Require Import SideTips Archive ArchiveWrites ArchiveProps Invalidate Bmm.
From S2P Require Import ArchiveIter ArchiveIterProps BetterTip Node NodeProps MainTask MainTaskProps.
From S2P Require Import PeerMsg Addresses Net Peer NetTask HeaderSync NetProps Submit.
From S2P Require Import Toy Scenarios ChainScenarios.
From S2P Require Import Proto ProtoProps MainFetch.

(** ** The external functions *)
#[export] Instance toy_peer : ExtPeer := {|
  borsh_request := λ r,
    match r with
    | EncodedGetBlock b => x00 :: arr_bytes b
    | EncodedGetHeaders start b => x01 :: arr_bytes b ++ concat (arr_bytes <$> elements start)
    | EncodedPushTransaction _ => [x02]
    end;
  borsh_peer_state := λ s,
    match peer_tip_info s with
    | None => []
    | Some t => arr_bytes (block_hash (info_tip t)) ++ arr_bytes (main_block_hash (info_tip t))
    end;
|}.
#[export] Instance toy_net_funs : ExtNet := {|
  host_parse := λ l, Some (Domain l);
  quinn_connect := λ _ _, None;
  is_unspecified := λ a, match a with V4 ip => bool_decide (ip = ipv4 x00 x00 x00 x00) | V6 _ => false end;
|}.
#[export] Instance toy_net_iter : NetIter := {|
  tips_iter := map_to_list;
  addrs_iter := elements;
  sources_iter := elements;
|}.

#[export] Instance toy_consensus : ExtConsensus := {|
  consensus_serialize := arr_bytes;
  consensus_deserialize := arr_of_slice 32;
  consensus_serialize_tx := λ _, [];
  parse_btc_address := λ l, Some (le_value l);
  network_try_from := λ n, if n =? 1 then Some NetRegtest else None;
|}.
#[export] Instance toy_consensus_laws : ConsensusLaws toy_consensus.
Proof. intros h. apply arr_of_slice_bytes. Defined.
#[export] Existing Instance ToyText.toy_text.
#[export] Existing Instance ToyText.toy_text_laws.

(** ** A node that knows the mainchain, and a connected peer *)
Definition mainchain_ops : list ArchiveOp :=
  (OpMainHeader <$> main_blocks) ++
  [commits 1 None; commits 2 (Some side0); commits 3 (Some side1); commits 4 (Some side2);
   commits 5 None; commits 13 (Some side1'); commits 14 (Some side2');
   OpMainTip (main_block 1 0 0 10); OpMainTip (main_block 2 1 1 10);
   OpMainTip (main_block 3 2 2 10); OpMainTip (main_block 4 3 3 10)].
Definition main_archive : Archive := default archive_new (run_ops mainchain_ops archive_new).

Lemma main_archive_wf : archive_wf main_archive ∧ bmm_sound main_archive.
Proof.
  apply (archive_steps_inv archive_new).
  - apply (run_ops_steps mainchain_ops).
    assert (match run_ops mainchain_ops archive_new with Some _ => true | None => false end = true)
      as Hok by by_eval.
    unfold main_archive. by destruct (run_ops mainchain_ops archive_new).
  - split; [apply archive_new_wf|apply archive_new_sound].
Qed.
Lemma chain_archive_sound : bmm_sound chain_archive.
Proof. apply (archive_reachable chain_archive), chain_archive_steps. Qed.

Lemma main_archive_infos : infos_stored main_archive.
Proof.
  intros b [mi Hb]. eapply (map_check (λ b (_ : BlockHeaderInfo),
    bool_decide (is_Some (main_block_infos main_archive !! b)))) in Hb; [|by_eval].
  by apply bool_decide_eq_true in Hb.
Qed.

Lemma same_mainchain : main_header_infos main_archive = main_header_infos chain_archive.
Proof. by_decide. Qed.

Definition peer_addr : SocketAddr := mkSocketAddr (V4 (ipv4 x7f x00 x00 x01)) 4255.
Definition fresh_task (ar : Archive) : NetTask :=
  mkNetTask (mkNode ar empty_pool toy_start)
    (mkNet {[ peer_addr := new_handle Connected ]} {[ peer_addr ]}) ∅ ∅ [] [] [] [] [].
Definition peer_claim : TipInfo := mkPeerTip 2 tip2 40.
Definition claim_id : Hash := peer_state_id (mkPeerState (Some peer_claim) (mkVersion 0 1 0)).
Definition no_requests : Sender := mkSender ∅ [].

Lemma first_request :
  request_headers main_archive None peer_claim claim_id no_requests
  = Ok ((send_request (GetHeaders (mkGetHeaders ∅ (header_hash side2) (Some 2) (Some claim_id)))
           no_requests).1, Some false).
Proof.
  unfold request_headers.
  assert (headers main_archive !! block_hash (info_tip peer_claim) = None) as -> by by_eval.
  reflexivity.
Qed.

Lemma honest_headers_stored_witness :
  ∃ ar', stored_more main_archive ar' ∧ is_Some (headers ar' !! header_hash side2).
Proof.
  destruct (honest_headers_stored main_archive chain_archive None peer_claim claim_id no_requests
    (send_request (GetHeaders (mkGetHeaders ∅ (header_hash side2) (Some 2) (Some claim_id)))
       no_requests).1 peer_addr (fresh_task main_archive))
    as (r & l & ar' & _ & _ & _ & Hmore & _ & _ & Htip).
  - apply main_archive_wf.
  - apply main_archive_wf.
  - apply main_archive_infos.
  - apply chain_archive_wf.
  - apply chain_archive_sound.
  - intros b hd hd' Hb. exfalso.
    assert (headers main_archive = ∅) as He by by_decide. rewrite He in Hb. discriminate Hb.
  - by_eval.
  - by_eval.
  - intros x mi _ Hx. rewrite same_mainchain. exact Hx.
  - intros b _ Hb. assert (invalid_blocks main_archive = ∅) as He by by_decide.
    rewrite He in Hb. by apply elem_of_empty in Hb.
  - by vm_compute.
  - exact first_request.
  - reflexivity.
  - exists ar'. split; [exact Hmore|exact Htip].
Defined.

Definition peer_state : State := {| toy_start with tip := Some (header_hash side2); height := Some 2 |}.
Definition own_claim : TipInfo :=
  match own_tip_info chain_archive peer_state with Ok (Some t) => t | _ => peer_claim end.
Lemma own_claim_Ok : own_tip_info chain_archive peer_state = Ok (Some own_claim).
Proof.
  unfold own_claim.
  assert (match own_tip_info chain_archive peer_state with Ok (Some _) => true | _ => false end = true)
    as H by by_eval.
  by destruct (own_tip_info chain_archive peer_state) as [[t|]|e|].
Qed.

Lemma honest_claims_pass_witness : check_claims main_archive own_claim = Ok ().
Proof.
  apply (honest_claims_pass main_archive chain_archive peer_state).
  - apply main_archive_wf.
  - apply chain_archive_wf.
  - apply chain_archive_sound.
  - exact own_claim_Ok.
  - assert (match headers chain_archive !! block_hash (info_tip own_claim) with
            | Some _ => true | None => false end = true) as H by by_eval.
    destruct (headers chain_archive !! block_hash (info_tip own_claim)); [by eexists|done].
  - intros x mi _ Hx. rewrite same_mainchain. exact Hx.
  - by_eval.
Defined.

(** ** A peer that is a block behind *)
Definition behind_tip : TipInfo := mkPeerTip 1 (mkTip (header_hash side1) (btc 3)) 30.

Lemma check_peer_tip_better_witness :
  check_peer_tip_and_request_headers chain_archive (Some own_claim) behind_tip claim_id no_requests
  = (best ← better_tip chain_archive (info_tip own_claim) (info_tip behind_tip);
     Ok (no_requests, verdict best (info_tip behind_tip))).
Proof.
  apply (check_peer_tip_better chain_archive peer_state own_claim behind_tip claim_id no_requests side1).
  - exact own_claim_Ok.
  - by_eval.
  - by apply (side_known 1).
  - by_eval.
  - by_eval.
  - by_eval.
  - intros H. by vm_compute in H.
  - intros H. by vm_compute in H.
Defined.

(** The peer answers a request for the headers up to [side1]. *)
Definition honest_answer : Info :=
  InfoResponse (HeadersResponse [side0; side1])
    (GetHeaders (mkGetHeaders ∅ (header_hash side1) (Some 1) (Some claim_id))).

Lemma main_archive_sound : bmm_sound main_archive.
Proof. apply main_archive_wf. Qed.

Lemma peer_info_contained_witness :
  let s := fresh_task main_archive in
  let out := net_turn no_l1 (NmPeerInfo (Some (peer_addr, Some honest_answer))) s in
  out.2 = Ok () ∧ archive_wf (task_archive out.1) ∧ bmm_sound (task_archive out.1).
Proof.
  intros s out.
  destruct (peer_info_contained no_l1 peer_addr honest_answer s out.1 out.2)
    as ([Hr|[_ (hd & body & tip & anc & id & Hi & _)]] & _ & Hwf & Hs & _).
  - apply main_archive_wf.
  - apply main_archive_wf.
  - by vm_compute.
  - by vm_compute.
  - apply surjective_pairing.
  - by split_and!.
  - discriminate Hi.
Defined.

(** The exception: a block that nothing on the line of the requested tip verifies stops
    the task. *)
Definition stray_answer : Info :=
  InfoResponse (BlockResponse side2 empty_body)
    (GetBlock (mkGetBlock (header_hash side2) (Some (mkTip (header_hash side2) (btc 1))) None
       (Some claim_id))).

Example stray_block_panics :
  (net_turn no_l1 (NmPeerInfo (Some (peer_addr, Some stray_answer))) (fresh_task chain_archive)).2
  = Panic.
Proof. by_eval. Qed.

(** ** The mainchain task moves from block [3] to block [5] *)
Lemma chain_complete : mainchain_complete chain_archive.
Proof.
  split.
  - intros b info Hb. apply (bool_decide_eq_true _).
    apply (map_check (λ b (info : BlockHeaderInfo),
      bool_decide (main_block_hash_to_height chain_archive !! b = Some (info_height info)))
      (main_header_infos chain_archive) b info); [by_eval|exact Hb].
  - intros b [mi Hb]. eapply (map_check (λ b (_ : BlockHeaderInfo),
      bool_decide (is_Some (main_block_infos chain_archive !! b)))) in Hb; [|by_eval].
    by apply bool_decide_eq_true in Hb.
  - intros m info c Hm Hc [body Hb].
    eapply (map_check (λ m (info : BlockInfo),
      match bmm_commitment info with
      | Some c =>
          bool_decide (is_Some (headers chain_archive !! c)) &&
          bool_decide (is_Some (try_get_bmm_result chain_archive c m)) ||
          bool_decide (bodies chain_archive !! c = None)
      | None => true
      end)) in Hm; [|by_eval].
    rewrite Hc, Hb in Hm. rewrite (bool_decide_eq_false_2 (Some body = None)), orb_false_r in Hm by done.
    apply andb_true_iff in Hm as [H1%bool_decide_eq_true H2%bool_decide_eq_true].
    split; [exact H1|exact H2].
Qed.

Lemma main_step n i : main_header_infos chain_archive !! btc n = Some i →
  info_prev_block_hash i ≠ zero_hash →
  main_parent chain_archive (btc n) (info_prev_block_hash i).
Proof.
  intros Hi Hz. exists i. split; [exact Hi|]. simpl. unfold main_prev. by rewrite decide_False.
Qed.

Lemma sync_side_tips_spec_witness : ∃ ds cs tips',
  sync_path chain_archive (Some (main_block 3 2 2 10)) (btc 5) ds cs ∧
  sync_side_tips_to_tip (btc 5) chain_archive set_idle
  = (mkProgress SyncState (Z.of_nat (length cs)) (Z.of_nat (length cs)) 4,
     Ok ({| chain_archive with side_tips := tips' |},
         (DisconnectBlock ∘ info_block_hash <$> ds) ++ omap (connect_event chain_archive) cs)) ∧
  mainchain_tip_hash (mainchain_tip tips') = btc 5.
Proof.
  assert (tip_info (mainchain_tip (side_tips chain_archive)) = Some (main_block 3 2 2 10)) as Ht
    by by_decide.
  destruct (sync_side_tips_spec chain_archive (btc 5) (main_block 5 4 4 10) set_idle)
    as (ds & cs & Hpath & [(_ & tips' & Hsync & Htip)|(info & d & _ & _ & Herr)]).
  - apply chain_archive_wf.
  - apply chain_complete.
  - by_decide.
  - by vm_compute.
  - intros t. rewrite Ht. intros [= <-]. split; [unfold stored; by_decide|].
    exists (btc 3). split; [|reflexivity].
    eapply rtc_l; [apply (main_step 5 (main_block 5 4 4 10)); by_decide|].
    apply rtc_once, (main_step 4 (main_block 4 3 3 10)); by_decide.
  - exists ds, cs, tips'. rewrite Ht in Hpath. by split_and!.
  - assert (match (sync_side_tips_to_tip (btc 5) chain_archive set_idle).2 with
            | Ok _ => true | _ => false end = true) as Hok by by_eval.
    by rewrite Herr in Hok.
Defined.

(** ** Time limits *)
Lemma response_read_timeout_bounds_witness :
  0 < 2048 * 11 ≤ u32_MAX * 4096 ∧
  5 ≤ response_read_timeout (2048 * 11) ≤ 5 + 2048 * 11 / MIN_READ_RESPONSE_THROUGHPUT.
Proof.
  apply (response_read_timeout_bounds
    (GetHeaders (mkGetHeaders ∅ (header_hash side1) (Some 10) None)) (2048 * 11)).
  - by_eval.
  - intros g [= <-]. by vm_compute.
  - intros g [= <-]. by vm_compute.
Defined.

(** ** Submitting the first block *)
Definition mined_ops : list ArchiveOp :=
  (OpMainHeader <$> main_blocks) ++
  [commits 1 None; commits 2 (Some node_header0);
   OpMainTip (main_block 1 0 0 10); OpMainTip (main_block 2 1 1 10)].
Definition mined_archive : Archive := default archive_new (run_ops mined_ops archive_new).
Definition mined_task : NetTask := fresh_task mined_archive.
(** The mainchain task has everything already, and nobody proposes bundles. *)
Definition ask_known (m : BtcBlockHash) (ar : Archive) : Archive * res MainTaskError bool := (ar, Ok true).
Definition submitted : NetTask * res SubmitError bool :=
  submit_block ask_known None no_l1 (btc 2) node_header0 empty_body mined_task.

Lemma submit_block_outcome_witness :
  tip (node_state (nt_node submitted.1)) = Some (header_hash node_header0).
Proof.
  assert (submitted.2 = Ok true) as Hok by by_eval.
  destruct (submit_block_outcome ask_known None no_l1 (btc 2) node_header0 empty_body mined_task
    submitted.1 (Ok true)) as [(_ & _ & Hne)|(ar & _ & old & _ & Ht & _)].
  - rewrite <-Hok. apply surjective_pairing.
  - by destruct Hne.
  - exact Ht.
Defined.

(** With another mainchain block the same block is refused. *)
Example uncommitted_block_refused :
  (submit_block ask_known None no_l1 (btc 3) node_header0 empty_body mined_task).2
  = Err (SbNode (ArchiveErr (NoBmmResult (header_hash node_header0)))).
Proof. by_eval. Qed.

(** ** Fetching: the validator serves two blocks more than the archive holds *)
Definition a_deposit : BlockEvent := DepositEvent (Deposit (btc 70) 1) (funds alice 5000).
Definition fetched_line : list (BlockHeaderInfo * BlockInfo) :=
  [(main_block 7 6 6 10, mkBlockInfo None [a_deposit]);
   (main_block 6 5 5 10, mkBlockInfo None [BundleEvent (btc 71) BundleFailed; a_deposit]);
   (main_block 5 4 4 10, mkBlockInfo None []);
   (main_block 4 3 3 10, mkBlockInfo (Some (header_hash side2)) []);
   (main_block 3 2 2 10, mkBlockInfo (Some (header_hash side1)) []);
   (main_block 2 1 1 10, mkBlockInfo (Some (header_hash side0)) []);
   (main_block 1 0 0 10, mkBlockInfo None [])].

(** From the requested block on, as many infos as were asked for. *)
Fixpoint from_block (h : ReverseHex) (l : list (BlockHeaderInfo * BlockInfo)) :
    list (BlockHeaderInfo * BlockInfo) :=
  match l with
  | [] => []
  | x :: below =>
      if decide (reverse_hex (reverse_hex_encode (info_block_hash x.1)) = reverse_hex h) then l
      else from_block h below
  end.
Definition toy_validator : Validator := {|
  srv_block_header_info := λ h max,
    Some (header_info_message <$> take (Z.to_nat (max + 1)) (fst <$> from_block h fetched_line));
  srv_block_info := λ h _ max,
    Some (info_message false <$> take (Z.to_nat (max + 1)) (from_block h fetched_line));
  srv_bmm_h_star_commitment := λ _ _ _, None;
  srv_chain_info := Some 1;
  srv_chain_tip := Some (Some (header_info_message (main_block 7 6 6 10)));
  srv_two_way_peg_data := λ _ _ _, None;
  srv_events := λ _, Some [];
|}.

Lemma chain_synchronised : synchronised chain_archive.
Proof.
  split; [apply chain_archive_wf|apply chain_archive_sound|apply chain_complete|].
  intros c [b Hb]. eapply (map_check (λ c (_ : Body),
    bool_decide (is_Some (headers chain_archive !! c)))) in Hb; [|by_eval].
  by apply bool_decide_eq_true in Hb.
Qed.

Lemma fetched_agrees : agrees chain_archive fetched_line.
Proof.
  assert (Forall (λ x : BlockHeaderInfo * BlockInfo,
    (∀ i, main_header_infos chain_archive !! info_block_hash x.1 = Some i → i = x.1) ∧
    (∀ b, main_block_infos chain_archive !! info_block_hash x.1 = Some b → b = x.2)) fetched_line)
    as H; [|by rewrite Forall_forall in H].
  repeat constructor; intros i Hi; vm_compute in Hi |- *; congruence.
Qed.

Lemma toy_validator_honest : honest_validator false (λ _, toy_validator) fetched_line.
Proof.
  intros n i x Hx. do 7 (destruct i as [|i]; [injection Hx as <-; vm_compute; reflexivity|]).
  by destruct i.
Qed.

Lemma ancestors_fetched_witness :
  ∃ ar' p',
    request_ancestor_infos 7 (validator_node (λ _, toy_validator)) (btc 7) chain_archive set_idle
      = ((ar', p'), Some (Ok true)) ∧
    synchronised ar' ∧ same_side chain_archive ar' ∧
    (∀ y, y ∈ fetched_line → main_header_infos ar' !! info_block_hash y.1 = Some y.1 ∧
      main_block_infos ar' !! info_block_hash y.1 = Some y.2) ∧
    (∀ m i, main_header_infos ar' !! m = Some i ↔
      main_header_infos chain_archive !! m = Some i ∨
      ∃ y, y ∈ fetched_line ∧ m = info_block_hash y.1 ∧ i = y.1).
Proof.
  apply (ancestors_fetched chain_archive false (λ _, toy_validator) fetched_line
    (main_block 7 6 6 10, mkBlockInfo None [a_deposit]) 7 set_idle).
  - apply chain_synchronised.
  - unfold fetched_line, honest_line. split_and!; first [exact I|reflexivity|by_decide].
  - repeat (apply Forall_cons_2; [split; [simpl; lia|repeat constructor; by eexists]|]).
    by apply Forall_nil_2.
  - apply toy_validator_honest.
  - apply fetched_agrees.
  - reflexivity.
  - vm_compute. lia.
  - vm_compute. intros H. discriminate H.
Defined.

(** A deposit to Alice's bare address is credited to her, and one to an address that is
    none to the zero address. *)
Lemma deposit_credited_witness :
  event_of_deposit <$> deposit_try_from
    (deposit_message true (as_base58 alice) (btc 70) 1 9 0)
  = Ok (DepositEvent (Deposit (btc 70) 1) (mkOutput alice (Value 9))).
Proof.
  destruct (deposit_credited true (as_base58 alice) alice (btc 70) 1 9 0) as [H _].
  - split; [by_eval|]. right. split; [|by_eval].
    assert (is_ok (from_deposit_address (as_base58 alice)) = false) as Hno by by_eval.
    intros b Hb. by rewrite Hb in Hno.
  - exact H.
Defined.

Example unreadable_deposit :
  deposit_try_from (deposit_message true [xff] (btc 70) 1 9 0)
  = Ok (mkMainDeposit 0 (btc 70, 1) (mkOutput ALL_ZEROS (Value 9))).
Proof.
  apply unreadable_deposit_credited. intros a [Hu _]. vm_compute in Hu. discriminate Hu.
Qed.
