(* ===== verification/AppScenarios.v ===== *)
(** The theorems about the wallet, the application and the block template at concrete
    inputs: a small wallet whose keys are its indices, over the chain of the other
    scenarios. *)
From S2P Require Import Prelude Bytes SwapTypes TxTypes Externals Hex.
From S2P Require Import Accumulator BlockTypes Rollback Bundle StateDb SwapRules.
From S2P Require Import Auth Block BlockSpec BlockConnect Ledger Commitment Peg Monitor Mempool Ancestry BlockTree.
From S2P Require Import SideTips Archive ArchiveWrites ArchiveIter BetterTip Node.
From S2P Require Import Wallet WalletTx WalletProps WalletCoins Template TemplateProps.
From S2P Require Import TemplateValid App AppSend AppProps AppSwaps.
From S2P Require Import ArchiveProps MainTask Net Peer NetTask Submit Proto ProtoProps Queries Mining.
From S2P Require Import Toy Scenarios ChainScenarios NetScenarios.

(** ** The external functions *)
#[export] Instance toy_wallet_funs : ExtWallet := {|
  Scalar := Z;
  Xpriv := Z;
  SigningKey := Z;
  Rng := ();
  hmac_sha512 := λ _ _, [];
  scalar_from_bytes_mod_order := λ l, le_value l;
  xpriv_new_master := λ s _, s;
  child_index := inr;
  derive_hardened := λ _ i, Some i;
  derive_non_hardened := λ _ i, Some i;
  secret_scalar := λ x, x;
  signing_key_from_scalar := Some;
  verifying_key_of := λ k, k;
  frost_sign := λ r _ _, (tt, r);
  mnemonic_seed := λ s, Some (str_bytes s);
  sort_by_value := merge_sort coin_le;
  coin_iter := λ m, map_to_list m;
|}.

#[export] Instance coin_le_trans : Transitive (@coin_le toy_types).
Proof. intros p q r. unfold coin_le. lia. Qed.
#[export] Instance coin_le_total : Total (@coin_le toy_types).
Proof. intros p q. unfold coin_le. lia. Qed.

#[export] Instance toy_wallet_laws : WalletLaws toy_wallet_funs.
Proof.
  split.
  - intros l. apply merge_sort_Permutation.
  - intros l. apply (StronglySorted_merge_sort coin_le).
  - done.
  - done.
Defined.

#[export] Instance toy_proofs : ProofLaws toy_funs.
Proof.
  split. intros f hs Hin. exists tt. simpl.
  assert (toy_prove f hs = true) as ->; [|done].
  apply Is_true_true, forallb_True, Forall_forall. intros h Hh. apply bool_decide_pack.
  by apply (elem_of_list_to_set (C := gset Hash)), Hin.
Defined.

(** ** Wallets *)
Definition the_seed : list byte := [x2a].
(** The wallet whose address book has one entry. *)
Definition wallet_of (i : Z) (us : list (OutPoint * Output)) : Wallet :=
  {| (index_address (be_u32 i) (toy_array 20 i) (overwrite_seed the_seed wallet_empty)) with
     w_utxos := list_to_map us |}.

Lemma toy_address i : is_u32 i → derive_address_for_index the_seed i = Ok (toy_array 20 i).
Proof.
  intros Hi. change (@Ok WalletError _ (toy_array 20 (le_value (le_bytes 20 i)))
    = Ok (toy_array 20 i)).
  rewrite le_value_bytes; [done|]. unfold is_u32, u32_MAX in Hi.
  change (256 ^ Z.of_nat 20) with (2 ^ 160). lia.
Qed.

Lemma wallet_of_wf i us : is_u32 i → wallet_wf (wallet_of i us).
Proof.
  intros Hi. apply (wallet_wf_coins (index_address _ _ _)).
  eapply index_address_wf; [|done|reflexivity|by apply toy_address].
  split; intros *; simpl; by rewrite lookup_empty.
Qed.

Lemma wallet_of_keys i us : keys_total (wallet_of i us).
Proof. intros j _. by exists j. Qed.

Definition alice_wallet : Wallet := wallet_of 1 [(dep 0, funds alice 1000)].

(** Two new addresses and a coin. *)
Lemma wallet_reachable_witness :
  wallet_wf (put_utxos_w {[ dep 0 := funds (toy_array 20 1) 1000 ]}
    (get_new_address (get_new_address (overwrite_seed the_seed wallet_empty)).1).1).
Proof.
  apply wallet_reachable.
  eapply rtc_l; [apply (ws_overwrite _ the_seed)|].
  eapply rtc_l; [apply ws_new|]. eapply rtc_l; [apply ws_new|].
  eapply rtc_l; [apply ws_put|]. apply rtc_refl.
Defined.

Lemma toy_array_inj i j : is_u32 i → is_u32 j → toy_array 20 i = toy_array 20 j → i = j.
Proof.
  intros Hi Hj Heq. apply (f_equal (λ a : array 20, le_value (arr_bytes a))) in Heq.
  change (le_value (le_bytes 20 i) = le_value (le_bytes 20 j)) in Heq.
  rewrite !le_value_bytes in Heq; [done|..]; unfold is_u32, u32_MAX in *;
    change (256 ^ Z.of_nat 20) with (2 ^ 160); lia.
Qed.

(** After Alice's address at index 1 comes the one at index 2. *)
Lemma new_address_fresh_witness :
  bob ∉ get_addresses alice_wallet ∧
  get_last_address (get_new_address alice_wallet).1 = Some bob.
Proof.
  destruct (new_address_fresh alice_wallet (get_new_address alice_wallet).1 the_seed bob)
    as (Hnew & _ & Hlast & _).
  - apply wallet_of_wf. by vm_compute.
  - reflexivity.
  - intros i j b Hi Hj H1 H2. rewrite toy_address in H1, H2 by done.
    apply toy_array_inj; [done..|]. congruence.
  - intros i b Hl.
    assert (match last_index alice_wallet with
            | Some (i, _) => read_be_u32 i <? u32_MAX | None => true end = true) as H by by_eval.
    rewrite Hl in H. by apply Z.ltb_lt.
  - by_eval.
  - split; [exact Hnew|exact Hlast].
Defined.

#[export] Instance output_wf_dec (o : @Output toy_types) : Decision (output_wf o).
Proof. destruct o as [a []]; unfold output_wf; simpl; unfold is_u64; apply _. Defined.

(** Of three coins the two smaller ones pay 60. *)
Definition three_coins : Wallet :=
  wallet_of 1 [(dep 0, funds alice 1000); (dep 1, funds alice 50); (dep 2, funds alice 20)].
Lemma three_coins_wf : coins_wf three_coins.
Proof. unfold coins_wf. by_decide. Qed.
Lemma select_coins_spec_witness :
  result_or (0, ∅) (select_coins 60 three_coins)
  = (70, list_to_map [(dep 2, funds alice 20); (dep 1, funds alice 50)]) ∧
  match select_coins_with_filter 2000 (λ _, false) three_coins with
  | Err NotEnoughFunds => True
  | _ => False
  end.
Proof.
  split; [by_decide|].
  pose proof (select_coins_spec 2000 (λ _, false) three_coins three_coins_wf) as H. cbv zeta in H.
  assert (match select_coins_with_filter 2000 (λ _, false) three_coins with
          | Err NotEnoughFunds => true | _ => false end = true) as He by by_eval.
  by destruct (select_coins_with_filter 2000 (λ _, false) three_coins) as [|[]|].
Defined.

(** ** Applications *)
Definition app_of (node : Node) (w : Wallet) : App := mkApp node w ∅ ∅.

(** Alice's wallet over the first block of the chain. *)
Definition node_one : Node :=
  (reorg_to_tip no_l1 (mkTip (header_hash node_header0) (btc 2)) node_start).1.
Definition alice_app : App := app_of node_one alice_wallet.

Lemma alice_commits : Commitment.commits (app_state alice_app).
Proof.
  assert (bool_decide (leaves (get_accumulator (app_state alice_app))
    = leaf_set (utxos (app_state alice_app))) = true) as H by by_eval.
  exact (bool_decide_eq_true_1 _ H).
Qed.

Lemma alice_ready : app_ready alice_app.
Proof.
  split.
  - apply wallet_of_wf. by vm_compute.
  - apply wallet_of_keys.
  - apply alice_commits.
  - unfold coins_wf. by_decide.
  - intros o out Ho _.
    change (({[ dep 0 := funds alice 1000 ]} : gmap OutPoint Output) !! o = Some out) in Ho.
    apply lookup_singleton_Some in Ho as [<- <-].
    split_and!; by_eval.
Qed.

Definition no_rng : @Rng toy_types toy_wallet_funs := tt.

(** She pays Bob 300. *)
Definition to_bob : gmap Address Z := {[ bob := 300 ]}.
Lemma alice_pool_free tx : pool_free (node_mempool (app_node alice_app)) tx.
Proof.
  intros o _. assert (mp_spent_utxos (node_mempool (app_node alice_app)) = ∅) as -> by by_eval.
  apply lookup_empty.
Qed.

Lemma transfer_many_sends_witness :
  ∃ tx, (transfer_many no_rng to_bob 7 alice_app).2 = Ok (txid tx) ∧
    sent (app_node alice_app) tx 7 (app_node (transfer_many no_rng to_bob 7 alice_app).1) ∧
    mkOutput bob (Value 300) ∈ outputs tx.
Proof.
  destruct (transfer_many_sends no_rng to_bob 7 alice_app)
    as (total & sel & tx & _ & _ & Hpays & Hout).
  - apply alice_ready.
  - by_decide.
  - intros a v Hv. unfold to_bob in Hv. apply lookup_singleton_Some in Hv as [_ <-]. done.
  - done.
  - split; by vm_compute.
  - unfold sent_or_refused in Hout. rewrite decide_True in Hout by apply alice_pool_free.
    destruct Hout as [Hr Hs]. exists tx. split; [exact Hr|]. split; [exact Hs|].
    apply Hpays. by_eval.
Defined.

(** Alice has two coins.  She pays from the smaller one, and cannot pay again before the
    block: the same coin is selected, although the other one is free. *)
Definition two_coins : list (OutPoint * Output) :=
  [(dep 0, funds alice 1000); (dep 1, funds alice 500)].
Definition two_coin_app : App :=
  app_of (mkNode archive_new empty_pool
    {| (state_with two_coins) with tip := Some zero_hash; height := Some 3 |})
    (wallet_of 1 two_coins).
Definition paid_once : App := (transfer_many no_rng to_bob 7 two_coin_app).1.
Example pending_coin_selected :
  is_ok (transfer_many no_rng to_bob 7 two_coin_app).2 = true ∧
  match (transfer_many no_rng to_bob 7 paid_once).2 with
  | Err (AppNode (MemPoolErr MemPoolDoubleSpent)) => True
  | _ => False
  end ∧
  mp_spent_utxos (node_mempool (app_node paid_once)) !! dep 0 = None ∧
  w_utxos (app_wallet paid_once) !! dep 0 = Some (funds alice 1000) ∧
  utxos (app_state paid_once) !! dep 0 = Some (funds alice 1000).
Proof. split_and!; by_eval. Qed.

(** She offers 600 for 7000 on the first chain, to whom it may concern. *)
Lemma create_swap_sends_witness :
  let out := create_swap no_rng Regtest "bc1q" 7000 None 600 None 7 alice_app in
  ∃ tx sender, out.2 = Ok (created_id "bc1q" 7000 None sender, txid tx) ∧
    sent (app_node alice_app) tx 7 (app_node out.1).
Proof.
  intros out.
  destruct (create_swap_sends Regtest "bc1q" 7000 None 600 None no_rng 7 alice_app)
    as (total & sel & tx & sender & _ & _ & _ & _ & Hout & _).
  - apply alice_ready.
  - done.
  - done.
  - split; by vm_compute.
  - intros sender. unfold get_swap.
    assert (swaps (app_state alice_app) = ∅) as -> by by_eval. by rewrite lookup_empty.
  - unfold sent_or_refused in Hout. rewrite decide_True in Hout by apply alice_pool_free.
    exists tx, sender. exact Hout.
Defined.







(** ** A template *)

(** The block that holds Alice's payment. *)
Definition paid_app : App := (transfer_many no_rng to_bob 7 alice_app).1.
Definition paid_template : BlockTemplate :=
  result_or (mkBlockTemplate 0 node_header0 empty_body 0)
    (build_block_template (btc 3) None None paid_app).2.

Lemma paid_template_built : is_ok (build_block_template (btc 3) None None paid_app).2 = true.
Proof. by_eval. Qed.

Example paid_template_pays :
  tp_fees paid_template = 7 ∧ length (transactions (tp_body paid_template)) = 1%nat.
Proof. split; by_eval. Qed.

#[export] Instance outpoint_wf_dec o : Decision (outpoint_wf o).
Proof. destruct o; simpl; unfold is_u32; apply _. Defined.

Lemma forallb_elem {A} (f : A → bool) l x : forallb f l = true → x ∈ l → f x = true.
Proof.
  intros H%Is_true_true_2%forallb_True Hx. rewrite Forall_forall in H.
  by apply Is_true_true_1, H.
Qed.

Lemma paid_utxos_wf o out : utxos (node_state (app_node paid_app)) !! o = Some out → outpoint_wf o.
Proof.
  apply (map_Forall_lookup (λ o _, outpoint_wf o) (utxos (node_state (app_node paid_app)))).
  apply map_Forall_to_list, Forall_forall.
  assert (bool_decide (Forall (λ p : OutPoint * Output, outpoint_wf p.1)
    (map_to_list (utxos (node_state (app_node paid_app))))) = true) as H by by_eval.
  apply bool_decide_eq_true_1 in H. rewrite Forall_forall in H. intros [o' out'] Hin.
  exact (H _ Hin).
Qed.

Lemma paid_pool_ready : pool_ready (node_state (app_node paid_app)) (node_mempool (app_node paid_app)).
Proof.
  assert (forallb (λ at_ : AuthorizedTransaction,
      bool_decide (NoDup (inputs (authorized_tx at_)))
      && bool_decide (forest_verify (get_accumulator (node_state (app_node paid_app)))
           (proof (authorized_tx at_)) (inputs (authorized_tx at_)).*2 = Some true))
    (take_all (node_mempool (app_node paid_app))) = true) as H by by_eval.
  intros at_ Hin. pose proof (forallb_elem _ _ _ H Hin) as Hx. cbv beta in Hx.
  apply andb_true_iff in Hx as [H1 H2].
  split; [exact (bool_decide_eq_true_1 _ H1)|exact (bool_decide_eq_true_1 _ H2)].
Qed.

Lemma paid_block_fresh :
  block_fresh (node_state (app_node paid_app)) (tp_header paid_template) (tp_body paid_template).
Proof.
  split.
  - assert (bool_decide (NoDup (block_created (tp_header paid_template)
      (tp_body paid_template)).*1) = true) as H by by_eval.
    exact (bool_decide_eq_true_1 _ H).
  - intros o Ho.
    assert (forallb (λ o, bool_decide (utxos (node_state (app_node paid_app)) !! o = None)
        && bool_decide (stxos (node_state (app_node paid_app)) !! o = None))
      (block_created (tp_header paid_template) (tp_body paid_template)).*1 = true) as H by by_eval.
    pose proof (forallb_elem _ _ _ H Ho) as Hx. cbv beta in Hx.
    apply andb_true_iff in Hx as [H1 H2].
    split; [exact (bool_decide_eq_true_1 _ H1)|exact (bool_decide_eq_true_1 _ H2)].
Qed.

Lemma paid_collision_free : collision_free
  (universe (node_state (app_node paid_app)) (tp_header paid_template) (tp_body paid_template)).
Proof.
  assert (bool_decide (collision_free (universe (node_state (app_node paid_app)) (tp_header paid_template)
    (tp_body paid_template))) = true) as H by by_eval.
  exact (bool_decide_eq_true_1 _ H).
Qed.

Lemma paid_template_Ok : build_block_template (btc 3) None None paid_app
  = ((build_block_template (btc 3) None None paid_app).1, Ok paid_template).
Proof.
  pose proof (result_Ok (mkBlockTemplate 0 node_header0 empty_body 0) _ paid_template_built) as H.
  fold paid_template in H. revert H. generalize paid_template. intros tpl H.
  destruct (build_block_template (btc 3) None None paid_app) as [app' r]. simpl in *. by rewrite H.
Qed.

Lemma template_accepted_witness :
  ∃ pre, prevalidate (node_state (app_node paid_app)) (tp_header paid_template) (tp_body paid_template)
    = Ok pre ∧ total_fees pre = 7 ∧ pre_coinbase_value pre = 7.
Proof.
  pose proof (template_accepted (btc 3) None None paid_app
    (build_block_template (btc 3) None None paid_app).1 paid_template paid_template_Ok) as H.
  cbv zeta in H. destruct paid_template_pays as [Hfees _]. rewrite Hfees in H.
  assert (is_ok (prevalidate (node_state (app_node paid_app)) (tp_header paid_template)
    (tp_body paid_template)) = true) as Hok by by_eval.
  apply prevalidated_Ok in Hok. rewrite Hok in H. eexists. split; [exact Hok|]. apply H.
  - by_eval.
  - apply paid_pool_ready.
  - by_eval.
  - apply paid_utxos_wf.
  - apply paid_block_fresh.
  - apply paid_collision_free.
Defined.

(** ** Mining the template

    Above the block 3 of the mainchain comes another one, with the template's request. *)
Definition template_main : BlockHeaderInfo := main_block 20 3 3 10.
Definition ask_main20 (m : BtcBlockHash) (ar : Archive) : Archive * res MainTaskError bool :=
  match run_ops [OpMainHeader template_main; commits 20 (Some (tp_header paid_template));
                 OpMainTip template_main] ar with
  | Some ar => (ar, Ok true)
  | None => (ar, Ok false)
  end.
Definition validator_with (tip : BlockHeaderInfo) (l : list GenEvent) : Validator := {|
  srv_block_header_info := λ _ _, None;
  srv_block_info := λ _ _ _, None;
  srv_bmm_h_star_commitment := λ _ _ _, None;
  srv_chain_info := Some 1;
  srv_chain_tip := Some (Some (header_info_message tip));
  srv_two_way_peg_data := λ _ _ _, None;
  srv_events := λ _, Some ((λ e, Some (Some (Some e))) <$> l);
|}.
Definition toy_services : MineServices := {|
  ms_tip := validator_with (main_block 3 2 2 10) [];
  ms_template_ask := ask_known;
  ms_wallet := λ _, Some (Some (Consensus (consensus_hex_encode (btc 90))));
  ms_events := validator_with template_main
    [GenConnectBlock (Some (header_info_message template_main))
       (Some (block_info_message false (mkBlockInfo (Some (header_hash (tp_header paid_template))) [])))];
  ms_submit_ask := ask_main20;
  ms_propose := None;
  ms_l1 := no_l1;
|}.
Definition paid_running : Running :=
  mkRunning (set_node (app_node paid_app) (fresh_task archive_new)) (app_wallet paid_app)
    (app_utxos paid_app) (created_pending_swap_ids paid_app) (Some (mkMiner None))
    (mkTransaction [] tt [] RegularTx).
Definition mining_run : Running * res MineError () := mine toy_services None paid_running.

(** The payment is mined: the whole way from the template to the tip. *)
Example mining_runs : mining_run.2 = Ok () ∧
  tip (node_state (running_node mining_run.1)) = Some (header_hash (tp_header paid_template)) ∧
  height (node_state (running_node mining_run.1)) = Some 1.
Proof. split_and!; by_eval. Qed.

Lemma paid_wallet_wf : wallet_wf (app_wallet paid_app).
Proof. apply transfer_many_book, wallet_of_wf. by vm_compute. Qed.

Lemma mine_outcome_witness :
  mined toy_services None paid_running mining_run.1 (Ok ()) ∧
  wallet_wf (rn_wallet mining_run.1) ∧
  rn_miner mining_run.1 = Some (mkMiner None) ∧ own_proof_fresh mining_run.1.
Proof.
  destruct (mine_outcome toy_services None paid_running mining_run.1 (Ok ())) as (Hm & Hw & Hok).
  - destruct mining_runs as [<- _]. apply surjective_pairing.
  - destruct (Hok eq_refl) as (_ & Hp & Hmn). split_and!; [exact Hm| |exact Hmn|exact Hp].
    apply Hw. change (rn_wallet paid_running) with (app_wallet paid_app).
    apply paid_wallet_wf.
Defined.

(** ** Queries: a node on the branch of [side2'], with a block of the other one *)
Definition other_state : State :=
  {| toy_start with tip := Some (header_hash side2'); height := Some 2 |}.
Definition other_app : App := app_of (mkNode chain_archive empty_pool other_state) alice_wallet.

Lemma other_on_chain : on_chain chain_archive other_state (header_hash side1') 1.
Proof.
  exists (header_hash side2'). split_and!; [done| |by_eval].
  apply rtc_once. by apply (chain_side_parent 4 side2').
Qed.

Lemma chain_queries_witness :
  get_block_hash 1 other_app = Ok (Some (header_hash side1')) ∧
  get_block_index (header_hash side1) other_app
    = Err (AppNode (NotInCurrentChain (header_hash side1))).
Proof.
  destruct (chain_queries other_app) as (Hhash & _ & Hindex).
  - apply chain_archive_wf.
  - exists (header_hash side2'), 2. split_and!; by_eval.
  - destruct (Hhash 1) as (o & Ho & Hiff); [lia|].
    assert (o = Some (header_hash side1')) as -> by apply Hiff, other_on_chain.
    split; [exact Ho|].
    destruct (Hindex (header_hash side1) 1 empty_body) as [_ Hoff]; [by_eval..|].
    apply Hoff. intros Hon%Hiff. assert (side1' ≠ side1) as Hne by (intros H; by vm_compute in H).
    by vm_compute in Hon.
Defined.
